(* ===== verification/_CoqProject ===== *)
-Q . S2P
Prelude.v
CppStd.v
Common.v
Sqlite.v
Store.v
LogFacts.v
SqliteStore.v
SqliteStoreProofs.v
StoreProperties.v
Raft.v
RaftProofs.v
RaftProperties.v
Metrics.v
Shard.v
ShardFacts.v
ShardInv.v
Election.v
Replication.v
ShardOps.v
Restart.v
ShardSystem.v
ShardSpec.v
ShardTheorems.v
ShardProperties.v
ShardRecovery.v
Cluster.v
ClusterSpec.v
ClusterProperties.v
ClusterRestart.v
Resilience.v
ResilienceProperties.v
Gateway.v
GatewayProperties.v
HttpServer.v
HttpFacts.v
HttpProofs.v
HttpProperties.v
Config.v
ConfigProperties.v
Listener.v
ListenerProofs.v
ListenerProperties.v
MainProgram.v
Threads.v
ThreadsProofs.v
ThreadsSafe.v
ThreadsHandle.v
ThreadsPool.v
ThreadsProperties.v
WellTyped.v
StorageFaults.v
StorageErrors.v
StorageContained.v
