(* ===== verification/Prelude.v ===== *)
(** * A verification of the fault-tolerant sharded key-value store

    The program is an HTTP server for a key-value store.  A request passes
    through [HttpServer] (sockets, parsing), [Gateway] (authentication, rate
    limit, circuit breaker, retries, routing), [Cluster] (the shard of a key) and
    [Shard] (a group of replicas with a leader); each [RaftReplica] keeps its log,
    its key-value table and its term, vote and indices in a [SqliteStore], an
    SQLite database of its own.  All parts count events in one [Metrics].

    ** How the program is modelled

    A method is a function on the state of its object, in the state-and-exception
    monad [M] of this file; the state survives an exception, and undefined
    behaviour is a value of its own that no [catch] intercepts.  Methods that the
    source runs under a mutex are one step; where threads interleave ([Listener],
    [Threads]) they are machines of atomic steps that a schedule, an explicit list,
    puts in order; a [shared_ptr] to a replica is its
    position in the vector, so that aliases are kept.  Integers are in [Z] with
    the conversions, wrap-arounds and range checks of the source written out,
    strings are byte strings that may contain NUL, doubles are IEEE binary64.
    What is not in the repository is a parameter: SQLite (class [Sqlite], with
    its documented behaviour in [SqliteSpec], and the assumptions that it has the
    memory to copy parameters and columns, [SqliteMemory], or that it fails none of
    the store's calls, [SqliteReliable]), the readings of the steady clock,
    the segments a socket delivers and accepts, the environment, [std::stod].

    ** Files and the sources they model

    - [Prelude]: the monad, loops, simulation of two programs, shared lemmas.
    - [CppStd]: the C++ standard library on strings and integers (to_string,
      stoll, stoull, c_str, narrowing conversions).
    - [Common]: include/kv/common.hpp.
    - [Sqlite], [Store], [SqliteStore], [SqliteStoreProofs], [StoreProperties]:
      src/sqlite_store.cpp.  [Store] is the interface the replicas use, a list of
      operations with the contract [StoreSpec]; [SqliteStoreSpec] shows that the
      SQLite store fulfils it, and the theorems about replicas, shards, cluster,
      gateway and server are proved against the contract.  The tables themselves
      are a store too ([TablesStore]), on which the proofs compute.
    - [LogFacts], [Raft], [RaftProofs], [RaftProperties]: src/raft.cpp.
    - [Metrics]: src/metrics.cpp.
    - [Shard], [ShardFacts], [ShardInv], [Election], [Replication], [ShardOps],
      [Restart], [ShardSystem], [ShardSpec], [ShardTheorems], [ShardProperties],
      [ShardRecovery]: class Shard of src/cluster.cpp.  [ShardSystem] adds restarts
      of the process on the files it left; [ShardSpec] is the abstract shard.
    - [Cluster], [ClusterSpec], [ClusterProperties], [ClusterRestart]: class
      Cluster of src/cluster.cpp; the last adds restarts of the process.
    - [Resilience], [ResilienceProperties]: TokenBucket and CircuitBreaker of
      src/gateway.cpp; [Gateway], [GatewayProperties]: class Gateway.
    - [HttpServer], [HttpFacts], [HttpProofs], [HttpProperties]:
      handle_client of src/http_server.cpp and what it calls.
    - [Config], [ConfigProperties]: the configuration of src/main.cpp.
    - [Listener], [ListenerProofs], [ListenerProperties]: run, stop and the
      destructor of src/http_server.cpp and the signal handler of src/main.cpp, as
      interleaved machines; [MainProgram]: main of src/main.cpp.
    - [Threads]: the requests of src/gateway.cpp as threads of atomic steps.
      [ThreadsProofs] shows that they are the code of [Gateway], [ThreadsSafe] what
      one step preserves, [ThreadsHandle] what a whole thread does, [ThreadsPool]
      what a pool of threads does; [ThreadsProperties] and [WellTyped] hold the
      theorems.
    - [StorageFaults], [StorageErrors], [StorageContained]: the same code on a
      SQLite that fails calls.  [FaultyStore] is the contract that is left then,
      the SQLite store fulfils it, and replicas, shards, cluster, gateway and server
      are followed through all their methods against it.

    ** What the theorems show

    - A shard refines one map (C1): for any history of commands, replica failures
      and recoveries, elections and restarts.  The invariant behind it ([inv] in
      [ShardInv]) says that the acknowledged commands are the committed log, that
      every replica holds and has applied a prefix of it, and that a majority and
      the leader hold all of it.  From it follow agreement of the replicas (C2),
      durability of acknowledged writes (C3), availability of writes and reads
      (C4, C26), service again after the recovery of any majority (C37),
      invisibility of refused writes (C5), election safety (C6), leader
      completeness (C7), absence of integer overflow (C8) and recovery of a
      replica from its file (C9).
    - A replica merges entries that do not conflict with committed ones as the
      protocol asks (C10), votes once per term for candidates that have an id (C11), transfers its state by snapshots (C12); a snapshot however makes it
      forget its vote (C27).
    - The SQLite store keeps what it is given (texts up to their first NUL) and
      [clear_all] is atomic, also when SQLite fails to prepare or to execute a
      statement (C13 to C15).
    - A cluster refines independent shards (C16) and keeps acknowledged writes of
      keys that are not written again (C17), over any number of restarts of the process.
    - The circuit breaker decides by a rule on the last outcomes (C18); a token
      bucket lets its burst through and no more (C19).
    - The gateway answers every request, with one of nine statuses (C20), rejects the unauthorised before
      touching anything (C21) and backs off exponentially (C22); JSON escaping
      can be undone (C23).
    - The server understands a request however it is segmented, with header names in
      any case and any white space around values (C24), and answers every connection
      (C25).
    - A configuration takes its members from the command line, the environment
      and the defaults in this order (C28), and an accepted one starts (C29);
      [main] ends with the status and the text that say how it went (C33).
    - The listening socket is closed once and on every path (C30).  An [accept]
      waits until a connection comes or the socket is shut down, and a stop of a
      serving process ends it all the same (C31); but nothing waits for the threads
      of the connections, from any state in which the server serves (C32).
    - A request thread that is not interrupted is [Gateway.handle] (lemma
      [handle_alone]).  However threads interleave, their calls of the cluster are a
      run of the abstract cluster, and what the calls answer determines status and
      body of the responses ([answered_by], C34); every thread finishes (C35), a read
      that starts after an acknowledged write returns its value (C36), and counters,
      breakers and buckets keep their types (C38), the last also on a store that
      fails.
    - Whatever statements SQLite fails and wherever, as long as it has the memory for
      parameters and columns, the server answers and closes every connection and
      nothing is undefined (C39).

    ** Bounds

    Histories have fewer than [2^63 - 1] operations, so that terms and log indices
    fit an [int64_t], and values are at most [2^31 - 1] bytes, because their size
    is converted to [int] when they are bound (the gateway admits a mebibyte).
    The gateway's theorems assume at most 59 retries: beyond, the pause
    [20 * (1ULL << attempt)] overflows (C39 allows 64, up to where the shift is
    defined).  The burst theorem is for whole bursts up
    to 256, checked by computation.  The loops of the server carry the number of
    bytes still to come as fuel; C24 and C25 show that it is never used up.  All
    other recursion is structural.  A request thread ends within
    [5 * (retries + 1) + shards + 16] of its own steps (C35); after a stop the main
    thread needs seven once the calls of [stop] have made their four (C31).

    ** What is not modelled

    Crashes in the middle of an operation, the creation of directories, and the
    clock value of a log line (an argument of [log_line]).  In [Threads] a section
    under a mutex and a call of a shard, with the counters it increments and the
    lines it logs, are one step each; so is every access of [Listener] to the
    members [server_fd_] and [running_]: that unsynchronised accesses to a
    plain [int] are undefined behaviour in C++ is outside the model.  A call that
    SQLite fails is covered for the store (C13 to C15), for the types of the shared
    state (C38) and for the behaviour of the server (C39), except for a lack of
    memory in binding parameters and reading columns, which the store does not
    notice; what the replicas agree
    on after such a failure is not, the theorems about it assume [StoreSpec].

    ** Still to come

    Which data survive a store that fails in the middle of an operation, the token
    bucket for fractional rates, the framing of responses and the exposition text
    of the metrics. *)

(** ** Prelude: effects, loops and shared lemmas *)

From stdpp Require Export base gmap sets list strings fin_maps sorting.
From Stdlib Require Export ZArith Lia.

#[global] Set Default Goal Selector "!".
#[global] Set Warnings "-clear-no-such-hyp".

(** ** Exceptions

    The C++ code reports failures by throwing standard exceptions, all of
    which carry a message.  [UndefinedBehaviour] stands for the executions
    the C++ standard gives no meaning to (dereferencing a null or past-the-end
    pointer); the theorems show that it is never reached. *)

Inductive exn :=
  | RuntimeError (what : string)
  | InvalidArgument (what : string)
  | OutOfRange (what : string)
  | UndefinedBehaviour (what : string).

#[export] Instance exn_eq_dec : EqDecision exn.
Proof. solve_decision. Defined.

(** The message [std::exception::what()] returns. *)
Definition exn_what (e : exn) : string :=
  match e with
  | RuntimeError w | InvalidArgument w | OutOfRange w | UndefinedBehaviour w => w
  end.

Inductive result (A : Type) :=
  | Ok (a : A)
  | Throw (e : exn).
Arguments Ok {A} _.
Arguments Throw {A} _.

(** ** The state-and-exception monad

    A C++ function that mutates an object of type [S] and returns an [A] or
    throws is a function from the object to the object after the call and the
    result.  The state survives an exception: the mutations made before the
    throw stay. *)

Definition M (S A : Type) : Type := S -> S * result A.

#[export] Instance M_ret {S} : MRet (M S) := fun A a s => (s, Ok a).
#[export] Instance M_bind {S} : MBind (M S) := fun A B f m s =>
  match m s with
  | (s', Ok a) => f a s'
  | (s', Throw e) => (s', Throw e)
  end.
#[export] Instance M_fmap {S} : FMap (M S) := fun A B f m s =>
  match m s with
  | (s', Ok a) => (s', Ok (f a))
  | (s', Throw e) => (s', Throw e)
  end.

Definition throw {S A} (e : exn) : M S A := fun s => (s, Throw e).
Definition lift {S A} (r : result A) : M S A := fun s => (s, r).
Definition gets {S A} (f : S -> A) : M S A := fun s => (s, Ok (f s)).
Definition modify {S} (f : S -> S) : M S unit := fun s => (f s, Ok tt).

(** [try { m } catch (...) { h }]; undefined behaviour is not an exception and
    cannot be caught. *)
Definition catch {S A} (m : M S A) (h : exn -> M S A) : M S A := fun s =>
  match m s with
  | (s', Ok a) => (s', Ok a)
  | (s', Throw (UndefinedBehaviour w)) => (s', Throw (UndefinedBehaviour w))
  | (s', Throw e) => h e s'
  end.

(** Running a method on a part of a larger object. *)
Definition zoom {S T A} (get : S -> T) (put : T -> S -> S) (m : M T A) : M S A :=
  fun s => let '(t, r) := m (get s) in (put t s, r).

(** [if (c) { m }] *)
Definition when {S} (c : bool) (m : M S unit) : M S unit :=
  if c then m else mret tt.

Declare Scope cpp_scope.
Delimit Scope cpp_scope with cpp.
(** [⟨ m , s ⟩ ⇓ ⟨ a , s' ⟩]: called on [s], [m] returns [a] and leaves [s']. *)
Notation "⟨ m , s ⟩ ⇓ ⟨ a , s' ⟩" := (m s = (s', Ok a))
  (at level 0, m at level 69, s at level 69, a at level 69, s' at level 69) : cpp_scope.
Open Scope cpp_scope.

(** ** Loops *)

(** [for (const auto& x : l) body(x);] *)
Fixpoint for_each {S A} (l : list A) (body : A -> M S unit) : M S unit :=
  match l with
  | [] => mret tt
  | x :: l' => body x ;; for_each l' body
  end.

(** A range loop that carries local variables [b]. *)
Fixpoint for_fold {S A B} (l : list A) (b : B) (body : B -> A -> M S B) : M S B :=
  match l with
  | [] => mret b
  | x :: l' => b' ← body b x; for_fold l' b' body
  end.

Inductive loop_control := Continue | Break.

(** [for (i = lo; i <= hi; ++i) body(i);] where [body] may [break]. The
    number of iterations is [hi - lo + 1], so the loop always terminates. *)
Fixpoint for_loop {S} (n : nat) (i : Z) (body : Z -> M S loop_control) : M S unit :=
  match n with
  | O => mret tt
  | S n' => c ← body i;
            match c with
            | Continue => for_loop n' (i + 1)%Z body
            | Break => mret tt
            end
  end.

Definition for_range {S} (lo hi : Z) (body : Z -> M S loop_control) : M S unit :=
  for_loop (Z.to_nat (hi - lo + 1)) lo body.

(** [std::max_element]: the first element that no other element exceeds.  The
    comparison reads mutable objects, so it runs in the monad. *)
Fixpoint max_element_from {S A} (less : A -> A -> M S bool) (best : A) (l : list A) : M S A :=
  match l with
  | [] => mret best
  | x :: l' => b ← less best x;
               max_element_from less (if b : bool then x else best) l'
  end.

(** Dereferencing the iterator of an empty range is undefined. *)
Definition max_element {S A} (less : A -> A -> M S bool) (l : list A) : M S A :=
  match l with
  | [] => throw (UndefinedBehaviour "dereference of the end iterator")
  | x :: l' => max_element_from less x l'
  end.

(** ** Equations of the monad

    The rewriting database [mon] evaluates monadic programs on a known state. *)

Create Rewrite HintDb mon.

Section equations.
Context {S : Type}.
Implicit Type s : S.

Lemma mret_run {A} (a : A) s : (mret a : M S A) s = (s, Ok a).
Proof. done. Qed.

Lemma bind_ok {A B} (m : M S A) (f : A -> M S B) s s' a :
  m s = (s', Ok a) -> (m ≫= f) s = f a s'.
Proof. unfold mbind, M_bind. by intros ->. Qed.

Lemma bind_throw {A B} (m : M S A) (f : A -> M S B) s s' e :
  m s = (s', Throw e) -> (m ≫= f) s = (s', Throw e).
Proof. unfold mbind, M_bind. by intros ->. Qed.

Lemma bind_ret_l {A B} (a : A) (f : A -> M S B) s : ((mret a : M S A) ≫= f) s = f a s.
Proof. done. Qed.

Lemma bind_assoc {A B C} (m : M S A) (f : A -> M S B) (g : B -> M S C) s :
  ((m ≫= f) ≫= g) s = (m ≫= (fun a => f a ≫= g)) s.
Proof. unfold mbind, M_bind. by destruct (m s) as [s' [a|e]]. Qed.

Lemma bind_inv_ok {A B} (m : M S A) (f : A -> M S B) s s2 b :
  (m ≫= f) s = (s2, Ok b) -> exists s1 a, m s = (s1, Ok a) /\ f a s1 = (s2, Ok b).
Proof. unfold mbind, M_bind. destruct (m s) as [s1 [a|e]]; naive_solver. Qed.

Lemma bind_gets {A B} (f : S -> A) (k : A -> M S B) s : (gets f ≫= k) s = k (f s) s.
Proof. done. Qed.
Lemma bind_modify {B} (f : S -> S) (k : unit -> M S B) s : (modify f ≫= k) s = k tt (f s).
Proof. done. Qed.
Lemma gets_run {A} (f : S -> A) s : gets f s = (s, Ok (f s)).
Proof. done. Qed.
Lemma modify_run (f : S -> S) s : modify f s = (f s, Ok tt).
Proof. done. Qed.

(** A loop whose body acts on the state as [f] acts as the fold of [f]; the
    invariant [P] says where the body does so. *)
Lemma for_each_fold {A} (P : S -> Prop) (f : S -> A -> S) (l : list A) body s :
  P s ->
  (forall s x, P s -> x ∈ l -> body x s = (f s x, Ok tt) /\ P (f s x)) ->
  for_each l body s = (foldl f s l, Ok tt) /\ P (foldl f s l).
Proof.
  intros HP Hb. revert s HP Hb. induction l as [|x l IH]; intros s HP Hb; [done|].
  destruct (Hb s x HP) as [Hx HP']; [by left|].
  cbn [for_each foldl]. rewrite (bind_ok _ _ _ _ _ Hx).
  apply IH; [done|]. intros s' y Hs' Hy. apply Hb; [done|by right].
Qed.

Lemma for_each_inv {A} (P : S -> Prop) (l : list A) body s :
  P s ->
  (forall s x, P s -> x ∈ l -> exists s', body x s = (s', Ok tt) /\ P s') ->
  exists s', for_each l body s = (s', Ok tt) /\ P s'.
Proof.
  intros HP Hb. revert s HP Hb. induction l as [|x l IH]; intros s HP Hb; [by eexists|].
  destruct (Hb s x HP) as (s' & Hx & HP'); [by left|].
  cbn [for_each]. rewrite (bind_ok _ _ _ _ _ Hx).
  apply IH; [done|]. intros s2 y Hs2 Hy. apply Hb; [done|by right].
Qed.
End equations.

#[export] Hint Rewrite @mret_run @bind_ret_l @gets_run @modify_run : mon.

(** ** Simulation

    [sim R m1 m2]: run on [R]-related states, [m1] and [m2] return the same
    result (value or exception) and leave [R]-related states.  The rules below
    follow the structure of the programs, so that a method written against an
    interface is simulated as soon as the interface's operations are. *)

Definition sim {S T A} (R : S -> T -> Prop) (m1 : M S A) (m2 : M T A) : Prop :=
  forall s t, R s t ->
  exists s' t' r, m1 s = (s', r) /\ m2 t = (t', r) /\ R s' t'.

Create HintDb sim discriminated.

Lemma sim_eq {S A} (m : M S A) : sim eq m m.
Proof. intros s ? <-. destruct (m s) as [s' r] eqn:E. exists s', s', r. naive_solver. Qed.

Section simulation.
Context {S T : Type} (R : S -> T -> Prop).

Lemma sim_ret {A} (a : A) : sim R (mret a) (mret a).
Proof. intros s t HR. by exists s, t, (Ok a). Qed.

Lemma sim_throw {A} (e : exn) : sim R (A := A) (throw e) (throw e).
Proof. intros s t HR. by exists s, t, (Throw e). Qed.

Lemma sim_bind {A B} (m1 : M S A) (m2 : M T A) (f1 : A -> M S B) (f2 : A -> M T B) :
  sim R m1 m2 -> (forall a, sim R (f1 a) (f2 a)) -> sim R (m1 ≫= f1) (m2 ≫= f2).
Proof.
  intros Hm Hf s t HR. destruct (Hm s t HR) as (s1 & t1 & r & E1 & E2 & HR1).
  unfold mbind, M_bind. rewrite E1, E2. destruct r as [a|e]; [by apply Hf|].
  by exists s1, t1, (Throw e).
Qed.

Lemma sim_gets {A} (f1 : S -> A) (f2 : T -> A) :
  (forall s t, R s t -> f1 s = f2 t) -> sim R (gets f1) (gets f2).
Proof.
  intros Hf s t HR. exists s, t, (Ok (f1 s)). unfold gets. by rewrite (Hf s t HR).
Qed.

Lemma sim_modify (f1 : S -> S) (f2 : T -> T) :
  (forall s t, R s t -> R (f1 s) (f2 t)) -> sim R (modify f1) (modify f2).
Proof. intros Hf s t HR. exists (f1 s), (f2 t), (Ok tt). auto. Qed.

Lemma sim_when (c : bool) (m1 : M S unit) (m2 : M T unit) :
  sim R m1 m2 -> sim R (when c m1) (when c m2).
Proof. intros Hm. destruct c; [exact Hm|apply sim_ret]. Qed.

Lemma sim_for_each {A} (l : list A) b1 b2 :
  (forall x, sim R (b1 x) (b2 x)) -> sim R (for_each l b1) (for_each l b2).
Proof. intros Hb. induction l; simpl; [apply sim_ret|by apply sim_bind]. Qed.

Lemma sim_for_fold {A B} (l : list A) (b : B) b1 b2 :
  (forall b x, sim R (b1 b x) (b2 b x)) -> sim R (for_fold l b b1) (for_fold l b b2).
Proof.
  intros Hb. revert b. induction l; intros b; simpl; [apply sim_ret|by apply sim_bind].
Qed.

Lemma sim_for_loop n i b1 b2 :
  (forall i, sim R (b1 i) (b2 i)) -> sim R (for_loop n i b1) (for_loop n i b2).
Proof.
  intros Hb. revert i. induction n as [|n IH]; intros i; simpl; [apply sim_ret|].
  apply sim_bind; [done|]. intros []; [apply IH|apply sim_ret].
Qed.

Lemma sim_for_range lo hi b1 b2 :
  (forall i, sim R (b1 i) (b2 i)) -> sim R (for_range lo hi b1) (for_range lo hi b2).
Proof. apply sim_for_loop. Qed.

Lemma sim_max_element {A} (less1 less2 : A -> A -> M _ bool) (l : list A) :
  (forall x y, sim R (less1 x y) (less2 x y)) ->
  sim R (max_element less1 l) (max_element less2 l).
Proof.
  intros Hl. destruct l as [|x l]; simpl; [apply sim_throw|].
  revert x. induction l as [|y l IH]; intros x; simpl; [apply sim_ret|].
  apply sim_bind; auto.
Qed.

Lemma sim_catch {A} (m1 : M S A) (m2 : M T A) h1 h2 :
  sim R m1 m2 -> (forall e, sim R (h1 e) (h2 e)) -> sim R (catch m1 h1) (catch m2 h2).
Proof.
  intros Hm Hh s t HR. destruct (Hm s t HR) as (s1 & t1 & r & E1 & E2 & HR1).
  unfold catch. rewrite E1, E2. destruct r as [a|[w|w|w|w]]; try by apply Hh.
  all: by eexists s1, t1, _.
Qed.

Lemma sim_run {A} (m1 : M S A) (m2 : M T A) s t t' r :
  sim R m1 m2 -> R s t -> m2 t = (t', r) -> exists s', m1 s = (s', r) /\ R s' t'.
Proof.
  intros Hm HR E. destruct (Hm s t HR) as (s1 & t1 & r1 & E1 & E2 & HR1).
  rewrite E in E2. simplify_eq. eauto.
Qed.
End simulation.

(** Running a simulated method on a part of two related larger objects. *)
Lemma sim_zoom {S T S' T' A} (R : S -> T -> Prop) (R' : S' -> T' -> Prop)
    (g1 : S' -> S) (p1 : S -> S' -> S') (g2 : T' -> T) (p2 : T -> T' -> T')
    (m1 : M S A) (m2 : M T A) :
  (forall s t, R' s t -> R (g1 s) (g2 t)) ->
  (forall s t s' t', R' s t -> R s' t' -> R' (p1 s' s) (p2 t' t)) ->
  sim R m1 m2 -> sim R' (zoom g1 p1 m1) (zoom g2 p2 m2).
Proof.
  intros Hg Hp Hm s t HR.
  destruct (Hm _ _ (Hg _ _ HR)) as (s1 & t1 & r & E1 & E2 & HR1).
  unfold zoom. rewrite E1, E2. eauto 10.
Qed.

#[export] Hint Resolve sim_ret sim_throw sim_bind sim_when sim_for_each sim_for_fold
  sim_for_range sim_max_element sim_catch : sim.

(** [solve_sim] walks two programs of the same shape, case-splitting on the
    matches they share; [eauto] closes the calls from the database [sim]. *)
Ltac sim_step :=
  match goal with
  | |- forall _, _ => intro
  | |- sim _ (match ?x with _ => _ end) _ => destruct x
  | |- sim _ (mret _) _ => apply sim_ret
  | |- sim _ (throw _) _ => apply sim_throw
  | |- sim _ (_ ≫= _) _ => apply sim_bind
  | |- sim _ (when _ _) _ => apply sim_when
  | |- sim _ (for_each _ _) _ => apply sim_for_each
  | |- sim _ (for_fold _ _ _) _ => apply sim_for_fold
  | |- sim _ (for_range _ _ _) _ => apply sim_for_range
  | |- sim _ (max_element _ _) _ => apply sim_max_element
  | |- sim _ (catch _ _) _ => apply sim_catch
  | |- sim _ _ _ => solve [eauto 3 with sim nocore]
  end.
Ltac solve_sim := repeat sim_step.

(** ** Lists *)

Lemma filter_all {A} (P : A -> Prop) `{forall x, Decision (P x)} (l : list A) :
  (forall x, x ∈ l -> P x) -> filter P l = l.
Proof.
  induction l as [|x l IH]; intros HP; [done|].
  rewrite filter_cons_True by (apply HP; by left). f_equal. apply IH.
  intros y Hy. apply HP. by right.
Qed.
