(* ===== verification/CppStd.v ===== *)
(** * What the program uses of the C++ standard library on strings and integers

    [std::string] is [string]: a sequence of bytes that may contain NUL.
    Integers are in [Z]; the functions that convert check the width of their
    C++ result type. *)

From S2P Require Import Prelude.
From Stdlib Require Import Ascii.

#[local] Open Scope Z_scope.

(** ** Widths *)

Definition int64_min : Z := - 2 ^ 63.
Definition int64_max : Z := 2 ^ 63 - 1.
Definition uint64_mod : Z := 2 ^ 64.

Definition int_max : Z := 2 ^ 31 - 1.

Definition in_int64 (z : Z) : Prop := int64_min <= z <= int64_max.
Definition in_uint64 (z : Z) : Prop := 0 <= z < uint64_mod.

(** Unsigned arithmetic wraps. *)
Definition wrap_u64 (z : Z) : Z := z mod uint64_mod.

(** [static_cast<int>(n)] is the number congruent to [n] that fits an [int]. *)
Definition to_int (n : Z) : Z := (n + 2 ^ 31) mod 2 ^ 32 - 2 ^ 31.

(** ** Characters *)

(** [static_cast<unsigned char>(c)] as a number. *)
Definition uchar (c : ascii) : Z := Z.of_N (N_of_ascii c).

Definition nul : ascii := "000"%char.

(** [std::isdigit] and [std::isspace] in the C locale. *)
Definition isdigit (c : ascii) : bool := (48 <=? uchar c) && (uchar c <=? 57).
Definition isspace (c : ascii) : bool :=
  (uchar c =? 32) || ((9 <=? uchar c) && (uchar c <=? 13)).

(** [std::tolower] in the C locale. *)
Definition tolower (c : ascii) : ascii :=
  if (65 <=? uchar c) && (uchar c <=? 90)
  then ascii_of_N (N_of_ascii c + 32) else c.

(** ** Strings *)

(** [s.c_str()] read back as a C string: the bytes before the first NUL. *)
Fixpoint c_str (s : string) : string :=
  match s with
  | EmptyString => EmptyString
  | String c s' => if Ascii.eqb c nul then EmptyString else String c (c_str s')
  end.

Definition nul_free (s : string) : Prop := c_str s = s.

(** [s.size()] *)
Fixpoint ssize (s : string) : Z :=
  match s with EmptyString => 0 | String _ s' => 1 + ssize s' end.

(** The first [n] bytes at [data], as [std::string(data, n)] copies them. *)
Fixpoint copy_bytes (n : nat) (data : string) : string :=
  match n, data with
  | S n', String c s => String c (copy_bytes n' s)
  | _, _ => EmptyString
  end.

Fixpoint drop_spaces (s : string) : string :=
  match s with
  | String c s' => if isspace c then drop_spaces s' else s
  | EmptyString => EmptyString
  end.

(** ** Decimal conversion *)

Definition digit (d : Z) : ascii := ascii_of_N (Z.to_N (48 + d)).

(** The decimal digits of a non-negative [n], in front of [acc]; one unit of
    fuel per digit, and [n] has at most [log2 n + 1] of them. *)
Fixpoint digits_fuel (fuel : nat) (n : Z) (acc : string) : string :=
  match fuel with
  | O => acc
  | S f => let acc' := String (digit (n mod 10)) acc in
           if n <? 10 then acc' else digits_fuel f (n / 10) acc'
  end.

Definition digits (n : Z) : string := digits_fuel (S (Z.to_nat (Z.log2 n))) n "".

(** [std::to_string] *)
Definition to_string (z : Z) : string :=
  if z <? 0 then String "-" (digits (- z)) else digits z.

(** The value of the longest prefix of digits, continuing from [v], and the
    number of digits read. *)
Fixpoint read_digits (s : string) (v : Z) (n : nat) : Z * nat :=
  match s with
  | String c s' => if isdigit c then read_digits s' (10 * v + (uchar c - 48)) (S n) else (v, n)
  | EmptyString => (v, n)
  end.

(** What [strtoll] and [strtoull] read in base 10: leading white space, an
    optional sign, then digits; the rest of the string is ignored.  [None]
    when there is no digit, otherwise the sign and the magnitude. *)
Definition strto (s : string) : option (bool * Z) :=
  let s := drop_spaces s in
  let '(neg, s) := match s with
                   | String "-" s' => (true, s')
                   | String "+" s' => (false, s')
                   | _ => (false, s)
                   end in
  match read_digits s 0 0 with
  | (_, O) => None
  | (v, _) => Some (neg, v)
  end.

(** [std::stoll] *)
Definition stoll (s : string) : result Z :=
  match strto s with
  | None => Throw (InvalidArgument "stoll")
  | Some (neg, v) =>
      let z := if neg : bool then - v else v in
      if (int64_min <=? z) && (z <=? int64_max) then Ok z
      else Throw (OutOfRange "stoll")
  end.

(** [std::stoull] (and [std::stoul], [unsigned long] having 64 bits): the
    magnitude must fit in 64 bits, and a minus sign negates it modulo 2^64. *)
Definition stou (name : string) (s : string) : result Z :=
  match strto s with
  | None => Throw (InvalidArgument name)
  | Some (neg, v) =>
      if v <? uint64_mod
      then Ok (if neg : bool then wrap_u64 (- v) else v)
      else Throw (OutOfRange name)
  end.
Definition stoull : string -> result Z := stou "stoull".
Definition stoul : string -> result Z := stou "stoul".

(** ** Lemmas *)

Lemma uchar_bound c : 0 <= uchar c < 256.
Proof. unfold uchar. pose proof (N_ascii_bounded c). lia. Qed.

Lemma app_nil_str t : "" +:+ t = t.
Proof. done. Qed.
Lemma app_cons_str c s t : String c s +:+ t = String c (s +:+ t).
Proof. done. Qed.
Lemma app_nil_r_str s : s +:+ "" = s.
Proof. induction s as [|c s IH]; [done|]. by rewrite app_cons_str, IH. Qed.
Lemma app_assoc_str (s t u : string) : (s +:+ t) +:+ u = s +:+ (t +:+ u).
Proof. induction s as [|c s IH]; [done|]. by rewrite !app_cons_str, IH. Qed.

Lemma ssize_nonneg s : 0 <= ssize s.
Proof. induction s; cbn [ssize]; lia. Qed.

Lemma ssize_app s t : ssize (s +:+ t) = ssize s + ssize t.
Proof.
  induction s as [|c s IH]; [done|]. rewrite app_cons_str. cbn [ssize]. lia.
Qed.

Lemma copy_bytes_full s : copy_bytes (Z.to_nat (ssize s)) s = s.
Proof.
  induction s as [|c s IH]; [done|]. cbn [ssize].
  rewrite Z.add_comm, Z2Nat.inj_add, Nat.add_comm by (pose proof (ssize_nonneg s); lia).
  simpl. by rewrite IH.
Qed.

(** Strings whose size is an [int]. *)
Definition fits_int (s : string) : Prop := ssize s <= int_max.

Lemma to_int_fits s : fits_int s -> to_int (ssize s) = ssize s.
Proof.
  unfold fits_int, to_int, int_max. intros Hs. pose proof (ssize_nonneg s).
  rewrite Z.mod_small; lia.
Qed.

Lemma c_str_nul_free s : nul_free (c_str s).
Proof.
  unfold nul_free. induction s as [|c s IH]; simpl; [done|].
  destruct (Ascii.eqb c nul) eqn:E; simpl; [done|]. by rewrite E, IH.
Qed.

Lemma digit_uchar d : 0 <= d < 10 -> uchar (digit d) = 48 + d.
Proof. intros. unfold uchar, digit. rewrite N_ascii_embedding; lia. Qed.

Lemma digit_isdigit d : 0 <= d < 10 -> isdigit (digit d) = true.
Proof. intros H. unfold isdigit. rewrite digit_uchar by done. lia. Qed.

(** A string of digits only; what [digits] produces. *)
Fixpoint all_digits (s : string) : bool :=
  match s with EmptyString => true | String c s' => isdigit c && all_digits s' end.

Lemma digits_fuel_all fuel n acc :
  0 <= n -> all_digits acc = true -> all_digits (digits_fuel fuel n acc) = true.
Proof.
  revert n acc. induction fuel as [|f IH]; intros n acc Hn Ha; simpl; [done|].
  assert (isdigit (digit (n mod 10)) = true)
    by (apply digit_isdigit, Z.mod_pos_bound; lia).
  destruct (n <? 10); [|apply IH; [apply Z.div_pos; lia|]]; simpl; by apply andb_true_iff.
Qed.

Lemma digits_all n : 0 <= n -> all_digits (digits n) = true.
Proof. intros. by apply digits_fuel_all. Qed.

(** Reading the digits of [n] in front of [acc] shifts what is read by one
    decimal place per digit and adds [n]. *)
Lemma read_digits_fuel fuel n acc v k :
  0 <= n < 2 ^ Z.of_nat fuel -> (0 < fuel)%nat ->
  exists m : nat,
    (0 < m)%nat /\
    read_digits (digits_fuel fuel n acc) v k = read_digits acc (v * 10 ^ Z.of_nat m + n) (m + k).
Proof.
  revert n acc. induction fuel as [|f IH]; intros n acc Hn Hf; [lia|].
  cbn [digits_fuel].
  assert (Hd : 0 <= n mod 10 < 10) by (apply Z.mod_pos_bound; lia).
  destruct (n <? 10) eqn:E.
  - exists 1%nat. split; [lia|]. cbn [read_digits].
    rewrite digit_isdigit, digit_uchar by done.
    rewrite Z.mod_small by lia. f_equal; lia.
  - apply Z.ltb_ge in E.
    assert (Hf' : (0 < f)%nat).
    { destruct f; [|lia]. change (2 ^ Z.of_nat 1) with 2 in Hn. lia. }
    assert (Hdiv : 0 <= n / 10 < 2 ^ Z.of_nat f).
    { split; [apply Z.div_pos; lia|]. apply Z.div_lt_upper_bound; [lia|].
      rewrite Nat2Z.inj_succ, Z.pow_succ_r in Hn by lia. lia. }
    destruct (IH (n / 10) (String (digit (n mod 10)) acc) Hdiv Hf') as (m & Hm & ->).
    exists (S m). split; [lia|]. cbn [read_digits].
    rewrite digit_isdigit, digit_uchar by done.
    rewrite Nat2Z.inj_succ, Z.pow_succ_r by lia.
    replace (S (m + k)) with (S m + k)%nat by lia. f_equal.
    pose proof (Z.div_mod n 10). lia.
Qed.

Lemma read_digits_digits n : 0 <= n -> exists m, read_digits (digits n) 0 0 = (n, S m).
Proof.
  intros Hn. unfold digits.
  destruct (read_digits_fuel (S (Z.to_nat (Z.log2 n))) n "" 0 0) as (m & Hm & ->); [|lia|].
  - split; [done|]. rewrite Nat2Z.inj_succ, Z2Nat.id by apply Z.log2_nonneg.
    destruct (decide (n = 0)) as [->|]; [done|]. apply Z.log2_spec. lia.
  - exists (pred m). cbn [read_digits]. f_equal; lia.
Qed.

Lemma digits_head n : 0 <= n -> exists c s, digits n = String c s /\ isdigit c = true.
Proof.
  intros Hn. pose proof (digits_all n Hn) as Ha.
  destruct (read_digits_digits n Hn) as [m Hm].
  destruct (digits n) as [|c s]; [done|]. exists c, s. simpl in Ha.
  by apply andb_true_iff in Ha as [-> _].
Qed.

Lemma isdigit_cases c : isdigit c = true ->
  isspace c = false /\ c <> "-"%char /\ c <> "+"%char.
Proof.
  unfold isdigit, isspace. intros H%andb_true_iff. split_and!.
  - lia.
  - intros ->. by destruct H.
  - intros ->. by destruct H.
Qed.

(** The magnitude and sign read back from a printed number are the number's. *)
Lemma strto_to_string z : strto (to_string z) = Some (z <? 0, Z.abs z).
Proof.
  unfold strto, to_string. destruct (z <? 0) eqn:E.
  - destruct (read_digits_digits (- z)) as [m Hm]; [lia|].
    cbn [drop_spaces]. change (isspace "-") with false. cbn match.
    rewrite Hm. repeat f_equal. lia.
  - destruct (read_digits_digits z) as [m Hm]; [lia|].
    destruct (digits_head z) as (c & s & Hs & Hc); [lia|]. rewrite Hs in *.
    apply isdigit_cases in Hc as (Hsp & Hm1 & Hp1).
    cbn [drop_spaces]. rewrite Hsp.
    replace (match c with "+"%char => (false, s) | "-"%char => (true, s)
             | _ => (false, String c s) end) with (false, String c s)
      by (repeat (case_match; try done)).
    rewrite Hm. repeat f_equal. lia.
Qed.

Lemma stoll_to_string z : in_int64 z -> stoll (to_string z) = Ok z.
Proof.
  unfold in_int64, stoll. intros H. rewrite strto_to_string.
  replace (if z <? 0 then - Z.abs z else Z.abs z) with z by (destruct (z <? 0) eqn:?; lia).
  by rewrite (proj2 (andb_true_iff _ _)) by lia.
Qed.

Lemma stoull_to_string z : in_uint64 z -> stoull (to_string z) = Ok z.
Proof.
  unfold in_uint64, stoull, stou. intros H. rewrite strto_to_string.
  rewrite (proj2 (Z.ltb_lt _ _)) by lia.
  rewrite (proj2 (Z.ltb_ge _ _)) by lia. f_equal; lia.
Qed.

#[export] Instance to_string_inj : Inj (=) (=) to_string.
Proof.
  intros x y H. pose proof (strto_to_string x) as Hx. rewrite H, strto_to_string in Hx.
  simplify_eq. destruct (x <? 0) eqn:?, (y <? 0) eqn:?; lia.
Qed.

Lemma all_digits_nul_free s : all_digits s = true -> nul_free s.
Proof.
  unfold nul_free. induction s as [|c s IH]; simpl; [done|].
  intros [Hc Hs]%andb_true_iff. destruct (Ascii.eqb_spec c nul) as [->|]; [done|].
  by rewrite IH.
Qed.

(** Printed numbers contain no NUL, so they survive [c_str()]. *)
Lemma to_string_nul_free z : c_str (to_string z) = to_string z.
Proof.
  unfold to_string. destruct (z <? 0) eqn:E.
  - simpl. f_equal. apply all_digits_nul_free, digits_all. lia.
  - apply all_digits_nul_free, digits_all. lia.
Qed.

Lemma string_app_inj_l (a b c : string) : a +:+ b = a +:+ c -> b = c.
Proof. induction a; [done|]. rewrite !app_cons_str. intros [=]. auto. Qed.

Lemma c_str_app_nul_free a b : nul_free a -> c_str (a +:+ b) = a +:+ c_str b.
Proof.
  unfold nul_free. induction a as [|ch a IH]; [done|]. rewrite !app_cons_str. simpl.
  destruct (Ascii.eqb ch nul) eqn:E; [done|]. intros [= H]. by rewrite IH.
Qed.

Lemma read_digits_nonneg s v n : 0 <= v -> 0 <= (read_digits s v n).1.
Proof.
  revert v n. induction s as [|c s IH]; intros v n Hv; [done|]. cbn [read_digits].
  destruct (isdigit c) eqn:E; [|done]. apply IH. unfold isdigit in E. lia.
Qed.

Lemma strto_nonneg s neg v : strto s = Some (neg, v) -> 0 <= v.
Proof.
  unfold strto. cbv zeta.
  match goal with |- (let '(_, _) := ?m in _) = _ -> _ => destruct m as [neg' s'] end. pose proof (read_digits_nonneg s' 0 0 ltac:(lia)) as H.
  destruct (read_digits s' 0 0) as [v' [|k]]; [done|]. by intros [= _ <-].
Qed.

Lemma stou_nonneg name s z : stou name s = Ok z -> 0 <= z.
Proof.
  unfold stou. destruct (strto s) as [[neg v]|] eqn:E; [|done]. destruct (v <? uint64_mod); [|done].
  intros [= <-]. destruct neg; [apply Z.mod_pos_bound; done|]. by apply strto_nonneg in E.
Qed.

Lemma stou_throw name s e :
  stou name s = Throw e -> e = InvalidArgument name \/ e = OutOfRange name.
Proof.
  unfold stou. destruct (strto s) as [[neg v]|]; [destruct (v <? uint64_mod)|]; [done|..];
    intros [= <-]; auto.
Qed.

Lemma stou_range name s z : stou name s = Ok z -> in_uint64 z.
Proof.
  intros Hz. pose proof (stou_nonneg _ _ _ Hz) as Hn. revert Hz. unfold stou, in_uint64.
  destruct (strto s) as [[neg v]|]; [|done]. destruct (v <? uint64_mod) eqn:E; [|done].
  intros [= <-]. destruct neg; [by apply Z.mod_pos_bound|]. lia.
Qed.
