(* ===== verification/Common.v ===== *)
(** * include/kv/common.hpp: hashing, escaping, path splitting, results *)

From S2P Require Import Prelude CppStd.
From Stdlib Require Import Ascii.

#[local] Open Scope Z_scope.

(** ** FNV-1a *)

Definition fnv_offset : Z := 1469598103934665603.
Definition fnv_prime : Z := 1099511628211.

(** One round: [hash ^= c; hash *= prime;] on [std::uint64_t]. *)
Definition fnv_round (hash : Z) (c : ascii) : Z :=
  wrap_u64 (Z.lxor hash (uchar c) * fnv_prime).

Fixpoint fnv_loop (value : string) (hash : Z) : Z :=
  match value with
  | EmptyString => hash
  | String c value' => fnv_loop value' (fnv_round hash c)
  end.

Definition fnv1a_64 (value : string) : Z := fnv_loop value fnv_offset.

(** ** JSON escaping *)

Definition dquote : ascii := "034".
Definition backslash : ascii := "092".

(** One lower-case hexadecimal digit, as [std::hex] prints it. *)
Definition hex_digit (d : Z) : ascii :=
  if d <? 10 then ascii_of_N (Z.to_N (48 + d)) else ascii_of_N (Z.to_N (87 + d)).

(** [std::hex << std::setw(4) << std::setfill('0')] on a number below 256. *)
Definition hex4 (n : Z) : string :=
  String "0" (String "0" (String (hex_digit (n / 16)) (String (hex_digit (n mod 16)) ""))).

Definition esc (c : ascii) : string := String backslash (String c "").

(** The body of the loop of [json_escape]. *)
Definition json_escape_char (c : ascii) : string :=
  if decide (c = dquote) then esc dquote
  else if decide (c = backslash) then esc backslash
  else if decide (c = "008"%char) then esc "b"
  else if decide (c = "012"%char) then esc "f"
  else if decide (c = "010"%char) then esc "n"
  else if decide (c = "013"%char) then esc "r"
  else if decide (c = "009"%char) then esc "t"
  else if uchar c <? 32 then esc "u" +:+ hex4 (uchar c)
  else String c "".

Fixpoint json_escape (value : string) : string :=
  match value with
  | EmptyString => ""
  | String c value' => json_escape_char c +:+ json_escape value'
  end.

(** ** Paths *)

(** [parts.push_back(current)] unless it is empty. *)
Definition push_part (parts : list string) (current : string) : list string :=
  match current with EmptyString => parts | _ => parts ++ [current] end.

Fixpoint split_path_loop (path : string) (parts : list string) (current : string) : list string :=
  match path with
  | EmptyString => push_part parts current
  | String c path' =>
      if decide (c = "/"%char) then split_path_loop path' (push_part parts current) ""
      else if decide (c = "?"%char) then push_part parts current
      else split_path_loop path' parts (current +:+ String c "")
  end.

Definition split_path (path : string) : list string := split_path_loop path [] "".

Fixpoint to_lower (value : string) : string :=
  match value with
  | EmptyString => ""
  | String c value' => String (tolower c) (to_lower value')
  end.

(** ** Log records

    [log_event] writes one line to the standard error stream; the model keeps
    the records in the order they are written.  [log_line] is the text of the
    line for a given [now_ms()]. *)

Record LogEvent := { ev_level : string; ev_event : string; ev_details : string }.

Definition q (s : string) : string := String dquote (s +:+ String dquote "").

Definition log_line (now_ms : Z) (ev : LogEvent) : string :=
  "{" +:+ q "ts_ms" +:+ ":" +:+ to_string now_ms
  +:+ "," +:+ q "level" +:+ ":" +:+ q (json_escape (ev_level ev))
  +:+ "," +:+ q "event" +:+ ":" +:+ q (json_escape (ev_event ev))
  +:+ (match ev_details ev with
       | EmptyString => ""
       | d => "," +:+ q "details" +:+ ":" +:+ q (json_escape d)
       end)
  +:+ "}" +:+ String "010" "".

(** ** Operation results *)

Record OperationResult := {
  res_ok : bool;
  res_status : Z;
  res_message : string;
  res_value : string;
  res_shard : Z;
  res_leader : string;
}.

Definition default_result : OperationResult :=
  {| res_ok := false; res_status := 500; res_message := ""; res_value := "";
     res_shard := 0; res_leader := "" |}.

(** ** Lemmas *)

Lemma fnv_round_range hash c : in_uint64 (fnv_round hash c).
Proof. unfold in_uint64, fnv_round, wrap_u64. apply Z.mod_pos_bound. done. Qed.

Lemma fnv_loop_range value hash : in_uint64 hash -> in_uint64 (fnv_loop value hash).
Proof.
  revert hash. induction value as [|c value IH]; intros hash H; [done|].
  apply IH, fnv_round_range.
Qed.

Lemma fnv1a_64_range value : in_uint64 (fnv1a_64 value).
Proof. apply fnv_loop_range. done. Qed.

(** *** Reading JSON strings back *)

Definition hex_value (c : ascii) : option Z :=
  if (48 <=? uchar c) && (uchar c <=? 57) then Some (uchar c - 48)
  else if (97 <=? uchar c) && (uchar c <=? 102) then Some (uchar c - 87)
  else if (65 <=? uchar c) && (uchar c <=? 70) then Some (uchar c - 55)
  else None.

(** The contents of a JSON string literal, byte by byte: what a reader of the
    responses decodes.  Bytes from 128 on stand for themselves; that they form UTF-8
    text, which JSON asks for, is not demanded.  [None] when the text is not the body of
    a JSON string: an unescaped quote or control character, or a bad escape. *)
Fixpoint json_decode (s : string) : option string :=
  match s with
  | EmptyString => Some ""
  | String c s1 =>
      if decide (c = backslash) then
        match s1 with
        | EmptyString => None
        | String e s2 =>
            if decide (e = "u"%char) then
              match s2 with
              | String h3 (String h2 (String h1 (String h0 s3))) =>
                  match hex_value h3, hex_value h2, hex_value h1, hex_value h0 with
                  | Some 0, Some 0, Some a, Some b =>
                      String (ascii_of_N (Z.to_N (16 * a + b))) <$> json_decode s3
                  | _, _, _, _ => None
                  end
              | _ => None
              end
            else if decide (e = dquote) then String dquote <$> json_decode s2
            else if decide (e = backslash) then String backslash <$> json_decode s2
            else if decide (e = "/"%char) then String "/" <$> json_decode s2
            else if decide (e = "b"%char) then String "008" <$> json_decode s2
            else if decide (e = "f"%char) then String "012" <$> json_decode s2
            else if decide (e = "n"%char) then String "010" <$> json_decode s2
            else if decide (e = "r"%char) then String "013" <$> json_decode s2
            else if decide (e = "t"%char) then String "009" <$> json_decode s2
            else None
        end
      else if decide (c = dquote) then None
      else if uchar c <? 32 then None
      else String c <$> json_decode s1
  end.

(** What the escape of one byte is, shown byte by byte. *)
Inductive escape_view (c : ascii) : string -> Prop :=
  | escape_plain : c <> backslash -> c <> dquote -> (uchar c <? 32) = false ->
      escape_view c (String c "")
  | escape_short e : (forall s, json_decode (String backslash (String e s)) = String c <$> json_decode s) ->
      escape_view c (esc e)
  | escape_long h1 h0 a b : hex_value h1 = Some a -> hex_value h0 = Some b ->
      ascii_of_N (Z.to_N (16 * a + b)) = c ->
      escape_view c (esc "u" +:+ String "0" (String "0" (String h1 (String h0 "")))).

Lemma hex4_view c : uchar c < 32 -> escape_view c (esc "u" +:+ hex4 (uchar c)).
Proof.
  intros H. pose proof (uchar_bound c) as Hb. unfold hex4.
  assert (Hv : forall d, 0 <= d < 16 -> hex_value (hex_digit d) = Some d).
  { intros d Hd. unfold hex_value, hex_digit, uchar.
    destruct (d <? 10) eqn:E; rewrite !N_ascii_embedding, !Z2N.id by lia.
    - rewrite (proj2 (andb_true_iff _ _)); [f_equal; lia|lia].
    - rewrite (proj2 (andb_false_iff _ _)); [|lia].
      rewrite (proj2 (andb_true_iff _ _)); [f_equal; lia|lia]. }
  apply escape_long with (a := uchar c / 16) (b := uchar c mod 16).
  - apply Hv. split; [apply Z.div_pos; lia|]. apply Z.div_lt_upper_bound; lia.
  - apply Hv. apply Z.mod_pos_bound. lia.
  - rewrite <- Z.div_mod by lia. unfold uchar. rewrite N2Z.id. apply ascii_N_embedding.
Qed.

Lemma json_escape_char_view c : escape_view c (json_escape_char c).
Proof.
  unfold json_escape_char.
  repeat (case_decide; [subst; apply escape_short; done|]).
  destruct (uchar c <? 32) eqn:E; [apply hex4_view; lia|].
  by apply escape_plain.
Qed.

Lemma json_decode_escape_char c s :
  json_decode (json_escape_char c +:+ s) = String c <$> json_decode s.
Proof.
  destruct (json_escape_char_view c) as [Hb Hq Hu|e He|h1 h0 a b H1 H0 Hc].
  - rewrite app_cons_str, app_nil_str. cbn [json_decode].
    rewrite !decide_False by done. by rewrite Hu.
  - apply He.
  - unfold esc. rewrite !app_cons_str, !app_nil_str. cbn [json_decode].
    rewrite (decide_True (P := backslash = backslash)) by done.
    rewrite (decide_True (P := "u"%char = "u"%char)) by done.
    rewrite !app_cons_str, app_nil_str. change (hex_value "0") with (Some 0).
    by rewrite H1, H0, Hc.
Qed.

Lemma json_decode_escape s : json_decode (json_escape s) = Some s.
Proof.
  induction s as [|c s IH]; [done|]. cbn [json_escape].
  by rewrite json_decode_escape_char, IH.
Qed.

(** C23: JSON escaping loses nothing and is well formed.  Whatever bytes a
    string has, its escape is the body of a JSON string literal (no bare quote,
    backslash or control character) and decoding it gives the string back. *)
Theorem json_escape_roundtrip (s : string) : json_decode (json_escape s) = Some s.
Proof. apply json_decode_escape. Qed.
