(* ===== verification/Sqlite.v ===== *)
(** * SQLite, the library the store calls

    SQLite's code is not part of the repository: it is a parameter here.  The
    class [Sqlite] lists the entry points the store calls; the class
    [SqliteSpec] states what SQLite documents of them for the statements the
    store prepares (upserts, deletes, ordered selects, transactions), in terms
    of the contents of the three tables: any preparation, step, [exec] and
    opening may fail.  [SqliteMemory] says that SQLite has the memory to copy
    parameters and columns; [SqliteReliable] that none of the store's calls
    fails at all.  [MemSqlite] is an in-memory instance of all of them. *)

From S2P Require Import Prelude CppStd.

#[local] Open Scope Z_scope.

(** ** Log entries (include/kv/sqlite_store.hpp) *)

Record LogEntry := {
  e_index : Z;
  e_term : Z;
  e_command : string;
  e_key : string;
  e_value : string;
}.

#[export] Instance LogEntry_eq_dec : EqDecision LogEntry.
Proof. solve_decision. Defined.

(** ** The contents of a replica's database

    A row of [raft_log] without its primary key, and the three tables.  The
    column [updated_at] of [kv] is written and never read, and is left out. *)

Record LogRow := { row_term : Z; row_command : string; row_key : string; row_value : string }.

Record Tables := {
  kv : gmap string string;
  raft_log : gmap Z LogRow;
  meta : gmap string string;
}.

Definition empty_tables : Tables := {| kv := ∅; raft_log := ∅; meta := ∅ |}.

Definition entry_of (p : Z * LogRow) : LogEntry :=
  {| e_index := p.1; e_term := row_term p.2; e_command := row_command p.2;
     e_key := row_key p.2; e_value := row_value p.2 |}.

Definition row_of (e : LogEntry) : LogRow :=
  {| row_term := e_term e; row_command := e_command e; row_key := e_key e;
     row_value := e_value e |}.

(** Rows in the order of an integer or text primary key. *)
Definition key_le {V} (a b : Z * V) : Prop := a.1 <= b.1.
#[export] Instance key_le_dec {V} : RelDecision (@key_le V).
Proof. unfold key_le. intros a b. apply _. Defined.

Definition text_le {V} (a b : string * V) : Prop := String.leb a.1 b.1 = true.
#[export] Instance text_le_dec {V} : RelDecision (@text_le V).
Proof. unfold text_le. intros a b. apply _. Defined.

Definition log_rows (t : Tables) : list (Z * LogRow) :=
  merge_sort key_le (map_to_list (raft_log t)).
Definition kv_rows (t : Tables) : list (string * string) :=
  merge_sort text_le (map_to_list (kv t)).

(** *** Changes of the tables *)

Definition tbl_put (k v : string) (t : Tables) : Tables :=
  {| kv := <[k := v]> (kv t); raft_log := raft_log t; meta := meta t |}.
Definition tbl_erase (k : string) (t : Tables) : Tables :=
  {| kv := delete k (kv t); raft_log := raft_log t; meta := meta t |}.
Definition tbl_append (i : Z) (r : LogRow) (t : Tables) : Tables :=
  {| kv := kv t; raft_log := <[i := r]> (raft_log t); meta := meta t |}.
Definition tbl_truncate (i : Z) (t : Tables) : Tables :=
  {| kv := kv t; raft_log := filter (fun p => p.1 < i) (raft_log t); meta := meta t |}.
Definition tbl_meta (k v : string) (t : Tables) : Tables :=
  {| kv := kv t; raft_log := raft_log t; meta := <[k := v]> (meta t) |}.

(** ** The interface of the library *)

Inductive sqlite_value :=
  | SQLITE_NULL
  | SQLITE_INTEGER (z : Z)
  | SQLITE_TEXT (s : string)
  | SQLITE_BLOB (s : string).

(** The results the successive calls of [sqlite3_step] on one prepared
    statement return: rows, then [SQLITE_DONE] or an error. *)
Inductive steps :=
  | StepDone
  | StepError
  | StepRow (columns : list sqlite_value) (rest : steps).

Class Sqlite := {
  (** an open connection, with the database file behind it *)
  sqlite3 : Type;
  (** [sqlite3_prepare_v2(db, sql, ...) == SQLITE_OK] *)
  sqlite3_prepare_v2 : sqlite3 -> string -> bool;
  (** [sqlite3_bind_text], [sqlite3_bind_blob] or [sqlite3_bind_int64] of the value
      gives [SQLITE_OK]; a parameter whose binding fails stays null *)
  sqlite3_bind : sqlite3 -> sqlite_value -> bool;
  (** stepping the statement prepared from the text, with values bound to its
      parameters in order *)
  sqlite3_step : sqlite3 -> string -> list sqlite_value -> sqlite3 * steps;
  (** the columns of the current row; [None] is the null pointer *)
  sqlite3_column_int64 : list sqlite_value -> nat -> Z;
  sqlite3_column_text : list sqlite_value -> nat -> option string;
  sqlite3_column_blob : list sqlite_value -> nat -> option string;
  sqlite3_column_bytes : list sqlite_value -> nat -> Z;
  (** [None] is [SQLITE_OK], [Some error] a failure with the error pointer *)
  sqlite3_exec : sqlite3 -> string -> sqlite3 * option (option string);
  sqlite3_errmsg : sqlite3 -> string;
  (** the file behind a path, and opening it; [inl] is a failure with the
      message of the half-open connection, if there is one *)
  sqlite3_file : Type;
  sqlite3_open_v2 : sqlite3_file -> option string + sqlite3;
  sqlite3_close : sqlite3 -> sqlite3_file;
}.

(** ** The statements of the store *)

Definition SQL_put : string :=
  "INSERT INTO kv(key, value, updated_at) VALUES(?, ?, unixepoch()) " +:+
  "ON CONFLICT(key) DO UPDATE SET value=excluded.value, updated_at=excluded.updated_at;".
Definition SQL_erase : string := "DELETE FROM kv WHERE key=?;".
Definition SQL_get : string := "SELECT value FROM kv WHERE key=?;".
Definition SQL_all_kv : string := "SELECT key, value FROM kv ORDER BY key;".
Definition SQL_append_log : string :=
  "INSERT OR REPLACE INTO raft_log(log_index, term, command, key, value) VALUES(?, ?, ?, ?, ?);".
Definition SQL_truncate : string := "DELETE FROM raft_log WHERE log_index >= ?;".
Definition SQL_log_at : string :=
  "SELECT log_index, term, command, key, value FROM raft_log WHERE log_index=?;".
Definition SQL_logs_from : string :=
  "SELECT log_index, term, command, key, value FROM raft_log " +:+
  "WHERE log_index >= ? ORDER BY log_index;".
Definition SQL_last_index : string := "SELECT COALESCE(MAX(log_index), 0) FROM raft_log;".
Definition SQL_last_term : string := "SELECT term FROM raft_log ORDER BY log_index DESC LIMIT 1;".
Definition SQL_set_meta : string :=
  "INSERT INTO meta(key, value) VALUES(?, ?) " +:+
  "ON CONFLICT(key) DO UPDATE SET value=excluded.value;".
Definition SQL_get_meta : string := "SELECT value FROM meta WHERE key=?;".

Definition SQL_create_kv : string :=
  "CREATE TABLE IF NOT EXISTS kv (" +:+ "key TEXT PRIMARY KEY," +:+
  "value BLOB NOT NULL," +:+ "updated_at INTEGER NOT NULL" +:+ ");".
Definition SQL_create_log : string :=
  "CREATE TABLE IF NOT EXISTS raft_log (" +:+ "log_index INTEGER PRIMARY KEY," +:+
  "term INTEGER NOT NULL," +:+ "command TEXT NOT NULL," +:+ "key TEXT NOT NULL," +:+
  "value BLOB NOT NULL" +:+ ");".
Definition SQL_create_meta : string :=
  "CREATE TABLE IF NOT EXISTS meta (" +:+ "key TEXT PRIMARY KEY," +:+
  "value TEXT NOT NULL" +:+ ");".

(** *** What the data statements do to the tables *)

Definition sql_update (sql : string) (args : list sqlite_value) (t : Tables) : option Tables :=
  if decide (sql = SQL_put) then
    match args with [SQLITE_TEXT k; SQLITE_BLOB v] => Some (tbl_put k v t) | _ => None end
  else if decide (sql = SQL_erase) then
    match args with [SQLITE_TEXT k] => Some (tbl_erase k t) | _ => None end
  else if decide (sql = SQL_append_log) then
    match args with
    | [SQLITE_INTEGER i; SQLITE_INTEGER tm; SQLITE_TEXT c; SQLITE_TEXT k; SQLITE_BLOB v] =>
        Some (tbl_append i {| row_term := tm; row_command := c; row_key := k; row_value := v |} t)
    | _ => None
    end
  else if decide (sql = SQL_truncate) then
    match args with [SQLITE_INTEGER i] => Some (tbl_truncate i t) | _ => None end
  else if decide (sql = SQL_set_meta) then
    match args with [SQLITE_TEXT k; SQLITE_TEXT v] => Some (tbl_meta k v t) | _ => None end
  else None.

Definition log_columns (p : Z * LogRow) : list sqlite_value :=
  [SQLITE_INTEGER p.1; SQLITE_INTEGER (row_term p.2); SQLITE_TEXT (row_command p.2);
   SQLITE_TEXT (row_key p.2); SQLITE_BLOB (row_value p.2)].

(** The rows the queries return. *)
Definition sql_select (sql : string) (args : list sqlite_value) (t : Tables)
    : option (list (list sqlite_value)) :=
  if decide (sql = SQL_get) then
    match args with
    | [SQLITE_TEXT k] => Some (from_option (fun v => [[SQLITE_BLOB v]]) [] (kv t !! k))
    | _ => None
    end
  else if decide (sql = SQL_all_kv) then
    match args with
    | [] => Some ((fun p => [SQLITE_TEXT p.1; SQLITE_BLOB p.2]) <$> kv_rows t)
    | _ => None
    end
  else if decide (sql = SQL_log_at) then
    match args with
    | [SQLITE_INTEGER i] =>
        Some (from_option (fun r => [log_columns (i, r)]) [] (raft_log t !! i))
    | _ => None
    end
  else if decide (sql = SQL_logs_from) then
    match args with
    | [SQLITE_INTEGER i] => Some (log_columns <$> filter (fun p => i <= p.1) (log_rows t))
    | _ => None
    end
  else if decide (sql = SQL_last_index) then
    match args with
    | [] => Some [[SQLITE_INTEGER (from_option fst 0 (last (log_rows t)))]]
    | _ => None
    end
  else if decide (sql = SQL_last_term) then
    match args with
    | [] => Some (from_option (fun p => [[SQLITE_INTEGER (row_term p.2)]]) [] (last (log_rows t)))
    | _ => None
    end
  else if decide (sql = SQL_get_meta) then
    match args with
    | [SQLITE_TEXT k] => Some (from_option (fun v => [[SQLITE_TEXT v]]) [] (meta t !! k))
    | _ => None
    end
  else None.

Definition row_steps (rows : list (list sqlite_value)) : steps := foldr StepRow StepDone rows.

(** The rows of an execution that an error cuts short after [n] of them. *)
Definition row_steps_error (n : nat) (rows : list (list sqlite_value)) : steps :=
  foldr StepRow StepError (take n rows).

(** *** What the transaction statements of [clear_all] do

    A state is the tables and, inside a transaction, the tables at its start. *)
Definition sql_txn (sql : string) (st : Tables * option Tables) : option (Tables * option Tables) :=
  let '(t, saved) := st in
  if decide (sql = "BEGIN IMMEDIATE;") then
    match saved with None => Some (t, Some t) | Some _ => None end
  else if decide (sql = "DELETE FROM kv;") then
    Some ({| kv := ∅; raft_log := raft_log t; meta := meta t |}, saved)
  else if decide (sql = "DELETE FROM raft_log;") then
    Some ({| kv := kv t; raft_log := ∅; meta := meta t |}, saved)
  else if decide (sql = "DELETE FROM meta;") then
    Some ({| kv := kv t; raft_log := raft_log t; meta := ∅ |}, saved)
  else if decide (sql = "COMMIT;") then
    match saved with Some _ => Some (t, None) | None => None end
  else if decide (sql = "ROLLBACK;") then
    match saved with Some t0 => Some (t0, None) | None => None end
  else None.

(** The pragmas and table creations of [initialize] leave existing data alone. *)
Definition SQL_schema : list string :=
  ["PRAGMA journal_mode=WAL;"; "PRAGMA synchronous=NORMAL;"; "PRAGMA foreign_keys=ON;";
   SQL_create_kv; SQL_create_log; SQL_create_meta].

Definition SQL_statements : list string :=
  [SQL_put; SQL_erase; SQL_get; SQL_all_kv; SQL_append_log; SQL_truncate; SQL_log_at;
   SQL_logs_from; SQL_last_index; SQL_last_term; SQL_set_meta; SQL_get_meta].

(** ** What SQLite documents *)

Class SqliteSpec (SQL : Sqlite) := {
  (** the contents of the tables, and their contents at the start of the open
      transaction if there is one *)
  db_state : sqlite3 -> Tables * option Tables;
  (** the tables that exist, by the statement that creates them *)
  db_has : sqlite3 -> gset string;
  file_tables : sqlite3_file -> Tables;

  (** a data statement takes effect as a whole or fails without effect *)
  step_update db sql args t t' :
    {[SQL_create_kv; SQL_create_log; SQL_create_meta]} ⊆ db_has db ->
    db_state db = (t, None) -> sql_update sql args t = Some t' ->
    exists db', db_has db' = db_has db /\
      (sqlite3_step db sql args = (db', StepDone) /\ db_state db' = (t', None) \/
       sqlite3_step db sql args = (db', StepError) /\ db_state db' = (t, None));

  (** a query changes nothing; it returns its rows, or some of them and an error *)
  step_select db sql args t rows :
    {[SQL_create_kv; SQL_create_log; SQL_create_meta]} ⊆ db_has db ->
    db_state db = (t, None) -> sql_select sql args t = Some rows ->
    exists db', db_has db' = db_has db /\ db_state db' = (t, None) /\
      (sqlite3_step db sql args = (db', row_steps rows) \/
       exists n, sqlite3_step db sql args = (db', row_steps_error n rows));

  (** a failing statement of a transaction leaves the transaction as it was, or
      SQLite has rolled the whole transaction back; [ROLLBACK] in a transaction
      does not fail, also with statements pending (since SQLite 3.7.11) *)
  exec_txn db sql st' :
    {[SQL_create_kv; SQL_create_log; SQL_create_meta]} ⊆ db_has db ->
    sql_txn sql (db_state db) = Some st' ->
    exists db', db_has db' = db_has db /\
      (sqlite3_exec db sql = (db', None) /\ db_state db' = st' \/
       sql <> "ROLLBACK;" /\
       (exists err, sqlite3_exec db sql = (db', Some err)) /\
       (db_state db' = db_state db \/
        exists t0, (db_state db).2 = Some t0 /\ db_state db' = (t0, None)));

  (** [ROLLBACK] outside a transaction is an error *)
  exec_rollback_idle db t :
    db_state db = (t, None) ->
    exists db' err, sqlite3_exec db "ROLLBACK;" = (db', Some err) /\
      db_has db' = db_has db /\ db_state db' = (t, None);

  (** pragmas and [CREATE TABLE IF NOT EXISTS] keep the data *)
  exec_schema db sql :
    sql ∈ SQL_schema -> (db_state db).2 = None ->
    exists db', db_state db' = db_state db /\ db_has db ⊆ db_has db' /\
      (sqlite3_exec db sql = (db', None) /\ sql ∈ db_has db' \/
       exists err, sqlite3_exec db sql = (db', Some err));

  column_int64_spec row i z :
    row !! i = Some (SQLITE_INTEGER z) -> sqlite3_column_int64 row i = z;

  (** a reopened file holds what was committed *)
  open_spec f db : sqlite3_open_v2 f = inr db -> db_state db = (file_tables f, None);
  close_spec db :
    file_tables (sqlite3_close db) = from_option id (db_state db).1 (db_state db).2;
}.

(** The three tables of [initialize] exist. *)
Definition db_ready `{SqliteSpec} (db : sqlite3) : Prop :=
  {[SQL_create_kv; SQL_create_log; SQL_create_meta]} ⊆ db_has db.

(** SQLite has the memory for the copies it makes of the parameters that are bound,
    which do not exceed its limit on sizes, and of the columns that are read.
    Without it a binding fails and a column is a null pointer. *)
Class SqliteMemory (SQL : Sqlite) := {
  memory_bind db v : sqlite3_bind db v = true;
  memory_text row i s :
    row !! i = Some (SQLITE_TEXT s) -> sqlite3_column_text row i = Some s;
  (** a zero-length blob is returned as a null pointer *)
  memory_blob row i s :
    row !! i = Some (SQLITE_BLOB s) ->
    sqlite3_column_blob row i = (if decide (s = "") then None else Some s) /\
    sqlite3_column_bytes row i = ssize s;
}.

(** None of the calls the store makes fails: on a database with the three tables,
    its statements are prepared and bound and run to their end, and files can be
    opened.  Nothing is said of other statements and other parameters. *)
Class SqliteReliable (SQL : Sqlite) `{!SqliteSpec SQL} := {
  reliable_memory :: SqliteMemory SQL;
  prepare_ok db sql : db_ready db -> sql ∈ SQL_statements -> sqlite3_prepare_v2 db sql = true;
  step_ok db sql args t n rows : db_ready db -> db_state db = (t, None) ->
    is_Some (sql_update sql args t) \/ is_Some (sql_select sql args t) ->
    (sqlite3_step db sql args).2 <> row_steps_error n rows;
  exec_ok db sql st' : db_ready db -> sql_txn sql (db_state db) = Some st' ->
    (sqlite3_exec db sql).2 = None;
  schema_ok db sql : sql ∈ SQL_schema -> (db_state db).2 = None -> (sqlite3_exec db sql).2 = None;
  open_ok f : exists db, sqlite3_open_v2 f = inr db;
}.

(** ** An in-memory SQLite

    The documented behaviour, executed on the tables themselves; the witnesses
    of the theorems that assume [SqliteSpec] run on it. *)
Record MemDb := { mem_tables : Tables; mem_saved : option Tables; mem_has : gset string }.

Definition mem_step (db : MemDb) (sql : string) (args : list sqlite_value) : MemDb * steps :=
  match sql_update sql args (mem_tables db) with
  | Some t => ({| mem_tables := t; mem_saved := mem_saved db; mem_has := mem_has db |}, StepDone)
  | None =>
      match sql_select sql args (mem_tables db) with
      | Some rows => (db, row_steps rows)
      | None => (db, StepDone)
      end
  end.

Definition mem_exec (db : MemDb) (sql : string) : MemDb * option (option string) :=
  match sql_txn sql (mem_tables db, mem_saved db) with
  | Some (t, s) => ({| mem_tables := t; mem_saved := s; mem_has := mem_has db |}, None)
  | None =>
      if decide (sql ∈ SQL_schema)
      then ({| mem_tables := mem_tables db; mem_saved := mem_saved db;
               mem_has := {[sql]} ∪ mem_has db |}, None)
      else (db, Some (Some "SQL logic error"))
  end.

#[export] Instance MemSqlite : Sqlite := {
  sqlite3 := MemDb;
  sqlite3_prepare_v2 _ _ := true;
  sqlite3_bind _ _ := true;
  sqlite3_step := mem_step;
  sqlite3_column_int64 row i :=
    match row !! i with Some (SQLITE_INTEGER z) => z | _ => 0 end;
  sqlite3_column_text row i :=
    match row !! i with Some (SQLITE_TEXT s) => Some s | _ => None end;
  sqlite3_column_blob row i :=
    match row !! i with
    | Some (SQLITE_BLOB s) => if decide (s = "") then None else Some s
    | _ => None
    end;
  sqlite3_column_bytes row i :=
    match row !! i with Some (SQLITE_BLOB s) => ssize s | _ => 0 end;
  sqlite3_exec := mem_exec;
  sqlite3_errmsg _ := "not an error";
  sqlite3_file := Tables;
  sqlite3_open_v2 t := inr {| mem_tables := t; mem_saved := None; mem_has := ∅ |};
  sqlite3_close db := from_option id (mem_tables db) (mem_saved db);
}.

Lemma row_steps_not_error rows n rows' : row_steps rows <> row_steps_error n rows'.
Proof.
  unfold row_steps_error. generalize (take n rows') as l.
  induction rows as [|r rows IH]; intros [|x l]; simpl; try done.
  intros [= _ H]. by apply (IH l).
Qed.

Lemma sql_update_select sql args args' t :
  is_Some (sql_update sql args t) -> sql_select sql args' t = None.
Proof.
  unfold sql_update, sql_select. intros [t' H].
  repeat (case_decide; [subst sql; by simplify_eq|]). done.
Qed.

Lemma sql_schema_not_txn sql st : sql ∈ SQL_schema -> sql_txn sql st = None.
Proof.
  intros H. destruct st as [t s]. unfold SQL_schema in H.
  repeat (apply elem_of_cons in H as [->|H]; [done|]). by apply elem_of_nil in H.
Qed.

#[export] Program Instance MemSqliteSpec : SqliteSpec MemSqlite := {
  db_state db := (mem_tables db, mem_saved db);
  db_has := mem_has;
  file_tables t := t;
}.
Next Obligation.
  intros db sql args t t' _ [= <- Hs] Hu. simpl. unfold mem_step. rewrite Hu.
  eexists. split; [|left; split; [reflexivity|]]; [done|]. simpl. by rewrite Hs.
Qed.
Next Obligation.
  intros db sql args t rows _ [= <- Hs] Hq. simpl. exists db. split; [done|].
  split; [by rewrite Hs|]. left. unfold mem_step.
  destruct (sql_update sql args (mem_tables db)) as [t'|] eqn:E.
  - rewrite (sql_update_select sql args args (mem_tables db)) in Hq by eauto. done.
  - by rewrite Hq.
Qed.
Next Obligation.
  intros db sql [t' s'] _ H. cbn [sqlite3_exec MemSqlite]. unfold mem_exec. rewrite H.
  eexists. split; [|left; split; reflexivity]. done.
Qed.
Next Obligation.
  intros db t [= <- Hs]. simpl. unfold mem_exec. simpl. rewrite Hs.
  eexists _, _. split; [reflexivity|]. simpl. by rewrite Hs.
Qed.
Next Obligation.
  intros db sql Hsql Hs. simpl in *. unfold mem_exec.
  rewrite sql_schema_not_txn, decide_True by done.
  eexists. split; [|split; [|left; split; [reflexivity|]]]; simpl; [done|set_solver..].
Qed.
Next Obligation. intros row i z H. simpl. by rewrite H. Qed.
Next Obligation. by intros f db [= <-]. Qed.
Next Obligation. done. Qed.

#[export] Instance MemSqliteMemory : SqliteMemory MemSqlite.
Proof. split; [done|intros row i s H; simpl; by rewrite H..]. Qed.

#[export] Instance MemSqliteReliable : SqliteReliable MemSqlite.
Proof.
  constructor; cbn [sqlite3_exec sqlite3_step db_state MemSqlite MemSqliteSpec].
  - apply _.
  - done.
  - intros db sql args t n rows _ _ _. unfold mem_step.
    destruct (sql_update _ _ _); [apply (row_steps_not_error [])|].
    destruct (sql_select _ _ _); [apply row_steps_not_error|apply (row_steps_not_error [])].
  - intros db sql [t s] _ H. unfold mem_exec. by rewrite H.
  - intros db sql Hsql _. unfold mem_exec.
    by rewrite sql_schema_not_txn, decide_True by done.
  - intros f. by eexists.
Qed.
