(* ===== verification/Store.v ===== *)
(** * The interface between a replica and its durable store

    [Store S] lists the operations a [RaftReplica] calls on its store, and
    [StoreSpec S] what it relies on: run on a store that holds the tables [t],
    an operation returns what the corresponding operation on [t] returns and
    leaves the store holding the tables it leaves.  Replicas, shards and
    clusters are written against [Store] and their theorems assume [StoreSpec];
    [SqliteStore] implements both on top of SQLite. *)

From S2P Require Import Prelude CppStd Sqlite.

#[local] Open Scope Z_scope.

Class Store (S : Type) := {
  st_put : string -> string -> M S unit;
  st_erase : string -> M S unit;
  st_get : string -> M S (option string);
  st_append_log : LogEntry -> M S unit;
  st_truncate_log_from : Z -> M S unit;
  st_log_at : Z -> M S (option LogEntry);
  st_logs_from : Z -> M S (list LogEntry);
  st_last_log_index : M S Z;
  st_last_log_term : M S Z;
  st_set_meta : string -> string -> M S unit;
  st_get_meta : string -> M S (option string);
  st_clear_all : M S unit;
  (** the durable file, opening it and closing it *)
  st_file : Type;
  st_open : st_file -> result S;
  st_close : S -> st_file;
}.

(** ** The tables as a store *)

(** Text columns are bound from C strings, so they stop at the first NUL. *)
Definition clean_entry (e : LogEntry) : LogEntry :=
  {| e_index := e_index e; e_term := e_term e; e_command := c_str (e_command e);
     e_key := c_str (e_key e); e_value := e_value e |}.

(** [sqlite3_bind_blob(..., value.data(), static_cast<int>(value.size()), ...)]
    binds as many bytes as the conversion to [int] says; SQLite leaves a negative
    length undefined. *)
Definition blob_bytes (value : string) : result string :=
  let n := to_int (ssize value) in
  if n <? 0 then Throw (UndefinedBehaviour "negative length of a blob")
  else Ok (copy_bytes (Z.to_nat n) value).

Lemma blob_bytes_fits v : fits_int v -> blob_bytes v = Ok v.
Proof.
  intros Hv. unfold blob_bytes. rewrite to_int_fits by done.
  rewrite (proj2 (Z.ltb_ge _ _)) by apply ssize_nonneg. by rewrite copy_bytes_full.
Qed.

Definition with_value (v : string) (e : LogEntry) : LogEntry :=
  {| e_index := e_index e; e_term := e_term e; e_command := e_command e;
     e_key := e_key e; e_value := v |}.

(** An update of the tables with a blob. *)
Definition modify_blob (v : string) (f : string -> Tables -> Tables) : M Tables unit := fun t =>
  match blob_bytes v with Ok b => (f b t, Ok tt) | Throw e => (t, Throw e) end.

Lemma modify_blob_fits v f : fits_int v -> modify_blob v f = modify (f v).
Proof. intros Hv. unfold modify_blob. by rewrite blob_bytes_fits. Qed.

Definition tb_log_at (i : Z) (t : Tables) : option LogEntry :=
  (fun r => entry_of (i, r)) <$> raft_log t !! i.
Definition tb_logs_from (i : Z) (t : Tables) : list LogEntry :=
  entry_of <$> filter (fun p => i <= p.1) (log_rows t).
Definition tb_last_log_index (t : Tables) : Z := from_option fst 0 (last (log_rows t)).
Definition tb_last_log_term (t : Tables) : Z :=
  from_option (fun p => row_term p.2) 0 (last (log_rows t)).

#[export] Instance TablesStore : Store Tables := {
  st_put k v := modify_blob v (tbl_put (c_str k));
  st_erase k := modify (tbl_erase (c_str k));
  st_get k := gets (fun t => kv t !! c_str k);
  st_append_log e :=
    modify_blob (e_value e) (fun b => tbl_append (e_index e) (row_of (clean_entry (with_value b e))));
  st_truncate_log_from i := modify (tbl_truncate i);
  st_log_at i := gets (tb_log_at i);
  st_logs_from i := gets (tb_logs_from i);
  st_last_log_index := gets tb_last_log_index;
  st_last_log_term := gets tb_last_log_term;
  st_set_meta k v := modify (tbl_meta (c_str k) (c_str v));
  st_get_meta k := gets (fun t => meta t !! c_str k);
  st_clear_all := modify (fun _ => empty_tables);
  st_file := Tables;
  st_open t := Ok t;
  st_close t := t;
}.

Lemma append_log_fits e :
  fits_int (e_value e) ->
  st_append_log e = modify (tbl_append (e_index e) (row_of (clean_entry e))).
Proof. intros He. simpl. rewrite modify_blob_fits by done. by destruct e. Qed.

(** ** The contract *)

Class StoreSpec (S : Type) `{Store S} := {
  holds : S -> Tables -> Prop;
  file_holds : st_file (S := S) -> Tables -> Prop;
  put_sim k v : sim holds (st_put k v) (st_put k v);
  erase_sim k : sim holds (st_erase k) (st_erase k);
  get_sim k : sim holds (st_get k) (st_get k);
  append_log_sim e : sim holds (st_append_log e) (st_append_log e);
  truncate_log_from_sim i : sim holds (st_truncate_log_from i) (st_truncate_log_from i);
  log_at_sim i : sim holds (st_log_at i) (st_log_at i);
  logs_from_sim i : sim holds (st_logs_from i) (st_logs_from i);
  last_log_index_sim : sim holds st_last_log_index st_last_log_index;
  last_log_term_sim : sim holds st_last_log_term st_last_log_term;
  set_meta_sim k v : sim holds (st_set_meta k v) (st_set_meta k v);
  get_meta_sim k : sim holds (st_get_meta k) (st_get_meta k);
  clear_all_sim : sim holds st_clear_all st_clear_all;
  (** opening a file that holds [t] succeeds with a store that holds [t], and
      closing a store leaves its tables in the file *)
  open_holds f t : file_holds f t -> exists s, st_open f = Ok s /\ holds s t;
  close_holds s t : holds s t -> file_holds (st_close s) t;
}.

#[export] Hint Resolve put_sim erase_sim get_sim append_log_sim truncate_log_from_sim
  log_at_sim logs_from_sim last_log_index_sim last_log_term_sim set_meta_sim get_meta_sim
  clear_all_sim : sim.

(** The tables are a store in this sense. *)
#[export] Instance TablesSpec : StoreSpec Tables.
Proof.
  refine {| holds := eq; file_holds := eq |}; intros; try apply sim_eq.
  all: subst; by eexists.
Defined.
