(* ===== verification/LogFacts.v ===== *)
(** * The log table as a list of entries

    A replica's [raft_log] holds the entries of a list, the entry at position
    [i] of the list under the index [i + 1].  The lemmas below say what the
    store's log operations do in terms of the list. *)

From S2P Require Import Prelude CppStd Sqlite Store.

#[local] Open Scope Z_scope.

Definition log_pair (e : LogEntry) : Z * LogRow := (e_index e, row_of e).

Definition log_map (l : list LogEntry) : gmap Z LogRow := list_to_map (log_pair <$> l).

Definition valid_command (c : string) : Prop := c = "PUT" \/ c = "DELETE".

(** An entry the replicas can store and apply. *)
Definition valid_entry (e : LogEntry) : Prop :=
  valid_command (e_command e) /\ fits_int (e_value e).

(** Consecutive indices from 1, text as the store keeps it, known commands and
    values the store keeps whole. *)
Record wf_log (l : list LogEntry) : Prop := {
  wf_index : e_index <$> l = seqZ 1 (Z.of_nat (length l));
  wf_clean : Forall (fun e => clean_entry e = e) l;
  wf_valid : Forall valid_entry l;
}.

(** ** The state machine *)

Definition apply_command (m : gmap string string) (e : LogEntry) : gmap string string :=
  if decide (e_command e = "PUT") then <[c_str (e_key e) := e_value e]> m
  else delete (c_str (e_key e)) m.

Definition replay (l : list LogEntry) : gmap string string := foldl apply_command ∅ l.

Definition last_term (l : list LogEntry) : Z := from_option e_term 0 (last l).

(** ** Lists of entries *)

Lemma entry_of_pair e : entry_of (log_pair e) = e.
Proof. by destruct e. Qed.

Lemma wf_log_nil : wf_log [].
Proof. by split. Qed.

Lemma wf_log_lookup l i e : wf_log l -> l !! i = Some e -> e_index e = Z.of_nat i + 1.
Proof.
  intros Hwf Hi. assert (H : (e_index <$> l) !! i = Some (e_index e))
    by (by rewrite list_lookup_fmap, Hi).
  rewrite (wf_index l Hwf) in H. apply lookup_seqZ in H. lia.
Qed.

Lemma wf_log_take n l : wf_log l -> wf_log (take n l).
Proof.
  intros [Hi Hc Hv]. split; [|by apply Forall_take..].
  rewrite fmap_take, Hi. apply list_eq. intros i.
  destruct (decide (i < n)%nat).
  - rewrite lookup_take_lt by done. apply option_eq. intros z.
    rewrite !lookup_seqZ, length_take. lia.
  - rewrite lookup_take_ge by lia. symmetry. apply lookup_seqZ_ge. rewrite length_take. lia.
Qed.

Lemma wf_log_snoc l e :
  wf_log l -> e_index e = Z.of_nat (length l) + 1 -> clean_entry e = e ->
  valid_entry e -> wf_log (l ++ [e]).
Proof.
  intros [Hi Hc Hv] He Hce Hve. split.
  - rewrite fmap_app, Hi, length_app. simpl. rewrite He, Nat2Z.inj_add, seqZ_app by lia.
    f_equal. rewrite seqZ_cons by lia. rewrite seqZ_nil by lia. f_equal. lia.
  - by apply Forall_app; split; [|constructor].
  - by apply Forall_app; split; [|constructor].
Qed.

Lemma log_pair_keys l : (log_pair <$> l).*1 = e_index <$> l.
Proof. rewrite <- list_fmap_compose. by apply list_fmap_ext. Qed.

Lemma wf_log_NoDup l : wf_log l -> NoDup (log_pair <$> l).*1.
Proof. intros Hwf. rewrite log_pair_keys, (wf_index l Hwf). apply NoDup_seqZ. Qed.

(** ** Sorted rows *)

#[export] Instance key_le_trans {V} : Transitive (@key_le V).
Proof. unfold key_le. intros ???. lia. Qed.
#[export] Instance key_le_total {V} : Total (@key_le V).
Proof. unfold key_le. intros x y. lia. Qed.

Lemma seqZ_Sorted m n : Sorted (fun a b => a <= b) (seqZ m n).
Proof.
  destruct (decide (n < 0)); [rewrite seqZ_nil by lia; constructor|].
  rewrite <- (Z2Nat.id n) by lia. generalize (Z.to_nat n) as k. intros k. revert m.
  induction k as [|k IH]; intros m; [rewrite seqZ_nil by lia; constructor|].
  rewrite seqZ_cons by lia. constructor; [replace (Z.pred (Z.of_nat (S k))) with (Z.of_nat k) by lia; apply IH|].
  destruct k; [rewrite seqZ_nil by lia; constructor|].
  rewrite seqZ_cons by lia. constructor. lia.
Qed.

Lemma log_pair_Sorted l : wf_log l -> Sorted key_le (log_pair <$> l).
Proof.
  intros Hwf. assert (Hs : Sorted (fun a b => a <= b) (e_index <$> l))
    by (rewrite (wf_index l Hwf); apply seqZ_Sorted).
  clear Hwf. induction l as [|e l IH]; simpl in *; [constructor|].
  apply Sorted_inv in Hs as [Hs Hh]. constructor; [by apply IH|].
  destruct l; simpl in *; constructor. by inversion Hh.
Qed.

Lemma log_rows_list t l :
  wf_log l -> raft_log t = log_map l -> log_rows t = log_pair <$> l.
Proof.
  intros Hwf Ht. unfold log_rows. rewrite Ht. unfold log_map.
  apply (Sorted_unique_strong key_le).
  - intros [i r] [j s] H1 H2 Hij Hji. unfold key_le in *. simpl in *.
    assert (i = j) as -> by lia. f_equal.
    rewrite merge_sort_Permutation, map_to_list_to_map in H1 by (by apply wf_log_NoDup).
    apply (elem_of_list_to_map (M := gmap Z)) in H1, H2; [|by apply wf_log_NoDup..].
    congruence.
  - apply Sorted_merge_sort; apply _.
  - by apply log_pair_Sorted.
  - rewrite merge_sort_Permutation. apply map_to_list_to_map. by apply wf_log_NoDup.
Qed.

(** ** The store's log operations on the list *)

Section operations.
Context (t : Tables) (l : list LogEntry).
Context (Hwf : wf_log l) (Hlog : raft_log t = log_map l).

Lemma log_map_lookup i r :
  log_map l !! i = Some r <-> exists n e, l !! n = Some e /\ i = Z.of_nat n + 1 /\ r = row_of e.
Proof.
  unfold log_map. rewrite <- (elem_of_list_to_map (M := gmap Z)) by (by apply wf_log_NoDup).
  rewrite list_elem_of_fmap. split.
  - intros (e & [= -> ->] & He). apply list_elem_of_lookup in He as [n Hn].
    exists n, e. split; [done|]. split; [|done]. by eapply wf_log_lookup.
  - intros (n & e & Hn & -> & ->). exists e. split.
    + unfold log_pair. f_equal. symmetry. by eapply wf_log_lookup.
    + apply list_elem_of_lookup. eauto.
Qed.

Lemma log_at_Some n e : l !! n = Some e -> tb_log_at (Z.of_nat n + 1) t = Some e.
Proof.
  intros Hn. unfold tb_log_at. rewrite Hlog.
  rewrite (proj2 (log_map_lookup _ (row_of e))) by eauto. simpl.
  rewrite <- (wf_log_lookup l n e Hwf Hn). by rewrite <- (entry_of_pair e) at 3.
Qed.

Lemma log_at_None i : i < 1 \/ Z.of_nat (length l) < i -> tb_log_at i t = None.
Proof.
  intros Hi. unfold tb_log_at. rewrite Hlog.
  destruct (log_map l !! i) as [r|] eqn:E; [|done]. exfalso.
  apply log_map_lookup in E as (n & e & Hn & -> & _). apply lookup_lt_Some in Hn. lia.
Qed.

Lemma logs_from_1 : tb_logs_from 1 t = l.
Proof.
  unfold tb_logs_from. rewrite (log_rows_list t l Hwf Hlog).
  rewrite filter_all.
  - rewrite <- list_fmap_compose. rewrite (list_fmap_ext _ id); [by apply list_fmap_id|].
    intros i e _. apply entry_of_pair.
  - intros p (e & -> & He)%list_elem_of_fmap. apply list_elem_of_lookup in He as [n Hn].
    simpl. rewrite (wf_log_lookup l n e Hwf Hn). lia.
Qed.

Lemma last_index_length : tb_last_log_index t = Z.of_nat (length l).
Proof.
  unfold tb_last_log_index. rewrite (log_rows_list t l Hwf Hlog), fmap_last.
  destruct (last l) as [e|] eqn:E; simpl.
  - rewrite last_lookup in E. apply (wf_log_lookup l _ e Hwf) in E as Hi.
    apply lookup_lt_Some in E. lia.
  - apply last_None in E as ->. done.
Qed.

Lemma last_term_list : tb_last_log_term t = last_term l.
Proof.
  unfold tb_last_log_term, last_term.
  rewrite (log_rows_list t l Hwf Hlog), fmap_last. by destruct (last l).
Qed.
End operations.

Lemma log_map_append l e :
  wf_log l -> e_index e = Z.of_nat (length l) + 1 ->
  <[e_index e := row_of e]> (log_map l) = log_map (l ++ [e]).
Proof.
  intros Hwf He. unfold log_map. rewrite fmap_app. simpl.
  change (log_pair e) with (e_index e, row_of e). rewrite list_to_map_snoc; [done|].
  rewrite log_pair_keys, (wf_index l Hwf). rewrite elem_of_seqZ. lia.
Qed.

Lemma log_map_truncate l n :
  wf_log l ->
  filter (fun p => p.1 < Z.of_nat n + 1) (log_map l) = log_map (take n l).
Proof.
  intros Hwf. apply map_eq. intros i. apply option_eq. intros r.
  rewrite map_lookup_filter_Some, log_map_lookup by done.
  rewrite log_map_lookup by (by apply wf_log_take). simpl. split.
  - intros [(m & e & Hm & -> & ->) Hlt]. exists m, e. split; [|done].
    rewrite lookup_take_lt by lia. done.
  - intros (m & e & Hm & -> & ->). apply lookup_take_Some in Hm as [Hm Hlt].
    split; [eauto|lia].
Qed.

Lemma replay_snoc l e : replay (l ++ [e]) = apply_command (replay l) e.
Proof. unfold replay. by rewrite foldl_app. Qed.

Lemma last_term_snoc l e : last_term (l ++ [e]) = e_term e.
Proof. unfold last_term. by rewrite last_snoc. Qed.

Lemma clean_entry_idemp e : clean_entry (clean_entry e) = clean_entry e.
Proof. unfold clean_entry. simpl. by rewrite !c_str_nul_free. Qed.
