(* ===== verification/SqliteStore.v ===== *)
(** * src/sqlite_store.cpp: the SQLite store

    Every method prepares one statement, binds its parameters and steps it.
    The methods run under the store's mutex, one at a time.  [SqliteStoreSpec]
    shows that they implement the interface [Store] on the tables. *)

From S2P Require Import Prelude CppStd Sqlite Store.

#[local] Open Scope Z_scope.

Section methods.
Context {SQL : Sqlite}.

(** [Statement stmt(db_, sql)] *)
Definition Statement (sql : string) : M sqlite3 unit := fun db =>
  if sqlite3_prepare_v2 db sql then (db, Ok tt)
  else (db, Throw (RuntimeError (sqlite3_errmsg db))).

(** Binding a parameter: the result of the call is ignored, and the parameter is
    null if the call has failed. *)
Definition bind (v : sqlite_value) : M sqlite3 sqlite_value := fun db =>
  (db, Ok (if sqlite3_bind db v then v else SQLITE_NULL)).

Definition bind_text (s : string) : M sqlite3 sqlite_value := bind (SQLITE_TEXT (c_str s)).
Definition bind_blob (s : string) : M sqlite3 sqlite_value := fun db =>
  match blob_bytes s with Ok b => bind (SQLITE_BLOB b) db | Throw e => (db, Throw e) end.
Definition bind_int64 (z : Z) : M sqlite3 sqlite_value := bind (SQLITE_INTEGER z).

(** The successive results of [sqlite3_step] on the statement with the
    parameters bound to it. *)
Definition step (sql : string) (args : list sqlite_value) : M sqlite3 steps := fun db =>
  let '(db', r) := sqlite3_step db sql args in (db', Ok r).

(** The bindings of a statement, in order. *)
Fixpoint bind_all (binds : list (M sqlite3 sqlite_value)) : M sqlite3 (list sqlite_value) :=
  match binds with
  | [] => mret []
  | b :: binds' => v ← b; vs ← bind_all binds'; mret (v :: vs)
  end.

(** Preparing a statement, binding its parameters and stepping it. *)
Definition run_statement (sql : string) (binds : list (M sqlite3 sqlite_value)) : M sqlite3 steps :=
  Statement sql ;;
  args ← bind_all binds;
  step sql args.

Definition throw_errmsg {A} : M sqlite3 A :=
  fun db => (db, Throw (RuntimeError (sqlite3_errmsg db))).

(** [check_step] on the result code of a step. *)
Definition check_step (r : steps) : M sqlite3 unit :=
  match r with StepError => throw_errmsg | _ => mret tt end.

Definition exec (sql : string) : M sqlite3 unit := fun db =>
  match sqlite3_exec db sql with
  | (db', None) => (db', Ok tt)
  | (db', Some error) =>
      (db', Throw (RuntimeError (default "sqlite execution failed" error)))
  end.

(** [std::string(data ? data : "", size)] on a blob column. *)
Definition blob_string (row : list sqlite_value) (i : nat) : string :=
  copy_bytes (Z.to_nat (sqlite3_column_bytes row i)) (default "" (sqlite3_column_blob row i)).

(** A [std::string] assigned from a text column's pointer, which must not be
    null: SQLite returns a null pointer when it has no memory for the text. *)
Definition text_string (row : list sqlite_value) (i : nat) : M sqlite3 string :=
  match sqlite3_column_text row i with
  | Some s => mret (c_str s)
  | None => throw (UndefinedBehaviour "string from a null pointer")
  end.

Definition initialize : M sqlite3 unit :=
  exec "PRAGMA journal_mode=WAL;" ;;
  exec "PRAGMA synchronous=NORMAL;" ;;
  exec "PRAGMA foreign_keys=ON;" ;;
  exec SQL_create_kv ;;
  exec SQL_create_log ;;
  exec SQL_create_meta.

(** The constructor; creating the parent directory is left out. *)
Definition open (file : sqlite3_file) : result sqlite3 :=
  match sqlite3_open_v2 file with
  | inl error => Throw (RuntimeError (default "unable to open sqlite database" error))
  | inr db => match initialize db with
              | (db', Ok _) => Ok db'
              | (_, Throw e) => Throw e
              end
  end.

Definition put (key value : string) : M sqlite3 unit :=
  rc ← run_statement SQL_put [bind_text key; bind_blob value];
  check_step rc.

Definition erase (key : string) : M sqlite3 unit :=
  rc ← run_statement SQL_erase [bind_text key];
  check_step rc.

Definition get (key : string) : M sqlite3 (option string) :=
  rc ← run_statement SQL_get [bind_text key];
  match rc with
  | StepDone => mret None
  | StepError => throw_errmsg
  | StepRow row _ => mret (Some (blob_string row 0))
  end.

Fixpoint all_kv_loop (rc : steps) (result : list (string * string))
    : M sqlite3 (list (string * string)) :=
  match rc with
  | StepDone => mret result
  | StepError => throw_errmsg
  | StepRow row rest =>
      let key := c_str (default "" (sqlite3_column_text row 0)) in
      all_kv_loop rest (result ++ [(key, blob_string row 1)])
  end.

Definition all_kv : M sqlite3 (list (string * string)) :=
  rc ← run_statement SQL_all_kv [];
  all_kv_loop rc [].

Definition append_log (entry : LogEntry) : M sqlite3 unit :=
  rc ← run_statement SQL_append_log
         [bind_int64 (e_index entry); bind_int64 (e_term entry);
          bind_text (e_command entry); bind_text (e_key entry); bind_blob (e_value entry)];
  check_step rc.

Definition truncate_log_from (index : Z) : M sqlite3 unit :=
  rc ← run_statement SQL_truncate [bind_int64 index];
  check_step rc.

(** The five columns of a [raft_log] row read into a [LogEntry]. *)
Definition read_entry (row : list sqlite_value) : M sqlite3 LogEntry :=
  command ← text_string row 2;
  key ← text_string row 3;
  mret {| e_index := sqlite3_column_int64 row 0; e_term := sqlite3_column_int64 row 1;
          e_command := command; e_key := key; e_value := blob_string row 4 |}.

Definition log_at (index : Z) : M sqlite3 (option LogEntry) :=
  rc ← run_statement SQL_log_at [bind_int64 index];
  match rc with
  | StepDone => mret None
  | StepError => throw_errmsg
  | StepRow row _ => entry ← read_entry row; mret (Some entry)
  end.

Fixpoint logs_from_loop (rc : steps) (entries : list LogEntry) : M sqlite3 (list LogEntry) :=
  match rc with
  | StepDone => mret entries
  | StepError => throw_errmsg
  | StepRow row rest => entry ← read_entry row; logs_from_loop rest (entries ++ [entry])
  end.

Definition logs_from (index : Z) : M sqlite3 (list LogEntry) :=
  rc ← run_statement SQL_logs_from [bind_int64 index];
  logs_from_loop rc [].

(** The row of the last result, none after [SQLITE_DONE]. *)
Definition current_row (rc : steps) : list sqlite_value :=
  match rc with StepRow row _ => row | _ => [] end.

Definition last_log_index : M sqlite3 Z :=
  rc ← run_statement SQL_last_index [];
  check_step rc ;;
  mret (sqlite3_column_int64 (current_row rc) 0).

Definition last_log_term : M sqlite3 Z :=
  rc ← run_statement SQL_last_term [];
  match rc with
  | StepDone => mret 0
  | StepError => throw_errmsg
  | StepRow row _ => mret (sqlite3_column_int64 row 0)
  end.

Definition set_meta (key value : string) : M sqlite3 unit :=
  rc ← run_statement SQL_set_meta [bind_text key; bind_text value];
  check_step rc.

Definition get_meta (key : string) : M sqlite3 (option string) :=
  rc ← run_statement SQL_get_meta [bind_text key];
  match rc with
  | StepDone => mret None
  | StepError => throw_errmsg
  | StepRow row _ => mret (Some (c_str (default "" (sqlite3_column_text row 0))))
  end.

Definition clear_all : M sqlite3 unit :=
  exec "BEGIN IMMEDIATE;" ;;
  catch (exec "DELETE FROM kv;" ;;
         exec "DELETE FROM raft_log;" ;;
         exec "DELETE FROM meta;" ;;
         exec "COMMIT;")
        (fun e => exec "ROLLBACK;" ;; throw e).

#[export] Instance SqliteStore : Store sqlite3 := {
  st_put := put;
  st_erase := erase;
  st_get := get;
  st_append_log := append_log;
  st_truncate_log_from := truncate_log_from;
  st_log_at := log_at;
  st_logs_from := logs_from;
  st_last_log_index := last_log_index;
  st_last_log_term := last_log_term;
  st_set_meta := set_meta;
  st_get_meta := get_meta;
  st_clear_all := clear_all;
  st_file := sqlite3_file;
  st_open := open;
  st_close := sqlite3_close;
}.
End methods.
