(* ===== verification/SqliteStoreProofs.v ===== *)
(** * The SQLite store implements the store interface

    Each method of [SqliteStore] has the effect of the corresponding operation
    on the tables, or throws and leaves the tables unchanged; it throws only
    when SQLite reports an error. *)

From S2P Require Import Prelude CppStd Sqlite Store SqliteStore.

#[local] Open Scope Z_scope.

(** The text the store has written contains no NUL: it was bound from C strings. *)
Record text_ok (t : Tables) : Prop := {
  text_kv k v : kv t !! k = Some v -> nul_free k;
  text_log i r : raft_log t !! i = Some r -> nul_free (row_command r) /\ nul_free (row_key r);
  text_meta k v : meta t !! k = Some v -> nul_free v;
}.

Lemma text_ok_empty : text_ok empty_tables.
Proof. split; simpl; intros; simplify_map_eq. Qed.

Lemma text_ok_put k v t : text_ok t -> text_ok (tbl_put (c_str k) v t).
Proof.
  intros [H1 H2 H3]. split; simpl; eauto. intros k' v'.
  rewrite lookup_insert. case_decide; [subst; intros; apply c_str_nul_free|eauto].
Qed.

Lemma text_ok_erase k t : text_ok t -> text_ok (tbl_erase k t).
Proof.
  intros [H1 H2 H3]. split; simpl; eauto. intros k' v' [_ ?]%lookup_delete_Some. eauto.
Qed.

Lemma text_ok_append e t :
  text_ok t -> text_ok (tbl_append (e_index e) (row_of (clean_entry e)) t).
Proof.
  intros [H1 H2 H3]. split; simpl; eauto. intros i r.
  rewrite lookup_insert. case_decide; [|eauto].
  intros [= <-]. split; apply c_str_nul_free.
Qed.

Lemma text_ok_truncate i t : text_ok t -> text_ok (tbl_truncate i t).
Proof.
  intros [H1 H2 H3]. split; simpl; eauto.
  intros j r [? _]%map_lookup_filter_Some. eauto.
Qed.

Lemma text_ok_meta k v t : text_ok t -> text_ok (tbl_meta k (c_str v) t).
Proof.
  intros [H1 H2 H3]. split; simpl; eauto. intros k' v'.
  rewrite lookup_insert. case_decide; [|eauto]. intros [= <-]. apply c_str_nul_free.
Qed.

#[export] Hint Resolve text_ok_empty text_ok_put text_ok_erase text_ok_append
  text_ok_truncate text_ok_meta : core.

Section proofs.
Context {SQL : Sqlite} {SPEC : SqliteSpec SQL} {MEM : SqliteMemory SQL}.

(** The connection [db] holds the tables [t], outside any transaction. *)
Definition db_holds (db : sqlite3) (t : Tables) : Prop :=
  db_ready db /\ db_state db = (t, None) /\ text_ok t.

(** What a method promises: the effect and result of [p] on the tables, or
    a [std::runtime_error] that changes nothing, which only an error reported
    by SQLite can cause. *)
Definition outcome {A} (m : M sqlite3 A) (p : M Tables A) : Prop :=
  forall db t, db_holds db t ->
  exists db',
    (exists t' r, m db = (db', r) /\ p t = (t', r) /\ db_holds db' t') \/
    ((exists w, m db = (db', Throw (RuntimeError w))) /\ db_holds db' t /\
     ~ SqliteReliable SQL).

Lemma db_holds_ready db t db' t' :
  db_holds db t -> db_has db' = db_has db -> db_state db' = (t', None) -> text_ok t' ->
  db_holds db' t'.
Proof. unfold db_holds, db_ready. intros (H & _) -> -> Ht. done. Qed.

(** *** Binding parameters *)

(** The bindings give these values. *)
Definition binds_to (binds : list (M sqlite3 sqlite_value)) (args : list sqlite_value) : Prop :=
  forall db, bind_all binds db = (db, Ok args).

Lemma bind_all_cons b binds v vs db :
  b db = (db, Ok v) -> bind_all binds db = (db, Ok vs) -> bind_all (b :: binds) db = (db, Ok (v :: vs)).
Proof. intros H1 H2. cbn [bind_all]. by rewrite (bind_ok _ _ _ _ _ H1), (bind_ok _ _ _ _ _ H2). Qed.

Lemma binds_to_nil : binds_to [] [].
Proof. done. Qed.
Lemma binds_to_cons v binds args : binds_to binds args -> binds_to (bind v :: binds) (v :: args).
Proof. intros H db. apply bind_all_cons; [|done]. unfold bind. by rewrite memory_bind. Qed.

Ltac binding := repeat first [apply binds_to_nil|apply binds_to_cons].

(** Running a statement: the preparation fails, or its steps are returned. *)
Lemma run_statement_cases sql binds args db t :
  db_holds db t -> sql ∈ SQL_statements -> binds_to binds args ->
  run_statement sql binds db =
    (let '(db', r) := sqlite3_step db sql args in (db', Ok r)) \/
  (exists w, run_statement sql binds db = (db, Throw (RuntimeError w))) /\
  ~ SqliteReliable SQL.
Proof.
  intros (Hr & _ & _) Hin Hb. unfold run_statement, Statement.
  destruct (sqlite3_prepare_v2 db sql) eqn:E.
  - left. erewrite bind_ok by (by rewrite E). by erewrite bind_ok by apply Hb.
  - right. split; [eexists; apply bind_throw; by rewrite E|]. intros HR. rewrite prepare_ok in E; done.
Qed.

Lemma update_outcome sql binds args f :
  sql ∈ SQL_statements -> binds_to binds args ->
  (forall t, sql_update sql args t = Some (f t)) ->
  (forall t, text_ok t -> text_ok (f t)) ->
  outcome (rc ← run_statement sql binds; check_step rc) (modify f).
Proof.
  intros Hin Hb Hu Hok db t Hdb. pose proof Hdb as (Hr & Hs & Ht).
  destruct (run_statement_cases sql binds args db t Hdb Hin Hb) as [E|[[w E] HR]].
  2: { exists db. right. split; [exists w; by rewrite (bind_throw _ _ _ _ _ E)|done]. }
  destruct (step_update db sql args t (f t) Hr Hs (Hu t)) as (db' & Hh & [[E' Hs']|[E' Hs']]);
    rewrite E' in E; exists db'; rewrite (bind_ok _ _ _ _ _ E).
  - left. exists (f t), (Ok tt). split; [done|]. split; [done|].
    by eapply db_holds_ready; eauto.
  - right. split; [by eexists|]. split; [by eapply db_holds_ready|].
    intros HR. apply (step_ok db sql args t 0 [] Hr Hs); [rewrite (Hu t); eauto|by rewrite E'].
Qed.

Lemma bind_all_values args binds db :
  bind_all ((bind <$> args) ++ binds) db = (vs ← bind_all binds; mret (args ++ vs)) db.
Proof.
  induction args as [|v args IH]; cbn [fmap list_fmap app bind_all].
  - unfold mbind, M_bind. by destruct (bind_all binds db) as [? []].
  - rewrite (bind_ok (bind v) _ db db v) by (unfold bind; by rewrite memory_bind).
    revert IH. unfold mbind, M_bind. intros ->. by destruct (bind_all binds db) as [? []].
Qed.

(** The same with a blob as the last parameter. *)
Lemma blob_outcome sql v args f :
  sql ∈ SQL_statements ->
  (forall b t, sql_update sql (args ++ [SQLITE_BLOB b]) t = Some (f b t)) ->
  (forall b t, text_ok t -> text_ok (f b t)) ->
  outcome (rc ← run_statement sql ((bind <$> args) ++ [bind_blob v]); check_step rc) (modify_blob v f).
Proof.
  intros Hin Hu Hok db t Hdb. unfold modify_blob. destruct (blob_bytes v) as [b|e] eqn:Hb.
  - apply (update_outcome sql _ (args ++ [SQLITE_BLOB b]) (f b)); [done| |apply Hu|apply Hok|done].
    intros db'. rewrite bind_all_values.
    assert (E : bind_all [bind_blob v] db' = (db', Ok [SQLITE_BLOB b])).
    { apply bind_all_cons; [|done]. unfold bind_blob, bind. by rewrite Hb, memory_bind. }
    by rewrite (bind_ok _ _ _ _ _ E).
  - exists db. unfold run_statement, Statement. destruct (sqlite3_prepare_v2 db sql) eqn:E.
    + left. exists t, (Throw e). split; [|done]. apply bind_throw.
      erewrite bind_ok by (by rewrite E). apply bind_throw. rewrite bind_all_values.
      unfold mbind, M_bind. cbn. unfold bind_blob. by rewrite Hb.
    + right. split; [eexists; apply bind_throw, bind_throw; by rewrite E|]. split; [done|].
      intros HR. destruct Hdb as (Hr & _). by rewrite prepare_ok in E.
Qed.

(** A method that consumes the rows of a query: [k] must turn the rows into
    the result [p] reads from the tables, and any execution that an error
    cuts short into a [std::runtime_error]. *)
Lemma select_outcome {A} sql binds args (k : steps -> M sqlite3 A) (rows : Tables -> _) (p : Tables -> A) :
  sql ∈ SQL_statements -> binds_to binds args ->
  (forall t, sql_select sql args t = Some (rows t)) ->
  (forall t db, text_ok t -> k (row_steps (rows t)) db = (db, Ok (p t))) ->
  (forall t n db, text_ok t ->
     k (row_steps_error n (rows t)) db = (db, Ok (p t)) \/
     exists w, k (row_steps_error n (rows t)) db = (db, Throw (RuntimeError w))) ->
  outcome (rc ← run_statement sql binds; k rc) (gets p).
Proof.
  intros Hin Hb Hq Hk Hke db t Hdb. pose proof Hdb as (Hr & Hs & Ht).
  destruct (run_statement_cases sql binds args db t Hdb Hin Hb) as [E|[[w E] HR]].
  2: { exists db. right. split; [exists w; by rewrite (bind_throw _ _ _ _ _ E)|done]. }
  destruct (step_select db sql args t _ Hr Hs (Hq t)) as (db' & Hh & Hs' & [E'|[n E']]);
    rewrite E' in E; exists db'; rewrite (bind_ok _ _ _ _ _ E).
  - left. exists t, (Ok (p t)). rewrite Hk by done. split; [done|]. split; [done|].
    by eapply db_holds_ready.
  - assert (Hd' : db_holds db' t) by (by eapply db_holds_ready).
    destruct (Hke t n db' Ht) as [E2|[w E2]]; rewrite E2.
    + left. by exists t, (Ok (p t)).
    + right. split; [by eexists|]. split; [done|]. intros HR.
      apply (step_ok db sql args t n (rows t) Hr Hs); [rewrite (Hq t); eauto|by rewrite E'].
Qed.

(** *** Reading columns *)

Lemma blob_string_spec row i s : row !! i = Some (SQLITE_BLOB s) -> blob_string row i = s.
Proof.
  intros H. destruct (memory_blob row i s H) as [E1 E2].
  unfold blob_string. rewrite E1, E2. case_decide; [by subst|]. apply copy_bytes_full.
Qed.

Lemma text_string_spec row i s db :
  row !! i = Some (SQLITE_TEXT s) -> nul_free s -> text_string row i db = (db, Ok s).
Proof.
  intros H Hs. unfold text_string. by rewrite (memory_text row i s H), Hs.
Qed.

Lemma read_entry_spec p db :
  nul_free (row_command p.2) -> nul_free (row_key p.2) ->
  read_entry (log_columns p) db = (db, Ok (entry_of p)).
Proof.
  intros Hc Hk. unfold read_entry.
  rewrite (bind_ok _ _ _ _ _ (text_string_spec (log_columns p) 2 _ db eq_refl Hc)).
  rewrite (bind_ok _ _ _ _ _ (text_string_spec (log_columns p) 3 _ db eq_refl Hk)).
  unfold mret, M_ret. rewrite (column_int64_spec _ 0 p.1), (column_int64_spec _ 1 (row_term p.2)),
    (blob_string_spec _ 4 (row_value p.2)) by done.
  done.
Qed.

(** The rows of the log table, all of whose text is free of NUL. *)
Definition log_text_ok (p : Z * LogRow) : Prop :=
  nul_free (row_command p.2) /\ nul_free (row_key p.2).

Lemma log_rows_text_ok t : text_ok t -> Forall log_text_ok (log_rows t).
Proof.
  intros Ht. apply Forall_forall. intros [i r] Hin. unfold log_rows in Hin.
  rewrite merge_sort_Permutation in Hin. apply elem_of_map_to_list in Hin.
  by eapply text_log.
Qed.

Lemma logs_from_loop_rows l acc db :
  Forall log_text_ok l ->
  logs_from_loop (row_steps (log_columns <$> l)) acc db = (db, Ok (acc ++ (entry_of <$> l))).
Proof.
  intros Hl. revert acc. induction Hl as [|p l [Hc Hk] Hl IH]; intros acc.
  - cbn. by rewrite app_nil_r.
  - cbn [fmap list_fmap row_steps foldr logs_from_loop].
    rewrite (bind_ok _ _ _ _ _ (read_entry_spec p db Hc Hk)).
    fold (row_steps (log_columns <$> l)). rewrite IH. by rewrite <- app_assoc.
Qed.

Lemma logs_from_loop_error l acc n db :
  Forall log_text_ok l ->
  exists w, logs_from_loop (row_steps_error n (log_columns <$> l)) acc db =
            (db, Throw (RuntimeError w)).
Proof.
  intros Hl. revert acc n. induction Hl as [|p l [Hc Hk] Hl IH]; intros acc [|n];
    try by eexists.
  cbn. rewrite (bind_ok _ _ _ _ _ (read_entry_spec p db Hc Hk)). apply IH.
Qed.

Lemma all_kv_loop_rows l acc db :
  Forall (fun p => nul_free p.1) l ->
  all_kv_loop (row_steps ((fun p => [SQLITE_TEXT p.1; SQLITE_BLOB p.2]) <$> l)) acc db =
    (db, Ok (acc ++ l)).
Proof.
  intros Hl. revert acc. induction Hl as [|[k v] l Hk Hl IH]; intros acc.
  - cbn. by rewrite app_nil_r.
  - cbn [fmap list_fmap row_steps foldr all_kv_loop].
    rewrite (memory_text _ 0 k), (blob_string_spec _ 1 v) by done. simpl in Hk |- *.
    rewrite Hk. fold (row_steps ((fun p => [SQLITE_TEXT p.1; SQLITE_BLOB p.2]) <$> l)).
    rewrite IH. by rewrite <- app_assoc.
Qed.

Lemma all_kv_loop_error l acc n db :
  exists w, all_kv_loop (row_steps_error n l) acc db = (db, Throw (RuntimeError w)).
Proof.
  revert acc n. induction l as [|row l IH]; intros acc [|n]; try by eexists. apply IH.
Qed.

(** *** The methods *)

Ltac stmt_in := repeat (first [by left|right]).

Lemma put_outcome k v : outcome (put k v) (st_put k v).
Proof. apply (blob_outcome _ _ [SQLITE_TEXT (c_str k)]); [stmt_in|done|auto]. Qed.

Lemma erase_outcome k : outcome (erase k) (st_erase k).
Proof. eapply update_outcome; [stmt_in|binding|done|auto]. Qed.

Lemma append_log_outcome e : outcome (append_log e) (st_append_log e).
Proof.
  apply (blob_outcome _ _ [SQLITE_INTEGER (e_index e); SQLITE_INTEGER (e_term e);
    SQLITE_TEXT (c_str (e_command e)); SQLITE_TEXT (c_str (e_key e))]); [stmt_in|done|].
  intros b t Ht. by apply (text_ok_append (with_value b e)).
Qed.

Lemma truncate_log_from_outcome i : outcome (truncate_log_from i) (st_truncate_log_from i).
Proof. eapply update_outcome; [stmt_in|binding|done|auto]. Qed.

Lemma set_meta_outcome k v : outcome (set_meta k v) (st_set_meta k v).
Proof. eapply update_outcome; [stmt_in|binding|done|auto]. Qed.

Lemma get_outcome k : outcome (get k) (st_get k).
Proof.
  eapply select_outcome; [stmt_in|binding|intros; reflexivity|..]; simpl.
  - intros t db Ht. destruct (kv t !! c_str k); simpl; [|done].
    by erewrite blob_string_spec.
  - intros t [|n] db Ht; destruct (kv t !! c_str k); try by (right; eexists).
    left. simpl. by erewrite blob_string_spec.
Qed.

Lemma get_meta_outcome k : outcome (get_meta k) (st_get_meta k).
Proof.
  eapply select_outcome; [stmt_in|binding|intros; reflexivity|..]; simpl.
  - intros t db Ht. destruct (meta t !! c_str k) as [v|] eqn:E; simpl; [|done].
    rewrite (memory_text _ 0 v) by done. simpl. by rewrite (text_meta t Ht _ _ E).
  - intros t [|n] db Ht; destruct (meta t !! c_str k) as [v|] eqn:E; try by (right; eexists).
    left. simpl. rewrite (memory_text _ 0 v) by done. simpl.
    by rewrite (text_meta t Ht _ _ E).
Qed.

Lemma log_at_outcome i : outcome (log_at i) (st_log_at i).
Proof.
  assert (Hrow : forall t r db, text_ok t -> raft_log t !! i = Some r ->
    (entry ← read_entry (log_columns (i, r)); mret (Some entry)) db =
    (db, Ok (Some (entry_of (i, r))))).
  { intros t r db Ht E. destruct (text_log t Ht i r E) as [Hc Hk].
    by rewrite (bind_ok _ _ _ _ _ (read_entry_spec (i, r) db Hc Hk)). }
  eapply select_outcome; [stmt_in|binding|intros; reflexivity|..]; simpl; unfold tb_log_at.
  - intros t db Ht. destruct (raft_log t !! i) as [r|] eqn:E; [|done].
    by apply (Hrow t).
  - intros t [|n] db Ht; destruct (raft_log t !! i) as [r|] eqn:E; try by (right; eexists).
    left. by apply (Hrow t).
Qed.

Lemma logs_from_outcome i : outcome (logs_from i) (st_logs_from i).
Proof.
  assert (Hok : forall t, text_ok t ->
    Forall log_text_ok (filter (fun p => i <= p.1) (log_rows t))).
  { intros t Ht. apply Forall_forall. intros p [_ Hp]%list_elem_of_filter.
    by apply (proj1 (Forall_forall _ _) (log_rows_text_ok t Ht)). }
  eapply select_outcome; [stmt_in|binding|intros; reflexivity|..]; intros.
  - apply logs_from_loop_rows; auto.
  - right. apply logs_from_loop_error; auto.
Qed.

Lemma last_log_index_outcome : outcome last_log_index st_last_log_index.
Proof.
  eapply select_outcome; [stmt_in|binding|intros; reflexivity|..].
  - intros t db Ht. unfold mbind, M_bind. simpl. unfold mret, M_ret.
    by erewrite column_int64_spec.
  - intros t [|n] db Ht; [right; by eexists|left]. unfold mbind, M_bind. simpl.
    unfold mret, M_ret. by erewrite column_int64_spec.
Qed.

Lemma last_log_term_outcome : outcome last_log_term st_last_log_term.
Proof.
  eapply select_outcome; [stmt_in|binding|intros; reflexivity|..]; simpl; unfold tb_last_log_term.
  - intros t db Ht. destruct (last (log_rows t)) as [p|]; simpl; [|done].
    by erewrite column_int64_spec.
  - intros t [|n] db Ht; destruct (last (log_rows t)) as [p|]; try by (right; eexists).
    left. simpl. by erewrite column_int64_spec.
Qed.

Lemma all_kv_outcome : outcome all_kv (gets kv_rows).
Proof.
  eapply select_outcome; [stmt_in|binding|intros; reflexivity|..].
  - intros t db Ht. apply all_kv_loop_rows. apply Forall_forall. intros [k v] Hin.
    unfold kv_rows in Hin. rewrite merge_sort_Permutation in Hin.
    apply elem_of_map_to_list in Hin. by eapply text_kv.
  - intros. right. apply all_kv_loop_error.
Qed.

(** *** The transaction of [clear_all] *)

(** The connection is in a transaction that started from [t0]. *)
Definition in_txn (db : sqlite3) (t0 t : Tables) : Prop :=
  db_ready db /\ db_state db = (t, Some t0).

Lemma exec_in_txn sql db t0 t t' :
  in_txn db t0 t -> sql_txn sql (t, Some t0) = Some (t', Some t0) -> sql <> "ROLLBACK;" ->
  exists db', db_ready db' /\
    (exec sql db = (db', Ok tt) /\ db_state db' = (t', Some t0) \/
     ((exists w, exec sql db = (db', Throw (RuntimeError w))) /\
      ((exists t1, db_state db' = (t1, Some t0)) \/ db_state db' = (t0, None)) /\
      ~ SqliteReliable SQL)).
Proof.
  intros [Hr Hs] Ht Hne. rewrite <- Hs in Ht.
  destruct (exec_txn db sql _ Hr Ht) as (db' & Hh & [[E E']|(_ & [err E] & Hst)]);
    exists db'; (split; [unfold db_ready in *; by rewrite Hh|]); unfold exec; rewrite E.
  - by left.
  - right. split; [by eexists|]. split.
    + rewrite Hs in Hst. destruct Hst as [->|(t1 & [= ->] & ->)]; eauto.
    + intros HR. pose proof (exec_ok db sql _ Hr Ht). by rewrite E in *.
Qed.

(** The guarded statements of [clear_all]: the tables are emptied and the
    transaction committed, or one of the statements fails. *)
Lemma clear_body db t0 :
  in_txn db t0 t0 ->
  exists db', db_ready db' /\
    ((exec "DELETE FROM kv;" ;; exec "DELETE FROM raft_log;" ;;
      exec "DELETE FROM meta;" ;; exec "COMMIT;") db = (db', Ok tt) /\
     db_state db' = (empty_tables, None) \/
     ((exists w, (exec "DELETE FROM kv;" ;; exec "DELETE FROM raft_log;" ;;
                  exec "DELETE FROM meta;" ;; exec "COMMIT;") db =
                 (db', Throw (RuntimeError w))) /\
      ((exists t1, db_state db' = (t1, Some t0)) \/ db_state db' = (t0, None)) /\
      ~ SqliteReliable SQL)).
Proof.
  intros H0.
  edestruct (exec_in_txn "DELETE FROM kv;" db) as (d1 & R1 & [[E1 S1]|([w E1] & B1)]); [done..| |].
  2: { exists d1. split; [done|right]. split; [|done]. exists w. by apply bind_throw. }
  edestruct (exec_in_txn "DELETE FROM raft_log;" d1) as (d2 & R2 & [[E2 S2]|([w E2] & B2)]);
    [by split|done..| |]; setoid_rewrite (bind_ok _ _ _ _ _ E1).
  2: { exists d2. split; [done|right]. split; [|done]. exists w. by apply bind_throw. }
  edestruct (exec_in_txn "DELETE FROM meta;" d2) as (d3 & R3 & [[E3 S3]|([w E3] & B3)]);
    [by split|done..| |]; setoid_rewrite (bind_ok _ _ _ _ _ E2).
  2: { exists d3. split; [done|right]. split; [|done]. exists w. by apply bind_throw. }
  setoid_rewrite (bind_ok _ _ _ _ _ E3).
  assert (Hc : sql_txn "COMMIT;" (db_state d3) = Some (empty_tables, None)) by (by rewrite S3).
  destruct (exec_txn d3 "COMMIT;" _ R3 Hc) as (d4 & Hh & Hc4).
  exists d4. split; [unfold db_ready in *; by rewrite Hh|]. unfold exec.
  destruct Hc4 as [[-> E4]|(_ & [err E4] & Hst)]; [by left|right]. rewrite E4.
  split; [by eexists|]. split.
  - rewrite S3 in Hst. destruct Hst as [->|(t1 & [= ->] & ->)]; eauto.
  - intros HR. pose proof (exec_ok d3 _ _ R3 Hc). by rewrite E4 in *.
Qed.

(** Whatever went wrong inside, the handler leaves the tables as they were
    at the start of the transaction and throws. *)
Lemma rollback_restores db t0 e :
  db_ready db -> ((exists t, db_state db = (t, Some t0)) \/ db_state db = (t0, None)) ->
  text_ok t0 ->
  exists db' e', (exec "ROLLBACK;" ;; throw (A := unit) e) db = (db', Throw e') /\
    (e' = e \/ exists w, e' = RuntimeError w) /\ db_holds db' t0.
Proof.
  intros Hr Hst Ht. unfold mbind, M_bind, exec. destruct Hst as [[t Hs]|Hs].
  - destruct (exec_txn db "ROLLBACK;" (t0, None) Hr) as (db' & Hh & [[E E']|[? _]]);
      [by rewrite Hs| |done].
    exists db', e. rewrite E. split; [done|]. split; [by left|].
    unfold db_holds, db_ready in *. by rewrite Hh, E'.
  - destruct (exec_rollback_idle db t0 Hs) as (db' & err & E & Hh & E').
    exists db', (RuntimeError (default "sqlite execution failed" err)). rewrite E.
    split; [done|]. split; [right; by eexists|].
    unfold db_holds, db_ready in *. by rewrite Hh, E'.
Qed.

Lemma clear_all_outcome : outcome clear_all st_clear_all.
Proof.
  intros db t Hdb. pose proof Hdb as (Hr & Hs & Ht).
  unfold clear_all.
  destruct (exec_txn db "BEGIN IMMEDIATE;" (t, Some t) Hr) as (db1 & Hh & [[E E1]|Hbad]);
    [by rewrite Hs|..].
  2: { destruct Hbad as (_ & [err E] & Hst). exists db1. right. split; [|split].
       - eexists. apply bind_throw. unfold exec. by rewrite E.
       - apply (db_holds_ready db t); [done|done| |done]. rewrite Hs in Hst. naive_solver.
       - intros HR. assert (Hx : sql_txn "BEGIN IMMEDIATE;" (db_state db) = Some (t, Some t))
           by (by rewrite Hs).
         pose proof (exec_ok db _ _ Hr Hx). by rewrite E in *. }
  assert (Hin : in_txn db1 t t).
  { split; [|done]. unfold db_ready in *. by rewrite Hh. }
  assert (Eb : exec "BEGIN IMMEDIATE;" db = (db1, Ok tt)) by (unfold exec; by rewrite E).
  clear E E1 Hh.
  set (body := exec "DELETE FROM kv;" ;; exec "DELETE FROM raft_log;" ;;
               exec "DELETE FROM meta;" ;; exec "COMMIT;").
  assert (Hbody : exists db2, db_ready db2 /\
    (body db1 = (db2, Ok tt) /\ db_state db2 = (empty_tables, None) \/
     ((exists w, body db1 = (db2, Throw (RuntimeError w))) /\
      ((exists t1, db_state db2 = (t1, Some t)) \/ db_state db2 = (t, None)) /\
      ~ SqliteReliable SQL))) by (by apply clear_body).
  setoid_rewrite (bind_ok _ _ _ _ _ Eb). unfold catch. fold body.
  destruct Hbody as (db2 & Hr2 & [[E E2]|([w E] & Hst & HR)]); setoid_rewrite E.
  - exists db2. left. exists empty_tables, (Ok tt). split; [done|]. split; [done|].
    split; [done|]. split; [done|]. apply text_ok_empty.
  - destruct (rollback_restores db2 t (RuntimeError w) Hr2 Hst Ht) as (db3 & e & E3 & He & Hd).
    exists db3. right. split; [|done]. destruct He as [->|[w' ->]]; eauto.
Qed.
End proofs.

(** ** The interface is implemented when SQLite reports no error *)

Section implements.
Context {SQL : Sqlite} {SPEC : SqliteSpec SQL} {REL : SqliteReliable SQL}.

Lemma outcome_sim {A} (m : M sqlite3 A) (p : M Tables A) : outcome m p -> sim db_holds m p.
Proof.
  intros Ho db t Hdb. destruct (Ho db t Hdb) as (db' & [(t' & r & ?)|(_ & _ & [])]); [|done].
  exists db', t', r. naive_solver.
Qed.

Lemma exec_schema_ok sql db t :
  sql ∈ SQL_schema -> db_state db = (t, None) ->
  exists db', exec sql db = (db', Ok tt) /\ db_state db' = (t, None) /\
    db_has db ∪ {[sql]} ⊆ db_has db'.
Proof.
  intros Hin Hs. assert (Hn : (db_state db).2 = None) by (by rewrite Hs).
  pose proof (schema_ok db sql Hin Hn) as Hok.
  destruct (exec_schema db sql Hin Hn) as (db' & Hs' & Hsub & [[E Hx]|[err E]]);
    rewrite E in Hok; [|done].
  exists db'. unfold exec. rewrite E, Hs', Hs. set_solver.
Qed.

Lemma initialize_ok db t :
  db_state db = (t, None) ->
  exists db', initialize db = (db', Ok tt) /\ db_ready db' /\ db_state db' = (t, None).
Proof.
  intros Hs0. unfold initialize.
  destruct (exec_schema_ok "PRAGMA journal_mode=WAL;" db t) as (d1 & E1 & S1 & H1);
    [by left|done|].
  destruct (exec_schema_ok "PRAGMA synchronous=NORMAL;" d1 t) as (d2 & E2 & S2 & H2);
    [do 1 right; by left|done|].
  destruct (exec_schema_ok "PRAGMA foreign_keys=ON;" d2 t) as (d3 & E3 & S3 & H3);
    [do 2 right; by left|done|].
  destruct (exec_schema_ok SQL_create_kv d3 t) as (d4 & E4 & S4 & H4);
    [do 3 right; by left|done|].
  destruct (exec_schema_ok SQL_create_log d4 t) as (d5 & E5 & S5 & H5);
    [do 4 right; by left|done|].
  destruct (exec_schema_ok SQL_create_meta d5 t) as (d6 & E6 & S6 & H6);
    [do 5 right; by left|done|].
  exists d6. rewrite (bind_ok _ _ _ _ _ E1), (bind_ok _ _ _ _ _ E2), (bind_ok _ _ _ _ _ E3),
    (bind_ok _ _ _ _ _ E4), (bind_ok _ _ _ _ _ E5).
  split; [done|]. split; [|done]. unfold db_ready. set_solver.
Qed.

Lemma open_ok_holds f t :
  file_tables f = t -> text_ok t -> exists db, open f = Ok db /\ db_holds db t.
Proof.
  intros Hf Ht. destruct (open_ok f) as [db0 E].
  pose proof (open_spec f db0 E) as Hs. rewrite Hf in Hs.
  destruct (initialize_ok db0 t Hs) as (db & Ei & Hr & Hs').
  exists db. unfold open. rewrite E, Ei. done.
Qed.

(** The methods of [SqliteStore], on a connection that holds the tables [t],
    return what the table operations return on [t]. *)
#[export] Instance SqliteStoreSpec : StoreSpec sqlite3.
Proof.
  refine {| holds := db_holds;
            file_holds := fun f t => file_tables f = t /\ text_ok t |}.
  - intros. apply outcome_sim, put_outcome.
  - intros. apply outcome_sim, erase_outcome.
  - intros. apply outcome_sim, get_outcome.
  - intros. apply outcome_sim, append_log_outcome.
  - intros. apply outcome_sim, truncate_log_from_outcome.
  - intros. apply outcome_sim, log_at_outcome.
  - intros. apply outcome_sim, logs_from_outcome.
  - apply outcome_sim, last_log_index_outcome.
  - apply outcome_sim, last_log_term_outcome.
  - intros. apply outcome_sim, set_meta_outcome.
  - intros. apply outcome_sim, get_meta_outcome.
  - apply outcome_sim, clear_all_outcome.
  - intros f t [Hf Ht]. by apply open_ok_holds.
  - intros db t (_ & Hs & Ht). split; [|done].
    change (st_close db) with (sqlite3_close db). by rewrite close_spec, Hs.
Defined.
End implements.
