(* ===== verification/StoreProperties.v ===== *)
(** * The properties of the SQLite store

    What the store promises even when SQLite reports errors: an operation that
    returns has taken effect, one that throws has changed nothing, and
    [clear_all] is atomic. *)

From S2P Require Import Prelude CppStd Sqlite Store SqliteStore SqliteStoreProofs.

#[local] Open Scope Z_scope.

(** C13: what is put is got back.  Whatever statements SQLite fails to prepare or to
    step, as long as it has the memory to copy parameters and columns: if a put and
    a later get of the store both return, the get returns the value put for the key that was put (keys are
    compared up to their first NUL, a value whose size is an [int] is kept byte
    for byte) and what was there before for any other key; a put that throws has
    changed no key. *)
Theorem store_put_get {SQL : Sqlite} {SPEC : SqliteSpec SQL} {MEM : SqliteMemory SQL} (db : sqlite3) (t : Tables)
    (k k' v : string) :
  db_holds db t -> fits_int v ->
  let '(db1, r1) := put k v db in
  let '(db2, r2) := get k' db1 in
  (exists t1, db_holds db2 t1) /\
  (forall o, r2 = Ok o ->
     (r1 = Ok tt -> o = if decide (c_str k = c_str k') then Some v else kv t !! c_str k') /\
     (forall e, r1 = Throw e -> o = kv t !! c_str k')).
Proof.
  intros Hdb Hv. destruct (put_outcome k v db t Hdb) as (db1 & Hput).
  simpl in Hput. rewrite modify_blob_fits in Hput by done.
  assert (Hget : forall t1, db_holds db1 t1 -> exists db2 r2, get k' db1 = (db2, r2) /\
    db_holds db2 t1 /\ (forall o, r2 = Ok o -> o = kv t1 !! c_str k')).
  { intros t1 Hdb1. destruct (get_outcome k' db1 t1 Hdb1) as (db2 & [(t2 & r & -> & E & Hd2)|([w ->] & Hd2 & _)]).
    - simpl in E. unfold gets in E. simplify_eq. exists db2, (Ok (kv t2 !! c_str k')).
      split_and!; try done. by intros o [= <-].
    - by exists db2, (Throw (RuntimeError w)). }
  destruct Hput as [(t1 & r & -> & E & Hd1)|([w ->] & Hd1 & _)].
  - simpl in E. unfold modify in E. simplify_eq.
    destruct (Hget _ Hd1) as (db2 & r2 & -> & Hd2 & Ho). split; [eauto|]. intros o Hr.
    split; [|done]. intros _. rewrite (Ho o Hr). simpl. case_decide as E.
    + by rewrite E, lookup_insert_eq.
    + by rewrite lookup_insert_ne.
  - destruct (Hget _ Hd1) as (db2 & r2 & -> & Hd2 & Ho). split; [eauto|]. intros o Hr.
    split; [done|]. intros _ _. by apply Ho.
Qed.

(** A connection to an empty in-memory database. *)
Definition mem_db : MemDb := match open (SQL := MemSqlite) empty_tables with
  | Ok db => db
  | Throw _ => {| mem_tables := empty_tables; mem_saved := None; mem_has := ∅ |}
  end.

Lemma mem_db_holds : db_holds (SQL := MemSqlite) mem_db empty_tables.
Proof.
  unfold mem_db. destruct (open_ok_holds (SQL := MemSqlite) empty_tables empty_tables) as (db & E & Hd);
    [done|apply text_ok_empty|]. by rewrite E.
Qed.

Lemma store_put_get_witness :
  let '(db1, r1) := put (SQL := MemSqlite) "k" "v" mem_db in
  let '(db2, r2) := get (SQL := MemSqlite) "k" db1 in
  (exists t1, db_holds (SQL := MemSqlite) db2 t1) /\
  (forall o, r2 = Ok o ->
     (r1 = Ok tt -> o = if decide (c_str "k" = c_str "k") then Some "v" else kv empty_tables !! c_str "k") /\
     (forall e, r1 = Throw e -> o = kv empty_tables !! c_str "k")).
Proof. apply (store_put_get (SQL := MemSqlite) mem_db empty_tables "k" "k" "v" mem_db_holds). done. Defined.

(** C14: [clear_all] is atomic.  Whatever statement of its transaction fails,
    either it returns and every table is empty, or it throws a
    [std::runtime_error] and every table is as before; no transaction stays
    open. *)
Theorem clear_all_atomic {SQL : Sqlite} {SPEC : SqliteSpec SQL} (db : sqlite3) (t : Tables) :
  db_holds db t ->
  exists db', (clear_all db = (db', Ok tt) /\ db_holds db' empty_tables) \/
              (exists e, clear_all db = (db', Throw (RuntimeError e)) /\ db_holds db' t).
Proof.
  intros Hdb. destruct (clear_all_outcome db t Hdb) as (db' & [(t1 & r & -> & E & Hd)|([w ->] & Hd & _)]).
  - simpl in E. unfold modify in E. simplify_eq. exists db'. by left.
  - exists db'. right. by exists w.
Qed.

Lemma clear_all_atomic_witness :
  exists db', (clear_all (SQL := MemSqlite) mem_db = (db', Ok tt) /\ db_holds (SQL := MemSqlite) db' empty_tables) \/
    (exists e, clear_all (SQL := MemSqlite) mem_db = (db', Throw (RuntimeError e)) /\
               db_holds (SQL := MemSqlite) db' empty_tables).
Proof. apply (clear_all_atomic (SQL := MemSqlite) mem_db empty_tables mem_db_holds). Defined.

(** C15: the log table gives back what was appended, as long as SQLite has the
    memory to copy parameters and columns.  If [append_log] returns,
    reading its index returns the entry with its value (whose size is an [int])
    byte for byte and its command and key up to their first NUL, unless SQLite
    fails the read; an entry of another index is not affected. *)
Theorem store_append_log_at {SQL : Sqlite} {SPEC : SqliteSpec SQL} {MEM : SqliteMemory SQL} (db : sqlite3) (t : Tables)
    (e : LogEntry) (i : Z) :
  db_holds db t -> fits_int (e_value e) -> (append_log e db).2 = Ok tt ->
  forall o, (log_at i (append_log e db).1).2 = Ok o ->
  o = if decide (i = e_index e) then Some (clean_entry e) else tb_log_at i t.
Proof.
  intros Hdb Hv Ha o Ho.
  destruct (append_log_outcome e db t Hdb) as (db1 & [(t1 & r & E1 & E & Hd1)|([w E1] & _)]);
    rewrite E1 in Ha, Ho; simpl in Ha, Ho; [|done].
  rewrite append_log_fits in E by done. unfold modify in E. simplify_eq.
  destruct (log_at_outcome i db1 _ Hd1) as (db2 & [(t2 & r & E2 & E & _)|([w E2] & _)]);
    rewrite E2 in Ho; simpl in Ho; [|done].
  simpl in E. unfold gets in E. simplify_eq. unfold tb_log_at. simpl. case_decide as Hi.
  - subst. rewrite lookup_insert_eq. simpl. by destruct e.
  - by rewrite lookup_insert_ne.
Qed.

Lemma store_append_log_at_witness :
  let e := {| e_index := 1; e_term := 1; e_command := "PUT"; e_key := "k" +:+ String nul "x"; e_value := String nul "v" |} in
  exists o, (log_at (SQL := MemSqlite) 1 (append_log (SQL := MemSqlite) e mem_db).1).2 = Ok o /\
    o = Some {| e_index := 1; e_term := 1; e_command := "PUT"; e_key := "k"; e_value := String nul "v" |}.
Proof.
  intros e. eexists. split; [vm_compute; reflexivity|].
  apply (store_append_log_at (SQL := MemSqlite) mem_db empty_tables e 1 mem_db_holds);
    [done|reflexivity..].
Defined.
