(* ===== verification/Raft.v ===== *)
(** * src/raft.cpp: one replica of a Raft group

    The state of a [RaftReplica] is its volatile fields and its store; every
    method runs under the replica's mutex, so it is one state-passing function.
    The replica is parametrised by the type of its store (interface [Store]). *)

From S2P Require Import Prelude CppStd Common Sqlite Store.

#[local] Open Scope Z_scope.

Inductive Role := Follower | Candidate | Leader.

#[export] Instance Role_eq_dec : EqDecision Role.
Proof. solve_decision. Defined.

Definition role_to_string (role : Role) : string :=
  match role with
  | Follower => "follower"
  | Candidate => "candidate"
  | Leader => "leader"
  end.

Record ReplicaSnapshot := {
  snap_term : Z;
  snap_commit_index : Z;
  snap_log : list LogEntry;
}.

Record Replica (S : Type) := {
  r_id : string;
  r_shard_id : Z;
  r_store : S;
  r_role : Role;
  r_online : bool;
  r_term : Z;
  r_voted_for : string;
  r_commit : Z;
  r_applied : Z;
}.
Arguments r_id {S}. Arguments r_shard_id {S}. Arguments r_store {S}.
Arguments r_role {S}. Arguments r_online {S}. Arguments r_term {S}.
Arguments r_voted_for {S}. Arguments r_commit {S}. Arguments r_applied {S}.

(** Assignments to the fields. *)
Section fields.
Context {S : Type}.
Implicit Type r : Replica S.

Definition with_store {S'} (st : S') r : Replica S' :=
  {| r_id := r_id r; r_shard_id := r_shard_id r; r_store := st; r_role := r_role r;
     r_online := r_online r; r_term := r_term r; r_voted_for := r_voted_for r;
     r_commit := r_commit r; r_applied := r_applied r |}.
Definition with_role (x : Role) r : Replica S :=
  {| r_id := r_id r; r_shard_id := r_shard_id r; r_store := r_store r; r_role := x;
     r_online := r_online r; r_term := r_term r; r_voted_for := r_voted_for r;
     r_commit := r_commit r; r_applied := r_applied r |}.
Definition with_online (x : bool) r : Replica S :=
  {| r_id := r_id r; r_shard_id := r_shard_id r; r_store := r_store r; r_role := r_role r;
     r_online := x; r_term := r_term r; r_voted_for := r_voted_for r;
     r_commit := r_commit r; r_applied := r_applied r |}.
Definition with_term (x : Z) r : Replica S :=
  {| r_id := r_id r; r_shard_id := r_shard_id r; r_store := r_store r; r_role := r_role r;
     r_online := r_online r; r_term := x; r_voted_for := r_voted_for r;
     r_commit := r_commit r; r_applied := r_applied r |}.
Definition with_voted_for (x : string) r : Replica S :=
  {| r_id := r_id r; r_shard_id := r_shard_id r; r_store := r_store r; r_role := r_role r;
     r_online := r_online r; r_term := r_term r; r_voted_for := x;
     r_commit := r_commit r; r_applied := r_applied r |}.
Definition with_commit (x : Z) r : Replica S :=
  {| r_id := r_id r; r_shard_id := r_shard_id r; r_store := r_store r; r_role := r_role r;
     r_online := r_online r; r_term := r_term r; r_voted_for := r_voted_for r;
     r_commit := x; r_applied := r_applied r |}.
Definition with_applied (x : Z) r : Replica S :=
  {| r_id := r_id r; r_shard_id := r_shard_id r; r_store := r_store r; r_role := r_role r;
     r_online := r_online r; r_term := r_term r; r_voted_for := r_voted_for r;
     r_commit := r_commit r; r_applied := x |}.
End fields.

Section methods.
Context {S : Type} `{Store S}.

(** [store_->m()] *)
Definition on_store {A} (m : M S A) : M (Replica S) A := zoom r_store with_store m.

(** Reading the volatile fields (all but the store). *)
Definition volatile : M (Replica S) (Replica unit) := gets (with_store tt).

Definition set_online (online : bool) : M (Replica S) unit :=
  modify (with_online online) ;;
  when (negb online) (modify (with_role Follower)).

Definition set_role (role : Role) : M (Replica S) unit := modify (with_role role).

Definition last_log_index : M (Replica S) Z := on_store st_last_log_index.
Definition last_log_term : M (Replica S) Z := on_store st_last_log_term.

Definition term_at (index : Z) : M (Replica S) Z :=
  if index =? 0 then mret 0
  else entry ← on_store (st_log_at index);
       mret (match entry with Some e => e_term e | None => -1 end).

Definition logs_from (index : Z) : M (Replica S) (list LogEntry) :=
  on_store (st_logs_from index).

Definition persist_state : M (Replica S) unit :=
  r ← volatile;
  on_store (st_set_meta "current_term" (to_string (r_term r))) ;;
  on_store (st_set_meta "voted_for" (r_voted_for r)) ;;
  on_store (st_set_meta "commit_index" (to_string (r_commit r))) ;;
  on_store (st_set_meta "last_applied" (to_string (r_applied r))).

Definition apply_entry (entry : LogEntry) : M (Replica S) unit :=
  if decide (e_command entry = "PUT") then on_store (st_put (e_key entry) (e_value entry))
  else if decide (e_command entry = "DELETE") then on_store (st_erase (e_key entry))
  else throw (RuntimeError ("unknown raft command: " +:+ e_command entry)).

Definition request_vote (term : Z) (candidate_id : string)
    (candidate_last_index candidate_last_term : Z) : M (Replica S) bool :=
  r ← volatile;
  if negb (r_online r) || (term <? r_term r) then mret false
  else
    when (r_term r <? term)
      (modify (with_term term) ;; modify (with_voted_for "") ;;
       modify (with_role Follower)) ;;
    own_last_term ← on_store st_last_log_term;
    own_last_index ← on_store st_last_log_index;
    let candidate_is_current :=
      (own_last_term <? candidate_last_term) ||
      ((candidate_last_term =? own_last_term) && (own_last_index <=? candidate_last_index)) in
    voted_for ← gets r_voted_for;
    if candidate_is_current &&
       (bool_decide (voted_for = "") || bool_decide (voted_for = candidate_id))
    then modify (with_voted_for candidate_id) ;; persist_state ;; mret true
    else persist_state ;; mret false.

(** One turn of the loops that apply the committed entries: the entry at
    [index] is applied, and the loop stops where the log has none. *)
Definition apply_at (index : Z) : M (Replica S) loop_control :=
  entry ← on_store (st_log_at index);
  match entry with
  | None => mret Break
  | Some e => apply_entry e ;; modify (with_applied index) ;; mret Continue
  end.

(** The same without the [break]: a missing entry is skipped. *)
Definition apply_present (index : Z) : M (Replica S) loop_control :=
  entry ← on_store (st_log_at index);
  match entry with
  | None => mret Continue
  | Some e => apply_entry e ;; modify (with_applied index) ;; mret Continue
  end.

(** The body of the loop of [append_entries] over the received entries. *)
Definition store_entry (entry : LogEntry) : M (Replica S) unit :=
  existing ← on_store (st_log_at (e_index entry));
  when (match existing with Some x => negb (e_term x =? e_term entry) | None => false end)
    (on_store (st_truncate_log_from (e_index entry))) ;;
  existing ← on_store (st_log_at (e_index entry));
  match existing with
  | Some _ => mret tt
  | None => on_store (st_append_log entry)
  end.

Definition append_entries (term : Z) (leader_id : string) (prev_log_index prev_log_term : Z)
    (entries : list LogEntry) (leader_commit : Z) : M (Replica S) bool :=
  r ← volatile;
  if negb (r_online r) || (term <? r_term r) then mret false
  else
    when (r_term r <? term) (modify (with_term term) ;; modify (with_voted_for "")) ;;
    modify (with_role Follower) ;;
    modify (with_voted_for leader_id) ;;
    consistent ←
      (if 0 <? prev_log_index then
         previous ← on_store (st_log_at prev_log_index);
         mret (match previous with
               | Some p => e_term p =? prev_log_term
               | None => false
               end)
       else mret true);
    if negb consistent then persist_state ;; mret false
    else
      for_each entries store_entry ;;
      last_index ← on_store st_last_log_index;
      let new_commit := Z.min leader_commit last_index in
      r ← volatile;
      when (r_commit r <? new_commit)
        (for_range (r_applied r + 1) new_commit apply_at ;;
         modify (with_commit (Z.max (r_commit r) new_commit))) ;;
      persist_state ;;
      mret true.

Definition append_local (command key value : string) : M (Replica S) LogEntry :=
  r ← volatile;
  if negb (r_online r) || bool_decide (r_role r <> Leader)
  then throw (RuntimeError "append_local requires an online leader")
  else
    last_index ← on_store st_last_log_index;
    let entry := {| e_index := last_index + 1; e_term := r_term r;
                    e_command := command; e_key := key; e_value := value |} in
    on_store (st_append_log entry) ;;
    mret entry.

Definition commit_to (index : Z) : M (Replica S) unit :=
  r ← volatile;
  if negb (r_online r) then mret tt
  else
    last_index ← on_store st_last_log_index;
    let target := Z.min index last_index in
    for_range (r_applied r + 1) target apply_at ;;
    modify (with_commit (Z.max (r_commit r) target)) ;;
    persist_state.

Definition discard_uncommitted : M (Replica S) unit :=
  r ← volatile;
  on_store (st_truncate_log_from (r_commit r + 1)).

Definition get (key : string) : M (Replica S) (option string) :=
  r ← volatile;
  if negb (r_online r) then mret None else on_store (st_get key).

(** [static_cast<std::size_t>] makes the commit index unsigned. *)
Definition export_snapshot : M (Replica S) ReplicaSnapshot :=
  r ← volatile;
  log ← on_store (st_logs_from 1);
  let size := wrap_u64 (r_commit r) in
  mret {| snap_term := r_term r;
          snap_commit_index := r_commit r;
          snap_log := if size <? Z.of_nat (length log) then take (Z.to_nat size) log else log |}.

Definition install_snapshot (snapshot : ReplicaSnapshot) : M (Replica S) unit :=
  r ← volatile;
  if negb (r_online r) then mret tt
  else
    on_store st_clear_all ;;
    modify (with_term (Z.max (r_term r) (snap_term snapshot))) ;;
    modify (with_voted_for "") ;;
    modify (with_role Follower) ;;
    modify (with_commit 0) ;;
    modify (with_applied 0) ;;
    for_each (snap_log snapshot) (fun entry => on_store (st_append_log entry)) ;;
    last_index ← on_store st_last_log_index;
    let target := Z.min (snap_commit_index snapshot) last_index in
    for_range 1 target apply_present ;;
    modify (with_commit target) ;;
    persist_state.

Definition status_json : M (Replica S) string :=
  r ← volatile;
  last_index ← on_store st_last_log_index;
  mret ("{" +:+ q "id" +:+ ":" +:+ q (json_escape (r_id r))
        +:+ "," +:+ q "online" +:+ ":" +:+ (if r_online r then "true" else "false")
        +:+ "," +:+ q "role" +:+ ":" +:+ q (role_to_string (r_role r))
        +:+ "," +:+ q "term" +:+ ":" +:+ to_string (r_term r)
        +:+ "," +:+ q "commit_index" +:+ ":" +:+ to_string (r_commit r)
        +:+ "," +:+ q "last_log_index" +:+ ":" +:+ to_string last_index
        +:+ "}").

(** [std::stoll] on a stored number. *)
Definition stoll_m (s : string) : M (Replica S) Z := fun r => (r, stoll s).

Definition load_state : M (Replica S) unit :=
  value ← on_store (st_get_meta "current_term");
  match value with
  | Some v => z ← stoll_m v; modify (with_term z)
  | None => mret tt
  end ;;
  value ← on_store (st_get_meta "voted_for");
  match value with
  | Some v => modify (with_voted_for v)
  | None => mret tt
  end ;;
  value ← on_store (st_get_meta "commit_index");
  match value with
  | Some v => z ← stoll_m v; modify (with_commit z)
  | None => mret tt
  end ;;
  value ← on_store (st_get_meta "last_applied");
  match value with
  | Some v => z ← stoll_m v; modify (with_applied z)
  | None => mret tt
  end ;;
  r ← volatile;
  when (r_applied r <? r_commit r)
    (for_range (r_applied r + 1) (r_commit r) apply_present ;;
     persist_state).

(** The constructor: open the store, then load the persisted state. *)
Definition fresh_replica (id : string) (shard_id : Z) (st : S) : Replica S :=
  {| r_id := id; r_shard_id := shard_id; r_store := st; r_role := Follower;
     r_online := true; r_term := 0; r_voted_for := ""; r_commit := 0; r_applied := 0 |}.

Definition RaftReplica (id : string) (shard_id : Z) (file : st_file) : result (Replica S) :=
  match st_open file with
  | Throw e => Throw e
  | Ok st => match load_state (fresh_replica id shard_id st) with
             | (r, Ok _) => Ok r
             | (_, Throw e) => Throw e
             end
  end.
End methods.

(** ** Replicas over two stores *)

(** The same volatile fields, and stores related by [R]. *)
Definition rep_rel {S T} (R : S -> T -> Prop) (r1 : Replica S) (r2 : Replica T) : Prop :=
  R (r_store r1) (r_store r2) /\ with_store tt r1 = with_store tt r2.

Lemma rep_rel_fields {S T} (R : S -> T -> Prop) r1 r2 : rep_rel R r1 r2 ->
  r_id r1 = r_id r2 /\ r_shard_id r1 = r_shard_id r2 /\ r_role r1 = r_role r2 /\
  r_online r1 = r_online r2 /\ r_term r1 = r_term r2 /\ r_voted_for r1 = r_voted_for r2 /\
  r_commit r1 = r_commit r2 /\ r_applied r1 = r_applied r2.
Proof. intros [_ E]. by injection E. Qed.

(** Every method of a replica is simulated by the same method of a replica
    over plain tables. *)
Section simulated.
Context {S : Type} `{StoreSpec S}.
Abbreviation R := (rep_rel (holds (S := S))).

Lemma on_store_sim {A} (m1 : M S A) (m2 : M Tables A) :
  sim holds m1 m2 -> sim R (on_store m1) (on_store m2).
Proof.
  apply sim_zoom; [by intros s t []|].
  intros s t s' t' [_ E] Hh. split; [done|]. unfold with_store in *. by simplify_eq.
Qed.

Lemma volatile_sim : sim R volatile volatile.
Proof. apply sim_gets. by intros s t [_ E]. Qed.

Lemma voted_for_sim : sim R (gets r_voted_for) (gets r_voted_for).
Proof. apply sim_gets. intros s t Hr. by apply rep_rel_fields in Hr as (?&?&?&?&?&?&?&?). Qed.

Lemma stoll_sim v : sim R (stoll_m v) (stoll_m v).
Proof. intros s t ?. by exists s, t, (stoll v). Qed.

Ltac field_sim :=
  apply sim_modify; intros s t [? E]; split; [done|];
  injection E; intros; unfold with_store; simpl; congruence.
Lemma with_role_sim x : sim R (modify (with_role x)) (modify (with_role x)).
Proof. field_sim. Qed.
Lemma with_online_sim x : sim R (modify (with_online x)) (modify (with_online x)).
Proof. field_sim. Qed.
Lemma with_term_sim x : sim R (modify (with_term x)) (modify (with_term x)).
Proof. field_sim. Qed.
Lemma with_voted_for_sim x : sim R (modify (with_voted_for x)) (modify (with_voted_for x)).
Proof. field_sim. Qed.
Lemma with_commit_sim x : sim R (modify (with_commit x)) (modify (with_commit x)).
Proof. field_sim. Qed.
Lemma with_applied_sim x : sim R (modify (with_applied x)) (modify (with_applied x)).
Proof. field_sim. Qed.

#[local] Hint Resolve on_store_sim volatile_sim voted_for_sim stoll_sim with_role_sim
  with_online_sim with_term_sim with_voted_for_sim with_commit_sim with_applied_sim : sim.

Lemma set_online_sim b : sim R (set_online b) (set_online b).
Proof. unfold set_online. solve_sim. Qed.
Lemma set_role_sim x : sim R (set_role x) (set_role x).
Proof. unfold set_role. solve_sim. Qed.
Lemma replica_last_log_index_sim : sim R last_log_index last_log_index.
Proof. unfold last_log_index. solve_sim. Qed.
Lemma replica_last_log_term_sim : sim R last_log_term last_log_term.
Proof. unfold last_log_term. solve_sim. Qed.
Lemma term_at_sim i : sim R (term_at i) (term_at i).
Proof. unfold term_at. solve_sim. Qed.
Lemma persist_state_sim : sim R persist_state persist_state.
Proof. unfold persist_state. solve_sim. Qed.
Lemma apply_entry_sim e : sim R (apply_entry e) (apply_entry e).
Proof. unfold apply_entry. solve_sim. Qed.
#[local] Hint Resolve persist_state_sim apply_entry_sim : sim.

Lemma request_vote_sim t c i l : sim R (request_vote t c i l) (request_vote t c i l).
Proof. unfold request_vote. solve_sim. Qed.
Lemma apply_at_sim i : sim R (apply_at i) (apply_at i).
Proof. unfold apply_at. solve_sim. Qed.
Lemma apply_present_sim i : sim R (apply_present i) (apply_present i).
Proof. unfold apply_present. solve_sim. Qed.
Lemma store_entry_sim e : sim R (store_entry e) (store_entry e).
Proof. unfold store_entry. solve_sim. Qed.
#[local] Hint Resolve apply_at_sim apply_present_sim store_entry_sim : sim.

Lemma append_entries_sim t l i p es c :
  sim R (append_entries t l i p es c) (append_entries t l i p es c).
Proof. unfold append_entries. solve_sim. Qed.
Lemma append_local_sim c k v : sim R (append_local c k v) (append_local c k v).
Proof. unfold append_local. solve_sim. Qed.
Lemma commit_to_sim i : sim R (commit_to i) (commit_to i).
Proof. unfold commit_to. solve_sim. Qed.
Lemma discard_uncommitted_sim : sim R discard_uncommitted discard_uncommitted.
Proof. unfold discard_uncommitted. solve_sim. Qed.
Lemma replica_get_sim k : sim R (get k) (get k).
Proof. unfold get. solve_sim. Qed.
Lemma export_snapshot_sim : sim R export_snapshot export_snapshot.
Proof. unfold export_snapshot. solve_sim. Qed.
Lemma install_snapshot_sim s : sim R (install_snapshot s) (install_snapshot s).
Proof. unfold install_snapshot. solve_sim. Qed.
Lemma status_json_sim : sim R status_json status_json.
Proof. unfold status_json. solve_sim. Qed.
Lemma load_state_sim : sim R load_state load_state.
Proof. unfold load_state. solve_sim. Qed.
End simulated.

#[export] Hint Resolve set_online_sim set_role_sim replica_last_log_index_sim
  replica_last_log_term_sim term_at_sim request_vote_sim append_entries_sim append_local_sim
  commit_to_sim discard_uncommitted_sim replica_get_sim export_snapshot_sim
  install_snapshot_sim status_json_sim : sim.
