(* ===== verification/RaftProofs.v ===== *)
(** * What the methods of a replica do

    On a replica whose log table holds the list [l] and whose first [n]
    entries are committed and applied ([at_log l n]), each method has a closed
    description: the list and the count it leaves, the volatile fields it
    changes, and that they are persisted. *)

From S2P Require Import Prelude CppStd Common Sqlite Store LogFacts Raft.

#[local] Open Scope Z_scope.

(** The volatile fields of a replica. *)
Definition vol {S} (r : Replica S) : Replica unit := with_store tt r.

(** The log table is [l], of which the first [n] entries are committed and
    applied, and the key-value table is the result of applying them. *)
Record at_log (l : list LogEntry) (n : nat) (r : Replica Tables) : Prop := {
  at_wf : wf_log l;
  at_raft_log : raft_log (r_store r) = log_map l;
  at_commit : r_commit r = Z.of_nat n;
  at_applied : r_applied r = Z.of_nat n;
  at_le : (n <= length l)%nat;
  at_kv : kv (r_store r) = replay (take n l);
}.

(** The [meta] table records the volatile fields: [load_state] reads them
    back, a missing row standing for the initial value. *)
Definition persisted (r : Replica Tables) : Prop :=
  let m := meta (r_store r) in
  default "0" (m !! "current_term") = to_string (r_term r) /\
  default "" (m !! "voted_for") = r_voted_for r /\
  default "0" (m !! "commit_index") = to_string (r_commit r) /\
  default "0" (m !! "last_applied") = to_string (r_applied r).

(** ** Store calls on a replica over tables *)

Section calls.
Implicit Type r : Replica Tables.

Lemma with_store_id r : with_store (r_store r) r = r.
Proof. by destruct r. Qed.

Lemma on_store_gets {A} (f : Tables -> A) r : on_store (gets f) r = (r, Ok (f (r_store r))).
Proof. by destruct r. Qed.

Lemma on_log_at i r : on_store (st_log_at i) r = (r, Ok (tb_log_at i (r_store r))).
Proof. apply on_store_gets. Qed.
Lemma on_logs_from i r : on_store (st_logs_from i) r = (r, Ok (tb_logs_from i (r_store r))).
Proof. apply on_store_gets. Qed.
Lemma on_last_index r : on_store st_last_log_index r = (r, Ok (tb_last_log_index (r_store r))).
Proof. apply on_store_gets. Qed.
Lemma on_last_term r : on_store st_last_log_term r = (r, Ok (tb_last_log_term (r_store r))).
Proof. apply on_store_gets. Qed.
Lemma on_get_meta k r :
  on_store (st_get_meta k) r = (r, Ok (meta (r_store r) !! c_str k)).
Proof. apply on_store_gets. Qed.
Lemma on_get k r : on_store (st_get k) r = (r, Ok (kv (r_store r) !! c_str k)).
Proof. apply on_store_gets. Qed.
Lemma volatile_run r : volatile r = (r, Ok (vol r)).
Proof. done. Qed.

Lemma at_log_store l n r st :
  at_log l n r -> raft_log st = raft_log (r_store r) -> kv st = kv (r_store r) ->
  at_log l n (with_store st r).
Proof. intros [] E1 E2. split; simpl; congruence. Qed.

Lemma persist_run r :
  nul_free (r_voted_for r) ->
  exists st, persist_state r = (with_store st r, Ok tt) /\
    kv st = kv (r_store r) /\ raft_log st = raft_log (r_store r) /\
    persisted (with_store st r).
Proof.
  intros Hv. eexists. split; [reflexivity|]. simpl. split; [done|]. split; [done|].
  unfold persisted. simpl. rewrite Hv, !to_string_nul_free.
  by rewrite !lookup_insert.
Qed.
End calls.

#[export] Hint Rewrite on_log_at on_logs_from on_last_index on_last_term on_get_meta on_get
  volatile_run : mon.

(** Evaluating the next call of a program with the equations of [mon]. *)
Ltac run1 :=
  first [ erewrite bind_ok by (autorewrite with mon; reflexivity)
        | rewrite bind_assoc ].
Ltac run := repeat run1; autorewrite with mon.

(** ** Applying committed entries *)

(** The table update [apply_entry] makes. *)
Definition apply_tables (e : LogEntry) (t : Tables) : Tables :=
  {| kv := apply_command (kv t) e; raft_log := raft_log t; meta := meta t |}.

Lemma apply_entry_run e (r : Replica Tables) :
  valid_entry e ->
  apply_entry e r = (with_store (apply_tables e (r_store r)) r, Ok tt).
Proof.
  intros [Hc Hv]. unfold apply_entry, apply_tables, apply_command.
  destruct Hc as [Hc|Hc]; rewrite Hc; repeat case_decide; try done.
  unfold on_store, zoom. simpl. by rewrite modify_blob_fits.
Qed.

(** One turn of either apply loop at an index the log has. *)
Definition applied_at (i : Z) (e : LogEntry) (r : Replica Tables) : Replica Tables :=
  with_applied i (with_store (apply_tables e (r_store r)) r).

Lemma apply_at_run i e (r : Replica Tables) :
  tb_log_at i (r_store r) = Some e -> valid_entry e ->
  apply_at i r = (applied_at i e r, Ok Continue).
Proof.
  intros Hi Hc. unfold apply_at. run. rewrite Hi.
  erewrite bind_ok by (by apply apply_entry_run). done.
Qed.

Lemma apply_present_run i e (r : Replica Tables) :
  tb_log_at i (r_store r) = Some e -> valid_entry e ->
  apply_present i r = (applied_at i e r, Ok Continue).
Proof.
  intros Hi Hc. unfold apply_present. run. rewrite Hi.
  erewrite bind_ok by (by apply apply_entry_run). done.
Qed.

(** A loop over the indices [n + 1 .. n + k] of a log that has them all
    applies these entries in order. *)
Lemma apply_loop_run (body : Z -> M (Replica Tables) loop_control) l k n (r : Replica Tables) :
  (forall i e r, tb_log_at i (r_store r) = Some e -> valid_entry e ->
     body i r = (applied_at i e r, Ok Continue)) ->
  wf_log l -> raft_log (r_store r) = log_map l ->
  r_applied r = Z.of_nat n -> kv (r_store r) = replay (take n l) ->
  (n + k <= length l)%nat ->
  exists st, for_loop k (Z.of_nat n + 1) body r =
      (with_applied (Z.of_nat (n + k)) (with_store st r), Ok tt) /\
    raft_log st = log_map l /\ meta st = meta (r_store r) /\ kv st = replay (take (n + k) l).
Proof.
  intros Hbody Hwf. revert n r. induction k as [|k IH]; intros n r Hlog Ha Hkv Hle.
  - exists (r_store r). rewrite Nat.add_0_r. simpl. split; [|done].
    unfold with_applied, with_store. destruct r; simpl in *. by subst.
  - destruct (lookup_lt_is_Some_2 l n) as [e He]; [lia|].
    assert (Hc : valid_entry e).
    { apply (proj1 (Forall_forall _ _) (wf_valid l Hwf)). apply list_elem_of_lookup. eauto. }
    cbn [for_loop]. erewrite bind_ok by (apply Hbody; [by eapply log_at_Some|done]).
    destruct (IH (S n) (applied_at (Z.of_nat n + 1) e r)) as (st & Hrun & H1 & H2 & H3).
    + done.
    + simpl. lia.
    + simpl. rewrite Hkv. by rewrite (take_S_r l n e He), replay_snoc.
    + lia.
    + exists st. replace (Z.of_nat n + 1 + 1) with (Z.of_nat (S n) + 1) by lia.
      rewrite Hrun. replace (S n + k)%nat with (n + S k)%nat in * by lia. done.
Qed.

(** The same for the loop as the code writes it, from [last_applied + 1]. *)
Lemma apply_range_run body l n m (r : Replica Tables) :
  (forall i e r, tb_log_at i (r_store r) = Some e -> valid_entry e ->
     body i r = (applied_at i e r, Ok Continue)) ->
  at_log l n r -> (n <= m <= length l)%nat ->
  exists st, for_range (Z.of_nat n + 1) (Z.of_nat m) body r =
      (with_applied (Z.of_nat m) (with_store st r), Ok tt) /\
    raft_log st = log_map l /\ meta st = meta (r_store r) /\ kv st = replay (take m l).
Proof.
  intros Hbody [] Hm. unfold for_range.
  replace (Z.to_nat (Z.of_nat m - (Z.of_nat n + 1) + 1)) with (m - n)%nat by lia.
  destruct (apply_loop_run body l (m - n) n r) as (st & Hrun & H1 & H2 & H3); try done; [lia|].
  exists st. rewrite Hrun. replace (n + (m - n))%nat with m in * by lia. done.
Qed.

(** ** Appending on the leader *)

(** The entry a leader at term [t] whose log is [l] appends for a command. *)
Definition new_entry (l : list LogEntry) (t : Z) (command key value : string) : LogEntry :=
  {| e_index := Z.of_nat (length l) + 1; e_term := t; e_command := command;
     e_key := key; e_value := value |}.

Lemma valid_command_clean c : valid_command c -> c_str c = c.
Proof. by intros [-> | ->]. Qed.

Lemma valid_entry_clean e : valid_entry e -> valid_entry (clean_entry e).
Proof. intros [Hc Hv]. split; [|done]. simpl. by rewrite valid_command_clean. Qed.

Lemma on_append_log e (r : Replica Tables) :
  fits_int (e_value e) ->
  on_store (st_append_log e) r =
    (with_store (tbl_append (e_index e) (row_of (clean_entry e)) (r_store r)) r, Ok tt).
Proof. intros He. by rewrite append_log_fits. Qed.

Lemma at_log_append l n e (r : Replica Tables) :
  at_log l n r -> e_index e = Z.of_nat (length l) + 1 -> valid_entry e ->
  at_log (l ++ [clean_entry e]) n
    (with_store (tbl_append (e_index e) (row_of (clean_entry e)) (r_store r)) r).
Proof.
  intros [Hwf Hlog Hc Ha Hle Hkv] He Hv. split; simpl; try done.
  - apply wf_log_snoc; simpl; auto using clean_entry_idemp, valid_entry_clean.
  - rewrite Hlog. change (e_index e) with (e_index (clean_entry e)).
    by apply log_map_append.
  - rewrite length_app. lia.
  - by rewrite take_app_le.
Qed.

Lemma append_local_run l n command key value (r : Replica Tables) :
  at_log l n r -> r_online r = true -> r_role r = Leader -> valid_command command -> fits_int value ->
  let e := new_entry l (r_term r) command key value in
  exists st, append_local command key value r = (with_store st r, Ok e) /\
    at_log (l ++ [clean_entry e]) n (with_store st r) /\ meta st = meta (r_store r).
Proof.
  intros Hat Ho Hr Hv Hf e. eexists. split; [|split].
  - unfold append_local. run. simpl. rewrite Ho. rewrite bool_decide_false by naive_solver.
    simpl. run. rewrite (last_index_length _ l) by apply Hat.
    erewrite bind_ok by (by apply (on_append_log e)). reflexivity.
  - by apply at_log_append.
  - done.
Qed.

Lemma append_local_refused command key value (r : Replica Tables) :
  r_online r = false \/ r_role r <> Leader ->
  append_local command key value r =
    (r, Throw (RuntimeError "append_local requires an online leader")).
Proof.
  intros H. unfold append_local. run. simpl.
  rewrite (proj2 (orb_true_iff _ _)); [done|].
  destruct H as [-> | H]; [by left|right]. by apply bool_decide_true.
Qed.

(** ** Committing on the leader *)

Lemma at_log_committed l n m (r : Replica Tables) st :
  at_log l n r -> (m <= length l)%nat ->
  raft_log st = log_map l -> kv st = replay (take m l) ->
  at_log l m (with_commit (Z.of_nat m) (with_applied (Z.of_nat m) (with_store st r))).
Proof. intros [] Hm H1 H2. by split. Qed.

Lemma commit_to_run l n (r : Replica Tables) :
  at_log l n r -> r_online r = true -> nul_free (r_voted_for r) ->
  exists r', commit_to (Z.of_nat (length l)) r = (r', Ok tt) /\
    at_log l (length l) r' /\ persisted r' /\
    vol r' = with_commit (Z.of_nat (length l)) (with_applied (Z.of_nat (length l)) (vol r)).
Proof.
  intros Hat Ho Hv. unfold commit_to. run. simpl. rewrite Ho. simpl. run.
  rewrite (last_index_length _ l) by apply Hat. rewrite Z.min_id.
  rewrite (at_applied l n r Hat), (at_commit l n r Hat).
  pose proof (at_le l n r Hat).
  destruct (apply_range_run apply_at l n (length l) r apply_at_run Hat) as (st & Hrun & H1 & H2 & H3);
    [lia|].
  erewrite bind_ok by exact Hrun. run. rewrite Z.max_r by lia.
  set (r1 := with_commit _ (with_applied _ (with_store st r))).
  destruct (persist_run r1) as (st' & Hp & Hk & Hl & Hper); [done|].
  exists (with_store st' r1). split; [exact Hp|]. split; [|done].
  apply at_log_store; [by apply (at_log_committed l n)|done..].
Qed.

Lemma commit_to_offline i (r : Replica Tables) :
  r_online r = false -> commit_to i r = (r, Ok tt).
Proof. intros Ho. unfold commit_to. run. simpl. by rewrite Ho. Qed.

(** ** Discarding the uncommitted suffix *)

Lemma discard_uncommitted_run l n (r : Replica Tables) :
  at_log l n r ->
  exists st, discard_uncommitted r = (with_store st r, Ok tt) /\
    at_log (take n l) n (with_store st r) /\ meta st = meta (r_store r).
Proof.
  intros [Hwf Hlog Hc Ha Hle Hkv]. eexists. split; [reflexivity|]. split; [|done].
  split; simpl; try done.
  - by apply wf_log_take.
  - rewrite Hlog, Hc. by apply log_map_truncate.
  - rewrite length_take. lia.
  - by rewrite take_take, Nat.min_id.
Qed.

(** ** Snapshots *)

Lemma export_snapshot_run l n (r : Replica Tables) :
  at_log l n r -> Z.of_nat n < uint64_mod ->
  export_snapshot r =
    (r, Ok {| snap_term := r_term r; snap_commit_index := Z.of_nat n; snap_log := take n l |}).
Proof.
  intros Hat Hn. unfold export_snapshot. run. simpl.
  rewrite (logs_from_1 _ l) by apply Hat. rewrite (at_commit l n r Hat).
  unfold wrap_u64. rewrite Z.mod_small by lia. rewrite Nat2Z.id.
  destruct (Z.of_nat n <? Z.of_nat (length l)) eqn:E; [done|].
  pose proof (at_le l n r Hat). by rewrite take_ge by lia.
Qed.

(** Appending the entries of a snapshot to an empty log. *)
Lemma append_all_run l k (r : Replica Tables) :
  wf_log (k ++ l) -> raft_log (r_store r) = log_map k ->
  exists st, for_each l (fun e => on_store (st_append_log e)) r = (with_store st r, Ok tt) /\
    raft_log st = log_map (k ++ l) /\ kv st = kv (r_store r) /\ meta st = meta (r_store r).
Proof.
  revert k r. induction l as [|e l IH]; intros k r Hwf Hlog.
  - exists (r_store r). rewrite app_nil_r. simpl. by rewrite with_store_id.
  - assert (He : clean_entry e = e /\ e_index e = Z.of_nat (length k) + 1 /\ valid_entry e).
    { split_and!.
      - pose proof (wf_clean _ Hwf) as Hc. apply Forall_app in Hc as [_ Hc].
        by apply Forall_cons in Hc as [? _].
      - apply (wf_log_lookup _ (length k) e Hwf).
        by rewrite lookup_app_r, Nat.sub_diag by lia.
      - pose proof (wf_valid _ Hwf) as Hc. apply Forall_app in Hc as [_ Hc].
        by apply Forall_cons in Hc as [? _]. }
    destruct He as (Hce & He & [_ Hf]).
    assert (Hk : wf_log k) by (rewrite <- (take_app_length k (e :: l)); by apply wf_log_take).
    rewrite (cons_middle e k l), app_assoc in Hwf |- *.
    cbn [for_each]. erewrite bind_ok by (by apply on_append_log).
    destruct (IH (k ++ [e]) (with_store (tbl_append (e_index e) (row_of (clean_entry e)) (r_store r)) r))
      as (st & Hrun & H1 & H2 & H3); [done| |].
    + simpl. rewrite Hce, Hlog. by apply log_map_append.
    + exists st. by rewrite <- app_assoc in *.
Qed.

Lemma install_snapshot_run t l (r : Replica Tables) :
  wf_log l -> r_online r = true ->
  exists r', install_snapshot {| snap_term := t; snap_commit_index := Z.of_nat (length l);
                                 snap_log := l |} r = (r', Ok tt) /\
    at_log l (length l) r' /\ persisted r' /\
    vol r' = with_commit (Z.of_nat (length l)) (with_applied (Z.of_nat (length l))
      (with_role Follower (with_voted_for "" (with_term (Z.max (r_term r) t) (vol r))))).
Proof.
  intros Hwf Ho. unfold install_snapshot. run. simpl. rewrite Ho. simpl.
  erewrite bind_ok by reflexivity. run.
  set (r0 := with_applied 0 _).
  destruct (append_all_run l [] r0) as (st & Hrun & H1 & H2 & H3); [done|done|].
  erewrite bind_ok by exact Hrun. run. cbn [r_store with_store].
  rewrite (last_index_length st l) by done. rewrite Z.min_id.
  assert (H0 : at_log l 0 (with_store st r0)).
  { split; try done. simpl. lia. }
  destruct (apply_range_run apply_present l 0 (length l) (with_store st r0) apply_present_run H0)
    as (st2 & Hrun2 & H4 & H5 & H6); [lia|].
  erewrite bind_ok by exact Hrun2. run.
  set (r1 := with_commit _ (with_applied _ (with_store st2 (with_store st r0)))).
  destruct (persist_run r1) as (st' & Hp & Hk & Hl & Hper); [done|].
  exists (with_store st' r1). split; [exact Hp|]. split; [|done].
  apply at_log_store; [by apply (at_log_committed l 0)|done..].
Qed.

Lemma install_snapshot_offline s (r : Replica Tables) :
  r_online r = false -> install_snapshot s r = (r, Ok tt).
Proof. intros Ho. unfold install_snapshot. run. simpl. by rewrite Ho. Qed.

(** ** Votes *)

(** The comparison of [request_vote]: the candidate's log is at least as up to
    date as [l]. *)
Definition up_to_date (candidate_last_index candidate_last_term : Z) (l : list LogEntry) : bool :=
  (last_term l <? candidate_last_term) ||
  ((candidate_last_term =? last_term l) && (Z.of_nat (length l) <=? candidate_last_index)).

(** The fields after a request at [term] has been looked at: a newer term makes
    the replica a follower that has not voted. *)
Definition saw_term (term : Z) (v : Replica unit) : Replica unit :=
  if r_term v <? term then with_role Follower (with_voted_for "" (with_term term v)) else v.

Definition grants (c : string) (ci ct : Z) (l : list LogEntry) (v : Replica unit) : bool :=
  up_to_date ci ct l && (bool_decide (r_voted_for v = "") || bool_decide (r_voted_for v = c)).

Lemma request_vote_refused term c ci ct (r : Replica Tables) :
  r_online r = false \/ term < r_term r -> request_vote term c ci ct r = (r, Ok false).
Proof.
  intros H. unfold request_vote. run. simpl.
  rewrite (proj2 (orb_true_iff _ _)); [done|].
  destruct H as [-> | H]; [by left|right; by apply Z.ltb_lt].
Qed.

Lemma at_log_vol l n (r r' : Replica Tables) :
  at_log l n r -> r_store r' = r_store r -> r_commit r' = r_commit r ->
  r_applied r' = r_applied r -> at_log l n r'.
Proof. intros [] E1 E2 E3. split; congruence. Qed.

Lemma request_vote_run l n term c ci ct (r : Replica Tables) :
  at_log l n r -> r_online r = true -> r_term r <= term ->
  nul_free c -> nul_free (r_voted_for r) ->
  let v := saw_term term (vol r) in
  let granted := grants c ci ct l v in
  exists r', request_vote term c ci ct r = (r', Ok granted) /\
    at_log l n r' /\ persisted r' /\
    vol r' = if granted then with_voted_for c v else v.
Proof.
  intros Hat Ho Ht Hc Hv v granted. unfold request_vote. run. simpl.
  rewrite Ho. simpl. rewrite (proj2 (Z.ltb_ge _ _)) by done.
  set (r1 := if r_term r <? term
             then with_role Follower (with_voted_for "" (with_term term r)) else r).
  erewrite bind_ok with (s' := r1) (a := tt) by (subst r1; by destruct (r_term r <? term)).
  assert (Hv1 : vol r1 = v) by (subst r1 v; unfold saw_term; simpl; by destruct (_ <? _)).
  assert (Hat1 : at_log l n r1) by (subst r1; destruct (_ <? _); by eapply at_log_vol).
  assert (Hn1 : nul_free (r_voted_for r1)) by (subst r1; by destruct (_ <? _)).
  clearbody r1. run. rewrite (last_index_length _ l), (last_term_list _ l) by apply Hat1.
  fold (up_to_date ci ct l).
  replace (up_to_date ci ct l && _) with granted
    by (subst granted; rewrite <- Hv1; reflexivity).
  destruct granted.
  - run1. set (r2 := with_voted_for c r1).
    destruct (persist_run r2) as (st & Hp & Hk & Hl & Hper); [done|].
    erewrite bind_ok by exact Hp. exists (with_store st r2). split; [done|].
    split; [|split; [done|by rewrite <- Hv1]].
    apply at_log_store; [by eapply at_log_vol|done..].
  - destruct (persist_run r1) as (st & Hp & Hk & Hl & Hper); [done|].
    erewrite bind_ok by exact Hp. exists (with_store st r1). split; [done|].
    split; [|done]. by apply at_log_store.
Qed.

(** ** AppendEntries *)

Lemma append_entries_refused term lid pi pt es lc (r : Replica Tables) :
  r_online r = false \/ term < r_term r ->
  append_entries term lid pi pt es lc r = (r, Ok false).
Proof.
  intros H. unfold append_entries. run. simpl.
  rewrite (proj2 (orb_true_iff _ _)); [done|].
  destruct H as [-> | H]; [by left|right; by apply Z.ltb_lt].
Qed.

(** The fields after a request of a leader has been accepted. *)
Definition saw_leader (term : Z) (lid : string) (v : Replica unit) : Replica unit :=
  with_voted_for lid (with_role Follower (with_term (Z.max (r_term v) term) v)).

(** An entry at an index the log does not have is appended. *)
Lemma store_entry_run e (r : Replica Tables) :
  tb_log_at (e_index e) (r_store r) = None -> fits_int (e_value e) ->
  store_entry e r =
    (with_store (tbl_append (e_index e) (row_of (clean_entry e)) (r_store r)) r, Ok tt).
Proof.
  intros Hn Hf. unfold store_entry.
  erewrite bind_ok by apply on_log_at. rewrite Hn.
  erewrite bind_ok by reflexivity.
  erewrite bind_ok by apply on_log_at. rewrite Hn. by apply on_append_log.
Qed.

(** Entries that continue the log at its end are appended. *)
Lemma store_entries_run l es (r : Replica Tables) :
  wf_log (l ++ (clean_entry <$> es)) -> raft_log (r_store r) = log_map l ->
  exists st, for_each es store_entry r = (with_store st r, Ok tt) /\
    raft_log st = log_map (l ++ (clean_entry <$> es)) /\ kv st = kv (r_store r) /\
    meta st = meta (r_store r).
Proof.
  revert l r. induction es as [|e es IH]; intros l r Hwf Hlog.
  - exists (r_store r). simpl. by rewrite app_nil_r, with_store_id.
  - rewrite fmap_cons in *.
    assert (He : e_index e = Z.of_nat (length l) + 1).
    { change (e_index e) with (e_index (clean_entry e)).
      apply (wf_log_lookup _ (length l) _ Hwf).
      by rewrite lookup_app_r, Nat.sub_diag by lia. }
    assert (Hf : fits_int (e_value e)).
    { pose proof (wf_valid _ Hwf) as Hc. apply Forall_app in Hc as [_ Hc].
      by apply Forall_cons in Hc as [[_ ?] _]. }
    assert (Hl : wf_log l)
      by (rewrite <- (take_app_length l (clean_entry e :: (clean_entry <$> es))); by apply wf_log_take).
    rewrite (cons_middle (clean_entry e) l), app_assoc in Hwf |- *.
    cbn [for_each].
    erewrite bind_ok by (apply store_entry_run; [apply (log_at_None _ l); [done..|lia]|done]).
    destruct (IH (l ++ [clean_entry e])
      (with_store (tbl_append (e_index e) (row_of (clean_entry e)) (r_store r)) r))
      as (st & Hrun & H1 & H2 & H3); [done| |].
    + simpl. rewrite Hlog. change (e_index e) with (e_index (clean_entry e)).
      by apply log_map_append.
    + exists st. by rewrite <- app_assoc in *.
Qed.

Lemma last_term_at l (t : Tables) :
  wf_log l -> raft_log t = log_map l -> l <> [] ->
  exists e, tb_log_at (Z.of_nat (length l)) t = Some e /\ e_term e = last_term l.
Proof.
  intros Hwf Hlog Hne. destruct (last l) as [e|] eqn:E; [|by apply last_None in E].
  exists e. unfold last_term. rewrite E. split; [|done].
  rewrite last_lookup in E. destruct l as [|x l]; [done|].
  replace (Z.of_nat (length (x :: l))) with (Z.of_nat (pred (length (x :: l))) + 1)
    by (simpl; lia).
  by eapply log_at_Some.
Qed.

(** The consistency check of [append_entries] on the entry before the new ones. *)
Definition consistent_at (pi pt : Z) : M (Replica Tables) bool :=
  if 0 <? pi then
    previous ← on_store (st_log_at pi);
    mret (match previous with Some p => e_term p =? pt | None => false end)
  else mret true.

Definition consistent (pi pt : Z) (t : Tables) : bool :=
  if 0 <? pi then
    match tb_log_at pi t with Some p => e_term p =? pt | None => false end
  else true.

Lemma consistent_at_run pi pt (r : Replica Tables) :
  consistent_at pi pt r = (r, Ok (consistent pi pt (r_store r))).
Proof.
  unfold consistent_at, consistent. destruct (0 <? pi); [|done].
  by erewrite bind_ok by apply on_log_at.
Qed.

Lemma consistent_end l (t : Tables) :
  wf_log l -> raft_log t = log_map l ->
  consistent (Z.of_nat (length l)) (last_term l) t = true.
Proof.
  intros Hwf Hlog. unfold consistent. destruct l as [|x l]; [done|].
  rewrite (proj2 (Z.ltb_lt _ _)) by (simpl; lia).
  destruct (last_term_at (x :: l) t) as (e & -> & He); [done..|]. lia.
Qed.

(** The commit step: nothing, or applying up to the new commit index. *)
Lemma advance_run l n c (r : Replica Tables) :
  at_log l n r -> (c <= length l)%nat ->
  exists st,
    when (r_commit r <? Z.of_nat c)
      (for_range (r_applied r + 1) (Z.of_nat c) apply_at ;;
       modify (with_commit (Z.max (r_commit r) (Z.of_nat c)))) r =
      (with_commit (Z.of_nat (n `max` c)) (with_applied (Z.of_nat (n `max` c)) (with_store st r)),
       Ok tt) /\
    raft_log st = log_map l /\ kv st = replay (take (n `max` c) l).
Proof.
  intros Hat Hc. pose proof Hat as [Hwf Hlog Hcm Ha Hle Hkv]. rewrite Hcm, Ha.
  destruct (Z.of_nat n <? Z.of_nat c) eqn:E.
  - destruct (apply_range_run apply_at l n c r apply_at_run Hat) as (st & Hrun & H1 & H2 & H3);
      [lia|].
    exists st. simpl. erewrite bind_ok by exact Hrun.
    rewrite (Nat.max_r n c), Z.max_r by lia. done.
  - exists (r_store r). rewrite Nat.max_l by lia. split; [|done].
    unfold when, with_commit, with_applied, with_store. destruct r; simpl in *. by subst.
Qed.

Lemma append_entries_unfold term lid pi pt es lc (r : Replica Tables) :
  r_online r = true -> r_term r <= term ->
  let r1 := with_voted_for lid (with_role Follower (with_term (Z.max (r_term r) term) r)) in
  append_entries term lid pi pt es lc r =
  (if consistent pi pt (r_store r) then
     for_each es store_entry ;;
     last_index ← on_store st_last_log_index;
     r ← volatile;
     when (r_commit r <? Z.min lc last_index)
       (for_range (r_applied r + 1) (Z.min lc last_index) apply_at ;;
        modify (with_commit (Z.max (r_commit r) (Z.min lc last_index)))) ;;
     persist_state ;;
     mret true
   else persist_state ;; mret false) r1.
Proof.
  intros Ho Ht r1. unfold append_entries.
  erewrite bind_ok by apply volatile_run. simpl. rewrite Ho. simpl.
  rewrite (proj2 (Z.ltb_ge _ _)) by done.
  set (r0 := if r_term r <? term then with_voted_for "" (with_term term r) else r).
  erewrite bind_ok with (s' := r0) (a := tt) by (subst r0; by destruct (r_term r <? term)).
  erewrite bind_ok by reflexivity. erewrite bind_ok by reflexivity.
  replace (with_voted_for lid (with_role Follower r0)) with r1.
  2: { subst r0 r1. destruct (r_term r <? term) eqn:E.
       - by rewrite Z.max_r by lia.
       - rewrite Z.max_l by lia. by destruct r. }
  clearbody r0. fold (consistent_at pi pt). erewrite bind_ok by apply consistent_at_run.
  subst r1. simpl. by destruct (consistent pi pt (r_store r)).
Qed.

Lemma append_entries_run l n es c term lid (r : Replica Tables) :
  at_log l n r -> r_online r = true -> r_term r <= term -> nul_free lid ->
  let l' := l ++ (clean_entry <$> es) in
  wf_log l' -> (c <= length l')%nat ->
  exists r',
    append_entries term lid (Z.of_nat (length l)) (last_term l) es (Z.of_nat c) r = (r', Ok true) /\
    at_log l' (n `max` c) r' /\ persisted r' /\
    vol r' = with_commit (Z.of_nat (n `max` c)) (with_applied (Z.of_nat (n `max` c))
               (saw_leader term lid (vol r))).
Proof.
  intros Hat Ho Ht Hlid l' Hwf Hc. pose proof (at_le l n r Hat) as Hle.
  rewrite append_entries_unfold by done. rewrite consistent_end by apply Hat.
  set (r1 := with_voted_for lid _).
  assert (Hat1 : at_log l n r1) by (by eapply at_log_vol).
  destruct (store_entries_run l es r1) as (st & Hrun & H1 & H2 & H3); [done|apply Hat1|].
  erewrite bind_ok by exact Hrun. erewrite bind_ok by apply on_last_index.
  cbn [r_store with_store]. rewrite (last_index_length st l') by done.
  rewrite Z.min_l by lia. erewrite bind_ok by apply volatile_run.
  assert (Hat2 : at_log l' n (with_store st r1)).
  { destruct Hat1. split; try done.
    - subst l'. rewrite length_app. lia.
    - simpl. rewrite H2. subst l'. by rewrite take_app_le. }
  destruct (advance_run l' n c (with_store st r1) Hat2 Hc) as (st2 & Hrun2 & H4 & H5).
  erewrite bind_ok by exact Hrun2.
  set (r2 := with_commit _ (with_applied _ (with_store st2 (with_store st r1)))).
  destruct (persist_run r2) as (st' & Hp & Hk & Hl & Hper); [done|].
  erewrite bind_ok by exact Hp. exists (with_store st' r2). split; [done|].
  split; [|done]. apply at_log_store; [|done..].
  apply (at_log_committed l' n); [done| |done..].
  pose proof (at_le _ _ _ Hat2). lia.
Qed.

(** A leader whose previous entry the replica does not have is refused, and
    the log is left alone. *)
Lemma append_entries_inconsistent l n pi pt es lc term lid (r : Replica Tables) :
  at_log l n r -> r_online r = true -> r_term r <= term -> nul_free lid ->
  consistent pi pt (r_store r) = false ->
  exists r', append_entries term lid pi pt es lc r = (r', Ok false) /\
    at_log l n r' /\ persisted r' /\ vol r' = saw_leader term lid (vol r).
Proof.
  intros Hat Ho Ht Hlid Hc. rewrite append_entries_unfold, Hc by done.
  set (r1 := with_voted_for lid _).
  destruct (persist_run r1) as (st & Hp & Hk & Hl & Hper); [done|].
  erewrite bind_ok by exact Hp. exists (with_store st r1). split; [done|].
  split; [|done]. apply at_log_store; [by eapply at_log_vol|done..].
Qed.

(** ** Restarting *)

(** A replica rebuilt from the store of [r]: the volatile fields come from the
    [meta] table, the role and the online flag are the initial ones. *)
Definition restarted (r : Replica Tables) : Replica Tables :=
  with_role Follower (with_online true r).

Lemma load_number k z (f : Z -> Replica Tables -> Replica Tables) (r : Replica Tables) :
  c_str k = k -> default "0" (meta (r_store r) !! k) = to_string z -> in_int64 z -> f 0 r = r ->
  (value ← on_store (st_get_meta k);
   match value with Some v => z ← stoll_m v; modify (f z) | None => mret tt end) r =
  (f z r, Ok tt).
Proof.
  intros Hk Hd Hz Hf. erewrite bind_ok by apply on_get_meta. rewrite Hk.
  destruct (meta (r_store r) !! k) as [v|]; simpl in Hd.
  - subst v. unfold mbind, M_bind, stoll_m. by rewrite stoll_to_string.
  - apply (to_string_inj 0) in Hd as <-. by rewrite Hf.
Qed.

Lemma load_state_run l n (r : Replica Tables) :
  at_log l n r -> persisted r -> in_int64 (r_term r) -> in_int64 (Z.of_nat n) ->
  load_state (fresh_replica (r_id r) (r_shard_id r) (r_store r)) = (restarted r, Ok tt).
Proof.
  intros Hat (Hpt & Hpv & Hpc & Hpa) Ht Hn.
  rewrite (at_commit l n r Hat) in Hpc. rewrite (at_applied l n r Hat) in Hpa.
  set (r0 := fresh_replica _ _ _). unfold load_state.
  rewrite <- bind_assoc. erewrite bind_ok by (by apply (load_number _ (r_term r) with_term)).
  erewrite bind_ok by apply on_get_meta.
  set (r1 := with_term (r_term r) r0).
  set (r2 := with_voted_for (r_voted_for r) r1).
  erewrite bind_ok with (s' := r2) (a := tt).
  2: { simpl. change (c_str "voted_for") with "voted_for".
       subst r2. rewrite <- Hpv. by destruct (meta (r_store r) !! "voted_for"). }
  rewrite <- bind_assoc. erewrite bind_ok by (by apply (load_number _ (Z.of_nat n) with_commit)).
  rewrite <- bind_assoc. erewrite bind_ok by (by apply (load_number _ (Z.of_nat n) with_applied)).
  erewrite bind_ok by apply volatile_run. simpl. rewrite Z.ltb_irrefl. simpl.
  unfold restarted, mret, M_ret. f_equal. subst r2 r1 r0.
  destruct Hat as [_ _ Hc Ha _ _]. by destruct r; simpl in *; subst.
Qed.
