(* ===== verification/RaftProperties.v ===== *)
(** * The properties of a replica

    A replica votes at most once in a term; AppendEntries leaves the log the
    protocol asks for, whatever the follower had; a snapshot transfers the
    committed state.  [merge] is the reference for the log AppendEntries leaves:
    the code compares, truncates and appends entry by entry, [merge] splices the
    received entries in at the first conflict. *)

From S2P Require Import Prelude CppStd Common Sqlite Store LogFacts Raft RaftProofs.

#[local] Open Scope Z_scope.

(** ** The log after AppendEntries *)

(** The entries [es], received for the positions from [p] on, spliced into the
    log [l] at the first position that is missing or has another term. *)
Fixpoint merge (p : nat) (l es : list LogEntry) : list LogEntry :=
  match es with
  | [] => l
  | e :: es' =>
      match l !! p with
      | Some x => if e_term x =? e_term e then merge (S p) l es'
                  else take p l ++ (clean_entry <$> es)
      | None => l ++ (clean_entry <$> es)
      end
  end.

(** Entries a leader may send for the positions from [p] on. *)
Definition sendable (p : nat) (es : list LogEntry) : Prop :=
  e_index <$> es = seqZ (Z.of_nat p + 1) (Z.of_nat (length es)) /\
  Forall valid_entry es.

Lemma sendable_cons p e es :
  sendable p (e :: es) ->
  e_index e = Z.of_nat p + 1 /\ valid_entry e /\ sendable (S p) es.
Proof.
  intros [Hi Hv]. apply Forall_cons in Hv as [Hv Hvs]. cbn [length] in Hi.
  rewrite fmap_cons, seqZ_cons in Hi by lia. injection Hi as Hi His.
  split_and!; try done. split; [|done]. rewrite His. f_equal; lia.
Qed.

Lemma wf_log_app_sendable l es :
  wf_log l -> sendable (length l) es -> wf_log (l ++ (clean_entry <$> es)).
Proof.
  revert l. induction es as [|e es IH]; intros l Hwf Hs.
  - by rewrite app_nil_r.
  - apply sendable_cons in Hs as (Hi & Hv & Hs).
    rewrite fmap_cons, (cons_middle (clean_entry e)), app_assoc. apply IH.
    + apply wf_log_snoc; [done|done|apply clean_entry_idemp|by apply valid_entry_clean].
    + rewrite length_app. simpl. by rewrite Nat.add_1_r.
Qed.

Lemma merge_wf p l es : wf_log l -> sendable p es -> (p <= length l)%nat -> wf_log (merge p l es).
Proof.
  revert p l. induction es as [|e es IH]; intros p l Hwf Hs Hp; [done|]. simpl.
  destruct (l !! p) as [x|] eqn:E.
  - apply lookup_lt_Some in E as Hlt. destruct (e_term x =? e_term e).
    + apply IH; [done| |lia]. by apply sendable_cons in Hs as (_ & _ & ?).
    + apply (wf_log_app_sendable (take p l) (e :: es)); [by apply wf_log_take|].
      by rewrite length_take, Nat.min_l by lia.
  - apply lookup_ge_None in E. assert (p = length l) as -> by lia.
    by apply (wf_log_app_sendable l (e :: es)).
Qed.

(** A conflicting entry makes the log be cut and the entry be appended. *)
Lemma store_entry_conflict l p e x (r : Replica Tables) :
  wf_log l -> raft_log (r_store r) = log_map l -> l !! p = Some x ->
  e_index e = Z.of_nat p + 1 -> e_term x <> e_term e -> fits_int (e_value e) ->
  exists st, store_entry e r = (with_store st r, Ok tt) /\
    raft_log st = log_map (take p l ++ [clean_entry e]) /\ kv st = kv (r_store r).
Proof.
  intros Hwf Hlog Hx He Hne Hf. apply lookup_lt_Some in Hx as Hlt. unfold store_entry.
  erewrite bind_ok by apply on_log_at. rewrite He, (log_at_Some _ l Hwf Hlog p x Hx).
  rewrite (proj2 (Z.eqb_neq _ _)) by done. simpl.
  set (t1 := tbl_truncate (Z.of_nat p + 1) (r_store r)).
  erewrite (bind_ok _ _ r (with_store t1 r) tt) by reflexivity.
  assert (Hlog1 : raft_log t1 = log_map (take p l)) by (simpl; rewrite Hlog; by apply log_map_truncate).
  erewrite bind_ok by apply on_log_at. cbn [r_store with_store].
  rewrite (log_at_None t1 (take p l)); [|by apply wf_log_take|done|].
  2: { right. rewrite length_take. lia. }
  eexists. split; [etrans; [by apply (on_append_log e)|reflexivity]|]. simpl. split; [|done].
  change (filter _ _) with (raft_log t1). rewrite Hlog1.
  change (e_index e) with (e_index (clean_entry e)). apply log_map_append; [by apply wf_log_take|].
  simpl. rewrite length_take. lia.
Qed.

Lemma store_entry_present l p e x (r : Replica Tables) :
  wf_log l -> raft_log (r_store r) = log_map l -> l !! p = Some x ->
  e_index e = Z.of_nat p + 1 -> e_term x = e_term e -> store_entry e r = (r, Ok tt).
Proof.
  intros Hwf Hlog Hx He Heq. unfold store_entry.
  erewrite bind_ok by apply on_log_at. rewrite He, (log_at_Some _ l Hwf Hlog p x Hx).
  rewrite Heq, Z.eqb_refl. simpl. erewrite (bind_ok _ _ r r tt) by reflexivity.
  erewrite bind_ok by apply on_log_at. by rewrite (log_at_Some _ l Hwf Hlog p x Hx).
Qed.

(** The loop of [append_entries] computes [merge]. *)
Lemma store_entries_merge p l es (r : Replica Tables) :
  wf_log l -> raft_log (r_store r) = log_map l -> sendable p es -> (p <= length l)%nat ->
  exists st, for_each es store_entry r = (with_store st r, Ok tt) /\
    raft_log st = log_map (merge p l es) /\ kv st = kv (r_store r).
Proof.
  revert p r. induction es as [|e es IH]; intros p r Hwf Hlog Hs Hp.
  - exists (r_store r). by rewrite with_store_id.
  - pose proof Hs as (Hi & Hv & Hs')%sendable_cons. cbn [merge].
    destruct (l !! p) as [x|] eqn:Hx.
    + destruct (e_term x =? e_term e) eqn:Heq.
      * cbn [for_each]. erewrite bind_ok by (eapply store_entry_present; eauto; lia).
        apply lookup_lt_Some in Hx. apply IH; [done..|lia].
      * destruct (store_entry_conflict l p e x r Hwf Hlog Hx Hi) as (st & Hrun & Hlog' & Hkv);
          [lia|apply Hv|].
        cbn [for_each]. rewrite (bind_ok _ _ _ _ _ Hrun). apply lookup_lt_Some in Hx.
        assert (Hlen : length (take p l) = p) by (rewrite length_take; lia).
        assert (Hwf' : wf_log (take p l ++ (clean_entry <$> e :: es))).
        { apply wf_log_app_sendable; [by apply wf_log_take|]. by rewrite Hlen. }
        rewrite fmap_cons, (cons_middle (clean_entry e)), app_assoc in Hwf' |- *.
        destruct (store_entries_run (take p l ++ [clean_entry e]) es (with_store st r))
          as (st2 & Hrun2 & H1 & H2 & _); [done..|].
        exists st2. rewrite Hrun2. split; [done|]. split; [done|]. by rewrite H2.
    + apply lookup_ge_None in Hx. assert (p = length l) as -> by lia.
      destruct (store_entries_run l (e :: es) r) as (st & Hrun & H1 & H2 & _);
        [by apply wf_log_app_sendable|done|].
      exists st. rewrite Hrun. done.
Qed.

(** The follower has the entry before the ones received. *)
Definition has_previous (p : nat) (prev_term : Z) (l : list LogEntry) : Prop :=
  (p <= length l)%nat /\ forall x, (0 < p)%nat -> l !! pred p = Some x -> e_term x = prev_term.

Lemma has_previous_consistent p pt l (t : Tables) :
  wf_log l -> raft_log t = log_map l -> has_previous p pt l ->
  consistent (Z.of_nat p) pt t = true.
Proof.
  intros Hwf Hlog [Hp Ht]. unfold consistent. destruct p as [|p]; [done|].
  rewrite (proj2 (Z.ltb_lt _ _)) by lia. destruct (lookup_lt_is_Some_2 l p) as [x Hx]; [lia|].
  replace (Z.of_nat (S p)) with (Z.of_nat p + 1) by lia.
  rewrite (log_at_Some t l Hwf Hlog p x Hx). apply Z.eqb_eq, Ht; [lia|done].
Qed.

(** C10: AppendEntries does what the protocol asks.  On an online follower whose
    term is not above the leader's and that has the entry before the received
    ones, and for received entries that do not conflict with committed ones (merging
    them leaves the first [n] entries alone; a leader that has all committed entries
    sends no others), the call is accepted; the log it leaves is the old one with
    the received entries spliced in at the first conflict, the commit index is the
    maximum of the old one and of the leader's commit index limited to the log,
    every entry up to it has been applied, and the new state is persisted. *)
Theorem append_entries_merges (l es : list LogEntry) (n p c : nat) (term prev_term : Z)
    (leader : string) (r : Replica Tables) :
  at_log l n r -> r_online r = true -> r_term r <= term -> nul_free leader ->
  sendable p es -> has_previous p prev_term l ->
  take n (merge p l es) = take n l ->
  let l' := merge p l es in
  let n' := (n `max` (c `min` length l'))%nat in
  exists r', append_entries term leader (Z.of_nat p) prev_term es (Z.of_nat c) r = (r', Ok true) /\
    at_log l' n' r' /\ persisted r' /\
    vol r' = with_commit (Z.of_nat n') (with_applied (Z.of_nat n') (saw_leader term leader (vol r))).
Proof.
  intros Hat Ho Ht Hlid Hs Hprev Hkeep l' n'. pose proof (at_le l n r Hat) as Hle.
  rewrite append_entries_unfold by done.
  rewrite (has_previous_consistent p prev_term l) by (apply Hat || done).
  set (r1 := with_voted_for leader _).
  assert (Hat1 : at_log l n r1) by (by eapply at_log_vol).
  destruct (store_entries_merge p l es r1) as (st & Hrun & H1 & H2);
    [apply Hat|apply Hat1|done|apply Hprev|].
  rewrite (bind_ok _ _ _ _ _ Hrun). erewrite bind_ok by apply on_last_index.
  assert (Hwf : wf_log l') by (apply merge_wf; [apply Hat|done|apply Hprev]).
  cbn [r_store with_store]. rewrite (last_index_length st l') by done.
  rewrite <- Nat2Z.inj_min. erewrite bind_ok by apply volatile_run.
  assert (Hn : (n <= length l')%nat).
  { apply (f_equal length) in Hkeep. rewrite !length_take in Hkeep. subst l'. lia. }
  assert (Hat2 : at_log l' n (with_store st r1)).
  { destruct Hat1. split; try done. simpl. rewrite H2, at_kv. subst l'. by rewrite Hkeep. }
  destruct (advance_run l' n (c `min` length l') (with_store st r1) Hat2) as (st2 & Hrun2 & H4 & H5);
    [lia|].
  erewrite bind_ok by exact Hrun2. fold n' in Hrun2, H5 |- *.
  set (r2 := with_commit _ (with_applied _ (with_store st2 (with_store st r1)))).
  destruct (persist_run r2) as (st' & Hp & Hk & Hl & Hper); [done|].
  erewrite bind_ok by exact Hp. exists (with_store st' r2). split; [done|].
  split; [|done]. apply at_log_store; [|done..].
  apply (at_log_committed l' n); [done|lia|done..].
Qed.

(** A log entry for the witnesses. *)
Definition demo_entry (i t : Z) (k v : string) : LogEntry :=
  {| e_index := i; e_term := t; e_command := "PUT"; e_key := k; e_value := v |}.

(** A follower at term 2 with a committed entry and an uncommitted one. *)
Definition demo_log : list LogEntry := [demo_entry 1 1 "a" "1"; demo_entry 2 1 "b" "2"].
Definition demo_follower : Replica Tables :=
  {| r_id := "s0-r1"; r_shard_id := 0;
     r_store := {| kv := replay (take 1 demo_log); raft_log := log_map demo_log; meta := ∅ |};
     r_role := Follower; r_online := true; r_term := 2; r_voted_for := "s0-r2";
     r_commit := 1; r_applied := 1 |}.

Lemma demo_log_wf : wf_log demo_log.
Proof. split; [done|..]; repeat (constructor || done). Qed.

Lemma demo_follower_at_log : at_log demo_log 1 demo_follower.
Proof. split; [apply demo_log_wf|done..|simpl; lia|done]. Qed.

Lemma append_entries_merges_witness :
  let es := [demo_entry 2 3 "b" "3"; demo_entry 3 3 "c" "4"] in
  merge 1 demo_log es = [demo_entry 1 1 "a" "1"; demo_entry 2 3 "b" "3"; demo_entry 3 3 "c" "4"] /\
  exists r', append_entries 3 "s0-r0" 1 1 es 2 demo_follower = (r', Ok true) /\
    at_log (merge 1 demo_log es) 2 r' /\ persisted r' /\
    vol r' = with_commit 2 (with_applied 2 (saw_leader 3 "s0-r0" (vol demo_follower))).
Proof.
  intros es. split; [reflexivity|].
  apply (append_entries_merges demo_log es 1 1 2 3 1 "s0-r0" demo_follower).
  - apply demo_follower_at_log.
  - reflexivity.
  - simpl. lia.
  - reflexivity.
  - split; [reflexivity|]. repeat (constructor || done).
  - split; [simpl; lia|]. intros x _ [= <-]. reflexivity.
  - reflexivity.
Defined.

(** ** Votes *)

(** A vote request. *)
Record VoteRequest := { vr_term : Z; vr_candidate : string; vr_last_index : Z; vr_last_term : Z }.

(** The answers of a replica to a sequence of requests. *)
Fixpoint vote_answers {S} `{Store S} (reqs : list VoteRequest) (r : Replica S)
    : list (result bool) :=
  match reqs with
  | [] => []
  | q :: reqs' =>
      let '(r', a) := request_vote (vr_term q) (vr_candidate q) (vr_last_index q) (vr_last_term q) r in
      a :: vote_answers reqs' r'
  end.

(** Having voted for [c] in term [t], or having moved on. *)
Definition committed_to (t : Z) (c : string) (r : Replica Tables) : Prop :=
  t < r_term r \/ (r_term r = t /\ r_voted_for r = c).

Lemma persist_total (r : Replica Tables) : exists st, persist_state r = (with_store st r, Ok tt).
Proof. by eexists. Qed.

(** What a request does to the term and the vote. *)
Lemma request_vote_vote t c i p (r : Replica Tables) :
  exists r' b, request_vote t c i p r = (r', Ok b) /\
    ((r_online r = false \/ t < r_term r) /\ r' = r /\ b = false \/
     r_term r <= t /\ r_term r' = t /\
     let v := if r_term r <? t then "" else r_voted_for r in
     if b then (v = "" \/ v = c) /\ r_voted_for r' = c else r_voted_for r' = v).
Proof.
  destruct (decide (r_online r = false \/ t < r_term r)) as [Href|Hgo].
  { exists r, false. rewrite request_vote_refused by done. auto. }
  assert (Ho : r_online r = true) by (destruct (r_online r); tauto).
  assert (Ht : r_term r <= t) by lia.
  unfold request_vote. run. simpl. rewrite Ho. simpl. rewrite (proj2 (Z.ltb_ge _ _)) by done.
  set (r1 := if r_term r <? t then with_role Follower (with_voted_for "" (with_term t r)) else r).
  erewrite bind_ok with (s' := r1) (a := tt) by (subst r1; by destruct (r_term r <? t)).
  assert (H1 : r_term r1 = t) by (subst r1; destruct (r_term r <? t) eqn:E; simpl; lia).
  assert (H2 : r_voted_for r1 = if r_term r <? t then "" else r_voted_for r)
    by (subst r1; by destruct (r_term r <? t)).
  clearbody r1. run. rewrite <- H2.
  destruct (_ && (bool_decide _ || bool_decide _)) eqn:E.
  - run1. destruct (persist_total (with_voted_for c r1)) as [st Hp].
    erewrite bind_ok by exact Hp. eexists _, true. split; [done|]. right. split_and!; try done.
    apply andb_true_iff in E as [_ E]. apply orb_true_iff in E as [E|E]; apply bool_decide_eq_true in E; auto.
  - destruct (persist_total r1) as [st Hp]. erewrite bind_ok by exact Hp.
    eexists _, false. split; [done|]. right. done.
Qed.

Lemma committed_to_step t c q (r r' : Replica Tables) b :
  c <> "" -> committed_to t c r ->
  request_vote (vr_term q) (vr_candidate q) (vr_last_index q) (vr_last_term q) r = (r', Ok b) ->
  committed_to t c r' /\ (b = true -> vr_term q = t -> vr_candidate q = c).
Proof.
  intros Hc Hcom Hrun.
  destruct (request_vote_vote (vr_term q) (vr_candidate q) (vr_last_index q) (vr_last_term q) r)
    as (x & y & E & Hcase). rewrite Hrun in E. simplify_eq.
  destruct Hcase as [(_ & -> & ->)|(Hle & Ht & Hv)]; [done|].
  unfold committed_to in *. destruct (r_term r <? vr_term q) eqn:Hlt.
  - split; [left; lia|]. intros _ E. lia.
  - assert (Heq : r_term r = vr_term q) by lia.
    destruct Hcom as [Hcom|[Hcom Hvote]]; [split; [left|]; lia|].
    rewrite Hvote in Hv. destruct y; [|split; [right|]; done || (split; congruence)].
    destruct Hv as [[->|Hv] Hv']; [done|]. split; [right; split|]; congruence.
Qed.

Lemma committed_to_answers t c reqs (r : Replica Tables) j q :
  c <> "" -> committed_to t c r -> reqs !! j = Some q -> vr_term q = t ->
  vote_answers reqs r !! j = Some (Ok true) -> vr_candidate q = c.
Proof.
  intros Hc. revert r j. induction reqs as [|q0 reqs IH]; intros r j Hcom Hq Ht Ha; [done|].
  simpl in Ha.
  destruct (request_vote_vote (vr_term q0) (vr_candidate q0) (vr_last_index q0) (vr_last_term q0) r)
    as (r' & b & E & _). rewrite E in Ha.
  destruct (committed_to_step t c q0 r r' b Hc Hcom E) as [Hcom' Hb].
  destruct j as [|j]; simpl in *; simplify_eq.
  - by apply Hb.
  - by apply (IH r' j).
Qed.

Lemma vote_answers_sim {S} `{StoreSpec S} reqs (r1 : Replica S) (r2 : Replica Tables) :
  rep_rel holds r1 r2 -> vote_answers reqs r1 = vote_answers reqs r2.
Proof.
  revert r1 r2. induction reqs as [|q reqs IH]; intros r1 r2 Hr; [done|]. simpl.
  destruct (request_vote_sim (vr_term q) (vr_candidate q) (vr_last_index q) (vr_last_term q) r1 r2 Hr)
    as (s1 & s2 & a & -> & -> & Hs). f_equal. by apply IH.
Qed.

(** C11: a replica votes at most once in a term.  In any sequence of vote
    requests, if a request of a candidate with a non-empty id is granted, then a
    later request of the same term that is granted comes from the same candidate,
    whatever the state of the replica and whatever the other requests are.  (An
    empty id is not told from no vote; the ids of the replicas of a shard are not
    empty.) *)
Theorem votes_once_per_term {S : Type} `{StoreSpec S} (reqs : list VoteRequest) (r : Replica S)
    (tb : Tables) (i j : nat) (qi qj : VoteRequest) :
  holds (r_store r) tb -> (i < j)%nat ->
  reqs !! i = Some qi -> reqs !! j = Some qj -> vr_candidate qi <> "" ->
  vote_answers reqs r !! i = Some (Ok true) -> vote_answers reqs r !! j = Some (Ok true) ->
  vr_term qi = vr_term qj -> vr_candidate qj = vr_candidate qi.
Proof.
  intros Hh Hij Hi Hj Hc Hai Haj Ht.
  rewrite (vote_answers_sim reqs r (with_store tb r)) in Hai, Haj by (by split).
  revert Hi Hj Hai Haj. generalize (with_store tb r) as r2. clear Hh. revert j Hij.
  generalize dependent i. induction reqs as [|q reqs IH]; intros i j Hij r2 Hi Hj Hai Haj; [done|].
  simpl in Hai, Haj.
  destruct (request_vote_vote (vr_term q) (vr_candidate q) (vr_last_index q) (vr_last_term q) r2)
    as (r3 & b & E & Hcase). rewrite E in Hai, Haj.
  destruct j as [|j]; [lia|]. destruct i as [|i]; simpl in *; [|by apply (IH i j ltac:(lia) r3)].
  simplify_eq. apply (committed_to_answers (vr_term qi) _ reqs r3 j); try done.
  destruct Hcase as [(_ & _ & ?)|(_ & H1 & _ & H2)]; [done|]. by right.
Qed.

Lemma votes_once_per_term_witness :
  let q1 := {| vr_term := 3; vr_candidate := "s0-r0"; vr_last_index := 2; vr_last_term := 1 |} in
  let q2 := {| vr_term := 3; vr_candidate := "s0-r2"; vr_last_index := 2; vr_last_term := 1 |} in
  let q3 := {| vr_term := 3; vr_candidate := "s0-r0"; vr_last_index := 4; vr_last_term := 2 |} in
  vote_answers [q1; q2; q3] demo_follower = [Ok true; Ok false; Ok true] /\ vr_candidate q3 = vr_candidate q1.
Proof.
  intros q1 q2 q3. split; [vm_compute; reflexivity|].
  apply (votes_once_per_term [q1; q2; q3] demo_follower (r_store demo_follower) 0 2 q1 q3);
    try (vm_compute; reflexivity); [lia|done].
Defined.

(** ** Snapshots *)

(** C12: a snapshot transfers exactly the committed state.  Installing on an
    online follower the snapshot a replica exports leaves the follower with the
    exporter's committed log and key-value table, fully applied and persisted,
    at the higher of the two terms; the exporter is unchanged. *)
Theorem snapshot_transfers (l : list LogEntry) (n : nat) (r f : Replica Tables) :
  at_log l n r -> Z.of_nat n < uint64_mod -> r_online f = true ->
  exists snap f', export_snapshot r = (r, Ok snap) /\ install_snapshot snap f = (f', Ok tt) /\
    at_log (take n l) n f' /\ kv (r_store f') = kv (r_store r) /\ persisted f' /\
    r_term f' = Z.max (r_term f) (r_term r) /\ r_role f' = Follower.
Proof.
  intros Hat Hn Ho. rewrite (export_snapshot_run l n r Hat Hn). pose proof (at_le _ _ _ Hat).
  assert (Hlen : length (take n l) = n) by (rewrite length_take; lia).
  destruct (install_snapshot_run (r_term r) (take n l) f) as (f' & Hrun & Hat' & Hper & Hvol);
    [apply wf_log_take, Hat|done|].
  rewrite Hlen in Hrun, Hat', Hvol. eexists _, f'. split; [done|]. split; [exact Hrun|].
  split_and!; try done.
  - rewrite (at_kv _ _ _ Hat'), (at_kv _ _ _ Hat). by rewrite take_take, Nat.min_id.
  - apply (f_equal r_term Hvol).
  - apply (f_equal r_role Hvol).
Qed.

Lemma snapshot_transfers_witness :
  exists snap f', export_snapshot demo_follower = (demo_follower, Ok snap) /\
    install_snapshot snap (fresh_replica "s0-r2" 0 empty_tables) = (f', Ok tt) /\
    at_log (take 1 demo_log) 1 f' /\ kv (r_store f') = kv (r_store demo_follower) /\ persisted f' /\
    r_term f' = 2 /\ r_role f' = Follower.
Proof.
  apply (snapshot_transfers demo_log 1 demo_follower (fresh_replica "s0-r2" 0 empty_tables)).
  - apply demo_follower_at_log.
  - reflexivity.
  - reflexivity.
Defined.

(** C27: a snapshot makes a replica forget its vote.  Whatever vote an online
    replica has given in its current term, after it has installed a snapshot of
    the same term it grants a request of that term to any candidate whose log is
    the snapshot's. *)
Theorem snapshot_forgets_vote (l : list LogEntry) (r : Replica Tables) (c : string) :
  wf_log l -> r_online r = true -> nul_free c ->
  exists r1 r2,
    install_snapshot {| snap_term := r_term r; snap_commit_index := Z.of_nat (length l);
                        snap_log := l |} r = (r1, Ok tt) /\
    r_term r1 = r_term r /\
    request_vote (r_term r) c (Z.of_nat (length l)) (last_term l) r1 = (r2, Ok true) /\
    r_voted_for r2 = c.
Proof.
  intros Hwf Ho Hc.
  destruct (install_snapshot_run (r_term r) l r Hwf Ho) as (r1 & E1 & Hat & Hper & Hvol).
  rewrite Z.max_id in Hvol.
  pose proof (f_equal r_term Hvol) as Et. pose proof (f_equal r_voted_for Hvol) as Ev.
  pose proof (f_equal r_online Hvol) as Eo. simpl in Et, Ev, Eo.
  destruct (request_vote_run l (length l) (r_term r) c (Z.of_nat (length l)) (last_term l) r1)
    as (r2 & E2 & _ & _ & Hvol2); [done|congruence|lia|done|by rewrite Ev|].
  assert (Hg : grants c (Z.of_nat (length l)) (last_term l) l (saw_term (r_term r) (vol r1)) = true).
  { rewrite Hvol. unfold grants, up_to_date, saw_term. cbn [r_term with_commit with_applied with_role with_voted_for with_term].
    rewrite Z.ltb_irrefl. simpl. rewrite Z.eqb_refl, Z.leb_refl. by destruct (_ <? _). }
  rewrite Hg in E2, Hvol2. exists r1, r2. split_and!; try done. by apply (f_equal r_voted_for) in Hvol2.
Qed.

Lemma snapshot_forgets_vote_witness :
  let r := (request_vote 3 "s0-r0" 0 0 (fresh_replica "s0-r1" 0 empty_tables)).1 in
  r_voted_for r = "s0-r0" /\ (request_vote 3 "s0-r2" 0 0 r).2 = Ok false /\
  exists r1 r2, install_snapshot {| snap_term := 3; snap_commit_index := 0; snap_log := [] |} r = (r1, Ok tt) /\
    r_term r1 = 3 /\ request_vote 3 "s0-r2" 0 0 r1 = (r2, Ok true) /\ r_voted_for r2 = "s0-r2".
Proof.
  intros r. split; [reflexivity|]. split; [reflexivity|].
  apply (snapshot_forgets_vote [] r "s0-r2"); [apply wf_log_nil|reflexivity|reflexivity].
Defined.
