(* ===== verification/Metrics.v ===== *)
(** * src/metrics.cpp: the counters

    Each counter is a [std::atomic<std::uint64_t>]; [fetch_add] wraps.  An
    increment is one atomic step, so it is a function on the whole record. *)

From S2P Require Import Prelude CppStd.
From Stdlib Require Import Ascii.

#[local] Open Scope Z_scope.

Record Metrics := {
  requests : Z;
  request_latency_us : Z;
  auth_failures : Z;
  rate_limited : Z;
  gets_ : Z;
  puts : Z;
  deletes : Z;
  retries : Z;
  circuit_open : Z;
  gateway_failures : Z;
  elections : Z;
  replication_failures : Z;
}.

Definition zero_metrics : Metrics :=
  {| requests := 0; request_latency_us := 0; auth_failures := 0; rate_limited := 0;
     gets_ := 0; puts := 0; deletes := 0; retries := 0; circuit_open := 0;
     gateway_failures := 0; elections := 0; replication_failures := 0 |}.

(** [counter.fetch_add(n)] *)
Definition fetch_add (c n : Z) : Z := wrap_u64 (c + n).

Definition record_request (latency_us : Z) (m : Metrics) : Metrics :=
  {| requests := fetch_add (requests m) 1;
     request_latency_us := fetch_add (request_latency_us m) latency_us;
     auth_failures := auth_failures m; rate_limited := rate_limited m; gets_ := gets_ m;
     puts := puts m; deletes := deletes m; retries := retries m;
     circuit_open := circuit_open m; gateway_failures := gateway_failures m;
     elections := elections m; replication_failures := replication_failures m |}.

Definition inc_auth_failure (m : Metrics) : Metrics :=
  {| requests := requests m; request_latency_us := request_latency_us m;
     auth_failures := fetch_add (auth_failures m) 1; rate_limited := rate_limited m;
     gets_ := gets_ m; puts := puts m; deletes := deletes m; retries := retries m;
     circuit_open := circuit_open m; gateway_failures := gateway_failures m;
     elections := elections m; replication_failures := replication_failures m |}.

Definition inc_rate_limited (m : Metrics) : Metrics :=
  {| requests := requests m; request_latency_us := request_latency_us m;
     auth_failures := auth_failures m; rate_limited := fetch_add (rate_limited m) 1;
     gets_ := gets_ m; puts := puts m; deletes := deletes m; retries := retries m;
     circuit_open := circuit_open m; gateway_failures := gateway_failures m;
     elections := elections m; replication_failures := replication_failures m |}.

Definition inc_get (m : Metrics) : Metrics :=
  {| requests := requests m; request_latency_us := request_latency_us m;
     auth_failures := auth_failures m; rate_limited := rate_limited m;
     gets_ := fetch_add (gets_ m) 1; puts := puts m; deletes := deletes m;
     retries := retries m; circuit_open := circuit_open m;
     gateway_failures := gateway_failures m; elections := elections m;
     replication_failures := replication_failures m |}.

Definition inc_put (m : Metrics) : Metrics :=
  {| requests := requests m; request_latency_us := request_latency_us m;
     auth_failures := auth_failures m; rate_limited := rate_limited m; gets_ := gets_ m;
     puts := fetch_add (puts m) 1; deletes := deletes m; retries := retries m;
     circuit_open := circuit_open m; gateway_failures := gateway_failures m;
     elections := elections m; replication_failures := replication_failures m |}.

Definition inc_delete (m : Metrics) : Metrics :=
  {| requests := requests m; request_latency_us := request_latency_us m;
     auth_failures := auth_failures m; rate_limited := rate_limited m; gets_ := gets_ m;
     puts := puts m; deletes := fetch_add (deletes m) 1; retries := retries m;
     circuit_open := circuit_open m; gateway_failures := gateway_failures m;
     elections := elections m; replication_failures := replication_failures m |}.

Definition inc_retry (m : Metrics) : Metrics :=
  {| requests := requests m; request_latency_us := request_latency_us m;
     auth_failures := auth_failures m; rate_limited := rate_limited m; gets_ := gets_ m;
     puts := puts m; deletes := deletes m; retries := fetch_add (retries m) 1;
     circuit_open := circuit_open m; gateway_failures := gateway_failures m;
     elections := elections m; replication_failures := replication_failures m |}.

Definition inc_circuit_open (m : Metrics) : Metrics :=
  {| requests := requests m; request_latency_us := request_latency_us m;
     auth_failures := auth_failures m; rate_limited := rate_limited m; gets_ := gets_ m;
     puts := puts m; deletes := deletes m; retries := retries m;
     circuit_open := fetch_add (circuit_open m) 1; gateway_failures := gateway_failures m;
     elections := elections m; replication_failures := replication_failures m |}.

Definition inc_gateway_failure (m : Metrics) : Metrics :=
  {| requests := requests m; request_latency_us := request_latency_us m;
     auth_failures := auth_failures m; rate_limited := rate_limited m; gets_ := gets_ m;
     puts := puts m; deletes := deletes m; retries := retries m;
     circuit_open := circuit_open m; gateway_failures := fetch_add (gateway_failures m) 1;
     elections := elections m; replication_failures := replication_failures m |}.

Definition inc_election (m : Metrics) : Metrics :=
  {| requests := requests m; request_latency_us := request_latency_us m;
     auth_failures := auth_failures m; rate_limited := rate_limited m; gets_ := gets_ m;
     puts := puts m; deletes := deletes m; retries := retries m;
     circuit_open := circuit_open m; gateway_failures := gateway_failures m;
     elections := fetch_add (elections m) 1; replication_failures := replication_failures m |}.

Definition inc_replication_failure (m : Metrics) : Metrics :=
  {| requests := requests m; request_latency_us := request_latency_us m;
     auth_failures := auth_failures m; rate_limited := rate_limited m; gets_ := gets_ m;
     puts := puts m; deletes := deletes m; retries := retries m;
     circuit_open := circuit_open m; gateway_failures := gateway_failures m;
     elections := elections m; replication_failures := fetch_add (replication_failures m) 1 |}.

Definition nl : string := String "010" "".

(** One sample line. *)
Definition sample (name : string) (v : Z) : string := name +:+ " " +:+ to_string v +:+ nl.

Definition render_prometheus (m : Metrics) : string :=
  "# HELP kv_gateway_requests_total Total HTTP requests." +:+ nl
  +:+ "# TYPE kv_gateway_requests_total counter" +:+ nl
  +:+ sample "kv_gateway_requests_total" (requests m)
  +:+ "# HELP kv_gateway_request_latency_microseconds_sum Cumulative request latency." +:+ nl
  +:+ "# TYPE kv_gateway_request_latency_microseconds_sum counter" +:+ nl
  +:+ sample "kv_gateway_request_latency_microseconds_sum" (request_latency_us m)
  +:+ "# HELP kv_gateway_request_latency_microseconds_avg Average request latency." +:+ nl
  +:+ "# TYPE kv_gateway_request_latency_microseconds_avg gauge" +:+ nl
  +:+ sample "kv_gateway_request_latency_microseconds_avg"
        (if requests m =? 0 then 0 else request_latency_us m / requests m)
  +:+ sample "kv_gateway_auth_failures_total" (auth_failures m)
  +:+ sample "kv_gateway_rate_limited_total" (rate_limited m)
  +:+ sample "kv_gateway_get_total" (gets_ m)
  +:+ sample "kv_gateway_put_total" (puts m)
  +:+ sample "kv_gateway_delete_total" (deletes m)
  +:+ sample "kv_gateway_retries_total" (retries m)
  +:+ sample "kv_gateway_circuit_open_total" (circuit_open m)
  +:+ sample "kv_gateway_failures_total" (gateway_failures m)
  +:+ sample "kv_raft_elections_total" (elections m)
  +:+ sample "kv_raft_replication_failures_total" (replication_failures m).
