(* ===== verification/Shard.v ===== *)
(** * src/cluster.cpp, class Shard: a group of replicas

    Every method runs under the shard's mutex and is one state-passing function
    on the shard and on what it shares with the rest of the process: the
    metrics and the log stream.  A [shared_ptr<RaftReplica>] is the position of
    the replica in [replicas_], so that the vectors [online] and
    [acknowledged_followers] alias the replicas they point to. *)

From S2P Require Import Prelude CppStd Common Sqlite Store Raft Metrics.

#[local] Open Scope Z_scope.

Record World := { w_metrics : Metrics; w_log : list LogEvent }.

Record Shard (S : Type) := {
  sh_id : Z;
  sh_replicas : list (Replica S);
  sh_leader_id : string;
}.
Arguments sh_id {S}. Arguments sh_replicas {S}. Arguments sh_leader_id {S}.

Definition with_replicas {S} (rs : list (Replica S)) (sh : Shard S) : Shard S :=
  {| sh_id := sh_id sh; sh_replicas := rs; sh_leader_id := sh_leader_id sh |}.
Definition with_leader_id {S} (x : string) (sh : Shard S) : Shard S :=
  {| sh_id := sh_id sh; sh_replicas := sh_replicas sh; sh_leader_id := x |}.

(** The name the constructor gives to replica [i] of shard [shard_id]. *)
Definition replica_name (shard_id : Z) (i : nat) : string :=
  "s" +:+ to_string shard_id +:+ "-r" +:+ to_string (Z.of_nat i).

Section methods.
Context {S : Type} `{Store S}.
Abbreviation SM := (M (Shard S * World)).

(** [replica->m()] through the pointer [i] *)
Definition on_replica {A} (i : nat) (m : M (Replica S) A) : SM A := fun s =>
  match sh_replicas s.1 !! i with
  | None => (s, Throw (UndefinedBehaviour "null replica"))
  | Some r => let '(r', a) := m r in
              ((with_replicas (<[i := r']> (sh_replicas s.1)) s.1, s.2), a)
  end.

Definition set_leader_id (x : string) : SM unit :=
  modify (fun s => (with_leader_id x s.1, s.2)).

(** [metrics_.inc_...()] *)
Definition metric (f : Metrics -> Metrics) : SM unit :=
  modify (fun s => (s.1, {| w_metrics := f (w_metrics s.2); w_log := w_log s.2 |})).

Definition log_event (level event details : string) : SM unit :=
  modify (fun s => (s.1, {| w_metrics := w_metrics s.2;
    w_log := w_log s.2 ++ [{| ev_level := level; ev_event := event; ev_details := details |}] |})).

(** [replica->id()] and the other accessors of volatile fields *)
Definition field {A} (i : nat) (f : Replica unit -> A) : SM A :=
  on_replica i (v ← volatile; mret (f v)).

Definition replica_count (sh : Shard S) : nat := length (sh_replicas sh).

(** [replicas_.size() / 2 + 1] *)
Definition quorum (n : nat) : nat := n / 2 + 1.

Definition is_current_leader (leader_id : string) (r : Replica S) : Prop :=
  r_id r = leader_id /\ r_online r = true.

(** [current_leader_locked]: the first replica that has the leader's id and
    is online. *)
Definition current_leader (sh : Shard S) : option nat :=
  fst <$> list_find (is_current_leader (sh_leader_id sh)) (sh_replicas sh).
Definition current_leader_locked : SM (option nat) := gets (fun s => current_leader s.1).

(** The first replica with a given id. *)
Definition find_replica (replica_id : string) (sh : Shard S) : option nat :=
  fst <$> list_find (fun r => r_id r = replica_id) (sh_replicas sh).

Definition pointers : SM (list nat) := gets (fun s => seq 0 (replica_count s.1)).

(** The pointers to the online replicas, in order. *)
Definition online_pointers (sh : Shard S) : list nat :=
  fst <$> filter (fun p => r_online p.2 = true) (imap pair (sh_replicas sh)).

(** The comparison of the [std::max_element] call. *)
Definition less_up_to_date (a b : nat) : SM bool :=
  ca ← field a r_commit; cb ← field b r_commit;
  if negb (ca =? cb) then mret (ca <? cb)
  else
    ta ← on_replica a last_log_term; tb ← on_replica b last_log_term;
    if negb (ta =? tb) then mret (ta <? tb)
    else
      ia ← on_replica a last_log_index; ib ← on_replica b last_log_index;
      mret (ia <? ib).

(** [next_term]: above the term of every replica, online or not. *)
Definition next_term (sh : Shard S) : Z :=
  foldl (fun t r => Z.max t (r_term r + 1)) 1 (sh_replicas sh).

Definition sync_follower_locked (follower leader : nat) : SM unit :=
  online ← field follower r_online;
  if negb online then mret tt
  else snapshot ← on_replica leader export_snapshot;
       on_replica follower (install_snapshot snapshot).

Definition ensure_leader_locked : SM bool :=
  leader ← current_leader_locked;
  match leader with
  | Some _ => mret true
  | None =>
      n ← gets (fun s => replica_count s.1);
      online ← gets (fun s => online_pointers s.1);
      if (length online <? quorum n)%nat then set_leader_id "" ;; mret false
      else
        candidate ← max_element less_up_to_date online;
        term ← gets (fun s => next_term s.1);
        on_replica candidate (set_role Candidate) ;;
        candidate_last_index ← on_replica candidate last_log_index;
        candidate_last_term ← on_replica candidate last_log_term;
        candidate_id ← field candidate r_id;
        votes ← for_fold online 0%nat (fun votes i =>
          granted ← on_replica i
            (request_vote term candidate_id candidate_last_index candidate_last_term);
          mret (if granted : bool then (votes + 1)%nat else votes));
        if (votes <? quorum n)%nat then
          on_replica candidate (set_role Follower) ;; set_leader_id "" ;; mret false
        else
          ptrs ← pointers;
          for_each ptrs (fun i => on_replica i (set_role Follower)) ;;
          on_replica candidate (set_role Leader) ;;
          set_leader_id candidate_id ;;
          for_each online (fun i =>
            id ← field i r_id;
            when (bool_decide (id <> candidate_id)) (sync_follower_locked i candidate)) ;;
          metric inc_election ;;
          shard_id ← gets (fun s => sh_id s.1);
          log_event "INFO" "leader_elected"
            ("shard=" +:+ to_string shard_id +:+ ",leader=" +:+ candidate_id) ;;
          mret true
  end.

(** The loop body of [replicate_command_locked] over the replicas: the
    pointers of the followers that acknowledged so far, in order. *)
Definition replicate_to (leader : nat) (entry : LogEntry) (prev_index prev_term : Z)
    (acked : list nat) (i : nat) : SM (list nat) :=
  id ← field i r_id; leader_id ← field leader r_id; online ← field i r_online;
  if bool_decide (id = leader_id) || negb online then mret acked
  else
    lagging ←
      (fc ← field i r_commit; lc ← field leader r_commit;
       if negb (fc =? lc) then mret true
       else fl ← on_replica i last_log_index; lc ← field leader r_commit;
            mret (negb (fl =? lc)));
    when lagging (sync_follower_locked i leader) ;;
    term ← field leader r_term; lc ← field leader r_commit;
    accepted ← on_replica i (append_entries term leader_id prev_index prev_term [entry] lc);
    if accepted : bool then mret (acked ++ [i])
    else metric inc_replication_failure ;; mret acked.

Definition with_status (status : Z) (message : string) (res : OperationResult) : OperationResult :=
  {| res_ok := res_ok res; res_status := status; res_message := message;
     res_value := res_value res; res_shard := res_shard res; res_leader := res_leader res |}.

Definition shard_result (shard_id : Z) (leader : string) : OperationResult :=
  {| res_ok := false; res_status := 500; res_message := ""; res_value := "";
     res_shard := shard_id; res_leader := leader |}.

Definition replicate_command_locked (command key value : string) : SM OperationResult :=
  shard_id ← gets (fun s => sh_id s.1);
  ok ← ensure_leader_locked;
  if negb ok then mret (with_status 503 "no quorum available" (shard_result shard_id ""))
  else
    leader ← current_leader_locked;
    match leader with
    | None => mret (with_status 503 "leader unavailable" (shard_result shard_id ""))
    | Some leader =>
        leader_id ← field leader r_id;
        n ← gets (fun s => replica_count s.1);
        entry ← on_replica leader (append_local command key value);
        let prev_index := e_index entry - 1 in
        prev_term ← on_replica leader (term_at prev_index);
        ptrs ← pointers;
        acked ← for_fold ptrs [] (replicate_to leader entry prev_index prev_term);
        if (1 + length acked <? quorum n)%nat then
          on_replica leader discard_uncommitted ;;
          for_each acked (fun i => on_replica i discard_uncommitted) ;;
          mret (with_status 503
            "write rejected because a majority could not acknowledge the log entry"
            (shard_result shard_id leader_id))
        else
          on_replica leader (commit_to (e_index entry)) ;;
          for_each acked (fun i =>
            term ← field leader r_term; id ← field leader r_id;
            on_replica i (append_entries term id (e_index entry) (e_term entry) []
                            (e_index entry)) ;;
            mret tt) ;;
          mret {| res_ok := true;
                  res_status := if decide (command = "DELETE") then 200 else 201;
                  res_message := if decide (command = "DELETE") then "deleted" else "stored";
                  res_value := ""; res_shard := shard_id; res_leader := leader_id |}
    end.

Definition put (key value : string) : SM OperationResult :=
  replicate_command_locked "PUT" key value.
Definition erase (key : string) : SM OperationResult :=
  replicate_command_locked "DELETE" key "".

Definition get (key : string) : SM OperationResult :=
  shard_id ← gets (fun s => sh_id s.1);
  ok ← ensure_leader_locked;
  if negb ok
  then mret (with_status 503 "no quorum available for leader election" (shard_result shard_id ""))
  else
    leader ← current_leader_locked;
    match leader with
    | None => mret (with_status 503 "leader unavailable" (shard_result shard_id ""))
    | Some leader =>
        leader_id ← field leader r_id;
        value ← on_replica leader (Raft.get key);
        match value with
        | None => mret (with_status 404 "key not found" (shard_result shard_id leader_id))
        | Some v => mret {| res_ok := true; res_status := 200; res_message := "ok";
                            res_value := v; res_shard := shard_id; res_leader := leader_id |}
        end
    end.

Definition fail_replica (replica_id : string) : SM bool :=
  found ← gets (fun s => find_replica replica_id s.1);
  match found with
  | None => mret false
  | Some i =>
      on_replica i (set_online false) ;;
      leader_id ← gets (fun s => sh_leader_id s.1);
      when (bool_decide (leader_id = replica_id)) (set_leader_id "") ;;
      log_event "WARN" "replica_failed" replica_id ;;
      mret true
  end.

Definition recover_replica (replica_id : string) : SM bool :=
  found ← gets (fun s => find_replica replica_id s.1);
  match found with
  | None => mret false
  | Some i =>
      on_replica i (set_online true) ;;
      ok ← ensure_leader_locked;
      when ok
        (leader ← current_leader_locked;
         match leader with
         | None => mret tt
         | Some l =>
             leader_id ← field l r_id; id ← field i r_id;
             when (bool_decide (leader_id <> id)) (sync_follower_locked i l)
         end) ;;
      log_event "INFO" "replica_recovered" replica_id ;;
      mret true
  end.

Definition elect_leader : SM bool := ensure_leader_locked.

(** The elements of a JSON array. *)
Fixpoint join (l : list string) : string :=
  match l with
  | [] => ""
  | [x] => x
  | x :: l' => x +:+ "," +:+ join l'
  end.

Definition status_json : SM string :=
  shard_id ← gets (fun s => sh_id s.1);
  leader_id ← gets (fun s => sh_leader_id s.1);
  ptrs ← pointers;
  parts ← for_fold ptrs [] (fun parts i =>
    part ← on_replica i Raft.status_json; mret (parts ++ [part]));
  mret ("{" +:+ q "shard" +:+ ":" +:+ to_string shard_id
        +:+ "," +:+ q "leader" +:+ ":" +:+ q (json_escape leader_id)
        +:+ "," +:+ q "replicas" +:+ ":[" +:+ join parts +:+ "]}").

(** The constructor.  [disk] is the contents of the data directory by file
    name; opening each database and loading it comes before the election. *)
Fixpoint build_replicas (shard_id : Z) (disk : string -> st_file) (ids : list nat)
    : result (list (Replica S)) :=
  match ids with
  | [] => Ok []
  | i :: ids' =>
      let name := replica_name shard_id i in
      match RaftReplica name shard_id (disk (name +:+ ".db")) with
      | Throw e => Throw e
      | Ok r => match build_replicas shard_id disk ids' with
                | Throw e => Throw e
                | Ok rs => Ok (r :: rs)
                end
      end
  end.

Definition Shard_new (shard_id : Z) (count : nat) (disk : string -> st_file)
    : M World (Shard S) := fun w =>
  if (count <? 1)%nat
  then (w, Throw (InvalidArgument "replica_count must be at least 1"))
  else match build_replicas shard_id disk (seq 0 count) with
       | Throw e => (w, Throw e)
       | Ok rs =>
           match elect_leader ({| sh_id := shard_id; sh_replicas := rs; sh_leader_id := "" |}, w) with
           | ((sh, w'), Ok _) => (w', Ok sh)
           | ((_, w'), Throw e) => (w', Throw e)
           end
       end.
End methods.

(** ** Shards over two stores *)

Definition shard_rel {S T} (R : S -> T -> Prop) (s1 : Shard S) (s2 : Shard T) : Prop :=
  sh_id s1 = sh_id s2 /\ sh_leader_id s1 = sh_leader_id s2 /\
  Forall2 (rep_rel R) (sh_replicas s1) (sh_replicas s2).

Definition shard_state_rel {S T} (R : S -> T -> Prop) (s1 : Shard S * World) (s2 : Shard T * World)
    : Prop := shard_rel R s1.1 s2.1 /\ s1.2 = s2.2.

Lemma list_find_rel {A B} (P : A -> Prop) (Q : B -> Prop)
    `{forall x, Decision (P x), forall x, Decision (Q x)} (R : A -> B -> Prop) l1 l2 :
  (forall x y, R x y -> P x <-> Q y) -> Forall2 R l1 l2 ->
  fst <$> list_find P l1 = fst <$> list_find Q l2.
Proof.
  intros HPQ. induction 1 as [|x y l1 l2 Hxy Hl IH]; [done|]. cbn [list_find].
  destruct (HPQ x y Hxy). repeat case_decide; try (by naive_solver).
  rewrite <- !option_fmap_compose. unfold compose. simpl.
  destruct (list_find P l1) as [[]|], (list_find Q l2) as [[]|]; naive_solver.
Qed.

Section simulated.
Context {S : Type} `{StoreSpec S}.
Abbreviation R := (shard_state_rel (holds (S := S))).

Lemma on_replica_sim {A} i (m1 : M (Replica S) A) (m2 : M (Replica Tables) A) :
  sim (rep_rel holds) m1 m2 -> sim R (on_replica i m1) (on_replica i m2).
Proof.
  intros Hm [s w1] [t w2] [(Hi & Hl & Hr) Hw]. simpl in *. subst w2. unfold on_replica. simpl.
  destruct (sh_replicas s !! i) as [r1|] eqn:E1.
  - destruct (Forall2_lookup_l _ _ _ _ _ Hr E1) as (r2 & E2 & Hr12). rewrite E2.
    destruct (Hm r1 r2 Hr12) as (r1' & r2' & a & -> & -> & Hr').
    eexists _, _, a. split; [done|]. split; [done|]. split; [|done].
    split; [done|]. split; [done|]. by apply Forall2_insert.
  - rewrite (proj2 (lookup_ge_None (sh_replicas t) i)).
    + by eexists _, _, _.
    + rewrite <- (Forall2_length _ _ _ Hr). by apply lookup_ge_None.
Qed.

Lemma gets_shard_sim {A} (f1 : Shard S -> A) (f2 : Shard Tables -> A) :
  (forall s t, shard_rel holds s t -> f1 s = f2 t) ->
  sim R (gets (fun s => f1 s.1)) (gets (fun s => f2 s.1)).
Proof. intros Hf. apply sim_gets. intros s t [Hs _]. by apply Hf. Qed.

Lemma rel_count s t : shard_rel (holds (S := S)) s t -> replica_count s = replica_count t.
Proof. intros (_ & _ & Hr). by apply Forall2_length in Hr. Qed.

Lemma rel_current_leader s t :
  shard_rel (holds (S := S)) s t -> current_leader s = current_leader t.
Proof.
  intros (_ & Hl & Hr). unfold current_leader. rewrite Hl.
  eapply list_find_rel; [|exact Hr]. intros x y (E1 & _ & _ & E2 & _)%rep_rel_fields.
  unfold is_current_leader. by rewrite E1, E2.
Qed.

Lemma rel_find_replica id s t :
  shard_rel (holds (S := S)) s t -> find_replica id s = find_replica id t.
Proof.
  intros (_ & Hl & Hr). unfold find_replica.
  eapply list_find_rel; [|exact Hr]. intros x y (E1 & _)%rep_rel_fields. by rewrite E1.
Qed.

Lemma rel_next_term s t : shard_rel (holds (S := S)) s t -> next_term s = next_term t.
Proof.
  intros (_ & _ & Hr). unfold next_term.
  assert (G : forall z, foldl (fun t r => Z.max t (r_term r + 1)) z (sh_replicas s) =
                        foldl (fun t r => Z.max t (r_term r + 1)) z (sh_replicas t)); [|apply G].
  induction Hr as [|x y l1 l2 Hxy Hr IH]; intros z; [done|]. simpl. rewrite IH.
  by apply rep_rel_fields in Hxy as (_ & _ & _ & _ & -> & _).
Qed.

Lemma rel_online_pointers s t :
  shard_rel (holds (S := S)) s t -> online_pointers s = online_pointers t.
Proof.
  intros (_ & _ & Hr). unfold online_pointers.
  assert (G : forall f : nat -> nat,
    fst <$> filter (fun p => r_online p.2 = true) (imap (fun i r => (f i, r)) (sh_replicas s)) =
    fst <$> filter (fun p => r_online p.2 = true) (imap (fun i r => (f i, r)) (sh_replicas t)));
    [|apply (G id)].
  induction Hr as [|x y l1 l2 Hxy Hr IH]; intros f; [done|].
  cbn [imap]. rewrite !filter_cons. simpl.
  apply rep_rel_fields in Hxy as (_ & _ & _ & -> & _).
  specialize (IH (f ∘ Datatypes.S)).
  case_decide; rewrite ?fmap_cons; [f_equal|]; exact IH.
Qed.

Lemma modify_leader_sim x : sim R (set_leader_id x) (set_leader_id x).
Proof. apply sim_modify. intros [s w1] [t w2] [(?&?&?) ?]. by simpl in *; subst. Qed.
Lemma metric_sim f : sim R (metric f) (metric f).
Proof. apply sim_modify. intros [s w1] [t w2] [(?&?&?) ?]. by simpl in *; subst. Qed.
Lemma log_event_sim a b c : sim R (log_event a b c) (log_event a b c).
Proof. apply sim_modify. intros [s w1] [t w2] [(?&?&?) ?]. by simpl in *; subst. Qed.

Lemma field_sim {A} i (f : Replica unit -> A) : sim R (field i f) (field i f).
Proof. apply on_replica_sim, sim_bind; [apply volatile_sim|intros; apply sim_ret]. Qed.
Lemma pointers_sim : sim R pointers pointers.
Proof.
  apply (gets_shard_sim (fun s => seq 0 (replica_count s)) (fun s => seq 0 (replica_count s))).
  intros s t ?%rel_count. congruence.
Qed.
Lemma count_sim : sim R (gets (fun s => replica_count s.1)) (gets (fun s => replica_count s.1)).
Proof. apply (gets_shard_sim replica_count replica_count), rel_count. Qed.
Lemma online_sim : sim R (gets (fun s => online_pointers s.1)) (gets (fun s => online_pointers s.1)).
Proof. apply (gets_shard_sim online_pointers online_pointers), rel_online_pointers. Qed.
Lemma next_term_sim : sim R (gets (fun s => next_term s.1)) (gets (fun s => next_term s.1)).
Proof. apply (gets_shard_sim next_term next_term), rel_next_term. Qed.
Lemma sh_id_sim : sim R (gets (fun s => sh_id s.1)) (gets (fun s => sh_id s.1)).
Proof. apply (gets_shard_sim sh_id sh_id). by intros s t []. Qed.
Lemma sh_leader_id_sim : sim R (gets (fun s => sh_leader_id s.1)) (gets (fun s => sh_leader_id s.1)).
Proof. apply (gets_shard_sim sh_leader_id sh_leader_id). by intros s t (_ & ? & _). Qed.
Lemma find_replica_sim id :
  sim R (gets (fun s => find_replica id s.1)) (gets (fun s => find_replica id s.1)).
Proof. apply (gets_shard_sim (find_replica id) (find_replica id)), rel_find_replica. Qed.
Lemma current_leader_sim : sim R current_leader_locked current_leader_locked.
Proof. apply (gets_shard_sim current_leader current_leader), rel_current_leader. Qed.

#[local] Hint Resolve on_replica_sim modify_leader_sim metric_sim log_event_sim field_sim
  pointers_sim count_sim online_sim next_term_sim sh_id_sim sh_leader_id_sim
  find_replica_sim current_leader_sim : sim.

Lemma less_up_to_date_sim a b : sim R (less_up_to_date a b) (less_up_to_date a b).
Proof. unfold less_up_to_date. solve_sim. Qed.
Lemma sync_follower_sim f l : sim R (sync_follower_locked f l) (sync_follower_locked f l).
Proof. unfold sync_follower_locked. solve_sim. Qed.
#[local] Hint Resolve less_up_to_date_sim sync_follower_sim : sim.

Lemma ensure_leader_sim : sim R ensure_leader_locked ensure_leader_locked.
Proof. unfold ensure_leader_locked. solve_sim. Qed.
Lemma replicate_to_sim l e pi pt a i :
  sim R (replicate_to l e pi pt a i) (replicate_to l e pi pt a i).
Proof. unfold replicate_to. solve_sim. Qed.
#[local] Hint Resolve ensure_leader_sim replicate_to_sim : sim.

Lemma replicate_command_sim c k v :
  sim R (replicate_command_locked c k v) (replicate_command_locked c k v).
Proof. unfold replicate_command_locked. solve_sim. Qed.
Lemma shard_get_sim k : sim R (get k) (get k).
Proof. unfold get. solve_sim. Qed.
Lemma fail_replica_sim id : sim R (fail_replica id) (fail_replica id).
Proof. unfold fail_replica. solve_sim. Qed.
Lemma recover_replica_sim id : sim R (recover_replica id) (recover_replica id).
Proof. unfold recover_replica. solve_sim. Qed.
Lemma shard_status_sim : sim R status_json status_json.
Proof. unfold status_json. solve_sim. Qed.
End simulated.
