(* ===== verification/ShardFacts.v ===== *)
(** * Running a shard's loops over its replicas

    The loops of a shard touch each replica through its pointer.  [upd_rel]
    describes what a loop over the pointers [l] did: the replicas pointed to by
    [l] changed as [Q] says and the others did not. *)

From S2P Require Import Prelude CppStd Common Sqlite Store LogFacts Raft RaftProofs Metrics Shard.

#[local] Open Scope Z_scope.

Abbreviation Rep := (Replica Tables).
Abbreviation SH := (Shard Tables).

Definition upd_rel (l : list nat) (Q : nat -> Rep -> Rep -> Prop) (rs rs' : list Rep) : Prop :=
  length rs' = length rs /\
  forall i r, rs !! i = Some r ->
  exists r', rs' !! i = Some r' /\ (i ∈ l -> Q i r r') /\ (i ∉ l -> r' = r).

Lemma upd_rel_nil Q rs : upd_rel [] Q rs rs.
Proof.
  split; [done|]. intros i r Hi. exists r. split; [done|]. split; [|done].
  by intros ?%elem_of_nil.
Qed.

Lemma upd_rel_snoc l i Q rs rs' r r' :
  upd_rel l Q rs rs' -> i ∉ l -> rs !! i = Some r -> Q i r r' ->
  upd_rel (l ++ [i]) Q rs (<[i := r']> rs').
Proof.
  intros [Hlen Hrel] Hni Hi HQ. split; [by rewrite length_insert|].
  intros j rj Hj. destruct (decide (j = i)) as [->|Hne].
  - exists r'. assert (rj = r) as -> by congruence. split.
    + apply list_lookup_insert_eq. rewrite Hlen. by eapply lookup_lt_Some.
    + split; [done|]. intros []. apply elem_of_app. right. by left.
  - destruct (Hrel j rj Hj) as (r'' & Hj' & Hin & Hnin). exists r''.
    rewrite list_lookup_insert_ne by done. split; [done|]. split.
    + intros [?|Hx]%elem_of_app; [by apply Hin|]. by apply list_elem_of_singleton in Hx.
    + intros Hn. apply Hnin. intros ?. apply Hn. apply elem_of_app. by left.
Qed.

Lemma upd_rel_keep l i Q rs rs' r :
  upd_rel l Q rs rs' -> i ∉ l -> rs !! i = Some r -> rs' !! i = Some r.
Proof.
  intros [_ Hrel] Hni Hi. destruct (Hrel i r Hi) as (r' & Hi' & _ & Hn). by rewrite (Hn Hni) in Hi'.
Qed.

Lemma upd_rel_in l i Q rs rs' r :
  upd_rel l Q rs rs' -> i ∈ l -> rs !! i = Some r -> exists r', rs' !! i = Some r' /\ Q i r r'.
Proof. intros [_ Hrel] Hin Hi. destruct (Hrel i r Hi) as (r' & Hi' & HQ & _). eauto. Qed.

(** ** Calls through pointers *)

Section calls.
Context (sh : SH) (w : World).

Lemma with_replicas_id : with_replicas (sh_replicas sh) sh = sh.
Proof. by destruct sh. Qed.

Lemma on_replica_run {A} i (m : M Rep A) r r' a :
  sh_replicas sh !! i = Some r -> m r = (r', a) ->
  on_replica i m (sh, w) = ((with_replicas (<[i := r']> (sh_replicas sh)) sh, w), a).
Proof. intros Hi Hm. unfold on_replica. simpl. by rewrite Hi, Hm. Qed.

Lemma on_replica_read {A} i (m : M Rep A) r a :
  sh_replicas sh !! i = Some r -> m r = (r, a) -> on_replica i m (sh, w) = ((sh, w), a).
Proof.
  intros Hi Hm. rewrite (on_replica_run i m r r a Hi Hm).
  by rewrite list_insert_id, with_replicas_id.
Qed.

Lemma field_run {A} i (f : Replica unit -> A) r :
  sh_replicas sh !! i = Some r -> field i f (sh, w) = ((sh, w), Ok (f (vol r))).
Proof. intros Hi. by eapply on_replica_read. Qed.
End calls.

(** ** Loops *)

Lemma for_each_as_fold {S A} (l : list A) (body : A -> M S unit) s :
  for_each l body s = for_fold l tt (fun _ => body) s.
Proof.
  revert s. induction l as [|x l IH]; intros s; [done|]. simpl.
  unfold mbind, M_bind. destruct (body x s) as [s' [[]|e]]; [apply IH|done].
Qed.

(** A loop whose body, at a pointer not seen before, changes only the replica
    pointed to, as [Q] says, and its local variables as [acc] says. *)
Lemma loop_upd {B} (l : list nat) (b0 : B) (body : B -> nat -> M (SH * World) B)
    (acc : B -> nat -> B) (Q : nat -> Rep -> Rep -> Prop) (sh : SH) (w : World) :
  NoDup l -> (forall i, i ∈ l -> (i < length (sh_replicas sh))%nat) ->
  (forall seen i b rs r,
     upd_rel seen Q (sh_replicas sh) rs -> i ∈ l -> i ∉ seen ->
     sh_replicas sh !! i = Some r ->
     exists r', body b i (with_replicas rs sh, w) =
                  ((with_replicas (<[i := r']> rs) sh, w), Ok (acc b i)) /\ Q i r r') ->
  exists rs', for_fold l b0 body (sh, w) = ((with_replicas rs' sh, w), Ok (foldl acc b0 l)) /\
              upd_rel l Q (sh_replicas sh) rs'.
Proof.
  intros Hnd Hlt Hbody.
  assert (G : forall todo seen b rs, l = seen ++ todo -> upd_rel seen Q (sh_replicas sh) rs ->
    exists rs', for_fold todo b body (with_replicas rs sh, w) =
                  ((with_replicas rs' sh, w), Ok (foldl acc b todo)) /\
                upd_rel l Q (sh_replicas sh) rs').
  { induction todo as [|i todo IH]; intros seen b rs Hl Hrel.
    - exists rs. rewrite app_nil_r in Hl. by subst.
    - assert (Hin : i ∈ l) by (rewrite Hl; apply elem_of_app; right; by left).
      assert (Hni : i ∉ seen).
      { rewrite Hl in Hnd. apply NoDup_app in Hnd as (_ & Hd & _). intros Hs.
        apply (Hd i Hs). by left. }
      destruct (lookup_lt_is_Some_2 (sh_replicas sh) i (Hlt i Hin)) as [r Hr].
      destruct (Hbody seen i b rs r Hrel Hin Hni Hr) as (r' & Hrun & HQ).
      cbn [for_fold foldl]. rewrite (bind_ok _ _ _ _ _ Hrun).
      apply (IH (seen ++ [i])); [by rewrite <- app_assoc|]. by eapply upd_rel_snoc. }
  destruct (G l [] b0 (sh_replicas sh) eq_refl (upd_rel_nil _ _)) as (rs' & Hrun & Hrel).
  exists rs'. by rewrite with_replicas_id in Hrun.
Qed.

Lemma loop_upd_each (l : list nat) (body : nat -> M (SH * World) unit)
    (Q : nat -> Rep -> Rep -> Prop) (sh : SH) (w : World) :
  NoDup l -> (forall i, i ∈ l -> (i < length (sh_replicas sh))%nat) ->
  (forall seen i rs r,
     upd_rel seen Q (sh_replicas sh) rs -> i ∈ l -> i ∉ seen ->
     sh_replicas sh !! i = Some r ->
     exists r', body i (with_replicas rs sh, w) =
                  ((with_replicas (<[i := r']> rs) sh, w), Ok tt) /\ Q i r r') ->
  exists rs', for_each l body (sh, w) = ((with_replicas rs' sh, w), Ok tt) /\
              upd_rel l Q (sh_replicas sh) rs'.
Proof.
  intros Hnd Hlt Hbody.
  destruct (loop_upd l tt (fun _ => body) (fun _ _ => tt) Q sh w Hnd Hlt) as (rs' & Hrun & Hrel).
  - intros seen i [] rs r. apply Hbody.
  - exists rs'. rewrite for_each_as_fold, Hrun. by destruct (foldl _ _ _).
Qed.

(** A loop that calls one method through each pointer. *)
Lemma loop_call (l : list nat) (m : M Rep unit) (Q : Rep -> Rep -> Prop) (sh : SH) (w : World) :
  NoDup l -> (forall i, i ∈ l -> (i < length (sh_replicas sh))%nat) ->
  (forall i r, i ∈ l -> sh_replicas sh !! i = Some r -> exists r', m r = (r', Ok tt) /\ Q r r') ->
  exists rs', for_each l (fun i => on_replica i m) (sh, w) = ((with_replicas rs' sh, w), Ok tt) /\
              upd_rel l (fun _ => Q) (sh_replicas sh) rs'.
Proof.
  intros Hnd Hlt Hm. apply loop_upd_each; [done..|].
  intros seen i rs r Hrel Hin Hni Hr. destruct (Hm i r Hin Hr) as (r' & Hrun & HQ).
  exists r'. split; [|done].
  by rewrite (on_replica_run (with_replicas rs sh) w i m r r' (Ok tt)
    (upd_rel_keep _ _ _ _ _ _ Hrel Hni Hr) Hrun).
Qed.

(** ** The online replicas and the current leader *)

Lemma elem_of_online i (sh : SH) :
  i ∈ online_pointers sh <-> exists r, sh_replicas sh !! i = Some r /\ r_online r = true.
Proof.
  unfold online_pointers. rewrite list_elem_of_fmap. split.
  - intros ([j r] & -> & [Ho Hin]%list_elem_of_filter). simpl in *.
    apply elem_of_lookup_imap in Hin as (j' & r' & E & Hj). simplify_eq. eauto.
  - intros (r & Hi & Ho). exists (i, r). split; [done|].
    apply list_elem_of_filter. split; [done|]. apply elem_of_lookup_imap. eauto.
Qed.

Lemma online_NoDup (sh : SH) : NoDup (online_pointers sh).
Proof.
  unfold online_pointers.
  assert (G : forall (f : nat -> nat) (l : list Rep), (forall a b, f a = f b -> a = b) ->
    NoDup (fst <$> filter (fun p : nat * Rep => r_online p.2 = true) (imap (fun i r => (f i, r)) l)) /\
    forall i, i ∈ (fst <$> filter (fun p : nat * Rep => r_online p.2 = true)
                     (imap (fun i r => (f i, r)) l)) -> exists j, i = f j); [|by apply (G id)].
  intros f l. revert f. induction l as [|r l IH]; intros f Hf; simpl.
  { split; [constructor|]. by intros i ?%elem_of_nil. }
  destruct (IH (fun i => f (S i))) as [Hnd Hin]; [by intros a b ?%Hf; simplify_eq|].
  rewrite filter_cons. case_decide; [rewrite fmap_cons|]; (split; [|]).
  - apply NoDup_cons. split; [|exact Hnd].
    intros (j & E)%Hin. by apply Hf in E.
  - intros i [->|Hi]%elem_of_cons; [eauto|]. destruct (Hin i Hi). eauto.
  - exact Hnd.
  - intros i Hi. destruct (Hin i Hi). eauto.
Qed.

Lemma online_lt (sh : SH) i : i ∈ online_pointers sh -> (i < length (sh_replicas sh))%nat.
Proof. intros (r & Hi & _)%elem_of_online. by eapply lookup_lt_Some. Qed.

Lemma current_leader_Some i (sh : SH) :
  current_leader sh = Some i ->
  exists r, sh_replicas sh !! i = Some r /\ r_id r = sh_leader_id sh /\ r_online r = true.
Proof.
  unfold current_leader. intros ([j r] & Hf & E)%fmap_Some. simpl in E. subst j.
  apply list_find_Some in Hf as (Hi & [Hid Ho] & _). eauto.
Qed.

Lemma current_leader_None (sh : SH) :
  current_leader sh = None ->
  forall i r, sh_replicas sh !! i = Some r -> r_id r = sh_leader_id sh -> r_online r = false.
Proof.
  unfold current_leader. intros Hf%fmap_None i r Hi Hid. apply list_find_None in Hf.
  rewrite Forall_forall in Hf. destruct (r_online r) eqn:E; [|done]. exfalso.
  apply (Hf r); [apply list_elem_of_lookup; eauto|done].
Qed.
