(* ===== verification/ShardInv.v ===== *)
(** * The invariant of a shard

    [inv G sh]: the sequence [G] of the commands acknowledged so far is the
    committed log.  Every replica's log is a prefix of [G], fully applied and
    persisted; a majority holds all of [G]; and the current leader, if there is
    one, holds all of [G] at a term no replica exceeds. *)

From S2P Require Import Prelude CppStd Common Sqlite Store LogFacts Raft RaftProofs Metrics Shard ShardFacts.

#[local] Open Scope Z_scope.

(** ** Pointwise changes of the list of replicas *)

Definition pointwise (P : nat -> Rep -> Rep -> Prop) (rs rs' : list Rep) : Prop :=
  length rs' = length rs /\
  forall i r, rs !! i = Some r -> exists r', rs' !! i = Some r' /\ P i r r'.

Lemma pointwise_upd l Q rs rs' :
  upd_rel l Q rs rs' ->
  pointwise (fun i r r' => (i ∈ l -> Q i r r') /\ (i ∉ l -> r' = r)) rs rs'.
Proof. done. Qed.

Lemma pointwise_insert i r0 r1 (rs : list Rep) :
  rs !! i = Some r0 ->
  pointwise (fun j r r' => (j = i -> r = r0 /\ r' = r1) /\ (j <> i -> r' = r)) rs (<[i := r1]> rs).
Proof.
  intros Hi. split; [by rewrite length_insert|]. intros j r Hj.
  destruct (decide (j = i)) as [->|Hne].
  - exists r1. rewrite list_lookup_insert_eq by (by eapply lookup_lt_Some).
    split; [done|]. split; [|done]. intros _. split; [congruence|done].
  - exists r. rewrite list_lookup_insert_ne by done. done.
Qed.

Lemma pointwise_trans P Q rs1 rs2 rs3 :
  pointwise P rs1 rs2 -> pointwise Q rs2 rs3 ->
  pointwise (fun i r r' => exists r1, P i r r1 /\ Q i r1 r') rs1 rs3.
Proof.
  intros [L1 H1] [L2 H2]. split; [congruence|]. intros i r Hi.
  destruct (H1 i r Hi) as (r1 & Hi1 & HP). destruct (H2 i r1 Hi1) as (r2 & Hi2 & HQ). eauto.
Qed.

Lemma pointwise_mono (P Q : nat -> Rep -> Rep -> Prop) rs rs' :
  pointwise P rs rs' ->
  (forall i r r', rs !! i = Some r -> P i r r' -> Q i r r') -> pointwise Q rs rs'.
Proof.
  intros [L H] HPQ. split; [done|]. intros i r Hi. destruct (H i r Hi) as (r' & Hi' & HP). eauto.
Qed.

(** Going back: every new replica comes from an old one. *)
Lemma pointwise_back P rs rs' i r' :
  pointwise P rs rs' -> rs' !! i = Some r' -> exists r, rs !! i = Some r /\ P i r r'.
Proof.
  intros [L H] Hi. destruct (lookup_lt_is_Some_2 rs i) as [r Hr].
  { rewrite <- L. by eapply lookup_lt_Some. }
  destruct (H i r Hr) as (r'' & Hi' & HP). exists r. split; [done|]. congruence.
Qed.

Lemma pointwise_count (A B : Rep -> Prop) `{forall r, Decision (A r), forall r, Decision (B r)}
    P rs rs' :
  pointwise P rs rs' -> (forall i r r', rs !! i = Some r -> P i r r' -> A r -> B r') ->
  (length (filter A rs) <= length (filter B rs'))%nat.
Proof.
  intros [L H'] HAB. revert rs' P L H' HAB. induction rs as [|r rs IH]; intros [|r' rs'] P L H' HAB;
    simpl in *; try lia.
  assert (Hrec : (length (filter A rs) <= length (filter B rs'))%nat).
  { apply (IH rs' (fun i => P (S i))); [lia| |].
    - intros i x Hx. apply (H' (S i) x Hx).
    - intros i x x' Hx. apply (HAB (S i) x x' Hx). }
  destruct (H' 0%nat r eq_refl) as (r'' & [= <-] & HP).
  specialize (HAB 0%nat r r' eq_refl HP). rewrite !filter_cons.
  repeat case_decide; simpl; try lia. naive_solver.
Qed.

(** Two predicates that together hold more often than there are replicas hold
    of a common one. *)
Lemma count_intersect (A B : Rep -> Prop) `{forall r, Decision (A r), forall r, Decision (B r)} rs :
  (length rs < length (filter A rs) + length (filter B rs))%nat ->
  exists i r, rs !! i = Some r /\ A r /\ B r.
Proof.
  induction rs as [|r rs IH]; simpl; [lia|]. rewrite !filter_cons. intros Hlt.
  destruct (decide (A r)), (decide (B r)).
  - by exists 0%nat, r.
  - destruct IH as (i & x & ?); [simpl in *; lia|]. by exists (S i), x.
  - destruct IH as (i & x & ?); [simpl in *; lia|]. by exists (S i), x.
  - destruct IH as (i & x & ?); [simpl in *; lia|]. by exists (S i), x.
Qed.

Lemma quorum_intersect n a b : (quorum n <= a)%nat -> (quorum n <= b)%nat -> (n < a + b)%nat.
Proof.
  unfold quorum. pose proof (Nat.div_mod_eq n 2).
  pose proof (Nat.mod_upper_bound n 2). lia.
Qed.

(** ** Terms of the committed log *)

Definition terms_mono (G : list LogEntry) : Prop :=
  forall n m, (n <= m <= length G)%nat -> last_term (take n G) <= last_term (take m G).

Lemma terms_mono_nil : terms_mono [].
Proof. intros n m H. by rewrite !take_nil. Qed.

Lemma terms_mono_snoc G e : terms_mono G -> last_term G <= e_term e -> terms_mono (G ++ [e]).
Proof.
  intros Hm He n m Hnm. rewrite length_app in Hnm. simpl in Hnm.
  destruct (decide (m <= length G)%nat).
  - rewrite !take_app_le by lia. apply Hm. lia.
  - rewrite (take_ge (G ++ [e]) m) by (rewrite length_app; simpl; lia).
    rewrite last_term_snoc. destruct (decide (n <= length G)%nat).
    + rewrite take_app_le by lia. transitivity (last_term G); [|done].
      rewrite <- (take_ge G (length G)) at 2 by lia. apply Hm. lia.
    + rewrite take_ge by (rewrite length_app; simpl; lia). by rewrite last_term_snoc.
Qed.

(** ** The invariant *)

(** The replica holds the first [n] entries of [G]. *)
Record rep_at (G : list LogEntry) (n : nat) (r : Rep) : Prop := {
  ra_le : (n <= length G)%nat;
  ra_log : at_log (take n G) n r;
  ra_persisted : persisted r;
  ra_voted : nul_free (r_voted_for r);
  ra_term : last_term (take n G) <= r_term r;
  ra_term_nonneg : 0 <= r_term r;
}.

(** The replica holds all of [G]. *)
Definition full (G : list LogEntry) (r : Rep) : Prop := r_commit r = Z.of_nat (length G).
#[export] Instance full_dec G r : Decision (full G r).
Proof. unfold full. apply _. Defined.

Record leader_ok (G : list LogEntry) (rs : list Rep) (r : Rep) : Prop := {
  lo_online : r_online r = true;
  lo_role : r_role r = Leader;
  lo_full : full G r;
  lo_term : forall j r', rs !! j = Some r' -> r_term r' <= r_term r;
}.

Record inv (G : list LogEntry) (sh : SH) : Prop := {
  inv_ids i r : sh_replicas sh !! i = Some r -> r_id r = replica_name (sh_id sh) i;
  inv_wf : wf_log G;
  inv_terms : terms_mono G;
  inv_rep i r : sh_replicas sh !! i = Some r -> exists n, rep_at G n r;
  inv_majority : (quorum (length (sh_replicas sh)) <= length (filter (full G) (sh_replicas sh)))%nat;
  inv_leader : sh_leader_id sh = "" \/
    exists i r, sh_replicas sh !! i = Some r /\ r_id r = sh_leader_id sh /\
                leader_ok G (sh_replicas sh) r;
  inv_role i r : sh_replicas sh !! i = Some r -> r_role r = Leader -> r_id r = sh_leader_id sh;
}.

(** ** Names *)

Lemma replica_name_inj sid i j : replica_name sid i = replica_name sid j -> i = j.
Proof.
  unfold replica_name. intros H.
  do 2 apply string_app_inj_l in H. apply string_app_inj_l in H.
  apply to_string_inj in H. lia.
Qed.

Lemma replica_name_nonempty sid i : replica_name sid i <> "".
Proof. done. Qed.

Lemma nul_free_app a b : nul_free a -> nul_free b -> nul_free (a +:+ b).
Proof. intros Ha Hb. unfold nul_free. rewrite c_str_app_nul_free by done. by rewrite Hb. Qed.

Lemma replica_name_nul_free sid i : nul_free (replica_name sid i).
Proof.
  unfold replica_name. repeat apply nul_free_app; try done; apply to_string_nul_free.
Qed.

(** ** Consequences *)

Lemma rep_at_commit G n r : rep_at G n r -> r_commit r = Z.of_nat n.
Proof. intros H. apply (at_commit _ _ _ (ra_log G n r H)). Qed.

Lemma rep_at_full G n r : rep_at G n r -> full G r -> n = length G.
Proof. intros H Hf. apply rep_at_commit in H. unfold full in Hf. lia. Qed.

Lemma inv_full G sh i r :
  inv G sh -> sh_replicas sh !! i = Some r -> full G r -> rep_at G (length G) r.
Proof.
  intros Hinv Hi Hf. destruct (inv_rep G sh Hinv i r Hi) as [n Hn].
  by rewrite <- (rep_at_full G n r Hn Hf).
Qed.

Lemma rep_at_role G n r x : rep_at G n r -> rep_at G n (with_role x r).
Proof. intros []. split; try done. by eapply at_log_vol. Qed.

Lemma rep_at_online G n r x : rep_at G n r -> rep_at G n (with_online x r).
Proof. intros []. split; try done. by eapply at_log_vol. Qed.

(** The current leader is the replica the invariant speaks of. *)
Lemma inv_current_leader G sh i :
  inv G sh -> current_leader sh = Some i ->
  exists r, sh_replicas sh !! i = Some r /\ r_id r = sh_leader_id sh /\
            leader_ok G (sh_replicas sh) r /\ rep_at G (length G) r.
Proof.
  intros Hinv (r & Hi & Hid & Ho)%current_leader_Some.
  destruct (inv_leader G sh Hinv) as [E|(j & r' & Hj & Hid' & Hlo)].
  - exfalso. rewrite (inv_ids G sh Hinv i r Hi), E in Hid. by apply replica_name_nonempty in Hid.
  - assert (i = j) as ->.
    { apply (replica_name_inj (sh_id sh)).
      rewrite <- (inv_ids G sh Hinv i r Hi), <- (inv_ids G sh Hinv j r' Hj). congruence. }
    assert (r' = r) as -> by congruence. exists r.
    split_and!; [done..|]. apply (inv_full G sh j); [done..|]. apply Hlo.
Qed.

Lemma current_leader_intro G sh i r :
  inv G sh -> sh_replicas sh !! i = Some r -> r_id r = sh_leader_id sh -> r_online r = true ->
  current_leader sh = Some i.
Proof.
  intros Hinv Hi Hid Ho. destruct (current_leader sh) as [j|] eqn:E.
  - apply current_leader_Some in E as (r' & Hj & Hid' & _). f_equal.
    apply (replica_name_inj (sh_id sh)).
    rewrite <- (inv_ids G sh Hinv i r Hi), <- (inv_ids G sh Hinv j r' Hj). congruence.
  - pose proof (current_leader_None sh E i r Hi Hid). congruence.
Qed.

(** [next_term] exceeds every term. *)
Lemma next_term_spec (sh : SH) :
  1 <= next_term sh /\ forall i r, sh_replicas sh !! i = Some r -> r_term r < next_term sh.
Proof.
  unfold next_term.
  assert (G : forall (l : list Rep) z, z <= foldl (fun t r => Z.max t (r_term r + 1)) z l /\
    forall i r, l !! i = Some r -> r_term r < foldl (fun t r => Z.max t (r_term r + 1)) z l);
    [|apply G].
  induction l as [|x l IH]; intros z; simpl; [split; [lia|done]|].
  destruct (IH (Z.max z (r_term x + 1))) as [H1 H2]. split; [lia|].
  intros [|i] r Hi; simpl in Hi; [|by eapply H2]. simplify_eq. lia.
Qed.
