(* ===== verification/Election.v ===== *)
(** * Electing a leader

    [ensure_leader_locked] on a shard that satisfies the invariant: it returns
    [true] exactly when a leader is online or a majority of the replicas is, and
    in the second case the candidate it elects holds every acknowledged command
    and brings every online replica up to date. *)

From S2P Require Import Prelude CppStd Common Sqlite Store LogFacts Raft RaftProofs Metrics Shard ShardFacts ShardInv.

#[local] Open Scope Z_scope.

(** ** The candidate *)

(** [std::max_element] with a comparison that only reads, and that a measure
    [f] agrees with. *)
Lemma max_element_run {S A} (less : A -> A -> M S bool) (lt : A -> A -> bool) (f : A -> Z) l (s : S) :
  l <> [] ->
  (forall x y, x ∈ l -> y ∈ l -> less x y s = (s, Ok (lt x y))) ->
  (forall x y, x ∈ l -> y ∈ l -> if lt x y then f x <= f y else f y <= f x) ->
  exists c, max_element less l s = (s, Ok c) /\ c ∈ l /\ forall y, y ∈ l -> f y <= f c.
Proof.
  intros Hne Hl Hf. destruct l as [|x l]; [done|]. clear Hne. simpl.
  assert (G : forall todo best, best ∈ x :: l -> (forall y, y ∈ todo -> y ∈ x :: l) ->
    exists c, max_element_from less best todo s = (s, Ok c) /\ c ∈ x :: l /\ f best <= f c /\
              forall y, y ∈ todo -> f y <= f c).
  { induction todo as [|y todo IH]; intros best Hb Hsub; simpl.
    - exists best. split_and!; try done. by intros y ?%elem_of_nil.
    - assert (Hy : y ∈ x :: l) by (apply Hsub; by left).
      rewrite (bind_ok _ _ _ _ _ (Hl best y Hb Hy)). specialize (Hf best y Hb Hy).
      destruct (IH (if lt best y then y else best)) as (c & Hrun & Hc & Hle & Hall).
      + by destruct (lt best y).
      + intros z Hz. apply Hsub. by right.
      + exists c. split; [done|]. split; [done|].
        destruct (lt best y); (split; [lia|]); intros z [->|Hz]%elem_of_cons; auto; lia. }
  destruct (G l x) as (c & Hrun & Hc & Hle & Hall); [by left|by intros; right|].
  exists c. split; [done|]. split; [done|]. intros y [->|Hy]%elem_of_cons; auto.
Qed.

(** The comparison reads the commit indices first. *)
Definition less_spec (ra rb : Rep) : bool :=
  if negb (r_commit ra =? r_commit rb) then r_commit ra <? r_commit rb
  else if negb (tb_last_log_term (r_store ra) =? tb_last_log_term (r_store rb))
  then tb_last_log_term (r_store ra) <? tb_last_log_term (r_store rb)
  else tb_last_log_index (r_store ra) <? tb_last_log_index (r_store rb).

Lemma less_run (sh : SH) w a b ra rb :
  sh_replicas sh !! a = Some ra -> sh_replicas sh !! b = Some rb ->
  less_up_to_date a b (sh, w) = ((sh, w), Ok (less_spec ra rb)).
Proof.
  intros Ha Hb. unfold less_up_to_date, less_spec.
  rewrite (bind_ok _ _ _ _ _ (field_run sh w a r_commit ra Ha)).
  rewrite (bind_ok _ _ _ _ _ (field_run sh w b r_commit rb Hb)). simpl.
  destruct (negb (r_commit ra =? r_commit rb)); [done|].
  rewrite (bind_ok _ _ _ _ _ (on_replica_read sh w a _ ra _ Ha (on_last_term ra))).
  rewrite (bind_ok _ _ _ _ _ (on_replica_read sh w b _ rb _ Hb (on_last_term rb))).
  destruct (negb (_ =? _)); [done|].
  rewrite (bind_ok _ _ _ _ _ (on_replica_read sh w a _ ra _ Ha (on_last_index ra))).
  by rewrite (bind_ok _ _ _ _ _ (on_replica_read sh w b _ rb _ Hb (on_last_index rb))).
Qed.

Lemma less_commit ra rb :
  if less_spec ra rb then r_commit ra <= r_commit rb else r_commit rb <= r_commit ra.
Proof.
  unfold less_spec. destruct (r_commit ra =? r_commit rb) eqn:E; simpl.
  - destruct (negb _); case_match; lia.
  - case_match; lia.
Qed.

(** The candidate is online and no online replica has committed more. *)
Lemma candidate_run (sh : SH) w :
  online_pointers sh <> [] ->
  exists c rc, max_element less_up_to_date (online_pointers sh) (sh, w) = ((sh, w), Ok c) /\
    sh_replicas sh !! c = Some rc /\ r_online rc = true /\
    forall i r, sh_replicas sh !! i = Some r -> r_online r = true -> r_commit r <= r_commit rc.
Proof.
  intros Hne.
  set (rep i := default (fresh_replica "" 0 empty_tables) (sh_replicas sh !! i)).
  assert (Hrep : forall i, i ∈ online_pointers sh -> sh_replicas sh !! i = Some (rep i)).
  { intros i (r & Hi & _)%elem_of_online. unfold rep. by rewrite Hi. }
  destruct (max_element_run less_up_to_date (fun x y => less_spec (rep x) (rep y))
    (fun i => r_commit (rep i)) (online_pointers sh) (sh, w) Hne) as (c & Hrun & Hc & Hmax).
  - intros x y Hx Hy. by apply less_run; apply Hrep.
  - intros x y _ _. apply less_commit.
  - exists c, (rep c). split; [done|]. split; [by apply Hrep|].
    pose proof Hc as (r & Hr & Ho)%elem_of_online. rewrite (Hrep c Hc) in Hr. simplify_eq.
    split; [done|]. intros i r Hi Hoi.
    assert (Hin : i ∈ online_pointers sh) by (apply elem_of_online; eauto).
    specialize (Hmax i Hin). rewrite (Hrep i Hin) in Hi. by simplify_eq.
Qed.

Lemma online_count (sh : SH) :
  length (online_pointers sh) = length (filter (fun r => r_online r = true) (sh_replicas sh)).
Proof.
  unfold online_pointers. rewrite length_fmap.
  assert (G : forall (l : list Rep) (f : nat -> nat),
    length (filter (fun p : nat * Rep => r_online p.2 = true) (imap (fun i r => (f i, r)) l)) =
    length (filter (fun r => r_online r = true) l)); [|apply (G _ id)].
  induction l as [|r l IH]; intros f; [done|]. cbn [imap]. rewrite !filter_cons. simpl.
  specialize (IH (f ∘ S)). case_decide; simpl; [f_equal|]; exact IH.
Qed.

(** A majority of the replicas holds [G] and a majority is online, so the
    candidate holds [G]. *)
Lemma candidate_full G (sh : SH) rc c :
  inv G sh -> (quorum (length (sh_replicas sh)) <= length (online_pointers sh))%nat ->
  sh_replicas sh !! c = Some rc ->
  (forall i r, sh_replicas sh !! i = Some r -> r_online r = true -> r_commit r <= r_commit rc) ->
  full G rc.
Proof.
  intros Hinv Hq Hc Hmax. rewrite online_count in Hq.
  destruct (count_intersect (full G) (fun r => r_online r = true) (sh_replicas sh))
    as (i & r & Hi & Hf & Ho).
  { apply quorum_intersect; [apply Hinv|done]. }
  specialize (Hmax i r Hi Ho). destruct (inv_rep G sh Hinv c rc Hc) as [n Hn].
  pose proof (rep_at_commit G n rc Hn). pose proof (ra_le G n rc Hn).
  unfold full in *. lia.
Qed.

(** ** The votes *)

(** What granting the vote at the new term does to an online replica. *)
Definition voted_rel (G : list LogEntry) (term : Z) (cid : string) (r r' : Rep) : Prop :=
  (forall n, rep_at G n r -> rep_at G n r') /\
  vol r' = with_voted_for cid (with_role Follower (with_term term (vol r))).

(** The candidate holds [G], so every online replica finds it up to date. *)
Lemma full_up_to_date G n :
  terms_mono G -> (n <= length G)%nat ->
  up_to_date (Z.of_nat (length G)) (last_term G) (take n G) = true.
Proof.
  intros Hm Hn. unfold up_to_date. pose proof (Hm n (length G)) as Hle.
  rewrite (take_ge G (length G)) in Hle by lia. specialize (Hle ltac:(lia)).
  rewrite length_take, Nat.min_l by lia. apply orb_true_iff.
  destruct (decide (last_term (take n G) = last_term G)); [right|left]; [|lia].
  apply andb_true_iff. lia.
Qed.

Lemma vote_granted G n term cid (r : Rep) :
  terms_mono G -> rep_at G n r -> r_online r = true -> r_term r < term -> nul_free cid ->
  exists r', request_vote term cid (Z.of_nat (length G)) (last_term G) r = (r', Ok true) /\
             voted_rel G term cid r r'.
Proof.
  intros Hm Hr Ho Ht Hc.
  destruct (request_vote_run (take n G) n term cid (Z.of_nat (length G)) (last_term G) r)
    as (r' & Hrun & Hat & Hper & Hvol); [apply Hr|done|lia|done|apply Hr|].
  assert (Hsaw : saw_term term (vol r) = with_role Follower (with_voted_for "" (with_term term (vol r)))).
  { unfold saw_term. simpl. by rewrite (proj2 (Z.ltb_lt _ _)). }
  assert (Hg : grants cid (Z.of_nat (length G)) (last_term G) (take n G) (saw_term term (vol r)) = true).
  { unfold grants. rewrite full_up_to_date by (apply Hm || apply Hr). by rewrite Hsaw. }
  rewrite Hg in Hrun, Hvol. exists r'. split; [done|].
  rewrite Hsaw in Hvol. split; [|done].
  intros m Hrm. assert (m = n) as ->.
  { pose proof (rep_at_commit G m r Hrm). pose proof (rep_at_commit G n r Hr). lia. }
  unfold vol, with_store in Hvol. simpl in Hvol. injection Hvol as E1 E2 E3 E4 E5 E6 E7 E8.
  split; try done.
  - apply Hr.
  - by rewrite E6.
  - rewrite E5. pose proof (ra_term G n r Hr). lia.
  - rewrite E5. pose proof (ra_term_nonneg G n r Hr). lia.
Qed.

(** Every online replica grants its vote. *)
Lemma votes_run G term cid l (sh : SH) w :
  terms_mono G -> nul_free cid -> NoDup l ->
  (forall i, i ∈ l -> exists r n, sh_replicas sh !! i = Some r /\ rep_at G n r /\
                                  r_online r = true /\ r_term r < term) ->
  exists rs',
    for_fold l 0%nat (fun votes i =>
      granted ← on_replica i (request_vote term cid (Z.of_nat (length G)) (last_term G));
      mret (if granted : bool then (votes + 1)%nat else votes)) (sh, w) =
    ((with_replicas rs' sh, w), Ok (length l)) /\
    upd_rel l (fun _ => voted_rel G term cid) (sh_replicas sh) rs'.
Proof.
  intros Hm Hc Hnd Hl.
  destruct (loop_upd l 0%nat (fun votes i =>
      granted ← on_replica i (request_vote term cid (Z.of_nat (length G)) (last_term G));
      mret (if granted : bool then (votes + 1)%nat else votes))
    (fun v _ => (v + 1)%nat) (fun _ => voted_rel G term cid) sh w Hnd) as (rs' & Hrun & Hrel).
  - intros i Hi. destruct (Hl i Hi) as (r & n & Hr & _). by eapply lookup_lt_Some.
  - intros seen i b rs r Hrel Hin Hni Hr. destruct (Hl i Hin) as (r0 & n & Hr0 & Hat & Ho & Ht).
    assert (r0 = r) as -> by congruence.
    destruct (vote_granted G n term cid r Hm Hat Ho Ht Hc) as (r' & Hrun & Hv).
    exists r'. split; [|done].
    by rewrite (bind_ok _ _ _ _ _ (on_replica_run (with_replicas rs sh) w i _ r r' (Ok true)
      (upd_rel_keep _ _ _ _ _ _ Hrel Hni Hr) Hrun)).
  - exists rs'. rewrite Hrun. split; [|done]. do 2 f_equal.
    assert (E : forall k (l : list nat), foldl (fun v _ => (v + 1)%nat) k l = (k + length l)%nat);
      [|by rewrite E].
    intros k l'. revert k. induction l' as [|x l' IH]; intros k; simpl; [lia|]. rewrite IH. lia.
Qed.

(** ** Synchronising a follower *)

(** The follower has installed the leader's snapshot, which is [G]. *)
Record synced_rel (G : list LogEntry) (term : Z) (r r' : Rep) : Prop := {
  sy_log : at_log G (length G) r';
  sy_persisted : persisted r';
  sy_vol : vol r' = with_commit (Z.of_nat (length G)) (with_applied (Z.of_nat (length G))
             (with_role Follower (with_voted_for "" (with_term (Z.max (r_term r) term) (vol r)))));
}.

Lemma synced_rep_at G term r r' n :
  synced_rel G term r r' -> rep_at G n r -> last_term G <= term -> rep_at G (length G) r'.
Proof.
  intros [Hat Hper Hvol] Hr Ht.
  unfold vol, with_store in Hvol. simpl in Hvol. injection Hvol as E1 E2 E3 E4 E5 E6 E7 E8.
  split; rewrite ?take_ge by lia; try done.
  - by rewrite E6.
  - rewrite E5. lia.
  - rewrite E5. pose proof (ra_term_nonneg G n r Hr). lia.
Qed.

Lemma sync_run G l (sh : SH) w i c ri rc :
  wf_log G -> Z.of_nat (length G) < uint64_mod ->
  sh_replicas sh !! i = Some ri -> r_online ri = true ->
  sh_replicas sh !! c = Some rc -> at_log l (length G) rc -> take (length G) l = G ->
  exists r', sync_follower_locked i c (sh, w) =
               ((with_replicas (<[i := r']> (sh_replicas sh)) sh, w), Ok tt) /\
             synced_rel G (r_term rc) ri r'.
Proof.
  intros Hwf Hn Hi Ho Hc Hat Htake. unfold sync_follower_locked.
  rewrite (bind_ok _ _ _ _ _ (field_run sh w i r_online ri Hi)). simpl. rewrite Ho. simpl.
  pose proof (export_snapshot_run l (length G) rc Hat Hn) as Hex. rewrite Htake in Hex.
  rewrite (bind_ok _ _ _ _ _ (on_replica_read sh w c _ rc _ Hc Hex)).
  destruct (install_snapshot_run (r_term rc) G ri Hwf Ho) as (r' & Hrun & Hat' & Hper & Hvol).
  exists r'. split; [|by split]. by apply (on_replica_run sh w i _ ri).
Qed.

Lemma sync_offline (sh : SH) w i c ri :
  sh_replicas sh !! i = Some ri -> r_online ri = false ->
  sync_follower_locked i c (sh, w) = ((sh, w), Ok tt).
Proof.
  intros Hi Ho. unfold sync_follower_locked.
  rewrite (bind_ok _ _ _ _ _ (field_run sh w i r_online ri Hi)). simpl. by rewrite Ho.
Qed.

(** The loop that brings the online followers up to date after an election. *)
Lemma sync_loop_run G cid c rc l (sh : SH) w :
  wf_log G -> Z.of_nat (length G) < uint64_mod -> NoDup l ->
  sh_replicas sh !! c = Some rc -> r_id rc = cid -> at_log G (length G) rc ->
  (forall i r, i ∈ l -> sh_replicas sh !! i = Some r -> r_id r = cid -> i = c) ->
  (forall i, i ∈ l -> exists r, sh_replicas sh !! i = Some r /\ r_online r = true) ->
  exists rs',
    for_each l (fun i =>
      id ← field i r_id;
      when (bool_decide (id <> cid)) (sync_follower_locked i c)) (sh, w) =
    ((with_replicas rs' sh, w), Ok tt) /\
    upd_rel l (fun i r r' => if decide (i = c) then r' = r else synced_rel G (r_term rc) r r')
      (sh_replicas sh) rs'.
Proof.
  intros Hwf Hn Hnd Hc Hid Hat Hinj Hl. apply loop_upd_each; [done|..].
  - intros i Hi. destruct (Hl i Hi) as (r & Hr & _). by eapply lookup_lt_Some.
  - intros seen i rs r Hrel Hin Hni Hr. destruct (Hl i Hin) as (r0 & Hr0 & Ho).
    assert (r0 = r) as -> by congruence. clear Hr0.
    pose proof (upd_rel_keep _ _ _ _ _ _ Hrel Hni Hr) as Hri.
    assert (Hrc : rs !! c = Some rc).
    { destruct (decide (c ∈ seen)) as [Hs|Hs]; [|by apply (upd_rel_keep _ _ _ _ _ _ Hrel)].
      destruct (upd_rel_in _ _ _ _ _ _ Hrel Hs Hc) as (r' & Hr' & E).
      rewrite decide_True in E by done. by subst. }
    rewrite (bind_ok _ _ _ _ _ (field_run (with_replicas rs sh) w i r_id r Hri)). simpl.
    destruct (decide (i = c)) as [->|Hne].
    + exists r. assert (r = rc) as -> by congruence.
      rewrite bool_decide_false by (rewrite Hid; naive_solver).
      split; [|done]. by rewrite list_insert_id.
    + rewrite bool_decide_true by (intros E; by apply Hne, (Hinj i r)).
      destruct (sync_run G G (with_replicas rs sh) w i c r rc) as (r' & Hrun & Hs);
        try done; [by rewrite take_ge|].
      by exists r'.
Qed.

(** ** The whole election *)

Lemma vol_fields {S} (r : Replica S) v : vol r = v ->
  r_id r = r_id v /\ r_role r = r_role v /\ r_online r = r_online v /\ r_term r = r_term v /\
  r_voted_for r = r_voted_for v /\ r_commit r = r_commit v.
Proof. by intros <-. Qed.

(** What an election of [c] at [term] does to the replica [i]. *)
Record elected_rel (G : list LogEntry) (c : nat) (term : Z) (i : nat) (r r' : Rep) : Prop := {
  el_id : r_id r' = r_id r;
  el_online : r_online r' = r_online r;
  el_up : r_online r = true ->
    rep_at G (length G) r' /\ r_term r' = term /\ r_role r' = if decide (i = c) then Leader else Follower;
  el_down : r_online r = false -> r' = with_role Follower r;
}.

(** The replicas after the votes: the online ones have voted, the others are
    untouched. *)
Definition campaign_rel (G : list LogEntry) (term : Z) (cid : string) (i : nat) (r r' : Rep) : Prop :=
  (r_online r = true -> exists x, voted_rel G term cid (with_role x r) r') /\
  (r_online r = false -> r' = r).

Lemma campaign_pointwise G term cid (sh : SH) c rc rs2 :
  sh_replicas sh !! c = Some rc -> r_online rc = true ->
  upd_rel (online_pointers sh) (fun _ => voted_rel G term cid)
    (<[c := with_role Candidate rc]> (sh_replicas sh)) rs2 ->
  pointwise (campaign_rel G term cid) (sh_replicas sh) rs2.
Proof.
  intros Hc Ho Hrel. eapply pointwise_mono.
  - eapply pointwise_trans; [by apply (pointwise_insert c rc)|by apply pointwise_upd].
  - intros i r r' Hi (r1 & [Heq Hne] & [Hin Hni]). split.
    + intros Hoi. assert (Hio : i ∈ online_pointers sh) by (apply elem_of_online; eauto).
      destruct (decide (i = c)) as [->|Hic].
      * destruct (Heq eq_refl) as [-> ->]. exists Candidate. auto.
      * rewrite (Hne Hic) in Hin. exists (r_role r).
        replace (with_role (r_role r) r) with r by (by destruct r). auto.
    + intros Hoi. assert (Hio : i ∉ online_pointers sh).
      { intros (r0 & ? & ?)%elem_of_online. congruence. }
      assert (Hic : i <> c) by congruence. rewrite (Hni Hio). auto.
Qed.

(** The replicas after the roles are reset and the winner is made the leader. *)
Definition crowned_rel (G : list LogEntry) (c : nat) (term : Z) (cid : string) (i : nat)
    (r r' : Rep) : Prop :=
  exists r1, campaign_rel G term cid i r r1 /\
             r' = with_role (if decide (i = c) then Leader else Follower) r1.

Lemma crowned_pointwise G c term cid rs rs2 rs3 r3 :
  pointwise (campaign_rel G term cid) rs rs2 ->
  upd_rel (seq 0 (length rs2)) (fun _ r r' => r' = with_role Follower r) rs2 rs3 ->
  rs3 !! c = Some r3 ->
  pointwise (crowned_rel G c term cid) rs (<[c := with_role Leader r3]> rs3).
Proof.
  intros H2 H3 Hc. eapply pointwise_mono.
  - eapply pointwise_trans; [exact H2|].
    eapply pointwise_trans; [by apply pointwise_upd|by apply (pointwise_insert c r3)].
  - intros i r r' Hi (r1 & Hcamp & r2 & [Hin _] & [Heq Hne]). exists r1. split; [done|].
    assert (Hseq : i ∈ seq 0 (length rs2)).
    { apply elem_of_seq. destruct H2 as [-> _]. apply lookup_lt_Some in Hi. lia. }
    specialize (Hin Hseq). subst r2. case_decide as Hic.
    + destruct (Heq Hic) as [<- ->]. by destruct r1.
    + by apply Hne.
Qed.

Lemma crowned_fields G c term cid i r r' :
  crowned_rel G c term cid i r r' -> r_id r' = r_id r /\ r_online r' = r_online r.
Proof.
  intros (r1 & [Hup Hdown] & ->). destruct (r_online r) eqn:Ho.
  - destruct (Hup eq_refl) as (x & _ & Hv). apply vol_fields in Hv as (E1 & _ & E3 & _).
    simpl in *. split; congruence.
  - rewrite (Hdown eq_refl). done.
Qed.

(** An online replica after the coronation: at the new term, its log unchanged. *)
Lemma crowned_up G c term cid i r r' n :
  crowned_rel G c term cid i r r' -> r_online r = true -> rep_at G n r ->
  rep_at G n r' /\ r_term r' = term /\ r_role r' = if decide (i = c) then Leader else Follower.
Proof.
  intros (r1 & [Hup _] & ->) Ho Hr. destruct (Hup Ho) as (x & Hat & Hv).
  apply vol_fields in Hv as (_ & _ & _ & E4 & _). split; [|by split].
  by apply rep_at_role, Hat, rep_at_role.
Qed.

(** The replicas after the followers have been synchronised. *)
Lemma elected_pointwise G c term cid (sh : SH) rs4 rs5 rc :
  inv G sh -> last_term G <= term ->
  (exists rc0, sh_replicas sh !! c = Some rc0 /\ r_online rc0 = true /\ rep_at G (length G) rc0) ->
  pointwise (crowned_rel G c term cid) (sh_replicas sh) rs4 ->
  rs4 !! c = Some rc -> r_term rc = term ->
  upd_rel (online_pointers sh)
    (fun i r r' => if decide (i = c) then r' = r else synced_rel G (r_term rc) r r') rs4 rs5 ->
  pointwise (elected_rel G c term) (sh_replicas sh) rs5.
Proof.
  intros Hinv Hlt (rc0 & Hc0 & Hoc & Hrc0) H4 Hc Hterm H5. eapply pointwise_mono.
  - eapply pointwise_trans; [exact H4|by apply pointwise_upd].
  - intros i r r' Hi (r1 & Hcr & [Hin Hni]). pose proof (crowned_fields _ _ _ _ _ _ _ Hcr) as [E1 E2].
    destruct (inv_rep G sh Hinv i r Hi) as [n Hn].
    destruct (r_online r) eqn:Ho.
    + assert (Hio : i ∈ online_pointers sh) by (apply elem_of_online; eauto).
      specialize (Hin Hio). destruct (crowned_up _ _ _ _ _ _ _ _ Hcr Ho Hn) as (Hat & Ht & Hro).
      case_decide as Hic.
      * subst i r'. assert (r = rc0) as -> by congruence.
        assert (n = length G) as ->.
        { pose proof (rep_at_commit _ _ _ Hn). pose proof (rep_at_commit _ _ _ Hrc0). lia. }
        split; [done|congruence| |by rewrite Ho]. intros _. by rewrite decide_True in *.
      * pose proof (sy_vol _ _ _ _ Hin) as Hv. apply vol_fields in Hv as (V1 & V2 & V3 & V4 & _).
        simpl in *. split; [congruence|congruence| |congruence].
        intros _. rewrite decide_False by done. rewrite V4, Hterm, Ht, Z.max_id.
        split; [|done]. eapply synced_rep_at; [exact Hin|exact Hat|]. by rewrite Hterm.
    + assert (Hio : i ∉ online_pointers sh).
      { intros (r0 & ? & ?)%elem_of_online. congruence. }
      rewrite (Hni Hio). split; [done|congruence|congruence|]. intros _.
      destruct Hcr as (r2 & [_ Hdown] & ->). rewrite (Hdown Ho).
      rewrite decide_False; [done|]. intros ->. congruence.
Qed.

(** The state after an election: the invariant holds and [c] is the leader. *)
Lemma elected_inv G c term (sh : SH) rs' rc :
  inv G sh -> (forall i r, sh_replicas sh !! i = Some r -> r_term r < term) ->
  sh_replicas sh !! c = Some rc -> r_online rc = true ->
  pointwise (elected_rel G c term) (sh_replicas sh) rs' ->
  let sh' := {| sh_id := sh_id sh; sh_replicas := rs'; sh_leader_id := r_id rc |} in
  inv G sh' /\ current_leader sh' = Some c.
Proof.
  intros Hinv Hterm Hc Ho Hpw sh'.
  destruct (proj2 Hpw c rc Hc) as (rc' & Hc' & Hel).
  destruct (el_up _ _ _ _ _ _ Hel Ho) as (Hat & Ht & Hro). rewrite decide_True in Hro by done.
  assert (Hback : forall i r', rs' !! i = Some r' ->
    exists r, sh_replicas sh !! i = Some r /\ elected_rel G c term i r r')
    by (intros i r'; by apply pointwise_back).
  assert (Hinv' : inv G sh').
  { split; simpl.
    - intros i r' (r & Hi & He)%Hback. rewrite (el_id _ _ _ _ _ _ He). by apply (inv_ids G sh).
    - apply Hinv.
    - apply Hinv.
    - intros i r' (r & Hi & He)%Hback. destruct (r_online r) eqn:E.
      + exists (length G). by apply (el_up _ _ _ _ _ _ He).
      + rewrite (el_down _ _ _ _ _ _ He E). destruct (inv_rep G sh Hinv i r Hi) as [n Hn].
        exists n. by apply rep_at_role.
    - etrans; [|eapply (pointwise_count (full G) (full G)); [exact Hpw|]].
      + destruct Hpw as [-> _]. apply Hinv.
      + intros i r r' Hi He Hf. destruct (r_online r) eqn:E.
        * apply (rep_at_commit G). by apply (el_up _ _ _ _ _ _ He).
        * by rewrite (el_down _ _ _ _ _ _ He E).
    - right. exists c, rc'. split; [done|]. split; [by rewrite (el_id _ _ _ _ _ _ Hel)|].
      split; [by rewrite (el_online _ _ _ _ _ _ Hel)|done|by apply (rep_at_commit G)|].
      intros j r' (r & Hj & He)%Hback. rewrite Ht. destruct (r_online r) eqn:E.
      + destruct (el_up _ _ _ _ _ _ He E) as (_ & -> & _). done.
      + rewrite (el_down _ _ _ _ _ _ He E). simpl. pose proof (Hterm j r Hj). lia.
    - intros i r' (r & Hi & He)%Hback Hl. destruct (r_online r) eqn:E.
      + destruct (el_up _ _ _ _ _ _ He E) as (_ & _ & Hr). rewrite Hr in Hl.
        case_decide; [|done]. subst. rewrite (el_id _ _ _ _ _ _ He). congruence.
      + by rewrite (el_down _ _ _ _ _ _ He E) in Hl. }
  split; [done|]. apply (current_leader_intro G sh' c rc'); [done..| |].
  - by rewrite (el_id _ _ _ _ _ _ Hel).
  - by rewrite (el_online _ _ _ _ _ _ Hel).
Qed.

(** The counter and the log line of an election. *)
Definition elected_world (sid : Z) (cid : string) (w : World) : World :=
  {| w_metrics := inc_election (w_metrics w);
     w_log := w_log w ++ [{| ev_level := "INFO"; ev_event := "leader_elected";
       ev_details := "shard=" +:+ to_string sid +:+ ",leader=" +:+ cid |}] |}.

(** The candidate's campaign: its role, its log position, the votes. *)
Lemma campaign_run G (sh : SH) w c rc (k : string -> nat -> M (SH * World) bool) :
  inv G sh -> sh_replicas sh !! c = Some rc -> r_online rc = true -> rep_at G (length G) rc ->
  exists rs2,
    (on_replica c (set_role Candidate) ;;
     candidate_last_index ← on_replica c last_log_index;
     candidate_last_term ← on_replica c last_log_term;
     candidate_id ← field c r_id;
     votes ← for_fold (online_pointers sh) 0%nat (fun votes i =>
       granted ← on_replica i
         (request_vote (next_term sh) candidate_id candidate_last_index candidate_last_term);
       mret (if granted : bool then (votes + 1)%nat else votes));
     k candidate_id votes) (sh, w) =
    k (r_id rc) (length (online_pointers sh)) (with_replicas rs2 sh, w) /\
    pointwise (campaign_rel G (next_term sh) (r_id rc)) (sh_replicas sh) rs2.
Proof.
  intros Hinv Hc Ho Hrc. set (rc1 := with_role Candidate rc).
  set (sh1 := with_replicas (<[c := rc1]> (sh_replicas sh)) sh).
  rewrite (bind_ok _ _ _ _ _ (on_replica_run sh w c (set_role Candidate) rc rc1 _ Hc eq_refl)).
  assert (Hc1 : sh_replicas sh1 !! c = Some rc1)
    by (apply list_lookup_insert_eq; by eapply lookup_lt_Some).
  rewrite (bind_ok _ _ _ _ _ (on_replica_read sh1 w c _ rc1 _ Hc1 (on_last_index rc1))).
  rewrite (bind_ok _ _ _ _ _ (on_replica_read sh1 w c _ rc1 _ Hc1 (on_last_term rc1))).
  rewrite (bind_ok _ _ _ _ _ (field_run sh1 w c r_id rc1 Hc1)).
  pose proof (ra_log G _ rc Hrc) as Hat. rewrite take_ge in Hat by done.
  rewrite (last_index_length _ G), (last_term_list _ G) by apply Hat.
  destruct (votes_run G (next_term sh) (r_id rc) (online_pointers sh) sh1 w) as (rs2 & Hrun & Hrel).
  - apply Hinv.
  - rewrite (inv_ids G sh Hinv c rc Hc). apply replica_name_nul_free.
  - apply online_NoDup.
  - intros i (r & Hi & Hoi)%elem_of_online. destruct (inv_rep G sh Hinv i r Hi) as [n Hn].
    pose proof (proj2 (next_term_spec sh) i r Hi) as Ht.
    destruct (decide (i = c)) as [->|Hne].
    + exists rc1, n. assert (r = rc) as -> by congruence. split_and!; try done.
      by apply rep_at_role.
    + exists r, n. split_and!; try done. simpl. by rewrite list_lookup_insert_ne.
  - simpl in Hrun. rewrite (bind_ok _ _ _ _ _ Hrun). exists rs2. split; [done|].
    by eapply campaign_pointwise.
Qed.

Lemma seq_pointers_lt (rs : list Rep) i : i ∈ seq 0 (length rs) -> (i < length rs)%nat.
Proof. rewrite elem_of_seq. lia. Qed.

(** From the votes to the end: roles, leader, synchronisation. *)
Lemma crown_run G sid c rc term (sh : SH) rs2 w :
  inv G sh -> Z.of_nat (length G) < uint64_mod ->
  sid = sh_id sh -> sh_replicas sh !! c = Some rc -> r_online rc = true ->
  rep_at G (length G) rc -> last_term G <= term ->
  pointwise (campaign_rel G term (r_id rc)) (sh_replicas sh) rs2 ->
  exists rs',
    (ptrs ← pointers;
     for_each ptrs (fun i => on_replica i (set_role Follower)) ;;
     on_replica c (set_role Leader) ;;
     set_leader_id (r_id rc) ;;
     for_each (online_pointers sh) (fun i =>
       id ← field i r_id;
       when (bool_decide (id <> r_id rc)) (sync_follower_locked i c)) ;;
     metric inc_election ;;
     shard_id ← gets (fun s => sh_id s.1);
     log_event "INFO" "leader_elected"
       ("shard=" +:+ to_string shard_id +:+ ",leader=" +:+ r_id rc) ;;
     mret true) (with_replicas rs2 sh, w) =
    (({| sh_id := sid; sh_replicas := rs'; sh_leader_id := r_id rc |},
      elected_world sid (r_id rc) w), Ok true) /\
    pointwise (elected_rel G c term) (sh_replicas sh) rs'.
Proof.
  intros Hinv Hn -> Hc Ho Hf Hlt Hcamp. unfold pointers. rewrite bind_gets. cbn [fst].
  unfold replica_count. simpl sh_replicas.
  destruct (loop_call (seq 0 (length rs2)) (set_role Follower) (fun r r' => r' = with_role Follower r)
    (with_replicas rs2 sh) w) as (rs3 & Hrun3 & Hrel3).
  { apply NoDup_seq. }
  { apply seq_pointers_lt. }
  { intros i r _ _. by eexists. }
  rewrite (bind_ok _ _ _ _ _ Hrun3). simpl in Hrel3.
  assert (H3c : exists r3, rs3 !! c = Some r3).
  { apply lookup_lt_is_Some_2. destruct Hrel3 as [-> _], Hcamp as [-> _]. by eapply lookup_lt_Some. }
  destruct H3c as [r3 Hc3].
  rewrite (bind_ok _ _ _ _ _ (on_replica_run (with_replicas rs3 (with_replicas rs2 sh)) w c
    (set_role Leader) r3 _ _ Hc3 eq_refl)). simpl.
  unfold set_leader_id. rewrite bind_modify. simpl.
  pose proof (crowned_pointwise G c term (r_id rc) _ rs2 rs3 r3 Hcamp Hrel3 Hc3) as Hcr.
  set (rs4 := <[c := with_role Leader r3]> rs3) in *.
  assert (Hc4 : rs4 !! c = Some (with_role Leader r3))
    by (apply list_lookup_insert_eq; by eapply lookup_lt_Some).
  destruct (proj2 Hcr c rc Hc) as (rc4 & Hc4' & Hcrc). rewrite Hc4 in Hc4'. injection Hc4' as E4.
  destruct (crowned_up _ _ _ _ _ _ _ _ Hcrc Ho Hf) as (Hat4 & Ht4 & _). rewrite <- E4 in *.
  set (sh4 := with_leader_id _ _).
  destruct (sync_loop_run G (r_id rc) c (with_role Leader r3) (online_pointers sh) sh4 w)
    as (rs5 & Hrun5 & Hrel5).
  - apply Hinv.
  - done.
  - apply online_NoDup.
  - done.
  - apply (crowned_fields _ _ _ _ _ _ _ Hcrc).
  - pose proof (ra_log G _ _ Hat4) as Hx. by rewrite take_ge in Hx.
  - intros i r' (r & Hi & Hoi)%elem_of_online Hi' Hid.
    destruct (proj2 Hcr i r Hi) as (r'' & Hi'' & Hcri). simpl in Hi'. rewrite Hi' in Hi''.
    injection Hi'' as <-. destruct (crowned_fields _ _ _ _ _ _ _ Hcri) as [E _].
    apply (replica_name_inj (sh_id sh)).
    rewrite <- (inv_ids G sh Hinv i r Hi), <- (inv_ids G sh Hinv c rc Hc). congruence.
  - intros i (r & Hi & Hoi)%elem_of_online. destruct (proj2 Hcr i r Hi) as (r' & Hi' & Hcri).
    exists r'. split; [done|]. destruct (crowned_fields _ _ _ _ _ _ _ Hcri) as [_ ->]. done.
  - rewrite (bind_ok _ _ _ _ _ Hrun5). exists rs5. split; [done|].
    eapply elected_pointwise; eauto.
Qed.

Lemma elect_run G (sh : SH) w :
  inv G sh -> Z.of_nat (length G) < uint64_mod -> current_leader sh = None ->
  (quorum (length (sh_replicas sh)) <= length (online_pointers sh))%nat ->
  exists c rc rs',
    ensure_leader_locked (sh, w) =
      (({| sh_id := sh_id sh; sh_replicas := rs'; sh_leader_id := r_id rc |},
        elected_world (sh_id sh) (r_id rc) w), Ok true) /\
    sh_replicas sh !! c = Some rc /\ r_online rc = true /\
    pointwise (elected_rel G c (next_term sh)) (sh_replicas sh) rs'.
Proof.
  intros Hinv Hn Hnone Hq. unfold ensure_leader_locked, current_leader_locked.
  rewrite bind_gets. cbn [fst]. rewrite Hnone. rewrite !bind_gets. cbn [fst].
  unfold replica_count. rewrite (proj2 (Nat.ltb_ge _ _)) by done.
  destruct (candidate_run sh w) as (c & rc & Hmax & Hc & Ho & Hbest).
  { intros E. rewrite E in Hq. simpl in Hq. unfold quorum in Hq. lia. }
  rewrite (bind_ok _ _ _ _ _ Hmax), bind_gets. cbn [fst].
  assert (Hf : rep_at G (length G) rc)
    by (apply (inv_full G sh c); [done..|]; by apply (candidate_full G sh rc c)).
  assert (Hlt : last_term G <= next_term sh).
  { pose proof (ra_term G _ rc Hf) as H1. rewrite take_ge in H1 by done.
    pose proof (proj2 (next_term_spec sh) c rc Hc). lia. }
  edestruct (campaign_run G sh w c rc) as (rs2 & Hrun & Hcamp); [done..|].
  rewrite Hrun. clear Hrun. rewrite (proj2 (Nat.ltb_ge _ _)) by done.
  destruct (crown_run G (sh_id sh) c rc (next_term sh) sh rs2 w) as (rs' & Hrun & Hel); [done..|].
  exists c, rc, rs'. rewrite Hrun. done.
Qed.

(** ** [ensure_leader_locked] *)

(** A leader is there, or can be elected. *)
Definition available (sh : SH) : bool :=
  match current_leader sh with
  | Some _ => true
  | None => (quorum (length (sh_replicas sh)) <=? length (online_pointers sh))%nat
  end.

(** Which replicas are online. *)
Definition online_flags (rs : list Rep) : list bool := r_online <$> rs.

Lemma online_pointers_flags (sh sh' : SH) :
  online_flags (sh_replicas sh) = online_flags (sh_replicas sh') ->
  online_pointers sh = online_pointers sh'.
Proof.
  unfold online_pointers, online_flags. generalize (sh_replicas sh), (sh_replicas sh').
  intros l l' Hl.
  assert (G : forall f : nat -> nat,
    fst <$> filter (fun p => r_online p.2 = true) (imap (fun i r => (f i, r)) l) =
    fst <$> filter (fun p => r_online p.2 = true) (imap (fun i r => (f i, r)) l'));
    [|apply (G id)].
  revert l' Hl. induction l as [|r l IH]; intros [|r' l'] Hl f; try done.
  injection Hl as Hr Hl. cbn [imap]. rewrite !filter_cons. simpl. rewrite Hr.
  specialize (IH l' Hl (f ∘ S)). case_decide; rewrite ?fmap_cons; [f_equal|]; exact IH.
Qed.

Lemma pointwise_online (P : nat -> Rep -> Rep -> Prop) rs rs' :
  pointwise P rs rs' ->
  (forall i r r', rs !! i = Some r -> P i r r' -> r_online r' = r_online r) ->
  online_flags rs' = online_flags rs.
Proof.
  intros [L Hp] Ho. unfold online_flags. apply list_eq. intros i. rewrite !list_lookup_fmap.
  destruct (rs !! i) as [r|] eqn:E.
  - destruct (Hp i r E) as (r' & -> & HP). simpl. by rewrite (Ho i r r' E HP).
  - rewrite (proj2 (lookup_ge_None rs' i)); [done|]. rewrite L. by apply lookup_ge_None.
Qed.

(** What a call of [ensure_leader_locked] may have done to the shard. *)
Inductive ensured (G : list LogEntry) (sh : SH) (w : World) : SH -> World -> bool -> Prop :=
  | ensured_already c :
      current_leader sh = Some c -> ensured G sh w sh w true
  | ensured_unavailable :
      available sh = false -> ensured G sh w (with_leader_id "" sh) w false
  | ensured_elected c rc rs' :
      current_leader sh = None -> available sh = true ->
      sh_replicas sh !! c = Some rc -> r_online rc = true ->
      pointwise (elected_rel G c (next_term sh)) (sh_replicas sh) rs' ->
      ensured G sh w
        {| sh_id := sh_id sh; sh_replicas := rs'; sh_leader_id := r_id rc |}
        (elected_world (sh_id sh) (r_id rc) w) true.

Lemma ensure_run G (sh : SH) w :
  inv G sh -> Z.of_nat (length G) < uint64_mod ->
  exists sh' w' b, ensure_leader_locked (sh, w) = ((sh', w'), Ok b) /\ ensured G sh w sh' w' b.
Proof.
  intros Hinv Hn. destruct (current_leader sh) as [c|] eqn:Hl.
  - exists sh, w, true. split; [|by apply (ensured_already _ _ _ c)].
    unfold ensure_leader_locked, current_leader_locked. rewrite bind_gets. cbn [fst]. by rewrite Hl.
  - destruct (available sh) eqn:Ha; unfold available in Ha; rewrite Hl in Ha.
    + destruct (elect_run G sh w) as (c & rc & rs' & Hrun & Hc & Ho & Hpw); [done..| |].
      { by apply Nat.leb_le. }
      rewrite Hrun. eexists _, _, true. split; [done|]. eapply ensured_elected; eauto.
      unfold available. by rewrite Hl.
    + exists (with_leader_id "" sh), w, false. split.
      * unfold ensure_leader_locked, current_leader_locked. rewrite bind_gets. cbn [fst].
        rewrite Hl, !bind_gets. cbn [fst]. unfold replica_count.
        apply Nat.leb_gt in Ha. by rewrite (proj2 (Nat.ltb_lt _ _)).
      * apply ensured_unavailable. unfold available. by rewrite Hl.
Qed.

Lemma inv_no_leader G sh : inv G sh -> current_leader sh = None -> inv G (with_leader_id "" sh).
Proof.
  intros Hinv Hl. split; simpl; try apply Hinv; [by left|].
  intros i r Hi Hr. exfalso.
  pose proof (inv_role G sh Hinv i r Hi Hr) as Hx.
  destruct (inv_leader G sh Hinv) as [E|(j & rj & Hj & Hid & Hlo)].
  - rewrite E, (inv_ids G sh Hinv i r Hi) in Hx. by apply replica_name_nonempty in Hx.
  - pose proof (current_leader_None sh Hl j rj Hj Hid) as Hy.
    by rewrite (lo_online _ _ _ Hlo) in Hy.
Qed.

(** The invariant survives, the shard's identity and the online flags stay,
    and on success there is a leader. *)
Lemma ensured_inv G sh w sh' w' b :
  inv G sh -> ensured G sh w sh' w' b ->
  inv G sh' /\ sh_id sh' = sh_id sh /\
  online_flags (sh_replicas sh') = online_flags (sh_replicas sh) /\
  b = available sh /\ (b = true -> exists c, current_leader sh' = Some c).
Proof.
  intros Hinv [c Hl|Ha|c rc rs' Hl Ha Hc Ho Hpw].
  - split_and!; try done; [unfold available; by rewrite Hl|by exists c].
  - split_and!; try done. apply inv_no_leader; [done|].
    unfold available in Ha. by destruct (current_leader sh).
  - destruct (elected_inv G c (next_term sh) sh rs' rc) as [Hi' Hcl]; try done.
    { apply next_term_spec. }
    split_and!; try done; [|by exists c].
    eapply pointwise_online; [exact Hpw|]. intros i r r' _ He. apply He.
Qed.
