(* ===== verification/Replication.v ===== *)
(** * Replicating a command

    [replicate_command_locked] on a shard that satisfies the invariant: the
    command is acknowledged exactly when a majority of the replicas is online;
    then it is appended to the committed log and every online replica has
    applied it, otherwise every log is left as it was. *)

From S2P Require Import Prelude CppStd Common Sqlite Store LogFacts Raft RaftProofs Metrics Shard ShardFacts ShardInv Election.

#[local] Open Scope Z_scope.

Lemma term_at_prev G x n (r : Rep) :
  at_log (G ++ x) n r -> term_at (Z.of_nat (length G)) r = (r, Ok (last_term G)).
Proof.
  intros Hat. unfold term_at. destruct G as [|e0 G0] eqn:EG; [done|]. rewrite <- EG in *.
  assert (Hlen : (0 < length G)%nat) by (subst; simpl; lia).
  rewrite (proj2 (Z.eqb_neq _ _)) by lia.
  rewrite (bind_ok _ _ _ _ _ (on_log_at _ r)).
  destruct (last G) as [e|] eqn:El; [|apply last_None in El; by subst].
  rewrite last_lookup in El.
  replace (Z.of_nat (length G)) with (Z.of_nat (pred (length G)) + 1) by lia.
  rewrite (log_at_Some _ (G ++ x) (at_wf _ _ _ Hat) (at_raft_log _ _ _ Hat) _ e).
  - unfold last_term. by rewrite last_lookup, El.
  - rewrite lookup_app_l by lia. done.
Qed.

(** A replica that has acknowledged the new entry: its log is [G'], of which
    [n] entries are committed. *)
Record pending_rel (G' : list LogEntry) (n : nat) (term : Z) (lid : string) (r r' : Rep) : Prop := {
  pe_log : at_log G' n r';
  pe_persisted : persisted r';
  pe_id : r_id r' = r_id r;
  pe_online : r_online r' = r_online r;
  pe_role : r_role r' = Follower;
  pe_voted : r_voted_for r' = lid;
  pe_term : r_term r' = term;
}.

Section replicate.
Context (G : list LogEntry) (sid : Z) (lid : string) (w : World).
Context (d : nat) (rd : Rep) (e : LogEntry).
Context (HwfG : wf_log G) (HG : Z.of_nat (length G) < uint64_mod) (Hlid : nul_free lid).
Let G' : list LogEntry := G ++ [clean_entry e].
Context (Hwf' : wf_log G').
(** the leader, with the new entry at the end of its log *)
Context (Hd_log : at_log G' (length G) rd) (Hd_id : r_id rd = lid).

Lemma G'_take : take (length G) G' = G.
Proof. unfold G'. apply take_app_length. Qed.

Lemma append_accepted r :
  at_log G (length G) r -> r_online r = true -> r_term r <= r_term rd ->
  exists r', append_entries (r_term rd) lid (Z.of_nat (length G)) (last_term G) [e]
               (Z.of_nat (length G)) r = (r', Ok true) /\
             pending_rel G' (length G) (r_term rd) lid r r'.
Proof.
  intros Hat Ho Ht.
  destruct (append_entries_run G (length G) [e] (length G) (r_term rd) lid r)
    as (r' & Hrun & Hat' & Hper & Hvol); [done..|rewrite length_app; lia|].
  exists r'. split; [done|]. rewrite Nat.max_id in *.
  apply vol_fields in Hvol as (E1 & E2 & E3 & E4 & E5 & _). simpl in *.
  split; try done. rewrite E4. lia.
Qed.

(** One turn of the replication loop at an online follower. *)
Lemma replicate_one (sh : SH) i r n acked :
  sh_replicas sh !! d = Some rd -> sh_replicas sh !! i = Some r ->
  i <> d -> r_id r <> lid -> r_online r = true -> rep_at G n r -> r_term r <= r_term rd ->
  exists r', replicate_to d e (Z.of_nat (length G)) (last_term G) acked i (sh, w) =
               ((with_replicas (<[i := r']> (sh_replicas sh)) sh, w), Ok (acked ++ [i])) /\
             pending_rel G' (length G) (r_term rd) lid r r'.
Proof.
  intros Hd Hi Hne Hid Ho Hr Ht. unfold replicate_to.
  rewrite (bind_ok _ _ _ _ _ (field_run sh w i r_id r Hi)).
  rewrite (bind_ok _ _ _ _ _ (field_run sh w d r_id rd Hd)).
  rewrite (bind_ok _ _ _ _ _ (field_run sh w i r_online r Hi)). simpl.
  rewrite bool_decide_false, Ho by congruence. simpl.
  set (lag := negb (r_commit r =? Z.of_nat (length G))).
  rewrite (bind_ok _ _ (sh, w) (sh, w) lag).
  2: { rewrite (bind_ok _ _ _ _ _ (field_run sh w i r_commit r Hi)).
       rewrite (bind_ok _ _ _ _ _ (field_run sh w d r_commit rd Hd)). simpl.
       rewrite (at_commit _ _ _ Hd_log). subst lag.
       destruct (r_commit r =? Z.of_nat (length G)) eqn:E; [|done]. simpl.
       rewrite (bind_ok _ _ _ _ _ (on_replica_read sh w i _ r _ Hi (on_last_index r))).
       rewrite (bind_ok _ _ _ _ _ (field_run sh w d r_commit rd Hd)). simpl.
       rewrite (at_commit _ _ _ Hd_log). pose proof (ra_log G n r Hr) as Hat.
       rewrite (last_index_length _ (take n G)) by apply Hat. pose proof (at_commit _ _ _ Hat).
       assert (n = length G) as -> by lia.
       by rewrite length_take, Nat.min_l, Z.eqb_refl by lia. }
  assert (Hsync : exists r1, when lag (sync_follower_locked i d) (sh, w) =
      ((with_replicas (<[i := r1]> (sh_replicas sh)) sh, w), Ok tt) /\
    at_log G (length G) r1 /\ r_id r1 = r_id r /\ r_online r1 = true /\ r_term r1 <= r_term rd).
  { subst lag. destruct (r_commit r =? Z.of_nat (length G)) eqn:E.
    - exists r. simpl. rewrite list_insert_id, with_replicas_id by done. split; [done|].
      assert (n = length G) as -> by (pose proof (rep_at_commit G n r Hr); lia).
      pose proof (ra_log G _ r Hr) as Hat. by rewrite take_ge in Hat.
    - destruct (sync_run G G' sh w i d r rd HwfG HG Hi Ho Hd Hd_log G'_take) as (r1 & Hrun & Hsy).
      exists r1. split; [done|]. split; [apply Hsy|]. pose proof (sy_vol _ _ _ _ Hsy) as Hv.
      apply vol_fields in Hv as (E1 & _ & E3 & E4 & _). simpl in *. split_and!; try congruence. lia. }
  destruct Hsync as (r1 & Hrun1 & Hat1 & Hid1 & Ho1 & Ht1).
  rewrite (bind_ok _ _ _ _ _ Hrun1). set (sh1 := with_replicas _ sh).
  assert (Hd1 : sh_replicas sh1 !! d = Some rd) by (simpl; by rewrite list_lookup_insert_ne).
  assert (Hi1 : sh_replicas sh1 !! i = Some r1)
    by (apply list_lookup_insert_eq; by eapply lookup_lt_Some).
  rewrite (bind_ok _ _ _ _ _ (field_run sh1 w d r_term rd Hd1)).
  rewrite (bind_ok _ _ _ _ _ (field_run sh1 w d r_commit rd Hd1)). simpl.
  rewrite (at_commit _ _ _ Hd_log), Hd_id.
  destruct (append_accepted r1 Hat1 Ho1 Ht1) as (r2 & Hrun2 & Hp).
  rewrite (bind_ok _ _ _ _ _ (on_replica_run sh1 w i _ r1 r2 _ Hi1 Hrun2)).
  exists r2. split.
  - simpl. by rewrite list_insert_insert_eq.
  - destruct Hp. split; try done; congruence.
Qed.

(** What the replication loop does to the replica [i]. *)
Definition replicated_rel (i : nat) (r r' : Rep) : Prop :=
  if decide (i = d) then r' = r
  else if r_online r then pending_rel G' (length G) (r_term rd) lid r r' else r' = r.

(** The replicas that are sent the entry. *)
Definition is_follower (sh : SH) (i : nat) : Prop := i <> d /\ i ∈ online_pointers sh.

Lemma skip_one (sh : SH) i r acked :
  sh_replicas sh !! d = Some rd -> sh_replicas sh !! i = Some r ->
  i = d \/ r_online r = false ->
  replicate_to d e (Z.of_nat (length G)) (last_term G) acked i (sh, w) = ((sh, w), Ok acked).
Proof.
  intros Hd Hi Hskip. unfold replicate_to.
  rewrite (bind_ok _ _ _ _ _ (field_run sh w i r_id r Hi)).
  rewrite (bind_ok _ _ _ _ _ (field_run sh w d r_id rd Hd)).
  rewrite (bind_ok _ _ _ _ _ (field_run sh w i r_online r Hi)). simpl.
  rewrite (proj2 (orb_true_iff _ _)); [done|].
  destruct Hskip as [->|Ho]; [left|right; by rewrite Ho].
  apply bool_decide_true. congruence.
Qed.

Lemma replication_loop (sh : SH) :
  sh_replicas sh !! d = Some rd ->
  (forall i r, sh_replicas sh !! i = Some r -> i <> d ->
     r_id r <> lid /\ r_term r <= r_term rd /\ exists n, rep_at G n r) ->
  exists rs' acked,
    for_fold (seq 0 (length (sh_replicas sh))) []
      (replicate_to d e (Z.of_nat (length G)) (last_term G)) (sh, w) =
    ((with_replicas rs' sh, w), Ok acked) /\
    acked = filter (is_follower sh) (seq 0 (length (sh_replicas sh))) /\
    pointwise replicated_rel (sh_replicas sh) rs'.
Proof.
  intros Hd Hall.
  set (acc (a : list nat) i := if decide (is_follower sh i) then a ++ [i] else a).
  destruct (loop_upd (seq 0 (length (sh_replicas sh))) []
    (replicate_to d e (Z.of_nat (length G)) (last_term G)) acc replicated_rel sh w)
    as (rs' & Hrun & Hrel).
  - apply NoDup_seq.
  - apply seq_pointers_lt.
  - intros seen i b rs r Hrel _ Hni Hi. pose proof (upd_rel_keep _ _ _ _ _ _ Hrel Hni Hi) as Hi'.
    assert (Hd' : rs !! d = Some rd).
    { destruct (decide (d ∈ seen)) as [Hs|Hs]; [|by apply (upd_rel_keep _ _ _ _ _ _ Hrel)].
      destruct (upd_rel_in _ _ _ _ _ _ Hrel Hs Hd) as (r' & Hr' & E).
      unfold replicated_rel in E. rewrite decide_True in E by done. by subst. }
    destruct (decide (i = d \/ r_online r = false)) as [Hskip|Hgo].
    + exists r. rewrite (skip_one (with_replicas rs sh) i r) by done. split.
      * rewrite list_insert_id by done. subst acc. simpl. rewrite decide_False; [done|].
        intros [Hne (r0 & Hr0 & Ho)%elem_of_online]. destruct Hskip; congruence.
      * unfold replicated_rel. case_decide; [done|]. destruct Hskip as [|Ho]; [done|]. by rewrite Ho.
    + assert (Hne : i <> d) by tauto. assert (Ho : r_online r = true).
      { destruct (r_online r); [done|]. tauto. }
      destruct (Hall i r Hi Hne) as (Hid & Ht & n & Hn).
      destruct (replicate_one (with_replicas rs sh) i r n b) as (r' & Hrun & Hp); try done.
      exists r'. rewrite Hrun. split.
      * subst acc. simpl. rewrite decide_True; [done|]. split; [done|]. apply elem_of_online. eauto.
      * unfold replicated_rel. by rewrite decide_False, Ho.
  - exists rs', (foldl acc [] (seq 0 (length (sh_replicas sh)))). split; [done|]. split.
    + assert (E : forall l a, foldl acc a l = a ++ filter (is_follower sh) l);
        [|by rewrite E].
      induction l as [|i l IH]; intros a; simpl; [by rewrite app_nil_r|].
      rewrite IH, filter_cons. subst acc. simpl. case_decide; [|done]. by rewrite <- app_assoc.
    + eapply pointwise_mono; [by apply pointwise_upd|]. intros i r r' Hi [Hin _].
      apply Hin, elem_of_seq. apply lookup_lt_Some in Hi. lia.
Qed.
End replicate.

Lemma followers_count d (sh : SH) :
  d ∈ online_pointers sh ->
  (1 + length (filter (is_follower d sh) (seq 0 (length (sh_replicas sh)))))%nat =
  length (online_pointers sh).
Proof.
  intros Hd. set (l := filter _ _). change (length (d :: l) = length (online_pointers sh)).
  apply Permutation_length, NoDup_Permutation.
  - apply NoDup_cons. split; [|apply NoDup_filter, NoDup_seq].
    by intros [[? _] _]%list_elem_of_filter.
  - apply online_NoDup.
  - intros i. rewrite elem_of_cons. subst l. rewrite list_elem_of_filter. split.
    + by intros [->|[[_ ?] _]].
    + intros Hi. destruct (decide (i = d)); [by left|right]. split; [done|].
      apply elem_of_seq. apply online_lt in Hi. lia.
Qed.

(** ** The state a command leaves *)

(** The replica has the log [H], of which [n] entries are committed, and the
    volatile fields of [r]. *)
Record moved_rel (H : list LogEntry) (n : nat) (r r' : Rep) : Prop := {
  mv_log : at_log H n r';
  mv_persisted : persisted r';
  mv_voted : nul_free (r_voted_for r');
  mv_id : r_id r' = r_id r;
  mv_online : r_online r' = r_online r;
  mv_term : r_term r' = r_term r;
  mv_role : r_role r' = r_role r;
}.

(** The replica [i] while the leader [d] handles a command: if online, its log
    is [H], of which [n] entries are committed, at the leader's term. *)
Record settled_rel (H : list LogEntry) (n d : nat) (term : Z) (i : nat) (r r' : Rep) : Prop := {
  se_id : r_id r' = r_id r;
  se_online : r_online r' = r_online r;
  se_up : r_online r = true ->
    at_log H n r' /\ persisted r' /\ nul_free (r_voted_for r') /\ r_term r' = term /\
    r_role r' = if decide (i = d) then Leader else Follower;
  se_down : r_online r = false -> r' = r;
}.

Lemma rep_at_prefix G x n r : rep_at G n r -> rep_at (G ++ x) n r.
Proof.
  intros [Hle Hlog Hper Hv Ht H0].
  split; rewrite ?take_app_le by done; try done. rewrite length_app. lia.
Qed.

Lemma last_term_take_all (G : list LogEntry) n : (length G <= n)%nat -> last_term (take n G) = last_term G.
Proof. intros Hn. by rewrite take_ge. Qed.

(** Settling on [H], which extends the committed log [G], keeps the invariant,
    provided a majority is online when it is a proper extension. *)
Lemma settled_inv G x (sh : SH) c rc rs' :
  let H := G ++ x in
  inv G sh -> sh_replicas sh !! c = Some rc -> r_id rc = sh_leader_id sh ->
  leader_ok G (sh_replicas sh) rc ->
  wf_log H -> terms_mono H -> last_term H <= r_term rc ->
  (x <> [] -> (quorum (length (sh_replicas sh)) <= length (online_pointers sh))%nat) ->
  pointwise (settled_rel H (length H) c (r_term rc)) (sh_replicas sh) rs' ->
  inv H (with_replicas rs' sh).
Proof.
  intros H Hinv Hc Hid Hlo Hwf Hm Hlt Hq Hpw. pose proof (lo_online _ _ _ Hlo) as Hoc.
  assert (Hback : forall i r', rs' !! i = Some r' ->
    exists r, sh_replicas sh !! i = Some r /\ settled_rel H (length H) c (r_term rc) i r r')
    by (intros i r'; by apply pointwise_back).
  destruct (proj2 Hpw c rc Hc) as (rc' & Hc' & Hse).
  destruct (se_up _ _ _ _ _ _ _ Hse Hoc) as (Hat & Hper & Hv & Ht & Hro).
  rewrite decide_True in Hro by done.
  assert (Hterm : forall j r', rs' !! j = Some r' -> r_term r' <= r_term rc).
  { intros j r' (r & Hj & Hs)%Hback. destruct (r_online r) eqn:E.
    - destruct (se_up _ _ _ _ _ _ _ Hs E) as (_ & _ & _ & -> & _). done.
    - rewrite (se_down _ _ _ _ _ _ _ Hs E). by apply (lo_term _ _ _ Hlo j). }
  split; simpl; [|done|done|..].
  - intros i r' (r & Hi & Hs)%Hback. rewrite (se_id _ _ _ _ _ _ _ Hs). by apply (inv_ids G sh).
  - intros i r' (r & Hi & Hs)%Hback. destruct (r_online r) eqn:E.
    + destruct (se_up _ _ _ _ _ _ _ Hs E) as (Ha & Hp & Hvo & Htr & _). exists (length H).
      split; rewrite ?take_ge by lia; try done; rewrite Htr; [done|].
      destruct (inv_rep G sh Hinv c rc Hc) as [n Hn]. apply Hn.
    + rewrite (se_down _ _ _ _ _ _ _ Hs E). destruct (inv_rep G sh Hinv i r Hi) as [n Hn].
      exists n. by apply rep_at_prefix.
  - destruct Hpw as [Hlen Hpw]. rewrite Hlen. destruct x as [|e x].
    + etrans; [apply Hinv|]. eapply pointwise_count; [by split|].
      intros i r r' Hi Hs Hf. destruct (r_online r) eqn:E.
      * apply (at_commit H). by apply (se_up _ _ _ _ _ _ _ Hs).
      * rewrite (se_down _ _ _ _ _ _ _ Hs E). subst H. by rewrite app_nil_r.
    + etrans; [by apply Hq|]. rewrite online_count. eapply pointwise_count; [by split|].
      intros i r r' Hi Hs Ho. apply (at_commit H). by apply (se_up _ _ _ _ _ _ _ Hs).
  - right. exists c, rc'. split; [done|]. split; [by rewrite (se_id _ _ _ _ _ _ _ Hse)|].
    split; [by rewrite (se_online _ _ _ _ _ _ _ Hse)|done|apply Hat|].
    rewrite Ht. apply Hterm.
  - intros i r' (r & Hi & Hs)%Hback Hl. rewrite (se_id _ _ _ _ _ _ _ Hs).
    destruct (r_online r) eqn:E.
    + destruct (se_up _ _ _ _ _ _ _ Hs E) as (_ & _ & _ & _ & Hr). rewrite Hr in Hl.
      case_decide; [|done]. subst. congruence.
    + rewrite (se_down _ _ _ _ _ _ _ Hs E) in Hl. by apply (inv_role G sh Hinv i).
Qed.

Lemma settled_move H n H' n' d term i r r1 r2 :
  settled_rel H n d term i r r1 -> r_online r = true -> moved_rel H' n' r1 r2 ->
  settled_rel H' n' d term i r r2.
Proof.
  intros [E1 E2 Hup _] Ho []. destruct (Hup Ho) as (_ & _ & _ & Ht & Hr).
  split; try congruence. intros _. split_and!; try done; congruence.
Qed.

Lemma settled_stay H n H' n' d term i r r1 :
  settled_rel H n d term i r r1 -> r_online r = false -> settled_rel H' n' d term i r r1.
Proof. intros [E1 E2 _ Hd] Ho. split; try done. congruence. Qed.

(** Moving every online replica from [H], [n] to [H'], [n']: first the leader
    by a call of [m], then the followers in a loop. *)
Lemma settle_all H n H' n' d rd term l (m : M Rep unit) body (sh : SH) rs w
    (k : M (SH * World) OperationResult) :
  pointwise (settled_rel H n d term) (sh_replicas sh) rs ->
  sh_replicas sh !! d = Some rd -> r_online rd = true ->
  l = filter (is_follower d sh) (seq 0 (length (sh_replicas sh))) ->
  (forall r, at_log H n r -> persisted r -> nul_free (r_voted_for r) -> r_online r = true ->
     exists r', m r = (r', Ok tt) /\ moved_rel H' n' r r') ->
  (forall sh1 i r r1, i <> d -> sh_replicas sh1 !! i = Some r -> sh_replicas sh1 !! d = Some r1 ->
     at_log H n r -> persisted r -> nul_free (r_voted_for r) -> r_online r = true ->
     r_term r = term -> r_role r = Follower -> r_term r1 = term -> r_id r1 = r_id rd ->
     exists r', body i (sh1, w) = ((with_replicas (<[i := r']> (sh_replicas sh1)) sh1, w), Ok tt) /\
                moved_rel H' n' r r') ->
  exists rs', (on_replica d m ;; for_each l body ;; k) (with_replicas rs sh, w) =
                k (with_replicas rs' sh, w) /\
              pointwise (settled_rel H' n' d term) (sh_replicas sh) rs'.
Proof.
  intros Hpw Hd Ho Hl Hm Hbody. destruct (proj2 Hpw d rd Hd) as (r1 & Hd1 & Hs1).
  destruct (se_up _ _ _ _ _ _ _ Hs1 Ho) as (Hat & Hper & Hv & Ht & _).
  destruct (Hm r1 Hat Hper Hv) as (r2 & Hrun & Hmv); [by rewrite (se_online _ _ _ _ _ _ _ Hs1)|].
  rewrite (bind_ok _ _ _ _ _ (on_replica_run (with_replicas rs sh) w d m r1 r2 _ Hd1 Hrun)). simpl.
  set (sh2 := with_replicas _ _).
  assert (Hd2 : sh_replicas sh2 !! d = Some r2)
    by (apply list_lookup_insert_eq; by eapply lookup_lt_Some).
  assert (Hin : forall i, i ∈ l <-> is_follower d sh i).
  { intros i. rewrite Hl, list_elem_of_filter, elem_of_seq. split; [by intros [? _]|].
    intros Hf. split; [done|]. pose proof (online_lt sh i (proj2 Hf)). lia. }
  destruct (loop_upd_each l body (fun i r r' => moved_rel H' n' r r') sh2 w)
    as (rs' & Hrun' & Hrel).
  - rewrite Hl. apply NoDup_filter, NoDup_seq.
  - intros i [_ Hi%online_lt]%Hin. simpl. rewrite length_insert. destruct Hpw as [-> _]. done.
  - intros seen i rs3 r Hrel Hil Hni Hi. pose proof (upd_rel_keep _ _ _ _ _ _ Hrel Hni Hi) as Hi3.
    apply Hin in Hil as [Hne (r0 & Hi0 & Ho0)%elem_of_online].
    destruct (proj2 Hpw i r0 Hi0) as (r' & Hi' & Hs).
    assert (r' = r) as -> by (simpl in Hi; rewrite list_lookup_insert_ne in Hi; congruence).
    destruct (se_up _ _ _ _ _ _ _ Hs Ho0) as (Ha & Hp & Hvo & Htr & Hro).
    rewrite decide_False in Hro by done.
    assert (Hrd : exists r3, rs3 !! d = Some r3 /\ r_term r3 = term /\ r_id r3 = r_id rd).
    { destruct (decide (d ∈ seen)) as [Hds|Hds].
      - destruct (upd_rel_in _ _ _ _ _ _ Hrel Hds Hd2) as (r3 & Hr3 & Hm3). exists r3.
        split; [done|]. rewrite (mv_term _ _ _ _ Hm3), (mv_id _ _ _ _ Hm3).
        rewrite (mv_term _ _ _ _ Hmv), (mv_id _ _ _ _ Hmv), (se_id _ _ _ _ _ _ _ Hs1). done.
      - exists r2. split; [by apply (upd_rel_keep _ _ _ _ _ _ Hrel)|].
        rewrite (mv_term _ _ _ _ Hmv), (mv_id _ _ _ _ Hmv), (se_id _ _ _ _ _ _ _ Hs1). done. }
    destruct Hrd as (r3 & Hr3 & Ht3 & Hid3).
    apply (Hbody (with_replicas rs3 sh2) i r r3); try done.
    by rewrite (se_online _ _ _ _ _ _ _ Hs).
  - rewrite (bind_ok _ _ _ _ _ Hrun'). exists rs'. split; [done|]. eapply pointwise_mono.
    + eapply pointwise_trans; [exact Hpw|].
      eapply pointwise_trans; [by apply (pointwise_insert d r1)|exact (pointwise_upd _ _ _ _ Hrel)].
    + intros i r r' Hi (ra & Hs & rb & [Heq Hne] & [Hinl Hnin]).
      destruct (decide (i = d)) as [->|Hid].
      * destruct (Heq eq_refl) as [-> ->]. rewrite Hnin by (by intros [? _]%Hin).
        assert (r = rd) as -> by congruence. by eapply settled_move.
      * rewrite (Hne Hid) in Hinl, Hnin. destruct (r_online r) eqn:E.
        -- eapply settled_move; [done..|]. apply Hinl, Hin. split; [done|]. apply elem_of_online. eauto.
        -- rewrite Hnin; [by eapply settled_stay|].
           intros [_ (? & ? & ?)%elem_of_online]%Hin. congruence.
Qed.

(** ** The two outcomes *)

Lemma discard_moved G e (r : Rep) :
  at_log (G ++ [e]) (length G) r -> persisted r -> nul_free (r_voted_for r) ->
  exists r', discard_uncommitted r = (r', Ok tt) /\ moved_rel G (length G) r r'.
Proof.
  intros Hat Hper Hv.
  destruct (discard_uncommitted_run _ _ r Hat) as (st & Hrun & Hat' & Hm).
  rewrite take_app_length in Hat'. eexists. split; [exact Hrun|]. split; try done.
  unfold persisted in *. simpl. by rewrite Hm.
Qed.

Lemma commit_moved G e (r : Rep) :
  at_log (G ++ [e]) (length G) r -> nul_free (r_voted_for r) -> r_online r = true ->
  exists r', commit_to (Z.of_nat (length (G ++ [e]))) r = (r', Ok tt) /\
             moved_rel (G ++ [e]) (length (G ++ [e])) r r'.
Proof.
  intros Hat Hv Ho. destruct (commit_to_run _ _ r Hat Ho Hv) as (r' & Hrun & Hat' & Hper & Hvol).
  exists r'. split; [done|]. apply vol_fields in Hvol as (E1 & E2 & E3 & E4 & E5 & _). simpl in *.
  split; try done. congruence.
Qed.

(** The message that tells a follower the entry is committed. *)
Lemma notify_moved H n lid (r : Rep) :
  at_log H n r -> r_online r = true -> r_role r = Follower -> nul_free lid ->
  exists r', append_entries (r_term r) lid (Z.of_nat (length H)) (last_term H) []
               (Z.of_nat (length H)) r = (r', Ok true) /\ moved_rel H (length H) r r'.
Proof.
  intros Hat Ho Hro Hlid.
  destruct (append_entries_run H n [] (length H) (r_term r) lid r)
    as (r' & Hrun & Hat' & Hper & Hvol); simpl; rewrite ?app_nil_r; try done; [apply Hat|].
  exists r'. split; [done|]. simpl in Hat'. rewrite app_nil_r in Hat'.
  rewrite Nat.max_r in Hat' by apply Hat.
  apply vol_fields in Hvol as (E1 & E2 & E3 & E4 & E5 & _). simpl in *.
  split; try done; [by rewrite E5|rewrite E4; lia|congruence].
Qed.

(** What [replicate_command_locked] does once it has its leader. *)
Definition lead (shard_id : Z) (leader : nat) (command key value : string)
    : M (SH * World) OperationResult :=
  leader_id ← field leader r_id;
  n ← gets (fun s => replica_count s.1);
  entry ← on_replica leader (append_local command key value);
  let prev_index := e_index entry - 1 in
  prev_term ← on_replica leader (term_at prev_index);
  ptrs ← pointers;
  acked ← for_fold ptrs [] (replicate_to leader entry prev_index prev_term);
  if (1 + length acked <? quorum n)%nat then
    on_replica leader discard_uncommitted ;;
    for_each acked (fun i => on_replica i discard_uncommitted) ;;
    mret (with_status 503
      "write rejected because a majority could not acknowledge the log entry"
      (shard_result shard_id leader_id))
  else
    on_replica leader (commit_to (e_index entry)) ;;
    for_each acked (fun i =>
      term ← field leader r_term; id ← field leader r_id;
      on_replica i (append_entries term id (e_index entry) (e_term entry) []
                      (e_index entry)) ;;
      mret tt) ;;
    mret {| res_ok := true;
            res_status := if decide (command = "DELETE") then 200 else 201;
            res_message := if decide (command = "DELETE") then "deleted" else "stored";
            res_value := ""; res_shard := shard_id; res_leader := leader_id |}.

Definition has_quorum (sh : SH) : bool :=
  (quorum (length (sh_replicas sh)) <=? length (online_pointers sh))%nat.

(** The answers to a command. *)
Definition accepted_result (sid : Z) (lid command : string) : OperationResult :=
  {| res_ok := true;
     res_status := if decide (command = "DELETE") then 200 else 201;
     res_message := if decide (command = "DELETE") then "deleted" else "stored";
     res_value := ""; res_shard := sid; res_leader := lid |}.
Definition rejected_result (sid : Z) (lid : string) : OperationResult :=
  with_status 503 "write rejected because a majority could not acknowledge the log entry"
    (shard_result sid lid).

Lemma rep_at_all G r : rep_at G (length G) r -> at_log G (length G) r.
Proof. intros [_ Hat _ _ _ _]. by rewrite take_ge in Hat. Qed.

(** The replicas after the loop, the leader included. *)
Lemma replicated_pointwise G e (sh : SH) c rc rc1 rs2 :
  let G' := G ++ [clean_entry e] in
  sh_replicas sh !! c = Some rc -> r_online rc = true -> r_role rc = Leader ->
  persisted rc -> nul_free (r_voted_for rc) -> nul_free (r_id rc) ->
  at_log G' (length G) rc1 -> vol rc1 = vol rc -> persisted rc1 ->
  pointwise (replicated_rel G (r_id rc) c rc1 e) (<[c := rc1]> (sh_replicas sh)) rs2 ->
  pointwise (settled_rel G' (length G) c (r_term rc)) (sh_replicas sh) rs2.
Proof.
  intros G' Hc Ho Hro Hper Hv Hid Hat Hvol Hper1 Hpw.
  apply vol_fields in Hvol as (E1 & E2 & E3 & E4 & E5 & _). simpl in *. eapply pointwise_mono.
  - eapply pointwise_trans; [by apply (pointwise_insert c rc)|exact Hpw].
  - intros i r r' Hi (r1 & [Heq Hne] & Hr). unfold replicated_rel in Hr. case_decide as Hic.
    + destruct (Heq Hic) as [-> ->]. subst r'. split; try congruence. intros _.
      rewrite decide_True by done. split_and!; try done; congruence.
    + rewrite (Hne Hic) in Hr. destruct (r_online r) eqn:E; [|by subst; split; congruence].
      destruct Hr. split; try congruence. intros _. rewrite decide_False by done.
      split_and!; try done; congruence.
Qed.

(** Up to the decision. *)
Lemma lead_loop_run G (sh : SH) w c rc command key value (k : LogEntry -> list nat -> M (SH * World) OperationResult) :
  inv G sh -> Z.of_nat (length G) < uint64_mod -> sh_replicas sh !! c = Some rc ->
  leader_ok G (sh_replicas sh) rc -> rep_at G (length G) rc -> valid_command command -> fits_int value ->
  let e := new_entry G (r_term rc) command key value in
  exists rs2,
    (entry ← on_replica c (append_local command key value);
     let prev_index := e_index entry - 1 in
     prev_term ← on_replica c (term_at prev_index);
     ptrs ← pointers;
     acked ← for_fold ptrs [] (replicate_to c entry prev_index prev_term);
     k entry acked) (sh, w) =
    k e (filter (is_follower c sh) (seq 0 (length (sh_replicas sh)))) (with_replicas rs2 sh, w) /\
    pointwise (settled_rel (G ++ [clean_entry e]) (length G) c (r_term rc)) (sh_replicas sh) rs2.
Proof.
  intros Hinv Hn Hc Hlo Hrc Hv Hf e. pose proof (rep_at_all G rc Hrc) as Hat.
  destruct (append_local_run G (length G) command key value rc) as (st & Hrun & Hat1 & Hm);
    [done|apply Hlo|apply Hlo|done|done|].
  set (rc1 := with_store st rc) in *.
  rewrite (bind_ok _ _ _ _ _ (on_replica_run sh w c _ rc rc1 _ Hc Hrun)).
  set (sh1 := with_replicas _ sh).
  assert (Hc1 : sh_replicas sh1 !! c = Some rc1)
    by (apply list_lookup_insert_eq; by eapply lookup_lt_Some).
  assert (Hidc : nul_free (r_id rc)) by (rewrite (inv_ids G sh Hinv c rc Hc); apply replica_name_nul_free).
  cbv zeta. simpl e_index. rewrite Z.add_simpl_r.
  rewrite (bind_ok _ _ _ _ _ (on_replica_read sh1 w c _ rc1 _ Hc1 (term_at_prev G _ _ rc1 Hat1))).
  unfold pointers. rewrite bind_gets. cbn [fst]. unfold replica_count.
  destruct (replication_loop G (r_id rc) w c rc1 e) with (sh := sh1)
    as (rs2 & acked & Hloop & Hacked & Hpw); try done; [apply Hinv|apply Hat1| |].
  { intros i r Hi Hne. subst sh1. simpl in Hi. rewrite list_lookup_insert_ne in Hi by done. split.
    - rewrite (inv_ids G sh Hinv i r Hi), (inv_ids G sh Hinv c rc Hc).
      intros E%replica_name_inj. congruence.
    - split; [by apply (lo_term _ _ _ Hlo i)|]. by apply (inv_rep G sh Hinv i). }
  rewrite (bind_ok _ _ _ _ _ Hloop). exists rs2. split.
  - rewrite Hacked. simpl. rewrite length_insert. f_equal.
    assert (Heq : online_pointers sh1 = online_pointers sh).
    { apply online_pointers_flags. subst sh1 rc1. simpl. unfold online_flags.
      rewrite list_fmap_insert. apply list_insert_id. by rewrite list_lookup_fmap, Hc. }
    f_equal. unfold is_follower. by rewrite Heq.
  - eapply replicated_pointwise; try done; try apply Hlo; try apply Hrc.
    unfold persisted. simpl. rewrite Hm. apply Hrc.
Qed.

(** The log after a command at term [t]. *)
Definition log_after (ok : bool) (G : list LogEntry) (t : Z) (command key value : string)
    : list LogEntry :=
  if ok then G ++ [clean_entry (new_entry G t command key value)] else G.

Lemma lead_run G (sh : SH) w c rc command key value :
  inv G sh -> Z.of_nat (length G) < uint64_mod -> sh_replicas sh !! c = Some rc ->
  leader_ok G (sh_replicas sh) rc -> rep_at G (length G) rc -> valid_command command -> fits_int value ->
  let H := log_after (has_quorum sh) G (r_term rc) command key value in
  exists rs',
    lead (sh_id sh) c command key value (sh, w) =
      ((with_replicas rs' sh, w),
       Ok (if has_quorum sh then accepted_result (sh_id sh) (r_id rc) command
           else rejected_result (sh_id sh) (r_id rc))) /\
    pointwise (settled_rel H (length H) c (r_term rc)) (sh_replicas sh) rs'.
Proof.
  intros Hinv Hn Hc Hlo Hrc Hv Hf H. unfold lead.
  rewrite (bind_ok _ _ _ _ _ (field_run sh w c r_id rc Hc)). rewrite bind_gets. cbn [fst].
  unfold replica_count. set (e := new_entry G (r_term rc) command key value) in *.
  edestruct (lead_loop_run G sh w c rc command key value) as (rs2 & Hrun & Hpw); [done..|].
  rewrite Hrun. clear Hrun. fold e in Hpw |- *.
  pose proof (followers_count c sh) as Hcount.
  rewrite Hcount by (apply elem_of_online; exists rc; split; [done|apply Hlo]). clear Hcount.
  unfold has_quorum in *. subst H. destruct (quorum _ <=? _)%nat eqn:Hq; simpl.
  - apply Nat.leb_le in Hq. rewrite (proj2 (Nat.ltb_ge _ _)) by done.
    replace (Z.of_nat (length G) + 1) with (Z.of_nat (length (G ++ [clean_entry e])))
      by (rewrite length_app; simpl; lia).
    eapply settle_all; [exact Hpw|done|apply Hlo|done|..].
    + intros r Ha _ Hvo Ho. by apply commit_moved.
    + intros sh1 i r r1 _ Hi Hd1 Ha Hp Hvo Ho Ht Hro Ht1 Hid1.
      rewrite (bind_ok _ _ _ _ _ (field_run sh1 w c r_term r1 Hd1)).
      rewrite (bind_ok _ _ _ _ _ (field_run sh1 w c r_id r1 Hd1)). simpl.
      destruct (notify_moved (G ++ [clean_entry e]) (length G) (r_id r1) r) as (r' & Hrun & Hmv);
        try done.
      { rewrite Hid1, (inv_ids G sh Hinv c rc Hc). apply replica_name_nul_free. }
      rewrite last_term_snoc, Ht in Hrun. rewrite Ht1.
      change (e_term (clean_entry e)) with (r_term rc) in Hrun.
      rewrite (bind_ok _ _ _ _ _ (on_replica_run sh1 w i _ r r' _ Hi Hrun)). by exists r'.
  - apply Nat.leb_gt in Hq. rewrite (proj2 (Nat.ltb_lt _ _)) by done.
    eapply settle_all; [exact Hpw|done|apply Hlo|done|..].
    + intros r Ha Hp Hvo _. by eapply discard_moved.
    + intros sh1 i r r1 _ Hi Hd1 Ha Hp Hvo Ho _ _ _ _.
      destruct (discard_moved G _ r Ha Hp Hvo) as (r' & Hrun & Hmv).
      exists r'. split; [|done]. by apply (on_replica_run sh1 w i _ r r').
Qed.

(** ** [replicate_command_locked] *)

(** No term of the shard exceeds [T]. *)
Definition terms_le (T : Z) (sh : SH) : Prop :=
  forall i r, sh_replicas sh !! i = Some r -> r_term r <= T.

(** The highest term of the shard. *)
Definition max_term (sh : SH) : Z := next_term sh - 1.

Lemma max_term_le sh : terms_le (max_term sh) sh.
Proof. intros i r Hi. pose proof (proj2 (next_term_spec sh) i r Hi). unfold max_term. lia. Qed.

Lemma max_term_least T sh : 0 <= T -> terms_le T sh -> max_term sh <= T.
Proof.
  intros H0 HT. unfold max_term, next_term.
  assert (E : forall (l : list Rep) z, z <= T + 1 -> (forall i r, l !! i = Some r -> r_term r <= T) ->
    foldl (fun t r => Z.max t (r_term r + 1)) z l <= T + 1).
  { induction l as [|r l IH]; intros z Hz Hl; [done|]. simpl. apply IH.
    - pose proof (Hl 0%nat r eq_refl). lia.
    - intros i x Hx. by apply (Hl (S i)). }
  specialize (E (sh_replicas sh) 1 ltac:(lia) HT). lia.
Qed.

Lemma max_term_nonneg sh : 0 <= max_term sh.
Proof. pose proof (proj1 (next_term_spec sh)). unfold max_term. lia. Qed.

(** Terms never go back, and a leader that was not there before has a term
    above every term seen before: two leaders never share a term. *)
Record progress (sh sh' : SH) : Prop := {
  pr_mono : max_term sh <= max_term sh';
  pr_succ : max_term sh' <= max_term sh + 1;
  pr_leader : max_term sh' = max_term sh ->
    sh_leader_id sh' = sh_leader_id sh \/ sh_leader_id sh' = "";
}.

Lemma progress_same sh sh' :
  max_term sh' = max_term sh -> sh_leader_id sh' = sh_leader_id sh \/ sh_leader_id sh' = "" ->
  progress sh sh'.
Proof. intros E Hl. split; [lia|lia|done]. Qed.

Lemma terms_eq_max sh sh' T i r i' r' :
  sh_replicas sh !! i = Some r -> r_term r = T -> terms_le T sh ->
  sh_replicas sh' !! i' = Some r' -> r_term r' = T -> terms_le T sh' -> 0 <= T ->
  max_term sh' = max_term sh.
Proof.
  intros Hi Ht HT Hi' Ht' HT' H0.
  pose proof (max_term_least T sh H0 HT). pose proof (max_term_least T sh' H0 HT').
  pose proof (max_term_le sh i r Hi). pose proof (max_term_le sh' i' r' Hi'). lia.
Qed.

Lemma elected_max_term G c (sh : SH) rc rs' :
  sh_replicas sh !! c = Some rc -> r_online rc = true ->
  pointwise (elected_rel G c (next_term sh)) (sh_replicas sh) rs' ->
  forall id, max_term {| sh_id := sh_id sh; sh_replicas := rs'; sh_leader_id := id |} =
             max_term sh + 1.
Proof.
  intros Hc Ho Hpw id. set (sx := {| sh_id := _ |}).
  assert (Hle : terms_le (max_term sh + 1) sx).
  { intros i r' (r & Hi & He)%(pointwise_back _ _ _ _ _ Hpw). unfold max_term.
    destruct (r_online r) eqn:E.
    - destruct (el_up _ _ _ _ _ _ He E) as (_ & -> & _). lia.
    - rewrite (el_down _ _ _ _ _ _ He E). pose proof (max_term_le sh i r Hi). unfold max_term in *.
      simpl. lia. }
  destruct (proj2 Hpw c rc Hc) as (rc' & Hc' & He).
  destruct (el_up _ _ _ _ _ _ He Ho) as (_ & Ht & _).
  pose proof (max_term_le sx c rc' Hc'). pose proof (max_term_nonneg sh).
  pose proof (max_term_least (max_term sh + 1) sx ltac:(lia) Hle). unfold max_term in *. lia.
Qed.

Lemma ensured_progress G sh w sh' w' b :
  ensured G sh w sh' w' b -> progress sh sh'.
Proof.
  intros [c Hl|Ha|c rc rs' Hl Ha Hc Ho Hpw].
  - apply progress_same; auto.
  - apply progress_same; auto.
  - pose proof (elected_max_term G c sh rc rs' Hc Ho Hpw (r_id rc)).
    split; [lia|lia|intros; lia].
Qed.

Lemma settled_progress H n G sh c rc rs' :
  inv G sh -> sh_replicas sh !! c = Some rc -> leader_ok G (sh_replicas sh) rc ->
  pointwise (settled_rel H n c (r_term rc)) (sh_replicas sh) rs' ->
  max_term (with_replicas rs' sh) = max_term sh.
Proof.
  intros Hinv Hc Hlo Hpw. destruct (proj2 Hpw c rc Hc) as (rc' & Hc' & Hs).
  destruct (se_up _ _ _ _ _ _ _ Hs (lo_online _ _ _ Hlo)) as (_ & _ & _ & Ht & _).
  eapply (terms_eq_max _ _ (r_term rc) c rc c rc'); try done.
  - intros i r Hi. by apply (lo_term _ _ _ Hlo i).
  - intros i r' (r & Hi & Hsi)%(pointwise_back _ _ _ _ _ Hpw). destruct (r_online r) eqn:E.
    + destruct (se_up _ _ _ _ _ _ _ Hsi E) as (_ & _ & _ & -> & _). done.
    + rewrite (se_down _ _ _ _ _ _ _ Hsi E). by apply (lo_term _ _ _ Hlo i).
  - destruct (inv_rep G sh Hinv c rc Hc) as [m Hm]. apply Hm.
Qed.

Lemma has_quorum_flags sh sh' :
  online_flags (sh_replicas sh') = online_flags (sh_replicas sh) -> has_quorum sh' = has_quorum sh.
Proof.
  intros E. unfold has_quorum. rewrite (online_pointers_flags _ _ E).
  apply (f_equal length) in E. unfold online_flags in E. rewrite !length_fmap in E. by rewrite E.
Qed.

Definition unavailable_result (sid : Z) (message : string) : OperationResult :=
  with_status 503 message (shard_result sid "").

(** What a command does: the shard it leaves, its answer and the committed log. *)
Inductive commanded (G : list LogEntry) (sh : SH) (w : World) (command key value : string)
    : SH -> OperationResult -> list LogEntry -> Prop :=
  | commanded_accepted sh1 w1 sh' t :
      ensured G sh w sh1 w1 true -> has_quorum sh = true -> last_term G <= t ->
      sh_leader_id sh' = sh_leader_id sh1 ->
      commanded G sh w command key value sh'
        (accepted_result (sh_id sh) (sh_leader_id sh') command)
        (log_after true G t command key value)
  | commanded_rejected sh1 w1 sh' :
      ensured G sh w sh1 w1 true -> has_quorum sh = false ->
      sh_leader_id sh' = sh_leader_id sh1 ->
      commanded G sh w command key value sh' (rejected_result (sh_id sh) (sh_leader_id sh')) G
  | commanded_unavailable sh1 w1 :
      ensured G sh w sh1 w1 false ->
      commanded G sh w command key value sh1
        (unavailable_result (sh_id sh) "no quorum available") G.

(** The fields of the shard that no operation changes. *)
Definition same_group (sh sh' : SH) : Prop :=
  sh_id sh' = sh_id sh /\ online_flags (sh_replicas sh') = online_flags (sh_replicas sh).

Lemma available_quorum sh : available sh = false -> has_quorum sh = false.
Proof. unfold available, has_quorum. by destruct (current_leader sh). Qed.

Lemma progress_trans_same sh sh1 sh2 :
  progress sh sh1 -> max_term sh2 = max_term sh1 -> sh_leader_id sh2 = sh_leader_id sh1 ->
  progress sh sh2.
Proof. intros [] E1 E2. split; rewrite ?E1, ?E2; auto. Qed.

Lemma replicate_run G (sh : SH) w command key value :
  inv G sh -> Z.of_nat (length G) < uint64_mod -> valid_command command -> fits_int value ->
  exists sh' w' res G',
    replicate_command_locked command key value (sh, w) = ((sh', w'), Ok res) /\
    commanded G sh w command key value sh' res G' /\
    inv G' sh' /\ same_group sh sh' /\ progress sh sh'.
Proof.
  intros Hinv Hn Hv Hf. unfold replicate_command_locked. rewrite bind_gets. cbn [fst].
  destruct (ensure_run G sh w Hinv Hn) as (sh1 & w1 & b & Hrun & Hens).
  pose proof (ensured_progress _ _ _ _ _ _ Hens) as Hpr.
  destruct (ensured_inv _ _ _ _ _ _ Hinv Hens) as (Hinv1 & Hid1 & Hon1 & Hb & Hlead).
  rewrite (bind_ok _ _ _ _ _ Hrun). destruct b; simpl.
  - destruct (Hlead eq_refl) as [c Hc]. unfold current_leader_locked. rewrite bind_gets.
    cbn [fst]. rewrite Hc.
    match goal with |- context [?m (sh1, w1)] =>
      change (m (sh1, w1)) with (lead (sh_id sh) c command key value (sh1, w1)) end.
    destruct (inv_current_leader G sh1 c Hinv1 Hc) as (rc & Hrc & Hidc & Hlo & Hat).
    destruct (lead_run G sh1 w1 c rc command key value) as (rs' & Hrun' & Hpw); [done..|].
    rewrite Hid1 in Hrun'. rewrite Hrun'.
    rewrite (has_quorum_flags sh sh1 Hon1) in Hrun', Hpw |- *. rewrite Hidc.
    assert (Hlt : last_term G <= r_term rc).
    { pose proof (ra_term _ _ _ Hat) as Hx. by rewrite take_ge in Hx. }
    eexists _, _, _, (log_after (has_quorum sh) G (r_term rc) command key value).
    split; [done|]. split_and!.
    + destruct (has_quorum sh) eqn:Hq.
      * by apply (commanded_accepted G sh w command key value sh1 w1 (with_replicas rs' sh1)).
      * by apply (commanded_rejected G sh w command key value sh1 w1 (with_replicas rs' sh1)).
    + unfold log_after in *. destruct (has_quorum sh) eqn:Hq.
      * set (e := clean_entry _) in *.
        assert (Hwf : wf_log (G ++ [e])).
        { apply wf_log_snoc; [apply Hinv|done|apply clean_entry_idemp|by apply valid_entry_clean]. }
        apply (settled_inv G [e] sh1 c rc); try done.
        -- apply terms_mono_snoc; [apply Hinv|done].
        -- by rewrite last_term_snoc.
        -- intros _. apply Nat.leb_le. by rewrite <- (has_quorum_flags sh sh1 Hon1) in Hq.
      * rewrite <- (app_nil_r G) in Hpw |- *.
        apply (settled_inv G [] sh1 c rc); try done; rewrite app_nil_r; first [done|apply Hinv1].
    + split; [done|]. rewrite <- Hon1. eapply pointwise_online; [exact Hpw|].
      intros i r r' _ Hs. apply Hs.
    + eapply progress_trans_same; [exact Hpr|by eapply settled_progress|done].
  - eexists _, _, _, G. split; [done|]. split_and!; try done.
    by apply (commanded_unavailable _ _ _ _ _ _ sh1 w1).
Qed.
