(* ===== verification/ShardOps.v ===== *)
(** * Reads, failures, recoveries and elections on a shard

    The remaining operations of a shard that satisfies the invariant: none of
    them changes the committed log. *)

From S2P Require Import Prelude CppStd Common Sqlite Store LogFacts Raft RaftProofs Metrics Shard ShardFacts ShardInv Election Replication.

#[local] Open Scope Z_scope.

(** ** Changing one replica *)

Lemma one_back i r r' (rs : list Rep) j rj :
  rs !! i = Some r -> <[i := r']> rs !! j = Some rj ->
  (j = i /\ rj = r') \/ (j <> i /\ rs !! j = Some rj).
Proof.
  intros Hi Hj. destruct (decide (j = i)) as [->|Hne].
  - rewrite list_lookup_insert_eq in Hj by (by eapply lookup_lt_Some). left. by simplify_eq.
  - rewrite list_lookup_insert_ne in Hj by done. by right.
Qed.

Section one.
Context (G : list LogEntry) (sh : SH) (i : nat) (r r' : Rep).
Context (Hinv : inv G sh) (Hi : sh_replicas sh !! i = Some r).
Context (Hid : r_id r' = r_id r) (Hrep : exists n, rep_at G n r') (Hfull : full G r -> full G r').
Context (Hrole : r_role r' <> Leader).
Let rs' : list Rep := <[i := r']> (sh_replicas sh).

Lemma one_majority : (quorum (length rs') <= length (filter (full G) rs'))%nat.
Proof.
  unfold rs'. rewrite length_insert. etrans; [apply Hinv|].
  eapply pointwise_count; [by apply (pointwise_insert i r)|].
  intros j x x' Hj [Heq Hne] Hf. destruct (decide (j = i)) as [E|E].
  - destruct (Heq E) as [-> ->]. auto.
  - by rewrite (Hne E).
Qed.

(** A replica that is not the leader. *)
Lemma inv_other :
  r_id r <> sh_leader_id sh ->
  (forall c rc, current_leader sh = Some c -> sh_replicas sh !! c = Some rc -> r_term r' <= r_term rc) ->
  inv G (with_replicas rs' sh).
Proof.
  intros Hne Hterm. split; simpl.
  - intros j rj [[-> ->]|[_ Hj]]%(one_back i r r' _ _ _ Hi); [rewrite Hid|]; by apply (inv_ids G sh).
  - apply Hinv.
  - apply Hinv.
  - intros j rj [[-> ->]|[_ Hj]]%(one_back i r r' _ _ _ Hi); [done|]. by apply (inv_rep G sh Hinv j).
  - apply one_majority.
  - destruct (inv_leader G sh Hinv) as [?|(c & rc & Hc & Hidc & Hlo)]; [by left|right].
    exists c, rc. assert (Hci : c <> i) by congruence.
    split; [unfold rs'; by rewrite list_lookup_insert_ne|]. split; [done|].
    destruct Hlo as [Ho Hr Hf Ht]. split; try done.
    intros j rj [[-> ->]|[_ Hj]]%(one_back i r r' _ _ _ Hi); [|by apply (Ht j)].
    apply (Hterm c); [|done]. by apply (current_leader_intro G sh c rc).
  - intros j rj [[-> ->]|[_ Hj]]%(one_back i r r' _ _ _ Hi) Hl; [done|]. by apply (inv_role G sh Hinv j).
Qed.

(** The leader steps down. *)
Lemma inv_demote :
  r_id r = sh_leader_id sh -> inv G (with_leader_id "" (with_replicas rs' sh)).
Proof.
  intros Heq. split; simpl.
  - intros j rj [[-> ->]|[_ Hj]]%(one_back i r r' _ _ _ Hi); [rewrite Hid|]; by apply (inv_ids G sh).
  - apply Hinv.
  - apply Hinv.
  - intros j rj [[-> ->]|[_ Hj]]%(one_back i r r' _ _ _ Hi); [done|]. by apply (inv_rep G sh Hinv j).
  - apply one_majority.
  - by left.
  - intros j rj [[-> ->]|[Hji Hj]]%(one_back i r r' _ _ _ Hi) Hl; [done|]. exfalso.
    pose proof (inv_role G sh Hinv j rj Hj Hl) as E. rewrite <- Heq in E.
    rewrite (inv_ids G sh Hinv j rj Hj), (inv_ids G sh Hinv i r Hi) in E.
    by apply replica_name_inj in E.
Qed.
End one.

(** The terms decide [max_term]. *)
Lemma max_term_terms (sh sh' : SH) :
  r_term <$> sh_replicas sh' = r_term <$> sh_replicas sh -> max_term sh' = max_term sh.
Proof.
  unfold max_term, next_term. generalize (sh_replicas sh'), (sh_replicas sh). intros l l' Hl. f_equal.
  assert (E : forall z, foldl (fun t r => Z.max t (r_term r + 1)) z l =
                        foldl (fun t r => Z.max t (r_term r + 1)) z l'); [|apply E].
  revert l' Hl. induction l as [|x l IH]; intros [|x' l'] Hl z; try done.
  injection Hl as Hx Hl. simpl. rewrite Hx. by apply IH.
Qed.

Lemma fmap_insert_same {A} (f : Rep -> A) i r r' (rs : list Rep) :
  rs !! i = Some r -> f r' = f r -> f <$> <[i := r']> rs = f <$> rs.
Proof.
  intros Hi E. rewrite list_fmap_insert, E. apply list_insert_id. by rewrite list_lookup_fmap, Hi.
Qed.

(** ** Finding a replica by name *)

(** The position a name stands for, among [n] replicas. *)
Definition position (sid : Z) (n : nat) (replica_id : string) : option nat :=
  fst <$> list_find (fun i => replica_name sid i = replica_id) (seq 0 n).

Lemma find_replica_position G sh replica_id :
  inv G sh ->
  find_replica replica_id sh = position (sh_id sh) (length (sh_replicas sh)) replica_id.
Proof.
  intros Hinv. unfold find_replica, position.
  apply (list_find_rel _ _ (fun r i => r_id r = replica_name (sh_id sh) i)).
  - intros r i ->. done.
  - apply Forall2_same_length_lookup. rewrite length_seq. split; [done|].
    intros i r j Hi [-> Hlt]%lookup_seq. by apply (inv_ids G sh).
Qed.

Lemma position_Some sid n id i :
  position sid n id = Some i -> (i < n)%nat /\ id = replica_name sid i.
Proof.
  unfold position. intros ([j k] & Hf & E)%fmap_Some. simpl in E. subst j.
  apply list_find_Some in Hf as ([E Hlt]%lookup_seq & <- & _). simpl in *. by subst k.
Qed.

(** ** Reads *)

Definition found_result (sid : Z) (lid v : string) : OperationResult :=
  {| res_ok := true; res_status := 200; res_message := "ok"; res_value := v;
     res_shard := sid; res_leader := lid |}.
Definition missing_result (sid : Z) (lid : string) : OperationResult :=
  with_status 404 "key not found" (shard_result sid lid).

(** The answer of a read when the map is [m] and the leader is [lid]. *)
Definition read_result (sid : Z) (lid : string) (m : gmap string string) (key : string)
    : OperationResult :=
  match m !! c_str key with
  | Some v => found_result sid lid v
  | None => missing_result sid lid
  end.

Lemma get_run G (sh : SH) w key :
  inv G sh -> Z.of_nat (length G) < uint64_mod ->
  exists sh' w' b, ensured G sh w sh' w' b /\
    get key (sh, w) = ((sh', w'),
      Ok (if b then read_result (sh_id sh) (sh_leader_id sh') (replay G) key
          else unavailable_result (sh_id sh) "no quorum available for leader election")).
Proof.
  intros Hinv Hn. destruct (ensure_run G sh w Hinv Hn) as (sh1 & w1 & b & Hrun & Hens).
  destruct (ensured_inv _ _ _ _ _ _ Hinv Hens) as (Hinv1 & Hid1 & Hon1 & Hb & Hlead).
  exists sh1, w1, b. split; [done|]. unfold get. rewrite bind_gets. cbn [fst].
  rewrite (bind_ok _ _ _ _ _ Hrun). destruct b; [|done]. simpl.
  destruct (Hlead eq_refl) as [c Hc]. unfold current_leader_locked. rewrite bind_gets.
  cbn [fst]. rewrite Hc.
  destruct (inv_current_leader G sh1 c Hinv1 Hc) as (rc & Hrc & Hidc & Hlo & Hat).
  rewrite (bind_ok _ _ _ _ _ (field_run sh1 w1 c r_id rc Hrc)). simpl. rewrite Hidc.
  assert (Hget : Raft.get key rc = (rc, Ok (kv (r_store rc) !! c_str key))).
  { unfold Raft.get. run. simpl. rewrite (lo_online _ _ _ Hlo). apply on_get. }
  rewrite (bind_ok _ _ _ _ _ (on_replica_read sh1 w1 c _ rc _ Hrc Hget)).
  apply rep_at_all in Hat. rewrite (at_kv _ _ _ Hat), take_ge by done.
  unfold read_result. by destruct (replay G !! c_str key).
Qed.

(** ** Failures and recoveries *)

(** The shard once the replica at [i] has been taken offline. *)
Definition failed (i : nat) (r : Rep) (sh : SH) : SH :=
  let sh' := with_replicas (<[i := with_role Follower (with_online false r)]> (sh_replicas sh)) sh in
  if decide (r_id r = sh_leader_id sh) then with_leader_id "" sh' else sh'.

Lemma failed_inv G sh i r :
  inv G sh -> sh_replicas sh !! i = Some r -> inv G (failed i r sh).
Proof.
  intros Hinv Hi. destruct (inv_rep G sh Hinv i r Hi) as [n Hn].
  unfold failed. case_decide as E.
  - eapply inv_demote; try done. exists n. by apply rep_at_role, rep_at_online.
  - eapply inv_other; try done; [exists n; by apply rep_at_role, rep_at_online|].
    intros c rc Hc Hrc. simpl.
    destruct (inv_current_leader G sh c Hinv Hc) as (rc' & Hrc' & _ & Hlo & _).
    assert (rc' = rc) as -> by congruence. by apply (lo_term _ _ _ Hlo i).
Qed.

Lemma failed_max_term sh i r : sh_replicas sh !! i = Some r -> max_term (failed i r sh) = max_term sh.
Proof.
  intros Hi. apply max_term_terms. unfold failed. case_decide; simpl; by apply (fmap_insert_same _ i r).
Qed.

Lemma failed_progress sh i r : sh_replicas sh !! i = Some r -> progress sh (failed i r sh).
Proof.
  intros Hi. apply progress_same; [by apply failed_max_term|].
  unfold failed. case_decide; auto.
Qed.

Lemma fail_run G (sh : SH) w replica_id :
  inv G sh ->
  fail_replica replica_id (sh, w) =
  match position (sh_id sh) (length (sh_replicas sh)) replica_id with
  | None => ((sh, w), Ok false)
  | Some i => match sh_replicas sh !! i with
      | None => ((sh, w), Ok false)
      | Some r => ((failed i r sh, {| w_metrics := w_metrics w; w_log := w_log w ++
          [{| ev_level := "WARN"; ev_event := "replica_failed"; ev_details := replica_id |}] |}),
          Ok true)
      end
  end.
Proof.
  intros Hinv. unfold fail_replica. rewrite bind_gets. cbn [fst].
  rewrite (find_replica_position G) by done.
  destruct (position _ _ replica_id) as [i|] eqn:E; [|done].
  apply position_Some in E as [Hlt ->].
  destruct (lookup_lt_is_Some_2 _ _ Hlt) as [r Hi]. rewrite Hi.
  rewrite (bind_ok _ _ _ _ _ (on_replica_run sh w i (set_online false) r _ _ Hi eq_refl)).
  rewrite bind_gets. cbn [fst]. simpl sh_leader_id.
  rewrite <- (inv_ids G sh Hinv i r Hi). unfold failed.
  case_decide as E; [rewrite bool_decide_true|rewrite bool_decide_false]; done.
Qed.

Lemma recovered_inv G sh i r :
  inv G sh -> sh_replicas sh !! i = Some r ->
  inv G (with_replicas (<[i := with_online true r]> (sh_replicas sh)) sh).
Proof.
  intros Hinv Hi. destruct (r_online r) eqn:Ho.
  - replace (with_online true r) with r by (destruct r; simpl in *; by subst).
    by rewrite list_insert_id, with_replicas_id.
  - destruct (inv_rep G sh Hinv i r Hi) as [n Hn].
    assert (Hnl : r_id r <> sh_leader_id sh).
    { intros E. destruct (inv_leader G sh Hinv) as [E'|(c & rc & Hc & Hidc & Hlo)].
      - rewrite E', (inv_ids G sh Hinv i r Hi) in E. by apply replica_name_nonempty in E.
      - rewrite <- Hidc, (inv_ids G sh Hinv i r Hi), (inv_ids G sh Hinv c rc Hc) in E.
        apply replica_name_inj in E as ->. destruct Hlo. congruence. }
    eapply inv_other; try done.
    + exists n. by apply rep_at_online.
    + simpl. intros Hr. by apply Hnl, (inv_role G sh Hinv i).
    + intros c rc Hc Hrc. simpl.
      destruct (inv_current_leader G sh c Hinv Hc) as (rc' & Hrc' & _ & Hlo & _).
      assert (rc' = rc) as -> by congruence. by apply (lo_term _ _ _ Hlo i).
Qed.

(** Synchronising a follower with the leader keeps the invariant. *)
Lemma sync_inv G sh w i ri l rl :
  inv G sh -> Z.of_nat (length G) < uint64_mod ->
  sh_replicas sh !! i = Some ri -> r_online ri = true -> i <> l ->
  current_leader sh = Some l -> sh_replicas sh !! l = Some rl ->
  exists rs', sync_follower_locked i l (sh, w) = ((with_replicas rs' sh, w), Ok tt) /\
    inv G (with_replicas rs' sh) /\ online_flags rs' = online_flags (sh_replicas sh) /\
    max_term (with_replicas rs' sh) = max_term sh.
Proof.
  intros Hinv Hn Hi Ho Hne Hcl Hl.
  destruct (inv_current_leader G sh l Hinv Hcl) as (rl' & Hl' & Hidl & Hlo & Hat).
  assert (rl' = rl) as -> by congruence.
  destruct (sync_run G G sh w i l ri rl) as (r' & Hrun & Hsy); try done;
    [apply Hinv|by apply rep_at_all|by rewrite take_ge|].
  pose proof (sy_vol _ _ _ _ Hsy) as Hv. apply vol_fields in Hv as (E1 & E2 & E3 & E4 & _). simpl in *.
  assert (Hlt : r_term ri <= r_term rl) by (by apply (lo_term _ _ _ Hlo i)).
  rewrite Z.max_r in E4 by done.
  destruct (inv_rep G sh Hinv i ri Hi) as [n Hri].
  eexists. split; [exact Hrun|]. split_and!.
  - eapply inv_other; try done.
    + exists (length G). eapply synced_rep_at; [done..|].
      pose proof (ra_term _ _ _ Hat) as Hx. by rewrite take_ge in Hx.
    + intros _. apply (at_commit _ _ _ (sy_log _ _ _ _ Hsy)).
    + rewrite E2. done.
    + rewrite <- Hidl, (inv_ids G sh Hinv i ri Hi), (inv_ids G sh Hinv l rl Hl).
      by intros ?%replica_name_inj.
    + intros c rc Hc Hrc. assert (c = l) as -> by congruence. assert (rc = rl) as -> by congruence. lia.
  - apply (fmap_insert_same r_online i ri); [done|congruence].
  - apply (terms_eq_max _ _ (r_term rl) l rl l rl); try done.
    + intros j rj Hj. by apply (lo_term _ _ _ Hlo j).
    + simpl. by rewrite list_lookup_insert_ne.
    + intros j rj [[-> ->]|[_ Hj]]%(one_back _ _ _ _ _ _ Hi); [lia|].
      by apply (lo_term _ _ _ Hlo j).
    + apply Hat.
Qed.

(** The shard right after the replica at [i] is put back online. *)
Definition rejoined (i : nat) (r : Rep) (sh : SH) : SH :=
  with_replicas (<[i := with_online true r]> (sh_replicas sh)) sh.

Lemma recover_run G (sh : SH) w i r :
  inv G sh -> Z.of_nat (length G) < uint64_mod -> sh_replicas sh !! i = Some r ->
  exists sh1 w1 b sh' w',
    ensured G (rejoined i r sh) w sh1 w1 b /\
    recover_replica (replica_name (sh_id sh) i) (sh, w) = ((sh', w'), Ok true) /\
    inv G sh' /\ same_group sh1 sh' /\ sh_leader_id sh' = sh_leader_id sh1 /\
    max_term sh' = max_term sh1.
Proof.
  intros Hinv Hn Hi. pose proof (recovered_inv G sh i r Hinv Hi) as Hinv0. fold (rejoined i r sh) in Hinv0.
  destruct (ensure_run G (rejoined i r sh) w Hinv0 Hn) as (sh1 & w1 & b & Hrun & Hens).
  destruct (ensured_inv _ _ _ _ _ _ Hinv0 Hens) as (Hinv1 & Hid1 & Hon1 & Hb & Hlead).
  assert (Hpos : position (sh_id sh) (length (sh_replicas sh)) (replica_name (sh_id sh) i) = Some i).
  { unfold position. destruct (list_find _ _) as [[j x]|] eqn:E.
    - apply list_find_Some in E as ([-> Hlt]%lookup_seq & E & _). simpl in *.
      by apply replica_name_inj in E as ->.
    - apply list_find_None in E. rewrite Forall_forall in E. exfalso.
      apply (E i); [|done]. apply elem_of_seq. apply lookup_lt_Some in Hi. lia. }
  unfold recover_replica. rewrite bind_gets. cbn [fst].
  rewrite (find_replica_position G), Hpos by done.
  rewrite (bind_ok _ _ _ _ _ (on_replica_run sh w i (set_online true) r _ _ Hi eq_refl)).
  change (with_replicas _ sh) with (rejoined i r sh). rewrite (bind_ok _ _ _ _ _ Hrun).
  exists sh1, w1, b. destruct b; [|by eexists _, _].
  destruct (Hlead eq_refl) as [l Hl].
  destruct (inv_current_leader G sh1 l Hinv1 Hl) as (rl & Hrl & _ & _ & _).
  assert (Hi1 : exists r1, sh_replicas sh1 !! i = Some r1 /\ r_online r1 = true).
  { apply (f_equal (fun fl => fl !! i)) in Hon1. unfold online_flags in Hon1.
    rewrite !list_lookup_fmap in Hon1. simpl in Hon1.
    rewrite list_lookup_insert_eq in Hon1 by (by eapply lookup_lt_Some).
    destruct (sh_replicas sh1 !! i) as [r1|]; [|done]. exists r1. by injection Hon1. }
  destruct Hi1 as (r1 & Hi1 & Ho1).
  assert (Hid : forall r2, sh_replicas sh1 !! i = Some r2 -> i = l <-> r_id rl = r_id r2).
  { intros r2 Hi2. rewrite (inv_ids G sh1 Hinv1 i r2 Hi2), (inv_ids G sh1 Hinv1 l rl Hrl).
    split; [by intros ->|]. by intros ->%replica_name_inj. }
  simpl when. unfold current_leader_locked. rewrite bind_assoc, bind_gets. cbn [fst]. rewrite Hl.
  rewrite bind_assoc, (bind_ok _ _ _ _ _ (field_run sh1 w1 l r_id rl Hrl)).
  rewrite bind_assoc, (bind_ok _ _ _ _ _ (field_run sh1 w1 i r_id r1 Hi1)). simpl r_id.
  destruct (decide (i = l)) as [->|Hne].
  - rewrite bool_decide_false by (rewrite <- (Hid r1) by done; tauto). by eexists _, _.
  - rewrite bool_decide_true by (by rewrite <- (Hid r1)).
    destruct (sync_inv G sh1 w1 i r1 l rl) as (rs' & Hrun' & Hinv' & Hon' & Hmt); [done..|].
    simpl when. rewrite (bind_ok _ _ _ _ _ Hrun').
    eexists (with_replicas rs' sh1), _. by split_and!.
Qed.

(** ** Status *)

(** The rendering of a replica's status. *)
Definition replica_status (r : Rep) : string :=
  match Raft.status_json r with (_, Ok s) => s | (_, Throw _) => "" end.

Lemma replica_status_run (r : Rep) : Raft.status_json r = (r, Ok (replica_status r)).
Proof. by destruct r. Qed.

Lemma status_run (sh : SH) w :
  status_json (sh, w) = ((sh, w), Ok
    ("{" +:+ q "shard" +:+ ":" +:+ to_string (sh_id sh)
     +:+ "," +:+ q "leader" +:+ ":" +:+ q (json_escape (sh_leader_id sh))
     +:+ "," +:+ q "replicas" +:+ ":[" +:+ join (replica_status <$> sh_replicas sh) +:+ "]}")).
Proof.
  unfold status_json, pointers. rewrite !bind_gets. cbn [fst]. unfold replica_count.
  assert (E : forall k n parts, (n + k = length (sh_replicas sh))%nat ->
    for_fold (seq n k) parts (fun parts i =>
      part ← on_replica i Raft.status_json; mret (parts ++ [part])) (sh, w) =
    ((sh, w), Ok (parts ++ (replica_status <$> drop n (sh_replicas sh))))).
  { induction k as [|k IH]; intros n parts Hk.
    - rewrite drop_ge by lia. simpl. by rewrite app_nil_r.
    - destruct (lookup_lt_is_Some_2 (sh_replicas sh) n) as [r Hr]; [lia|]. cbn [seq for_fold].
      rewrite bind_assoc, (bind_ok _ _ _ _ _ (on_replica_read sh w n _ r _ Hr (replica_status_run r))).
      rewrite (bind_ok _ _ (sh, w) (sh, w) (parts ++ [replica_status r])) by done.
      rewrite IH by lia. by rewrite (drop_S _ _ _ Hr), fmap_cons, <- app_assoc. }
  by rewrite (bind_ok _ _ _ _ _ (E _ 0%nat [] eq_refl)), drop_0.
Qed.
