(* ===== verification/Restart.v ===== *)
(** * Building a shard from its data directory

    [Shard_new] on a directory that is empty, or that a shard left behind: the
    replicas come back with what they had persisted, a leader is elected, and
    the committed log is the one the old shard had. *)

From S2P Require Import Prelude CppStd Common Sqlite Store LogFacts Raft RaftProofs Metrics Shard ShardFacts ShardInv Election Replication ShardOps.

#[local] Open Scope Z_scope.

(** The replica the constructor builds from the store of [r]. *)
Definition rebuilt (id : string) (sid : Z) (r : Rep) : Rep :=
  {| r_id := id; r_shard_id := sid; r_store := r_store r; r_role := Follower;
     r_online := true; r_term := r_term r; r_voted_for := r_voted_for r;
     r_commit := r_commit r; r_applied := r_applied r |}.

Lemma RaftReplica_run l n id sid (r : Rep) :
  at_log l n r -> persisted r -> in_int64 (r_term r) -> in_int64 (Z.of_nat n) ->
  RaftReplica id sid (r_store r) = Ok (rebuilt id sid r).
Proof.
  intros Hat Hper Ht Hn. unfold RaftReplica. simpl.
  pose proof (load_state_run l n (rebuilt id sid r)) as Hload. simpl in Hload.
  rewrite Hload; try done. destruct Hat. by split.
Qed.

(** What a file must contain for the replica to come back. *)
Record restorable (G : list LogEntry) (r : Rep) : Prop := {
  rs_rep : exists n, rep_at G n r;
  rs_term : in_int64 (r_term r);
}.

Lemma build_run G sid (disk : string -> Tables) (rs : list Rep) k :
  in_int64 (Z.of_nat (length G)) ->
  (forall i r, rs !! i = Some r ->
     restorable G r /\ disk (replica_name sid (k + i) +:+ ".db") = r_store r) ->
  build_replicas (S := Tables) sid disk (seq k (length rs)) =
  Ok (imap (fun i r => rebuilt (replica_name sid (k + i)) sid r) rs).
Proof.
  intros HG. revert k. induction rs as [|r rs IH]; intros k Hrs; [done|].
  cbn [length seq build_replicas imap].
  destruct (Hrs 0%nat r eq_refl) as [[[n Hn] Ht] Hd]. rewrite Nat.add_0_r in *. rewrite Hd.
  pose proof (ra_le _ _ _ Hn) as Hle.
  rewrite (RaftReplica_run (take n G) n); [|apply Hn|apply Hn|done|unfold in_int64, int64_min in *; lia].
  rewrite IH.
  - do 2 f_equal. apply imap_ext. intros i x _. simpl. by rewrite Nat.add_succ_r.
  - intros i x Hx. rewrite Nat.add_succ_l, <- Nat.add_succ_r. by apply (Hrs (S i)).
Qed.

(** The replicas a directory holds, rebuilt, satisfy the invariant. *)
Lemma rebuilt_inv G (sh : SH) :
  inv G sh ->
  inv G {| sh_id := sh_id sh;
           sh_replicas := imap (fun i r => rebuilt (replica_name (sh_id sh) i) (sh_id sh) r)
                            (sh_replicas sh);
           sh_leader_id := "" |}.
Proof.
  intros Hinv. split; simpl.
  - intros i r (x & Hx & ->)%list_lookup_imap_Some. done.
  - apply Hinv.
  - apply Hinv.
  - intros i r (x & Hx & ->)%list_lookup_imap_Some.
    destruct (inv_rep G sh Hinv i x Hx) as [n [Hle [] Hp Hv Ht H0]]. exists n. by split.
  - rewrite length_imap. etrans; [apply Hinv|].
    eapply (pointwise_count _ _ (fun i r r' => r' = rebuilt (replica_name (sh_id sh) i) (sh_id sh) r)).
    + split; [by rewrite length_imap|]. intros i r Hi. eexists. by rewrite list_lookup_imap, Hi.
    + intros i r r' _ ->. done.
  - by left.
  - intros i r (x & Hx & ->)%list_lookup_imap_Some. done.
Qed.

(** Every replica is online and the shard is not empty: there is a quorum. *)
Lemma all_online_quorum n : (1 <= n)%nat -> (quorum n <= n)%nat.
Proof. intros Hn. unfold quorum. pose proof (Nat.div_mod_eq n 2). lia. Qed.

Lemma all_online_count (sh : SH) :
  online_flags (sh_replicas sh) = replicate (length (sh_replicas sh)) true ->
  length (online_pointers sh) = length (sh_replicas sh).
Proof.
  intros Ho. rewrite online_count, filter_all; [done|].
  intros r Hr. apply list_elem_of_lookup in Hr as [i Hi].
  apply (f_equal (fun l => l !! i)) in Ho. unfold online_flags in Ho.
  rewrite list_lookup_fmap, Hi in Ho. simpl in Ho. symmetry in Ho.
  by apply lookup_replicate in Ho as [? _].
Qed.

(** [Shard_new] on the files of the replicas of [sh0]. *)
Lemma Shard_new_run G (sh0 : SH) (disk : string -> Tables) w :
  inv G sh0 -> in_int64 (Z.of_nat (length G)) -> (1 <= length (sh_replicas sh0))%nat ->
  (forall i r, sh_replicas sh0 !! i = Some r ->
     in_int64 (r_term r) /\ disk (replica_name (sh_id sh0) i +:+ ".db") = r_store r) ->
  exists sh w' c,
    Shard_new (sh_id sh0) (length (sh_replicas sh0)) disk w = (w', Ok sh) /\
    inv G sh /\ sh_id sh = sh_id sh0 /\
    online_flags (sh_replicas sh) = replicate (length (sh_replicas sh0)) true /\
    (c < length (sh_replicas sh0))%nat /\ sh_leader_id sh = replica_name (sh_id sh0) c /\
    max_term sh = max_term sh0 + 1.
Proof.
  intros Hinv HG Hlen Hdisk. unfold Shard_new. rewrite (proj2 (Nat.ltb_ge _ _)) by done.
  rewrite (build_run G) by (first [done|intros i r Hi; destruct (Hdisk i r Hi); split; [split|]; eauto using inv_rep]).
  pose proof (rebuilt_inv G sh0 Hinv) as Hinv1. set (sh1 := {| sh_id := _ |}) in *.
  assert (Hlen1 : length (sh_replicas sh1) = length (sh_replicas sh0)) by apply length_imap.
  assert (Hon1 : online_flags (sh_replicas sh1) = replicate (length (sh_replicas sh1)) true).
  { apply list_eq. intros i. unfold online_flags. rewrite list_lookup_fmap. subst sh1. simpl in *.
    rewrite list_lookup_imap. destruct (sh_replicas sh0 !! i) as [r|] eqn:E; simpl.
    - symmetry. apply lookup_replicate. split; [done|]. rewrite Hlen1. by eapply lookup_lt_Some.
    - symmetry. apply lookup_replicate_None. rewrite Hlen1. by apply lookup_ge_None. }
  assert (Hmt : max_term sh1 = max_term sh0).
  { apply max_term_terms, list_eq. intros i. rewrite !list_lookup_fmap. subst sh1. simpl.
    rewrite list_lookup_imap. by destruct (sh_replicas sh0 !! i). }
  destruct (ensure_run G sh1 w Hinv1) as (sh2 & w2 & b & Hrun & Hens).
  { unfold in_int64, int64_max, uint64_mod in *. lia. }
  destruct (ensured_inv _ _ _ _ _ _ Hinv1 Hens) as (Hinv2 & Hid2 & Hon2 & _ & _).
  unfold elect_leader. rewrite Hrun.
  destruct Hens as [c Hl|Ha|c rc rs' Hl Ha Hc Ho Hpw].
  - apply current_leader_Some in Hl as (r & Hi & Hid & _). exfalso.
    rewrite (inv_ids G sh1 Hinv1 c r Hi) in Hid. by apply replica_name_nonempty in Hid.
  - apply available_quorum in Ha. unfold has_quorum in Ha. apply Nat.leb_gt in Ha.
    rewrite all_online_count in Ha by done.
    pose proof (all_online_quorum (length (sh_replicas sh1))). lia.
  - eexists _, _, c. split; [done|]. split; [done|]. split; [done|]. split_and!.
    + by rewrite Hon2, Hon1, Hlen1.
    + rewrite <- Hlen1. by eapply lookup_lt_Some.
    + simpl. by rewrite (inv_ids G sh1 Hinv1 c rc Hc).
    + rewrite (elected_max_term G c sh1 rc rs' Hc Ho Hpw). by rewrite Hmt.
Qed.
