(* ===== verification/ShardSystem.v ===== *)
(** * A shard over time

    The history of a shard is a list of operations: client commands, replica
    failures and recoveries, elections, and restarts of the process on the
    files it left behind.  [run] executes a history and collects the answers.
    Histories on any two stores that hold the same tables give the same
    answers. *)

From S2P Require Import Prelude CppStd Common Sqlite Store Raft Metrics Shard.

#[local] Open Scope Z_scope.

Inductive Op :=
  | OpPut (key value : string)
  | OpErase (key : string)
  | OpGet (key : string)
  | OpFail (replica_id : string)
  | OpRecover (replica_id : string)
  | OpElect
  | OpRestart.

Inductive Answer :=
  | AResult (res : OperationResult)
  | ABool (b : bool)
  | ADone.

Section system.
Context {S : Type} `{Store S}.

(** The shard, what it shares with the process, and the data directory. *)
Record Sys := { sy_state : Shard S * World; sy_disk : string -> st_file }.

Definition on_shard {A} (m : M (Shard S * World) A) (f : A -> Answer) : M Sys Answer := fun s =>
  let '(st, a) := m (sy_state s) in
  ({| sy_state := st; sy_disk := sy_disk s |},
   match a with Ok x => Ok (f x) | Throw e => Throw e end).

Definition db_file (r : Replica S) : string := r_id r +:+ ".db".

(** The directory after the replicas have closed their databases. *)
Definition saved (disk : string -> st_file) (sh : Shard S) : string -> st_file := fun path =>
  match list_find (fun r => db_file r = path) (sh_replicas sh) with
  | Some (_, r) => st_close (r_store r)
  | None => disk path
  end.

(** A new process builds the shard again, with fresh metrics. *)
Definition restart : M Sys unit := fun s =>
  let sh := (sy_state s).1 in
  let disk := saved (sy_disk s) sh in
  let w := {| w_metrics := zero_metrics; w_log := w_log (sy_state s).2 |} in
  match Shard_new (sh_id sh) (replica_count sh) disk w with
  | (w', Ok sh') => ({| sy_state := (sh', w'); sy_disk := disk |}, Ok tt)
  | (w', Throw e) => ({| sy_state := (sh, w'); sy_disk := disk |}, Throw e)
  end.

Definition exec (op : Op) : M Sys Answer :=
  match op with
  | OpPut k v => on_shard (put k v) AResult
  | OpErase k => on_shard (erase k) AResult
  | OpGet k => on_shard (get k) AResult
  | OpFail id => on_shard (fail_replica id) ABool
  | OpRecover id => on_shard (recover_replica id) ABool
  | OpElect => on_shard elect_leader ABool
  | OpRestart => restart ;; mret ADone
  end.

(** The answers of a history; an exception ends an operation, not the
    history. *)
Fixpoint run_ops (ops : list Op) (s : Sys) : Sys * list (result Answer) :=
  match ops with
  | [] => (s, [])
  | op :: ops' =>
      let '(s', a) := exec op s in
      let '(s'', l) := run_ops ops' s' in (s'', a :: l)
  end.

(** A history from the construction of the shard on. *)
Definition boot (shard_id : Z) (count : nat) (disk : string -> st_file) : result Sys :=
  match Shard_new shard_id count disk {| w_metrics := zero_metrics; w_log := [] |} with
  | (w, Ok sh) => Ok {| sy_state := (sh, w); sy_disk := disk |}
  | (_, Throw e) => Throw e
  end.
End system.
Arguments Sys S {_}.

(** ** Histories on two stores *)

Section simulated.
Context {S : Type} `{StoreSpec S}.

Lemma RaftReplica_sim id sid f t :
  file_holds f t ->
  (exists r1 r2, RaftReplica (S := S) id sid f = Ok r1 /\ RaftReplica (S := Tables) id sid t = Ok r2 /\
                 rep_rel holds r1 r2) \/
  (exists e, RaftReplica (S := S) id sid f = Throw e /\ RaftReplica (S := Tables) id sid t = Throw e).
Proof.
  intros Hf. destruct (open_holds f t Hf) as (s & Hs & Hh). unfold RaftReplica. rewrite Hs. simpl.
  destruct (load_state_sim (fresh_replica id sid s) (fresh_replica id sid t))
    as (r1 & r2 & a & -> & -> & Hr); [done|].
  destruct a as [[]|e]; [left|right]; eauto.
Qed.

Lemma build_replicas_sim sid (disk : string -> st_file (S := S)) (tdisk : string -> Tables) ids :
  (forall i, i ∈ ids ->
     file_holds (disk (replica_name sid i +:+ ".db")) (tdisk (replica_name sid i +:+ ".db"))) ->
  (exists rs1 rs2, build_replicas (S := S) sid disk ids = Ok rs1 /\
     build_replicas (S := Tables) sid tdisk ids = Ok rs2 /\ Forall2 (rep_rel holds) rs1 rs2) \/
  (exists e, build_replicas (S := S) sid disk ids = Throw e /\
             build_replicas (S := Tables) sid tdisk ids = Throw e).
Proof.
  induction ids as [|i ids IH]; intros Hd; simpl; [left; by eexists [], []|].
  destruct (RaftReplica_sim (replica_name sid i) sid _ _ (Hd i ltac:(by left)))
    as [(r1 & r2 & E1 & E2 & Hr)|(e & E1 & E2)]; [|right; exists e; by rewrite E1, E2].
  simpl in E2. rewrite E1, E2.
  destruct IH as [(rs1 & rs2 & -> & -> & Hrs)|(e & -> & ->)].
  - intros j Hj. apply Hd. by right.
  - left. eexists _, _. split_and!; [done|done|]. by constructor.
  - right. by exists e.
Qed.

Lemma Shard_new_sim sid n (disk : string -> st_file (S := S)) (tdisk : string -> Tables) w :
  (forall i, (i < n)%nat ->
     file_holds (disk (replica_name sid i +:+ ".db")) (tdisk (replica_name sid i +:+ ".db"))) ->
  (exists s1 s2 w', Shard_new (S := S) sid n disk w = (w', Ok s1) /\
     Shard_new (S := Tables) sid n tdisk w = (w', Ok s2) /\ shard_rel holds s1 s2) \/
  (exists w' e, Shard_new (S := S) sid n disk w = (w', Throw e) /\
     Shard_new (S := Tables) sid n tdisk w = (w', Throw e)).
Proof.
  intros Hd. unfold Shard_new. destruct (n <? 1)%nat; [right; eauto|].
  destruct (build_replicas_sim sid disk tdisk (seq 0 n)) as [(rs1 & rs2 & -> & E & Hrs)|(e & -> & E)].
  - intros i [_ Hi]%elem_of_seq. by apply Hd.
  - rewrite E. unfold elect_leader.
    destruct (ensure_leader_sim (S := S)
      ({| sh_id := sid; sh_replicas := rs1; sh_leader_id := "" |}, w)
      ({| sh_id := sid; sh_replicas := rs2; sh_leader_id := "" |}, w))
      as ([s1 w1] & [s2 w2] & a & -> & -> & [Hs Hw]); [by split|].
    simpl in Hw. subst w2. destruct a; [left|right]; eauto 10.
  - rewrite E. right. eauto.
Qed.

(** Systems whose stores and files hold the same tables. *)
Record sys_rel (s1 : Sys S) (s2 : Sys Tables) : Prop := {
  sr_state : shard_state_rel holds (sy_state s1) (sy_state s2);
  sr_disk path : file_holds (sy_disk s1 path) (sy_disk s2 path);
}.

Lemma saved_sim disk tdisk s1 s2 path :
  shard_rel (holds (S := S)) s1 s2 -> file_holds (disk path) (tdisk path) ->
  file_holds (saved disk s1 path) (saved (S := Tables) tdisk s2 path).
Proof.
  intros (_ & _ & Hr) Hd. unfold saved. induction Hr as [|x y l1 l2 Hxy Hr IH]; [done|].
  pose proof (rep_rel_fields _ _ _ Hxy) as (Hid & _). cbn [list_find]. unfold db_file in *.
  rewrite Hid. case_decide; [apply close_holds, Hxy|].
  destruct (list_find _ l1) as [[]|], (list_find _ l2) as [[]|]; exact IH.
Qed.

Lemma on_shard_sim {A} (m1 : M (Shard S * World) A) (m2 : M (Shard Tables * World) A) f :
  sim (shard_state_rel holds) m1 m2 -> sim sys_rel (on_shard m1 f) (on_shard m2 f).
Proof.
  intros Hm s1 s2 [Hs Hd]. destruct (Hm _ _ Hs) as (s1' & s2' & a & E1 & E2 & Hs').
  unfold on_shard. rewrite E1, E2. eexists _, _, _. split; [done|]. split; [done|]. by split.
Qed.

Lemma restart_sim : sim sys_rel restart restart.
Proof.
  intros [[s1 w1] d1] [[s2 w2] d2] [[Hs Hw] Hd]. simpl in *. subst w2. unfold restart. simpl.
  assert (Hd' : forall path, file_holds (saved d1 s1 path) (saved (S := Tables) d2 s2 path))
    by (intros; by apply saved_sim).
  rewrite (rel_count s1 s2 Hs). pose proof Hs as (-> & _ & _).
  destruct (Shard_new_sim (sh_id s2) (replica_count s2) (saved d1 s1) (@saved Tables TablesStore d2 s2)
    {| w_metrics := zero_metrics; w_log := w_log w1 |})
    as [(t1 & t2 & w' & -> & E & Ht)|(w' & e & -> & E)]; [done|..]; rewrite E.
  - eexists _, _, _. split; [done|]. split; [done|]. by split.
  - eexists _, _, _. split; [done|]. split; [done|]. by split.
Qed.

Lemma exec_sim op : sim sys_rel (exec op) (exec op).
Proof.
  destruct op; simpl; try apply on_shard_sim.
  - apply replicate_command_sim.
  - apply replicate_command_sim.
  - apply shard_get_sim.
  - apply fail_replica_sim.
  - apply recover_replica_sim.
  - apply ensure_leader_sim.
  - apply sim_bind; [apply restart_sim|]. intros. apply sim_ret.
Qed.

(** A history has the same answers on both. *)
Lemma run_ops_sim ops s1 s2 :
  sys_rel s1 s2 ->
  exists s1' s2' l, run_ops ops s1 = (s1', l) /\ run_ops ops s2 = (s2', l) /\ sys_rel s1' s2'.
Proof.
  revert s1 s2. induction ops as [|op ops IH]; intros s1 s2 Hs; simpl; [by eexists _, _, _|].
  destruct (exec_sim op s1 s2 Hs) as (t1 & t2 & a & -> & -> & Ht).
  destruct (IH t1 t2 Ht) as (u1 & u2 & l & -> & -> & Hu). by eexists _, _, _.
Qed.

Lemma boot_sim sid n (disk : string -> st_file (S := S)) (tdisk : string -> Tables) :
  (forall path, file_holds (disk path) (tdisk path)) ->
  (exists s1 s2, boot sid n disk = Ok s1 /\ boot (S := Tables) sid n tdisk = Ok s2 /\ sys_rel s1 s2) \/
  (exists e, boot sid n disk = Throw e /\ boot (S := Tables) sid n tdisk = Throw e).
Proof.
  intros Hd. unfold boot.
  destruct (Shard_new_sim sid n disk tdisk {| w_metrics := zero_metrics; w_log := [] |})
    as [(t1 & t2 & w' & -> & E & Ht)|(w' & e & -> & E)]; [done|..]; rewrite E.
  - left. eexists _, _. split; [done|]. split; [done|]. by split.
  - right. eauto.
Qed.
End simulated.
