(* ===== verification/ShardSpec.v ===== *)
(** * What a shard promises

    The abstract shard is one map, the set of online replicas and the current
    leader.  A write is accepted exactly when a majority is online, and then
    changes the map; a read is answered from the map whenever there is a leader
    or one can be elected; failures, recoveries, elections and restarts never
    change the map.  The shard refines it. *)

From S2P Require Import Prelude CppStd Common Sqlite Store LogFacts Raft RaftProofs Metrics Shard ShardFacts ShardInv Election Replication ShardOps Restart ShardSystem.

#[local] Open Scope Z_scope.

Record AbsShard := {
  a_id : Z;
  a_map : gmap string string;
  a_online : list bool;
  a_leader : option nat;
}.

Definition a_with_map (m : gmap string string) (a : AbsShard) : AbsShard :=
  {| a_id := a_id a; a_map := m; a_online := a_online a; a_leader := a_leader a |}.
Definition a_with_online (l : list bool) (a : AbsShard) : AbsShard :=
  {| a_id := a_id a; a_map := a_map a; a_online := l; a_leader := a_leader a |}.
Definition a_with_leader (c : option nat) (a : AbsShard) : AbsShard :=
  {| a_id := a_id a; a_map := a_map a; a_online := a_online a; a_leader := c |}.

Definition leader_name (a : AbsShard) : string :=
  match a_leader a with Some c => replica_name (a_id a) c | None => "" end.

(** A majority of the replicas is online. *)
Definition majority (l : list bool) : bool :=
  (quorum (length l) <=? length (filter (fun b => b = true) l))%nat.

(** Finding a leader: the current one, or any online replica if a majority is
    online. *)
Inductive abs_elect (a : AbsShard) : bool -> AbsShard -> Prop :=
  | elect_keep c : a_leader a = Some c -> abs_elect a true a
  | elect_none : a_leader a = None -> majority (a_online a) = false -> abs_elect a false a
  | elect_some c : a_leader a = None -> majority (a_online a) = true ->
      a_online a !! c = Some true -> abs_elect a true (a_with_leader (Some c) a).

(** A command that changes the map by [f]. *)
Inductive abs_command (f : gmap string string -> gmap string string) (command : string)
    (a : AbsShard) : OperationResult -> AbsShard -> Prop :=
  | command_unavailable a' : abs_elect a false a' ->
      abs_command f command a (unavailable_result (a_id a) "no quorum available") a'
  | command_rejected a' : abs_elect a true a' -> majority (a_online a) = false ->
      abs_command f command a (rejected_result (a_id a) (leader_name a')) a'
  | command_accepted a' : abs_elect a true a' -> majority (a_online a) = true ->
      abs_command f command a (accepted_result (a_id a) (leader_name a') command)
        (a_with_map (f (a_map a')) a').

Definition abs_read (key : string) (a : AbsShard) (b : bool) : OperationResult :=
  if b then read_result (a_id a) (leader_name a) (a_map a) key
  else unavailable_result (a_id a) "no quorum available for leader election".

Definition abs_fail (i : nat) (a : AbsShard) : AbsShard :=
  a_with_online (<[i := false]> (a_online a))
    (if decide (a_leader a = Some i) then a_with_leader None a else a).

Definition abs_rejoin (i : nat) (a : AbsShard) : AbsShard :=
  a_with_online (<[i := true]> (a_online a)) a.

Definition abs_reset (a : AbsShard) : AbsShard :=
  a_with_leader None (a_with_online (replicate (length (a_online a)) true) a).

Definition abs_position (a : AbsShard) (replica_id : string) : option nat :=
  position (a_id a) (length (a_online a)) replica_id.

Inductive abs_step (a : AbsShard) : Op -> Answer -> AbsShard -> Prop :=
  | step_put k v res a' : abs_command (insert (c_str k) v) "PUT" a res a' ->
      abs_step a (OpPut k v) (AResult res) a'
  | step_erase k res a' : abs_command (delete (c_str k)) "DELETE" a res a' ->
      abs_step a (OpErase k) (AResult res) a'
  | step_get k b a' : abs_elect a b a' ->
      abs_step a (OpGet k) (AResult (abs_read k a' b)) a'
  | step_fail id i : abs_position a id = Some i ->
      abs_step a (OpFail id) (ABool true) (abs_fail i a)
  | step_fail_unknown id : abs_position a id = None -> abs_step a (OpFail id) (ABool false) a
  | step_recover id i b a' : abs_position a id = Some i -> abs_elect (abs_rejoin i a) b a' ->
      abs_step a (OpRecover id) (ABool true) a'
  | step_recover_unknown id : abs_position a id = None ->
      abs_step a (OpRecover id) (ABool false) a
  | step_elect b a' : abs_elect a b a' -> abs_step a OpElect (ABool b) a'
  | step_restart a' : abs_elect (abs_reset a) true a' -> abs_step a OpRestart ADone a'.

Inductive abs_run : AbsShard -> list Op -> list Answer -> AbsShard -> Prop :=
  | abs_run_nil a : abs_run a [] [] a
  | abs_run_cons a op ans a' ops l a'' :
      abs_step a op ans a' -> abs_run a' ops l a'' -> abs_run a (op :: ops) (ans :: l) a''.

(** The abstract shard before its first election. *)
Definition abs_new (sid : Z) (n : nat) : AbsShard :=
  {| a_id := sid; a_map := ∅; a_online := replicate n true; a_leader := None |}.

(** ** The refinement relation *)

Record refines (G : list LogEntry) (sh : SH) (a : AbsShard) : Prop := {
  rf_inv : inv G sh;
  rf_id : a_id a = sh_id sh;
  rf_map : a_map a = replay G;
  rf_online : a_online a = online_flags (sh_replicas sh);
  rf_leader : sh_leader_id sh = leader_name a;
}.

Lemma refines_count G sh a : refines G sh a -> length (a_online a) = length (sh_replicas sh).
Proof. intros [_ _ _ -> _]. apply length_fmap. Qed.

Lemma flags_count (rs : list Rep) :
  length (filter (fun b => b = true) (online_flags rs)) =
  length (filter (fun r => r_online r = true) rs).
Proof.
  induction rs as [|r rs IH]; [done|]. unfold online_flags in *. rewrite fmap_cons, !filter_cons.
  repeat case_decide; simpl; congruence.
Qed.

Lemma refines_majority G sh a : refines G sh a -> majority (a_online a) = has_quorum sh.
Proof.
  intros Hr. unfold majority, has_quorum. rewrite (refines_count G sh a Hr).
  by rewrite (rf_online _ _ _ Hr), flags_count, online_count.
Qed.

(** The abstract leader is the current one. *)
Lemma refines_leader G sh a :
  refines G sh a ->
  (forall c, a_leader a = Some c -> current_leader sh = Some c) /\
  (a_leader a = None -> current_leader sh = None).
Proof.
  intros [Hinv Hid Hm Ho Hl]. unfold leader_name in Hl. split.
  - intros c Hc. rewrite Hc in Hl.
    destruct (inv_leader G sh Hinv) as [E|(i & r & Hi & Hr & Hlo)].
    + rewrite E in Hl. symmetry in Hl. by apply replica_name_nonempty in Hl.
    + rewrite <- Hr, (inv_ids G sh Hinv i r Hi), Hid in Hl. apply replica_name_inj in Hl as <-.
      apply (current_leader_intro G sh i r); [done..|apply Hlo].
  - intros Hc. rewrite Hc in Hl. destruct (current_leader sh) as [i|] eqn:E; [|done].
    apply current_leader_Some in E as (r & Hi & Hr & _).
    rewrite Hl, (inv_ids G sh Hinv i r Hi) in Hr. by apply replica_name_nonempty in Hr.
Qed.

(** [ensure_leader_locked] refines the abstract election. *)
Lemma ensured_refines G sh w sh' w' b a :
  refines G sh a -> ensured G sh w sh' w' b ->
  exists a', abs_elect a b a' /\ refines G sh' a' /\ progress sh sh'.
Proof.
  intros Hr Hens. pose proof (ensured_progress _ _ _ _ _ _ Hens) as Hp.
  pose proof (refines_majority G sh a Hr) as Hmaj.
  destruct (refines_leader G sh a Hr) as [Hsome Hnone].
  pose proof (ensured_inv _ _ _ _ _ _ (rf_inv _ _ _ Hr) Hens) as (Hinv' & Hid' & Hon' & _ & _).
  destruct Hens as [c Hl|Ha|c rc rs' Hl Ha Hc Ho Hpw].
  - exists a. split_and!; try done. destruct (a_leader a) as [c'|] eqn:E; [by eapply elect_keep|].
    rewrite (Hnone eq_refl) in Hl. done.
  - assert (Hn : a_leader a = None).
    { destruct (a_leader a) as [c'|] eqn:E; [|done]. unfold available in Ha.
      by rewrite (Hsome c' eq_refl) in Ha. }
    exists a. split_and!; try done.
    + apply elect_none; [done|]. rewrite Hmaj. by apply available_quorum.
    + destruct Hr. split; try done. simpl. unfold leader_name. by rewrite Hn.
  - assert (Hn : a_leader a = None).
    { destruct (a_leader a) as [c'|] eqn:E; [|done]. by rewrite (Hsome c' eq_refl) in Hl. }
    exists (a_with_leader (Some c) a). split_and!; try done.
    + apply elect_some; [done|..].
      * rewrite Hmaj. unfold available in Ha. by rewrite Hl in Ha.
      * rewrite (rf_online _ _ _ Hr). unfold online_flags. by rewrite list_lookup_fmap, Hc, <- Ho.
    + destruct Hr as [Hinv Hid Hm Hon Hlid]. split; simpl in *; try done; [congruence|].
      unfold leader_name. simpl. rewrite Hid. by apply (inv_ids G sh).
Qed.

(** What one operation does to a shard that refines [a]. *)
Definition stepped (G : list LogEntry) (sh : SH) (G' : list LogEntry) (sh' : SH) : Prop :=
  progress sh sh' /\ G `prefix_of` G' /\ (length G' <= S (length G))%nat.

(** A shard in the state of [sh1] but for the log. *)
Lemma refines_settle G G' sh1 sh' a1 m :
  refines G sh1 a1 -> inv G' sh' -> same_group sh1 sh' ->
  sh_leader_id sh' = sh_leader_id sh1 -> m = replay G' ->
  refines G' sh' (a_with_map m a1).
Proof.
  intros [_ Hid _ Ho Hlid] Hinv [E1 E2] Hl Hm. split; simpl; try done; [congruence..|].
  unfold leader_name in *. simpl. congruence.
Qed.

Lemma a_with_map_same a : a_with_map (a_map a) a = a.
Proof. by destruct a. Qed.

Lemma stepped_same G sh sh' : progress sh sh' -> stepped G sh G sh'.
Proof. intros Hp. split; [done|]. split; [done|lia]. Qed.

Lemma command_refines G sh w a command key value f :
  refines G sh a -> Z.of_nat (length G) < uint64_mod -> valid_command command -> fits_int value ->
  (forall t m, apply_command m (clean_entry (new_entry G t command key value)) = f m) ->
  exists sh' w' res G' a',
    replicate_command_locked command key value (sh, w) = ((sh', w'), Ok res) /\
    abs_command f command a res a' /\ refines G' sh' a' /\ stepped G sh G' sh'.
Proof.
  intros Hr Hn Hv Hs Hf.
  destruct (replicate_run G sh w command key value (rf_inv _ _ _ Hr) Hn Hv Hs)
    as (sh' & w' & res & G' & Hrun & Hcmd & Hinv' & [Hid' Hon'] & Hp).
  pose proof (refines_majority G sh a Hr) as Hmaj.
  exists sh', w', res, G'.
  destruct Hcmd as [sh1 w1 sh' t Hens Hq Ht Hl|sh1 w1 sh' Hens Hq Hl|sh1 w1 Hens];
    destruct (ensured_refines _ _ _ _ _ _ a Hr Hens) as (a1 & Hel & Hr1 & _);
    pose proof (ensured_inv _ _ _ _ _ _ (rf_inv _ _ _ Hr) Hens) as (_ & Hid1 & Hon1 & _ & _).
  - exists (a_with_map (f (a_map a1)) a1). split; [done|].
    assert (Hg : same_group sh1 sh') by (split; congruence). split_and!.
    + rewrite Hl, (rf_leader _ _ _ Hr1), <- (rf_id _ _ _ Hr).
      apply command_accepted; [done|]. by rewrite Hmaj.
    + eapply refines_settle; try done. unfold log_after. rewrite replay_snoc, Hf.
      by rewrite (rf_map _ _ _ Hr1).
    + split; [done|]. unfold log_after. split; [by apply prefix_app_r|].
      rewrite length_app. simpl. lia.
  - exists a1. split; [done|].
    assert (Hg : same_group sh1 sh') by (split; congruence). split_and!.
    + rewrite Hl, (rf_leader _ _ _ Hr1), <- (rf_id _ _ _ Hr).
      apply command_rejected; [done|]. by rewrite Hmaj.
    + rewrite <- a_with_map_same. eapply refines_settle; try done. apply Hr1.
    + by apply stepped_same.
  - exists a1. split; [done|]. split_and!; [|done|by apply stepped_same].
    rewrite <- (rf_id _ _ _ Hr). by apply command_unavailable.
Qed.

Lemma c_str_idemp s : c_str (c_str s) = c_str s.
Proof. apply c_str_nul_free. Qed.

Lemma apply_put G t k v m :
  apply_command m (clean_entry (new_entry G t "PUT" k v)) = <[c_str k := v]> m.
Proof. unfold apply_command. simpl. by rewrite c_str_idemp. Qed.

Lemma apply_delete G t k v m :
  apply_command m (clean_entry (new_entry G t "DELETE" k v)) = delete (c_str k) m.
Proof. unfold apply_command. simpl. by rewrite c_str_idemp. Qed.

(** ** Failures and recoveries *)

Lemma refines_position G sh a id :
  refines G sh a ->
  position (sh_id sh) (length (sh_replicas sh)) id = abs_position a id.
Proof. intros Hr. unfold abs_position. by rewrite (refines_count G sh a Hr), (rf_id _ _ _ Hr). Qed.

Lemma failed_refines G sh a i r :
  refines G sh a -> sh_replicas sh !! i = Some r -> refines G (failed i r sh) (abs_fail i a).
Proof.
  intros Hr Hi. pose proof (failed_inv G sh i r (rf_inv _ _ _ Hr) Hi) as Hinv.
  destruct (refines_leader G sh a Hr) as [Hsome Hnone]. destruct Hr as [Hinv0 Hid Hm Ho Hl].
  assert (Hiff : a_leader a = Some i <-> r_id r = sh_leader_id sh).
  { rewrite Hl, (inv_ids G sh Hinv0 i r Hi), <- Hid. unfold leader_name.
    destruct (a_leader a) as [c|]; [|split; [done|]; by intros ?%replica_name_nonempty].
    split; [by intros [= ->]|]. by intros ->%replica_name_inj. }
  assert (Hflags : online_flags (sh_replicas (failed i r sh)) = <[i := false]> (a_online a)).
  { unfold failed. case_decide; simpl; unfold online_flags in *; by rewrite list_fmap_insert, Ho. }
  unfold abs_fail. split; simpl; try done.
  - case_decide; unfold failed; case_decide; done.
  - case_decide; done.
  - unfold failed, leader_name in *. repeat case_decide; simpl; tauto.
Qed.

Lemma rejoined_refines G sh a i r :
  refines G sh a -> sh_replicas sh !! i = Some r -> refines G (rejoined i r sh) (abs_rejoin i a).
Proof.
  intros Hr Hi. pose proof (recovered_inv G sh i r (rf_inv _ _ _ Hr) Hi) as Hinv.
  destruct Hr as [_ Hid Hm Ho Hl]. split; simpl; try done.
  unfold online_flags in *. by rewrite list_fmap_insert, Ho.
Qed.

(** ** Restarts *)

Lemma string_app_inj_r (a b s : string) : a +:+ s = b +:+ s -> a = b.
Proof.
  assert (L : forall x y : string, String.length (x +:+ y) = (String.length x + String.length y)%nat).
  { induction x as [|c x IH]; intros y; [by rewrite app_nil_str|].
    rewrite app_cons_str. simpl. by rewrite IH. }
  revert b. induction a as [|c a IH]; intros [|d b] E; rewrite ?app_cons_str, ?app_nil_str in E; [done|..].
  - apply (f_equal String.length) in E. simpl in E. rewrite L in E. lia.
  - apply (f_equal String.length) in E. simpl in E. rewrite L in E. lia.
  - injection E as -> E. f_equal. by apply IH.
Qed.

Lemma saved_lookup G (sh : SH) (disk : string -> Tables) i r :
  inv G sh -> sh_replicas sh !! i = Some r ->
  saved (S := Tables) disk sh (replica_name (sh_id sh) i +:+ ".db") = r_store r.
Proof.
  intros Hinv Hi. unfold saved.
  destruct (list_find _ (sh_replicas sh)) as [[j r']|] eqn:E.
  - apply list_find_Some in E as (Hj & E & _). unfold db_file in E. apply string_app_inj_r in E.
    rewrite (inv_ids G sh Hinv j r' Hj) in E. apply replica_name_inj in E as ->. simpl. congruence.
  - apply list_find_None in E. rewrite Forall_forall in E. exfalso.
    apply (E r); [apply list_elem_of_lookup; eauto|].
    unfold db_file. by rewrite (inv_ids G sh Hinv i r Hi).
Qed.

(** The machine integers of the shard are in range: its terms and indices are
    kept as decimal text and read back with [std::stoll]. *)
Definition in_range (G : list LogEntry) (sh : SH) : Prop :=
  Z.of_nat (length G) <= int64_max /\ max_term sh <= int64_max.

Lemma in_range_length G sh : in_range G sh -> Z.of_nat (length G) < uint64_mod.
Proof. intros [H _]. unfold int64_max, uint64_mod in *. lia. Qed.

Lemma in_range_term G sh i r :
  inv G sh -> in_range G sh -> sh_replicas sh !! i = Some r -> in_int64 (r_term r).
Proof.
  intros Hinv [_ Hm] Hi. destruct (inv_rep G sh Hinv i r Hi) as [n Hn].
  pose proof (ra_term_nonneg _ _ _ Hn). pose proof (max_term_le sh i r Hi).
  unfold in_int64, int64_min. lia.
Qed.

(** A shard built on files that hold the replicas of [sh0]. *)
Lemma new_refines G (sh0 : SH) (disk : string -> Tables) w m :
  inv G sh0 -> in_range G sh0 -> (1 <= length (sh_replicas sh0))%nat -> m = replay G ->
  (forall i r, sh_replicas sh0 !! i = Some r ->
     disk (replica_name (sh_id sh0) i +:+ ".db") = r_store r) ->
  exists sh w' a,
    Shard_new (sh_id sh0) (length (sh_replicas sh0)) disk w = (w', Ok sh) /\
    abs_elect {| a_id := sh_id sh0; a_map := m;
                 a_online := replicate (length (sh_replicas sh0)) true; a_leader := None |} true a /\
    refines G sh a /\ max_term sh = max_term sh0 + 1.
Proof.
  intros Hinv Hr Hlen -> Hdisk.
  destruct (Shard_new_run G sh0 disk w) as (sh & w' & c & Hrun & Hinv' & Hid & Hon & Hc & Hl & Hmt);
    try done.
  { destruct Hr. unfold in_int64, int64_min. lia. }
  { intros i r Hi. split; [by eapply in_range_term|by apply Hdisk]. }
  set (a0 := {| a_id := _ |}).
  exists sh, w', (a_with_leader (Some c) a0). split; [done|]. split_and!; [|by split|done].
  apply elect_some; [done| |].
  - simpl. unfold majority. rewrite filter_all, length_replicate.
    + apply Nat.leb_le. by apply all_online_quorum.
    + intros b Hb. by apply elem_of_replicate in Hb as [? _].
  - simpl. by apply lookup_replicate.
Qed.

(** ** One operation *)

Lemma inv_nonempty G sh : inv G sh -> (1 <= length (sh_replicas sh))%nat.
Proof.
  intros Hinv. pose proof (inv_majority G sh Hinv) as Hq. unfold quorum in Hq.
  pose proof (length_filter (full G) (sh_replicas sh)). lia.
Qed.

(** The operation answers without an exception, as the abstract shard may. *)
Definition op_refines (op : Op) : Prop := forall G (sh : SH) w disk a,
  refines G sh a -> in_range G sh ->
  exists s' ans G' a',
    exec op {| sy_state := (sh, w); sy_disk := disk |} = (s', Ok ans) /\ abs_step a op ans a' /\
    refines G' (sy_state s').1 a' /\ stepped G sh G' (sy_state s').1.

Lemma put_refines k v : fits_int v -> op_refines (OpPut k v).
Proof.
  intros Hv G sh w disk a Hr Hrange. unfold exec, on_shard, put. simpl.
  destruct (command_refines G sh w a "PUT" k v (insert (c_str k) v))
    as (sh' & w' & res & G' & a' & -> & Hcmd & Hr' & Hst);
    [done|by eapply in_range_length|by left|done|intros; apply apply_put|].
  eexists _, _, G', a'. split; [done|]. split; [by constructor|done].
Qed.

Lemma erase_refines k : op_refines (OpErase k).
Proof.
  intros G sh w disk a Hr Hrange. unfold exec, on_shard, erase. simpl.
  destruct (command_refines G sh w a "DELETE" k "" (delete (c_str k)))
    as (sh' & w' & res & G' & a' & -> & Hcmd & Hr' & Hst);
    [done|by eapply in_range_length|by right|done|intros; apply apply_delete|].
  eexists _, _, G', a'. split; [done|]. split; [by constructor|done].
Qed.

Lemma get_refines k : op_refines (OpGet k).
Proof.
  intros G sh w disk a Hr Hrange. pose proof (rf_inv _ _ _ Hr) as Hinv.
  destruct (get_run G sh w k Hinv (in_range_length _ _ Hrange)) as (sh' & w' & b & Hens & Hrun).
  destruct (ensured_refines _ _ _ _ _ _ a Hr Hens) as (a' & Hel & Hr' & Hp).
  pose proof (ensured_inv _ _ _ _ _ _ Hinv Hens) as (_ & Hid' & _).
  unfold exec, on_shard. simpl. rewrite Hrun.
  eexists _, _, G, a'. split; [done|]. split_and!; [|done|by apply stepped_same].
  rewrite (rf_leader _ _ _ Hr'), <- (rf_map _ _ _ Hr'), <- Hid', <- (rf_id _ _ _ Hr').
  by apply (step_get a k b).
Qed.

Lemma position_lookup G sh a id i :
  refines G sh a -> abs_position a id = Some i ->
  exists r, sh_replicas sh !! i = Some r /\ id = replica_name (sh_id sh) i.
Proof.
  intros Hr [Hlt ->]%position_Some. rewrite (refines_count G sh a Hr) in Hlt.
  destruct (lookup_lt_is_Some_2 _ _ Hlt) as [r Hi]. exists r. by rewrite (rf_id _ _ _ Hr).
Qed.

Lemma fail_refines id : op_refines (OpFail id).
Proof.
  intros G sh w disk a Hr Hrange. unfold exec, on_shard. simpl.
  rewrite (fail_run G) by apply Hr. rewrite (refines_position G sh a id Hr).
  destruct (abs_position a id) as [i|] eqn:E.
  - destruct (position_lookup G sh a id i Hr E) as (r & Hi & _).
    rewrite Hi. eexists _, _, G, (abs_fail i a). split; [done|]. split_and!.
    + by apply step_fail.
    + by apply failed_refines.
    + by apply stepped_same, failed_progress.
  - eexists _, _, G, a. split; [done|]. split_and!; [by apply step_fail_unknown|done|].
    apply stepped_same, progress_same; auto.
Qed.

Lemma recover_refines id : op_refines (OpRecover id).
Proof.
  intros G sh w disk a Hr Hrange. pose proof (rf_inv _ _ _ Hr) as Hinv. unfold exec, on_shard. simpl.
  destruct (abs_position a id) as [i|] eqn:E.
  - destruct (position_lookup G sh a id i Hr E) as (r & Hi & ->).
    destruct (recover_run G sh w i r Hinv (in_range_length _ _ Hrange) Hi)
      as (sh1 & w1 & b & sh' & w' & Hens & -> & Hinv' & Hg & Hl & Hmt).
    destruct (ensured_refines _ _ _ _ _ _ (abs_rejoin i a) (rejoined_refines G sh a i r Hr Hi) Hens)
      as (a' & Hel & Hr' & [P1 P2 P3]).
    eexists _, _, G, a'. split; [done|]. split_and!.
    + by eapply step_recover.
    + rewrite <- a_with_map_same. eapply refines_settle; try done. apply Hr'.
    + apply stepped_same. eapply progress_trans_same; [|exact Hmt|exact Hl].
      assert (Hx : max_term (rejoined i r sh) = max_term sh)
        by (apply max_term_terms; by apply (fmap_insert_same _ i r)).
      split; rewrite <- Hx; done.
  - unfold recover_replica. rewrite bind_gets. cbn [fst].
    rewrite (find_replica_position G), (refines_position G sh a id Hr), E by done.
    eexists _, _, G, a. split; [done|]. split_and!; [by apply step_recover_unknown|done|].
    apply stepped_same, progress_same; auto.
Qed.

Lemma elect_refines : op_refines OpElect.
Proof.
  intros G sh w disk a Hr Hrange. unfold exec, on_shard, elect_leader. simpl.
  destruct (ensure_run G sh w (rf_inv _ _ _ Hr) (in_range_length _ _ Hrange)) as (sh' & w' & b & -> & Hens).
  destruct (ensured_refines _ _ _ _ _ _ a Hr Hens) as (a' & Hel & Hr' & Hp).
  eexists _, _, G, a'. split; [done|]. split_and!; [by constructor|done|by apply stepped_same].
Qed.

Lemma restart_refines : op_refines OpRestart.
Proof.
  intros G sh w disk a Hr Hrange. pose proof (rf_inv _ _ _ Hr) as Hinv.
  destruct (new_refines G sh (saved (S := Tables) disk sh)
    {| w_metrics := zero_metrics; w_log := w_log w |} (a_map a))
    as (sh' & w' & a' & Hrun & Hel & Hr' & Hmt); try done.
  { by eapply inv_nonempty. }
  { apply Hr. }
  { intros i r Hi. by eapply saved_lookup. }
  unfold exec, mbind, M_bind, restart, replica_count. simpl. rewrite Hrun.
  eexists _, _, G, a'. split; [done|]. split_and!; [|done|].
  - apply step_restart. unfold abs_reset. rewrite (refines_count G sh a Hr).
    unfold a_with_leader, a_with_online. simpl. by rewrite (rf_id _ _ _ Hr).
  - apply stepped_same. split; simpl; [lia|lia|intros; lia].
Qed.

(** The values written have a size that is an [int]. *)
Definition op_sized (op : Op) : Prop :=
  match op with OpPut _ v => fits_int v | _ => True end.

Lemma exec_refines op : op_sized op -> op_refines op.
Proof.
  destruct op; simpl; intros Hs; [by apply put_refines|apply erase_refines|apply get_refines|apply fail_refines
    |apply recover_refines|apply elect_refines|apply restart_refines].
Qed.

(** ** Histories *)

(** Terms never go back over a history, and as long as they stay the leader is
    not replaced. *)
Definition later (sh sh' : SH) : Prop :=
  max_term sh <= max_term sh' /\
  (max_term sh' = max_term sh -> sh_leader_id sh' = sh_leader_id sh \/ sh_leader_id sh' = "").

#[export] Instance later_preorder : PreOrder later.
Proof.
  split; [split; auto; lia|]. intros x y z [L1 H1] [L2 H2]. split; [lia|]. intros E.
  destruct (H1 ltac:(lia)) as [A|A], (H2 ltac:(lia)) as [B|B]; rewrite ?B, ?A; auto.
Qed.

Lemma progress_later sh sh' : progress sh sh' -> later sh sh'.
Proof. intros []. by split. Qed.

(** A history of fewer operations than the integers have room for. *)
Lemma run_refines ops G (s : Sys Tables) a :
  refines G (sy_state s).1 a ->
  Z.of_nat (length G + length ops) <= int64_max ->
  max_term (sy_state s).1 + Z.of_nat (length ops) <= int64_max -> Forall op_sized ops ->
  exists s' l G' a', run_ops ops s = (s', Ok <$> l) /\ abs_run a ops l a' /\
    refines G' (sy_state s').1 a' /\ G `prefix_of` G' /\
    (length G' <= length G + length ops)%nat /\
    max_term (sy_state s').1 <= max_term (sy_state s).1 + Z.of_nat (length ops) /\
    later (sy_state s).1 (sy_state s').1.
Proof.
  revert G s a. induction ops as [|op ops IH]; intros G [[sh w] disk] a Hr H1 H2 Hs.
  - exists {| sy_state := (sh, w); sy_disk := disk |}, [], G, a.
    split_and!; try done; simpl; [constructor|lia|lia].
  - apply Forall_cons in Hs as [Hop Hs]. simpl in H1, H2, Hr |- *.
    destruct (exec_refines op Hop G sh w disk a Hr) as (s1 & ans & G1 & a1 & Hrun & Hst & Hr1 & Hp & Hpre & Hlen).
    { split; lia. }
    pose proof (progress_later _ _ Hp) as Hlat. destruct Hp as [P1 P2 _].
    destruct (IH G1 s1 a1 Hr1) as (s2 & l & G2 & a2 & Hrun2 & Hl & Hr2 & Hpre2 & Hlen2 & Hmt2 & Hlat2); [lia|lia|done|].
    exists s2, (ans :: l), G2, a2. rewrite Hrun, Hrun2. split_and!; try done; try lia.
    + by econstructor.
    + by transitivity G1.
    + by transitivity (sy_state s1).1.
Qed.

(** ** The first start *)

(** The replicas of an empty directory. *)
Definition fresh_shard (sid : Z) (n : nat) : SH :=
  {| sh_id := sid; sh_leader_id := "";
     sh_replicas := (fun i => fresh_replica (replica_name sid i) sid empty_tables) <$> seq 0 n |}.

Lemma fresh_lookup sid n i r :
  sh_replicas (fresh_shard sid n) !! i = Some r ->
  r = fresh_replica (replica_name sid i) sid empty_tables.
Proof.
  simpl. rewrite list_lookup_fmap. intros (j & [-> _]%lookup_seq & ->)%fmap_Some. done.
Qed.

Lemma fresh_rep_at id sid : rep_at [] 0 (fresh_replica id sid empty_tables).
Proof. by split. Qed.

Lemma fresh_inv sid n : (1 <= n)%nat -> inv [] (fresh_shard sid n).
Proof.
  intros Hn. split.
  - by intros i r ->%fresh_lookup.
  - apply wf_log_nil.
  - apply terms_mono_nil.
  - intros i r ->%fresh_lookup. exists 0%nat. apply fresh_rep_at.
  - rewrite filter_all.
    + apply all_online_quorum. simpl. by rewrite length_fmap, length_seq.
    + intros r [i Hi]%list_elem_of_lookup. by apply fresh_lookup in Hi as ->.
  - by left.
  - by intros i r ->%fresh_lookup.
Qed.

Lemma fresh_max_term sid n : max_term (fresh_shard sid n) = 0.
Proof.
  apply Z.le_antisymm; [|apply max_term_nonneg]. apply max_term_least; [done|].
  by intros i r ->%fresh_lookup.
Qed.

Lemma boot_refines sid n :
  (1 <= n)%nat ->
  exists s a, boot (S := Tables) sid n (fun _ => empty_tables) = Ok s /\
    abs_elect (abs_new sid n) true a /\ refines [] (sy_state s).1 a /\
    max_term (sy_state s).1 = 1.
Proof.
  intros Hn. assert (Hlen : length (sh_replicas (fresh_shard sid n)) = n)
    by (simpl; by rewrite length_fmap, length_seq).
  destruct (new_refines [] (fresh_shard sid n) (fun _ => empty_tables)
    {| w_metrics := zero_metrics; w_log := [] |} ∅) as (sh & w & a & Hrun & Hel & Hr & Hmt).
  - by apply fresh_inv.
  - split; [done|]. by rewrite fresh_max_term.
  - by rewrite Hlen.
  - done.
  - by intros i r ->%fresh_lookup.
  - rewrite Hlen in *. rewrite fresh_max_term in Hmt. unfold boot. simpl in Hrun. rewrite Hrun.
    by eexists _, a.
Qed.
