(* ===== verification/ShardTheorems.v ===== *)
(** * Theorems about the histories of a shard

    Stated for a shard on any store that satisfies [StoreSpec] (in particular
    the SQLite store), from its construction on an empty directory on, through
    any sequence of commands, failures, recoveries, elections and restarts. *)

From S2P Require Import Prelude CppStd Common Sqlite Store LogFacts SqliteStore SqliteStoreProofs Raft RaftProofs Metrics Shard ShardFacts ShardInv Election Replication ShardOps Restart ShardSystem ShardSpec.

#[local] Open Scope Z_scope.

Section histories.
Context {S : Type} `{StoreSpec S}.
Context (sid : Z) (n : nat) (disk : string -> st_file (S := S)).

(** The system after the history [ops], and its answers. *)
Definition history (ops : list Op) : result (Sys S * list (result Answer)) :=
  match boot sid n disk with
  | Ok s => Ok (run_ops ops s)
  | Throw e => Throw e
  end.

Definition empty_directory : Prop := forall path, file_holds (disk path) empty_tables.

(** Histories that keep the terms and indices in an [int64_t] and the sizes of
    the values in an [int]. *)
Definition bounded (ops : list Op) : Prop :=
  Z.of_nat (length ops) < int64_max /\ Forall op_sized ops.

Lemma bounded_app ops1 ops2 :
  bounded (ops1 ++ ops2) -> bounded ops1 /\ Forall op_sized ops2.
Proof.
  intros [Hl [H1 H2]%Forall_app]. rewrite length_app in Hl. split; [split; [lia|done]|done].
Qed.

Context (Hn : (1 <= n)%nat) (Hdisk : empty_directory).

(** Every history of the system is one of the shard over tables, which
    refines the abstract shard. *)
Lemma history_refines ops :
  bounded ops ->
  exists s s2 l G a0 a, history ops = Ok (s, Ok <$> l) /\
    abs_elect (abs_new sid n) true a0 /\ abs_run a0 ops l a /\
    sys_rel s s2 /\ refines G (sy_state s2).1 a /\
    (length G <= length ops)%nat /\ max_term (sy_state s2).1 <= 1 + Z.of_nat (length ops).
Proof.
  intros [Hs Hsz].
  destruct (boot_refines sid n Hn) as (b2 & a0 & Hb2 & Hel & Hr0 & Hmt).
  unfold history. destruct (boot_sim sid n disk (fun _ => empty_tables) Hdisk)
    as [(b1 & b2' & -> & E & Hrel)|(e & _ & E)]; rewrite E in Hb2; simplify_eq.
  destruct (run_refines ops [] b2 a0 Hr0) as (s2 & l & G & a & Hrun & Habs & Hr & _ & Hl & Hm & _);
    [simpl; lia|lia|done|].
  destruct (run_ops_sim ops b1 b2 Hrel) as (s1 & s2' & l' & E1 & E2 & Hrel').
  rewrite Hrun in E2. injection E2 as <- <-. rewrite E1.
  exists s1, s2, l, G, a0, a. split_and!; try done. lia.
Qed.

(** Continuing a history. *)
Lemma run_ops_app {T} `{Store T} ops1 ops2 (s : Sys T) :
  run_ops (ops1 ++ ops2) s =
  let '(s1, l1) := run_ops ops1 s in let '(s2, l2) := run_ops ops2 s1 in (s2, l1 ++ l2).
Proof.
  revert s. induction ops1 as [|op ops1 IH]; intros s; simpl.
  - by destruct (run_ops ops2 s).
  - destruct (exec op s) as [s' a]. rewrite IH. destruct (run_ops ops1 s') as [s1 l1].
    by destruct (run_ops ops2 s1).
Qed.

Lemma run_ops_length {T} `{Store T} ops (s : Sys T) : length (run_ops ops s).2 = length ops.
Proof.
  revert s. induction ops as [|op ops IH]; intros s; simpl; [done|].
  destruct (exec op s) as [s' a]. specialize (IH s'). destruct (run_ops ops s'). simpl in *. lia.
Qed.

(** The replicas of the system and those of the shard over tables. *)
Lemma rel_lookup (s : Sys S) (s2 : Sys Tables) i r :
  sys_rel s s2 -> sh_replicas (sy_state s).1 !! i = Some r ->
  exists r2, sh_replicas (sy_state s2).1 !! i = Some r2 /\ rep_rel holds r r2.
Proof.
  intros [[(_ & _ & Hf) _] _] Hi. by destruct (Forall2_lookup_l _ _ _ _ _ Hf Hi) as (r2 & ? & ?); eauto.
Qed.
End histories.

(** ** The abstract shard *)

(** The operation does not write the key. *)
Definition leaves (key : string) (op : Op) : Prop :=
  match op with
  | OpPut k _ | OpErase k => c_str k <> c_str key
  | _ => True
  end.

Lemma abs_elect_map a b a' : abs_elect a b a' ->
  a_map a' = a_map a /\ a_id a' = a_id a /\ a_online a' = a_online a.
Proof. by intros []. Qed.

Lemma abs_step_leaves key a op ans a' :
  abs_step a op ans a' -> leaves key op -> a_map a' !! c_str key = a_map a !! c_str key.
Proof.
  intros [k v res a1 Hc|k res a1 Hc|k b a1 Hel|id i|id|id i b a1 _ Hel|id|b a1 Hel|a1 Hel] Hl;
    simpl in *; try done.
  - destruct Hc as [a2 Hel|a2 Hel _|a2 Hel _]; apply abs_elect_map in Hel as [Hm _]; simpl; rewrite Hm;
      [done..|]. by rewrite lookup_insert_ne.
  - destruct Hc as [a2 Hel|a2 Hel _|a2 Hel _]; apply abs_elect_map in Hel as [Hm _]; simpl; rewrite Hm;
      [done..|]. by rewrite lookup_delete_ne.
  - by apply abs_elect_map in Hel as [-> _].
  - by destruct (decide _).
  - by apply abs_elect_map in Hel as [-> _].
  - by apply abs_elect_map in Hel as [-> _].
  - by apply abs_elect_map in Hel as [-> _].
Qed.

Lemma abs_run_leaves key a ops l a' :
  abs_run a ops l a' -> Forall (leaves key) ops -> a_map a' !! c_str key = a_map a !! c_str key.
Proof.
  induction 1 as [|a op ans a' ops l a'' Hst _ IH]; intros Hl; [done|].
  apply Forall_cons in Hl as [Hop Hl]. rewrite IH by done. by eapply abs_step_leaves.
Qed.

Lemma abs_step_id a op ans a' : abs_step a op ans a' -> a_id a' = a_id a.
Proof.
  intros [k v res a1 Hc|k res a1 Hc|k b a1 Hel|id i|id|id i b a1 _ Hel|id|b a1 Hel|a1 Hel];
    try (apply abs_elect_map in Hel as (_ & -> & _)); try done.
  - destruct Hc as [a2 Hel|a2 Hel _|a2 Hel _]; apply abs_elect_map in Hel as (_ & E & _); exact E.
  - destruct Hc as [a2 Hel|a2 Hel _|a2 Hel _]; apply abs_elect_map in Hel as (_ & E & _); exact E.
  - simpl. by destruct (decide _).
Qed.

Lemma abs_run_id a ops l a' : abs_run a ops l a' -> a_id a' = a_id a.
Proof.
  induction 1 as [|a op ans a' ops l a'' Hst _ IH]; [done|]. rewrite IH. by eapply abs_step_id.
Qed.

Lemma abs_run_app a ops1 ops2 l a' :
  abs_run a (ops1 ++ ops2) l a' ->
  exists l1 l2 a1, l = l1 ++ l2 /\ abs_run a ops1 l1 a1 /\ abs_run a1 ops2 l2 a' /\
                   length l1 = length ops1.
Proof.
  revert a l. induction ops1 as [|op ops1 IH]; intros a l Hr.
  - exists [], l, a. split_and!; try done. constructor.
  - inversion Hr as [|? ? ans a1 ? l' ? Hst Hr']; subst.
    destruct (IH a1 l' Hr') as (l1 & l2 & a2 & -> & H1 & H2 & Hl).
    exists (ans :: l1), l2, a2. split_and!; [done|by econstructor|done|simpl; lia].
Qed.

(** ** Reachable states *)

Section reachable.
Context {S : Type} `{StoreSpec S}.

(** A state reached by a history, seen through the tables. *)
Record reached (ops : list Op) (s : Sys S) (s2 : Sys Tables) (G : list LogEntry) (a : AbsShard)
    : Prop := {
  re_rel : sys_rel s s2;
  re_refines : refines G (sy_state s2).1 a;
  re_length : (length G <= length ops)%nat;
  re_terms : max_term (sy_state s2).1 <= 1 + Z.of_nat (length ops);
}.

Lemma history_reached sid n (disk : string -> st_file (S := S)) ops s l :
  (1 <= n)%nat -> empty_directory disk -> bounded ops ->
  history sid n disk ops = Ok (s, l) -> exists s2 G a, reached ops s s2 G a.
Proof.
  intros Hn Hdisk Hs Hh. destruct (history_refines sid n disk Hn Hdisk ops Hs)
    as (s1 & s2 & l' & G & a0 & a & E & _ & _ & Hrel & Hr & Hl & Hm).
  rewrite Hh in E. simplify_eq. exists s2, G, a. by split.
Qed.

(** One more operation. *)
Lemma reached_exec ops s s2 G a op :
  reached ops s s2 G a -> bounded ops -> op_sized op ->
  exists s' s2' ans G' a', exec op s = (s', Ok ans) /\ abs_step a op ans a' /\
    reached (ops ++ [op]) s' s2' G' a' /\ progress (sy_state s2).1 (sy_state s2').1.
Proof.
  intros [Hrel Hr Hl Hm] [Hs _] Hop. destruct s2 as [[sh2 w2] d2]. simpl in *.
  destruct (exec_refines op Hop G sh2 w2 d2 a Hr) as (s2' & ans & G' & a' & Hrun & Hst & Hr' & Hp & _ & Hl').
  { split; lia. }
  destruct (exec_sim op s _ Hrel) as (s' & t' & x & E1 & E2 & Hrel').
  rewrite Hrun in E2. injection E2 as <- <-.
  exists s', s2', ans, G', a'. split_and!; try done. split; try done.
  - rewrite length_app. simpl. lia.
  - rewrite length_app. simpl. pose proof (pr_succ _ _ Hp). lia.
Qed.

(** The replica over tables behind a replica of the system. *)
Lemma reached_lookup ops s s2 G a i r :
  reached ops s s2 G a -> sh_replicas (sy_state s).1 !! i = Some r ->
  exists r2 m, sh_replicas (sy_state s2).1 !! i = Some r2 /\ rep_rel holds r r2 /\ rep_at G m r2.
Proof.
  intros [Hrel Hr _ _] Hi. destruct (rel_lookup s s2 i r Hrel Hi) as (r2 & Hi2 & Hrr).
  destruct (inv_rep _ _ (rf_inv _ _ _ Hr) i r2 Hi2) as [m Hm]. by exists r2, m.
Qed.

Lemma reached_online ops s s2 G a :
  reached ops s s2 G a -> r_online <$> sh_replicas (sy_state s).1 = a_online a.
Proof.
  intros [[[(_ & _ & Hf) _] _] Hr _ _]. rewrite (rf_online _ _ _ Hr). unfold online_flags.
  apply list_eq. intros i. rewrite !list_lookup_fmap.
  destruct (sh_replicas (sy_state s).1 !! i) as [r|] eqn:E.
  - destruct (Forall2_lookup_l _ _ _ _ _ Hf E) as (r2 & -> & (_ & _ & _ & Ho & _)%rep_rel_fields).
    simpl. by rewrite Ho.
  - apply lookup_ge_None in E. rewrite (Forall2_length _ _ _ Hf) in E.
    by rewrite (proj2 (lookup_ge_None _ _) E).
Qed.

(** A replica that believes to be the leader. *)
Lemma reached_leader ops s s2 G a i r :
  reached ops s s2 G a -> sh_replicas (sy_state s).1 !! i = Some r -> r_role r = Leader ->
  r_term r = max_term (sy_state s2).1 /\ r_id r = sh_leader_id (sy_state s2).1 /\
  exists r2, sh_replicas (sy_state s2).1 !! i = Some r2 /\ rep_rel holds r r2 /\
             rep_at G (length G) r2 /\ leader_ok G (sh_replicas (sy_state s2).1) r2.
Proof.
  intros Hre Hi Hl. destruct (reached_lookup _ _ _ _ _ i r Hre Hi) as (r2 & m & Hi2 & Hrr & Hm).
  pose proof (rep_rel_fields _ _ _ Hrr) as (E1 & _ & E3 & _ & E5 & _).
  destruct Hre as [_ Hr _ _]. pose proof (rf_inv _ _ _ Hr) as Hinv.
  pose proof (inv_role _ _ Hinv i r2 Hi2 ltac:(congruence)) as Hid.
  destruct (inv_leader _ _ Hinv) as [E|(c & rc & Hc & Hidc & Hlo)].
  { exfalso. rewrite E, (inv_ids _ _ Hinv i r2 Hi2) in Hid. by apply replica_name_nonempty in Hid. }
  assert (c = i) as ->.
  { rewrite <- Hidc, (inv_ids _ _ Hinv i r2 Hi2), (inv_ids _ _ Hinv c rc Hc) in Hid.
    by apply replica_name_inj in Hid. }
  assert (rc = r2) as -> by congruence. split; [|split; [congruence|]].
  - rewrite E5. apply Z.le_antisymm; [by apply (max_term_le _ i)|]. apply max_term_least; [apply Hm|].
    intros j rj Hj. by apply (lo_term _ _ _ Hlo j).
  - exists r2. split_and!; try done. by apply (inv_full _ (sy_state s2).1 i); [..|apply Hlo].
Qed.
End reachable.
