(* ===== verification/ShardProperties.v ===== *)
(** * The properties of a shard

    What a client and an operator can rely on, for a shard started on an empty
    directory and any history of operations on it.  The theorems hold for every
    store that satisfies [StoreSpec]; the witnesses run the SQLite store on an
    in-memory SQLite. *)

From S2P Require Import Prelude CppStd Common Sqlite Store LogFacts SqliteStore SqliteStoreProofs Raft RaftProofs Metrics Shard ShardFacts ShardInv Election Replication ShardOps Restart ShardSystem ShardSpec ShardTheorems.

#[local] Open Scope Z_scope.

(** ** A concrete history for the witnesses *)

#[export] Instance MemStore : Store MemDb := SqliteStore (SQL := MemSqlite).
#[export] Instance MemStoreSpec : StoreSpec MemDb := SqliteStoreSpec (SQL := MemSqlite).

Definition mem_disk : string -> st_file (S := MemDb) := fun _ : string => empty_tables.

(** Write, lose the leader, write again, recover, restart. *)
Definition demo_ops : list Op :=
  [OpPut "k" "v"; OpFail "s0-r0"; OpPut "x" "y"; OpRecover "s0-r0"; OpErase "x"; OpRestart].

Definition demo_history (ops : list Op) : result (Sys MemDb * list (result Answer)) :=
  history (S := MemDb) 0 3 mem_disk ops.

(** The state a history ends in. *)
Definition demo_state (ops : list Op) : Sys MemDb :=
  match demo_history ops with
  | Ok (s, _) => s
  | Throw _ => {| sy_state := ({| sh_id := 0; sh_replicas := []; sh_leader_id := "" |},
                              {| w_metrics := zero_metrics; w_log := [] |});
                  sy_disk := mem_disk |}
  end.
Definition demo_answers (ops : list Op) : list (result Answer) :=
  match demo_history ops with Ok (_, l) => l | Throw _ => [] end.

Lemma mem_disk_empty : empty_directory (S := MemDb) mem_disk.
Proof. intros path. split; [done|apply text_ok_empty]. Qed.

Lemma demo_history_ok ops :
  bounded ops -> demo_history ops = Ok (demo_state ops, demo_answers ops).
Proof.
  intros Hs. unfold demo_state, demo_answers.
  destruct (history_refines (S := MemDb) 0 3 mem_disk ltac:(lia) mem_disk_empty ops Hs)
    as (s & s2 & l & G & a0 & a & E & _). unfold demo_history. by rewrite E.
Qed.

(** Concrete histories are bounded. *)
Ltac small := split; [done|repeat (constructor || done)].

Lemma demo_bounded : bounded demo_ops.
Proof. small. Qed.

(** The replica at position [i] of the state a history ends in. *)
Definition demo_replica (s : Sys MemDb) (i : nat) : Replica MemDb :=
  default (fresh_replica "" 0 {| mem_tables := empty_tables; mem_saved := None; mem_has := ∅ |})
    (sh_replicas (sy_state s).1 !! i).

Lemma demo_lookup (s : Sys MemDb) i :
  (i <? length (sh_replicas (sy_state s).1))%nat = true ->
  sh_replicas (sy_state s).1 !! i = Some (demo_replica s i).
Proof.
  intros Hi%Nat.ltb_lt. unfold demo_replica.
  by destruct (lookup_lt_is_Some_2 _ _ Hi) as [r ->].
Qed.

Lemma demo_exec op (s : Sys MemDb) a : (exec op s).2 = a -> exec op s = ((exec op s).1, a).
Proof. intros <-. apply surjective_pairing. Qed.

(** ** Refinement *)

(** C1: a shard on the SQLite store refines one map.  From an empty directory,
    for any sequence of puts, deletes, reads, replica failures and recoveries,
    elections and process restarts, every operation answers (no exception, no
    undefined behaviour) and the answers are those of the abstract shard: one
    map changed exactly by the writes accepted with a majority online, read by
    every served read, and kept by failures, recoveries, elections and
    restarts. *)
Theorem sqlite_shard_refines {SQL : Sqlite} {SPEC : SqliteSpec SQL} {REL : SqliteReliable SQL}
    (sid : Z) (n : nat) (disk : string -> sqlite3_file) (ops : list Op) :
  (1 <= n)%nat -> (forall path, file_tables (disk path) = empty_tables) -> bounded ops ->
  exists s l a0 a, history (S := sqlite3) sid n disk ops = Ok (s, Ok <$> l) /\
    abs_elect (abs_new sid n) true a0 /\ abs_run a0 ops l a.
Proof.
  intros Hn Hd Hs.
  destruct (@history_refines sqlite3 SqliteStore SqliteStoreSpec sid n disk Hn) with (ops := ops)
    as (s & s2 & l & G & a0 & a & E & Hel & Hrun & _); [|done|by exists s, l, a0, a].
  intros path. split; [apply Hd|apply text_ok_empty].
Qed.

Lemma sqlite_shard_refines_witness :
  exists s l a0 a, history (S := MemDb) 0 3 mem_disk demo_ops = Ok (s, Ok <$> l) /\
    abs_elect (abs_new 0 3) true a0 /\ abs_run a0 demo_ops l a.
Proof.
  apply (sqlite_shard_refines (SQL := MemSqlite) 0 3 mem_disk demo_ops); [lia|done|small].
Defined.

(** ** Safety *)

(** C2: the replicas agree.  In every reachable state there is one sequence of
    committed commands such that the log table of each replica is a prefix of
    it, its commit and apply indices are the length of that prefix, and its
    key-value table is the result of applying exactly that prefix; a majority
    of the replicas holds the whole sequence. *)
Theorem replicas_agree {S : Type} `{StoreSpec S} (sid : Z) (n : nat)
    (disk : string -> st_file (S := S)) (ops : list Op) (s : Sys S) (l : list (result Answer)) :
  (1 <= n)%nat -> empty_directory disk -> bounded ops ->
  history sid n disk ops = Ok (s, l) ->
  exists G,
    (forall i r, sh_replicas (sy_state s).1 !! i = Some r ->
       exists m t, holds (r_store r) t /\ (m <= length G)%nat /\
         raft_log t = log_map (take m G) /\ r_commit r = Z.of_nat m /\
         r_applied r = Z.of_nat m /\ kv t = replay (take m G)) /\
    (quorum (length (sh_replicas (sy_state s).1)) <=
     length (filter (fun r => r_commit r = Z.of_nat (length G)) (sh_replicas (sy_state s).1)))%nat.
Proof.
  intros Hn Hd Hs Hh.
  destruct (history_reached sid n disk ops s l Hn Hd Hs Hh) as (s2 & G & a & Hre).
  exists G. split.
  - intros i r Hi. destruct (reached_lookup ops s s2 G a i r Hre Hi) as (r2 & m & Hi2 & Hrr & Hm).
    pose proof (rep_rel_fields _ _ _ Hrr) as (_ & _ & _ & _ & _ & _ & E7 & E8).
    pose proof (ra_log _ _ _ Hm) as [_ Hlog Hc Ha _ Hkv]. exists m, (r_store r2).
    rewrite take_take, Nat.min_id in Hkv. split_and!; try done; [apply Hrr|apply Hm|congruence..].
  - destruct Hre as [[[(_ & _ & Hf) _] _] Hr _ _]. rewrite (Forall2_length _ _ _ Hf).
    etrans; [apply (inv_majority _ _ (rf_inv _ _ _ Hr))|]. apply Nat.eq_le_incl. clear -Hf.
    induction Hf as [|r r2 l1 l2 Hrr Hf IH]; [done|]. rewrite !filter_cons. unfold full in *.
    apply rep_rel_fields in Hrr as (_ & _ & _ & _ & _ & _ & -> & _).
    repeat case_decide; simpl; congruence.
Qed.

Lemma replicas_agree_witness :
  exists G,
    (forall i r, sh_replicas (sy_state (demo_state demo_ops)).1 !! i = Some r ->
       exists m t, holds (S := MemDb) (r_store r) t /\ (m <= length G)%nat /\
         raft_log t = log_map (take m G) /\ r_commit r = Z.of_nat m /\
         r_applied r = Z.of_nat m /\ kv t = replay (take m G)) /\
    (quorum (length (sh_replicas (sy_state (demo_state demo_ops)).1)) <=
     length (filter (fun r => r_commit r = Z.of_nat (length G))
       (sh_replicas (sy_state (demo_state demo_ops)).1)))%nat.
Proof.
  apply (replicas_agree (S := MemDb) 0 3 mem_disk demo_ops (demo_state demo_ops)
    (demo_answers demo_ops)); [lia|apply mem_disk_empty|small|apply demo_history_ok; small].
Defined.

(** C3: an acknowledged write is never lost.  Once a put has been answered with
    success, then after any operations that do not write the same key (replica
    failures, recoveries, elections and restarts included) a read of the key
    that is served returns the value put. *)
Theorem acknowledged_write_survives {S : Type} `{StoreSpec S} (sid : Z) (n : nat)
    (disk : string -> st_file (S := S)) (ops1 ops2 : list Op) (key value : string)
    (s : Sys S) (l : list (result Answer)) (res : OperationResult) :
  (1 <= n)%nat -> empty_directory disk -> bounded (ops1 ++ OpPut key value :: ops2) ->
  history sid n disk (ops1 ++ OpPut key value :: ops2) = Ok (s, l) ->
  l !! length ops1 = Some (Ok (AResult res)) -> res_ok res = true ->
  Forall (leaves key) ops2 ->
  exists s' res', exec (OpGet key) s = (s', Ok (AResult res')) /\
    (res_status res' <> 503 -> res_status res' = 200 /\ res_value res' = value).
Proof.
  intros Hn Hd Hs Hh Hl Hok Hleave.
  destruct (history_refines sid n disk Hn Hd _ Hs)
    as (s1 & s2 & l1 & G & a0 & a & E & _ & Habs & Hrel & Hr & Hlen & Hm).
  rewrite Hh in E. simplify_eq.
  destruct (reached_exec (S := S) (ops1 ++ OpPut key value :: ops2) s1 s2 G a (OpGet key))
    as (s' & s2' & ans & G' & a' & Hex & Hst & _); [by split|done|done|].
  inversion Hst as [| |? b ? Hel| | | | | |]; subst. eexists s', _. split; [done|]. intros H503.
  destruct (abs_run_app _ _ _ _ _ Habs) as (la & lb & a1 & -> & _ & Hb & Hla).
  inversion Hb as [|? ? ans a2 ? lb' ? Hput Hrest]; subst.
  rewrite fmap_app, lookup_app_r, length_fmap, Hla, Nat.sub_diag in Hl by (rewrite length_fmap; lia).
  simpl in Hl. injection Hl as ->.
  assert (Hval : a_map a2 !! c_str key = Some value).
  { inversion Hput as [? ? ? ? Hc| | | | | | | |]; subst.
    destruct Hc as [x Hx|x Hx|x Hx]; try done. simpl. by rewrite lookup_insert_eq. }
  rewrite <- (abs_run_leaves _ _ _ _ _ Hrest Hleave) in Hval.
  unfold abs_read in *. destruct b; [|done]. apply abs_elect_map in Hel as (Hmap & _).
  unfold read_result in *. by rewrite Hmap, Hval.
Qed.

Lemma acknowledged_write_survives_witness :
  exists s' res', exec (OpGet "k") (demo_state demo_ops) = (s', Ok (AResult res')) /\
    (res_status res' <> 503 -> res_status res' = 200 /\ res_value res' = "v").
Proof.
  apply (acknowledged_write_survives (S := MemDb) 0 3 mem_disk [] (tail demo_ops) "k" "v"
    (demo_state demo_ops) (demo_answers demo_ops)
    {| res_ok := true; res_status := 201; res_message := "stored"; res_value := "";
       res_shard := 0; res_leader := "s0-r0" |}).
  - lia.
  - apply mem_disk_empty.
  - small.
  - apply demo_history_ok. small.
  - vm_compute. reflexivity.
  - reflexivity.
  - repeat constructor; done.
Defined.

(** C4: a write is accepted exactly when a majority of the replicas is online.
    In every reachable state a put answers 201 if a majority is online and 503
    otherwise. *)
Theorem write_needs_majority {S : Type} `{StoreSpec S} (sid : Z) (n : nat)
    (disk : string -> st_file (S := S)) (ops : list Op) (s : Sys S) (l : list (result Answer))
    (key value : string) :
  (1 <= n)%nat -> empty_directory disk -> bounded ops -> fits_int value ->
  history sid n disk ops = Ok (s, l) ->
  let up := majority (r_online <$> sh_replicas (sy_state s).1) in
  exists s' res, exec (OpPut key value) s = (s', Ok (AResult res)) /\
    res_ok res = up /\ res_status res = (if up then 201 else 503) /\ res_shard res = sh_id (sy_state s).1.
Proof.
  intros Hn Hd Hs Hv Hh up.
  destruct (history_reached sid n disk ops s l Hn Hd Hs Hh) as (s2 & G & a & Hre).
  destruct (reached_exec ops s s2 G a (OpPut key value) Hre Hs Hv) as (s' & s2' & ans & G' & a' & Hex & Hst & _).
  subst up. rewrite (reached_online ops s s2 G a Hre).
  assert (Hid : sh_id (sy_state s).1 = a_id a).
  { destruct Hre as [[[(-> & _ & _) _] _] Hr _ _]. by rewrite (rf_id _ _ _ Hr). }
  rewrite Hid. inversion Hst as [? ? res ? Hc| | | | | | | |]; subst.
  exists s', res. split; [done|].
  destruct Hc as [x Hx|x Hx Hmaj|x Hx Hmaj]; [|by rewrite Hmaj..].
  inversion Hx as [|Hl Hmaj|]; subst. by rewrite Hmaj.
Qed.

Lemma write_needs_majority_witness :
  exists s' res, exec (OpPut "k" "w") (demo_state [OpFail "s0-r0"; OpFail "s0-r1"]) =
      (s', Ok (AResult res)) /\ res_ok res = false /\ res_status res = 503 /\ res_shard res = 0.
Proof.
  apply (write_needs_majority (S := MemDb) 0 3 mem_disk [OpFail "s0-r0"; OpFail "s0-r1"]
    (demo_state [OpFail "s0-r0"; OpFail "s0-r1"]) (demo_answers [OpFail "s0-r0"; OpFail "s0-r1"])
    "k" "w"); [lia|apply mem_disk_empty|small|done|apply demo_history_ok; small].
Defined.

(** What a read tells about a map: its status and value. *)
Lemma abs_get_answer a b a' key :
  abs_elect a b a' ->
  res_status (abs_read key a' b) =
    (if b then match a_map a !! c_str key with Some _ => 200 | None => 404 end else 503) /\
  res_value (abs_read key a' b) = (if b then default "" (a_map a !! c_str key) else "").
Proof.
  intros Hel. apply abs_elect_map in Hel as (E & _ & _). unfold abs_read. destruct b; [|done].
  unfold read_result. rewrite E. by destruct (a_map a !! c_str key).
Qed.

(** Whether an election succeeds is decided by the state. *)
Lemma abs_elect_available a b a' :
  abs_elect a b a' -> b = bool_decide (is_Some (a_leader a)) || majority (a_online a).
Proof. intros [c E|E1 E2|c E1 E2 E3]; rewrite ?E, ?E1, ?E2; done. Qed.

(** C5: a refused write leaves no trace.  In every reachable state, if a put is
    not acknowledged, every read gives the same status and value after it as it
    would have given before. *)
Theorem refused_write_is_invisible {S : Type} `{StoreSpec S} (sid : Z) (n : nat)
    (disk : string -> st_file (S := S)) (ops : list Op) (s s' : Sys S) (l : list (result Answer))
    (key value : string) (res : OperationResult) :
  (1 <= n)%nat -> empty_directory disk -> bounded (ops ++ [OpPut key value]) ->
  history sid n disk ops = Ok (s, l) ->
  exec (OpPut key value) s = (s', Ok (AResult res)) -> res_ok res = false ->
  forall k, exists s1 s2 res1 res2,
    exec (OpGet k) s = (s1, Ok (AResult res1)) /\ exec (OpGet k) s' = (s2, Ok (AResult res2)) /\
    res_status res1 = res_status res2 /\ res_value res1 = res_value res2.
Proof.
  intros Hn Hd Hs' Hh Hput Hres k.
  destruct (bounded_app ops [OpPut key value] Hs') as [Hs [Hop _]%Forall_cons].
  destruct (history_reached sid n disk ops s l Hn Hd Hs Hh) as (t & G & a & Hre).
  destruct (reached_exec ops s t G a (OpPut key value) Hre Hs Hop) as (x & t' & ans & G' & a' & Hex & Hst & Hre' & _).
  rewrite Hput in Hex. injection Hex as <- <-.
  destruct (reached_exec ops s t G a (OpGet k) Hre Hs I) as (s1 & _ & ans1 & _ & a1 & E1 & St1 & _).
  destruct (reached_exec _ s' t' G' a' (OpGet k) Hre' Hs' I) as (s2 & _ & ans2 & _ & a2 & E2 & St2 & _).
  inversion St1 as [| |? b1 ? Hel1| | | | | |]; subst. inversion St2 as [| |? b2 ? Hel2| | | | | |]; subst.
  exists s1, s2. eexists _, _. split; [done|]. split; [done|].
  destruct (abs_get_answer _ _ _ k Hel1) as [-> ->], (abs_get_answer _ _ _ k Hel2) as [-> ->].
  inversion Hst as [? ? ? ? Hc| | | | | | | |]; subst.
  assert (Ha : a_map a' = a_map a /\ b2 = b1); [|by destruct Ha as [-> ->]].
  apply abs_elect_available in Hel1 as ->. apply abs_elect_available in Hel2 as ->.
  destruct Hc as [a' Hx|a' Hx _|a' Hx _]; [| |done];
    (split; [apply (abs_elect_map _ _ _ Hx)|]);
    (destruct Hx as [c F|F1 F2|c F1 F2 F3]; [done|done|simpl; by rewrite F1, F2]).
Qed.

Lemma refused_write_is_invisible_witness :
  let s := demo_state [OpPut "k" "v"; OpFail "s0-r1"; OpFail "s0-r2"] in
  exists s1 s2 res1 res2,
    exec (OpGet "k") s = (s1, Ok (AResult res1)) /\
    exec (OpGet "k") (exec (OpPut "k" "w") s).1 = (s2, Ok (AResult res2)) /\
    res_status res1 = res_status res2 /\ res_value res1 = res_value res2.
Proof.
  intros s.
  apply (refused_write_is_invisible (S := MemDb) 0 3 mem_disk
    [OpPut "k" "v"; OpFail "s0-r1"; OpFail "s0-r2"] s (exec (OpPut "k" "w") s).1
    (demo_answers [OpPut "k" "v"; OpFail "s0-r1"; OpFail "s0-r2"]) "k" "w"
    (rejected_result 0 "s0-r0")).
  - lia.
  - apply mem_disk_empty.
  - small.
  - apply demo_history_ok. small.
  - apply demo_exec. vm_compute. reflexivity.
  - reflexivity.
Defined.

(** C6: at most one leader per term.  If a replica is the leader in a reachable
    state and a replica is the leader in a later state with the same term, they
    are the same replica, across failures, elections and restarts. *)
Theorem one_leader_per_term {S : Type} `{StoreSpec S} (sid : Z) (n : nat)
    (disk : string -> st_file (S := S)) (ops1 ops2 : list Op) (s1 s2 : Sys S)
    (l1 l2 : list (result Answer)) (i j : nat) (ri rj : Replica S) :
  (1 <= n)%nat -> empty_directory disk -> bounded (ops1 ++ ops2) ->
  history sid n disk ops1 = Ok (s1, l1) -> run_ops ops2 s1 = (s2, l2) ->
  sh_replicas (sy_state s1).1 !! i = Some ri -> r_role ri = Leader ->
  sh_replicas (sy_state s2).1 !! j = Some rj -> r_role rj = Leader ->
  r_term ri = r_term rj -> i = j.
Proof.
  intros Hn Hd Hs Hh Hrun Hi Hri Hj Hrj Ht.
  destruct (bounded_app ops1 ops2 Hs) as [Hs1 Hs2]. destruct Hs as [Hs _]. rewrite length_app in Hs.
  destruct (history_reached sid n disk ops1 s1 l1 Hn Hd Hs1 Hh) as (t1 & G1 & a1 & Hre1).
  pose proof Hre1 as [Hrel1 Hr1 Hl1 Hm1].
  destruct (run_refines ops2 G1 t1 a1 Hr1) as (t2 & l2' & G2 & a2 & Hrun2 & Habs & Hr2 & _ & Hl2 & Hm2 & Hlat);
    [lia|lia|done|].
  destruct (run_ops_sim ops2 s1 t1 Hrel1) as (s2' & t2' & l & E1 & E2 & Hrel2).
  rewrite Hrun in E1. rewrite Hrun2 in E2. injection E1 as <- <-. injection E2 as <- _.
  assert (Hre2 : reached (ops1 ++ ops2) s2 t2 G2 a2).
  { split; try done; rewrite length_app; lia. }
  destruct (reached_leader _ _ _ _ _ i ri Hre1 Hi Hri) as (T1 & I1 & x1 & X1 & R1 & _).
  destruct (reached_leader _ _ _ _ _ j rj Hre2 Hj Hrj) as (T2 & I2 & x2 & X2 & R2 & _).
  pose proof (inv_ids _ _ (rf_inv _ _ _ Hr1) i x1 X1) as N1.
  pose proof (inv_ids _ _ (rf_inv _ _ _ Hr2) j x2 X2) as N2.
  apply rep_rel_fields in R1 as (R1 & _), R2 as (R2 & _). rewrite R1 in I1. rewrite R2 in I2.
  assert (Hsid : sh_id (sy_state t2).1 = sh_id (sy_state t1).1)
    by (rewrite <- (rf_id _ _ _ Hr1), <- (rf_id _ _ _ Hr2); by eapply abs_run_id).
  destruct Hlat as [_ Hlat]. destruct Hlat as [Hlat|Hlat]; [lia|..].
  - apply (replica_name_inj (sh_id (sy_state t1).1)). rewrite <- N1, <- Hsid, <- N2. congruence.
  - rewrite Hlat, N2 in I2. by apply replica_name_nonempty in I2.
Qed.

Lemma one_leader_per_term_witness : 0%nat = 0%nat.
Proof.
  set (ops1 := [OpPut "k" "v"]). set (ops2 := [OpFail "s0-r1"; OpPut "k" "w"]).
  apply (one_leader_per_term (S := MemDb) 0 3 mem_disk ops1 ops2 (demo_state ops1)
    (run_ops ops2 (demo_state ops1)).1 (demo_answers ops1) (run_ops ops2 (demo_state ops1)).2 0 0
    (demo_replica (demo_state ops1) 0) (demo_replica (run_ops ops2 (demo_state ops1)).1 0)).
  - lia.
  - apply mem_disk_empty.
  - small.
  - apply demo_history_ok. small.
  - apply surjective_pairing.
  - apply demo_lookup. vm_compute. reflexivity.
  - vm_compute. reflexivity.
  - apply demo_lookup. vm_compute. reflexivity.
  - vm_compute. reflexivity.
  - vm_compute. reflexivity.
Defined.

(** C7: a leader holds every committed command.  In every reachable state, the
    log table of any replica, online or not, is a prefix of the leader's, and
    the leader's key-value table is the result of the whole of its log. *)
Theorem leader_completeness {S : Type} `{StoreSpec S} (sid : Z) (n : nat)
    (disk : string -> st_file (S := S)) (ops : list Op) (s : Sys S) (l : list (result Answer))
    (i : nat) (ri : Replica S) :
  (1 <= n)%nat -> empty_directory disk -> bounded ops ->
  history sid n disk ops = Ok (s, l) ->
  sh_replicas (sy_state s).1 !! i = Some ri -> r_role ri = Leader ->
  exists G ti, holds (r_store ri) ti /\ raft_log ti = log_map G /\ kv ti = replay G /\
    r_commit ri = Z.of_nat (length G) /\
    forall j rj, sh_replicas (sy_state s).1 !! j = Some rj ->
      exists tj m, holds (r_store rj) tj /\ raft_log tj = log_map (take m G) /\
        r_commit rj = Z.of_nat m /\ r_commit rj <= r_commit ri /\ r_term rj <= r_term ri.
Proof.
  intros Hn Hd Hs Hh Hi Hl.
  destruct (history_reached sid n disk ops s l Hn Hd Hs Hh) as (s2 & G & a & Hre).
  destruct (reached_leader ops s s2 G a i ri Hre Hi Hl) as (Ht & _ & r2 & Hi2 & Hrr & Hat & Hlo).
  pose proof (rep_rel_fields _ _ _ Hrr) as (_ & _ & _ & _ & _ & _ & Ec & _).
  pose proof (rep_at_all _ _ Hat) as [_ Hlog Hc _ _ Hkv]. rewrite take_ge in Hkv by done.
  exists G, (r_store r2). split_and!; try done; [apply Hrr|congruence|].
  intros j rj Hj. destruct (reached_lookup ops s s2 G a j rj Hre Hj) as (x & m & Hx & Hxr & Hm).
  pose proof (rep_rel_fields _ _ _ Hxr) as (_ & _ & _ & _ & Et & _ & Ecj & _).
  pose proof (rep_at_commit _ _ _ Hm). pose proof (ra_le _ _ _ Hm).
  exists (r_store x), m. split_and!; [apply Hxr|apply Hm|congruence|rewrite Ec, Ecj; lia|].
  rewrite Ht, Et. by apply (max_term_le _ j).
Qed.

Lemma leader_completeness_witness :
  let s := demo_state demo_ops in
  exists G ti, holds (S := MemDb) (r_store (demo_replica s 0)) ti /\ raft_log ti = log_map G /\
    kv ti = replay G /\ r_commit (demo_replica s 0) = Z.of_nat (length G) /\
    forall j rj, sh_replicas (sy_state s).1 !! j = Some rj ->
      exists tj m, holds (S := MemDb) (r_store rj) tj /\ raft_log tj = log_map (take m G) /\
        r_commit rj = Z.of_nat m /\ r_commit rj <= r_commit (demo_replica s 0) /\
        r_term rj <= r_term (demo_replica s 0).
Proof.
  intros s.
  apply (leader_completeness (S := MemDb) 0 3 mem_disk demo_ops s (demo_answers demo_ops) 0
    (demo_replica s 0)).
  - lia.
  - apply mem_disk_empty.
  - small.
  - apply demo_history_ok. small.
  - apply demo_lookup. vm_compute. reflexivity.
  - vm_compute. reflexivity.
Defined.

(** C8: the machine integers do not overflow.  After a history of [k]
    operations every term is between 0 and [k + 1] and every commit and apply
    index between 0 and [k], so below [2^63] operations all of them, and the
    next term and the next index, fit an [int64_t]. *)
Theorem integers_in_range {S : Type} `{StoreSpec S} (sid : Z) (n : nat)
    (disk : string -> st_file (S := S)) (ops : list Op) (s : Sys S) (l : list (result Answer)) :
  (1 <= n)%nat -> empty_directory disk -> bounded ops ->
  history sid n disk ops = Ok (s, l) ->
  next_term (sy_state s).1 <= Z.of_nat (length ops) + 2 /\
  forall i r, sh_replicas (sy_state s).1 !! i = Some r ->
    0 <= r_term r <= Z.of_nat (length ops) + 1 /\
    0 <= r_commit r <= Z.of_nat (length ops) /\ r_applied r = r_commit r /\
    in_int64 (r_term r) /\ in_int64 (r_commit r + 1).
Proof.
  intros Hn Hd Hs Hh.
  destruct (history_reached sid n disk ops s l Hn Hd Hs Hh) as (s2 & G & a & Hre).
  pose proof Hre as [Hrel Hr Hlen Hm]. split.
  - rewrite (rel_next_term _ _ (proj1 (sr_state _ _ Hrel))). unfold max_term in Hm. lia.
  - intros i r Hi. destruct (reached_lookup ops s s2 G a i r Hre Hi) as (x & m & Hx & Hxr & Hat).
    pose proof (rep_rel_fields _ _ _ Hxr) as (_ & _ & _ & _ & Et & _ & Ec & Ea).
    pose proof (ra_le _ _ _ Hat). pose proof (ra_log _ _ _ Hat) as [_ _ Hc Ha _ _].
    pose proof (ra_term_nonneg _ _ _ Hat). pose proof (max_term_le _ i x Hx).
    destruct Hs as [Hs _]. unfold in_int64, int64_min in *. rewrite Et, Ec, Ea, Hc, Ha. lia.
Qed.

Lemma integers_in_range_witness :
  let s := demo_state demo_ops in
  next_term (sy_state s).1 <= 8 /\
  forall i r, sh_replicas (sy_state s).1 !! i = Some r ->
    0 <= r_term r <= 7 /\ 0 <= r_commit r <= 6 /\ r_applied r = r_commit r /\
    in_int64 (r_term r) /\ in_int64 (r_commit r + 1).
Proof.
  intros s.
  apply (integers_in_range (S := MemDb) 0 3 mem_disk demo_ops s (demo_answers demo_ops));
    [lia|apply mem_disk_empty|small|apply demo_history_ok; small].
Defined.

(** C9: a replica comes back as it was.  In every reachable state, closing a
    replica's database and constructing a replica on the same file gives a
    replica with the same term, vote, commit and apply indices, online and a
    follower. *)
Theorem replica_restores {S : Type} `{StoreSpec S} (sid : Z) (n : nat)
    (disk : string -> st_file (S := S)) (ops : list Op) (s : Sys S) (l : list (result Answer))
    (i : nat) (r : Replica S) (id : string) (shard : Z) :
  (1 <= n)%nat -> empty_directory disk -> bounded ops ->
  history sid n disk ops = Ok (s, l) ->
  sh_replicas (sy_state s).1 !! i = Some r ->
  exists r', RaftReplica id shard (st_close (r_store r)) = Ok r' /\
    r_term r' = r_term r /\ r_voted_for r' = r_voted_for r /\ r_commit r' = r_commit r /\
    r_applied r' = r_applied r /\ r_online r' = true /\ r_role r' = Follower.
Proof.
  intros Hn Hd Hs Hh Hi.
  destruct (history_reached sid n disk ops s l Hn Hd Hs Hh) as (s2 & G & a & Hre).
  destruct (reached_lookup ops s s2 G a i r Hre Hi) as (x & m & Hx & Hxr & Hat).
  pose proof (rep_rel_fields _ _ _ Hxr) as (_ & _ & _ & _ & Et & Ev & Ec & Ea).
  pose proof (close_holds _ _ (proj1 Hxr)) as Hc.
  pose proof (ra_le _ _ _ Hat). destruct Hre as [_ Hr Hlen Hm].
  pose proof (ra_term_nonneg _ _ _ Hat). pose proof (max_term_le _ i x Hx).
  pose proof (RaftReplica_run (take m G) m id shard x (ra_log _ _ _ Hat) (ra_persisted _ _ _ Hat)) as Hrun.
  destruct Hs as [Hs _]. unfold in_int64, int64_min in *.
  destruct (RaftReplica_sim id shard _ _ Hc) as [(r1 & r2 & E1 & E2 & Hr12)|(e & _ & E2)].
  - rewrite Hrun in E2 by lia. injection E2 as <-. exists r1. split; [done|].
    apply rep_rel_fields in Hr12 as (_ & _ & F3 & F4 & F5 & F6 & F7 & F8).
    rewrite F3, F4, F5, F6, F7, F8. done.
  - rewrite Hrun in E2 by lia. done.
Qed.

Lemma replica_restores_witness :
  let r := demo_replica (demo_state demo_ops) 1 in
  exists r', RaftReplica (S := MemDb) "s0-r1" 0 (st_close (r_store r)) = Ok r' /\
    r_term r' = r_term r /\ r_voted_for r' = r_voted_for r /\ r_commit r' = r_commit r /\
    r_applied r' = r_applied r /\ r_online r' = true /\ r_role r' = Follower.
Proof.
  intros r.
  apply (replica_restores (S := MemDb) 0 3 mem_disk demo_ops (demo_state demo_ops)
    (demo_answers demo_ops) 1 r);
    [lia|apply mem_disk_empty|small|apply demo_history_ok; small|
     apply demo_lookup; vm_compute; reflexivity].
Defined.

(** C26: when a read is served.  In every reachable state a read is answered
    with 503 exactly when no leader is online and no majority is either; in
    particular a leader that has lost its majority still answers reads. *)
Theorem read_availability {S : Type} `{StoreSpec S} (sid : Z) (n : nat)
    (disk : string -> st_file (S := S)) (ops : list Op) (s : Sys S) (l : list (result Answer))
    (key : string) :
  (1 <= n)%nat -> empty_directory disk -> bounded ops ->
  history sid n disk ops = Ok (s, l) ->
  exists s' res, exec (OpGet key) s = (s', Ok (AResult res)) /\
    (res_status res = 503 <->
     current_leader (sy_state s).1 = None /\
     majority (r_online <$> sh_replicas (sy_state s).1) = false).
Proof.
  intros Hn Hd Hs Hh.
  destruct (history_reached sid n disk ops s l Hn Hd Hs Hh) as (s2 & G & a & Hre).
  destruct (reached_exec ops s s2 G a (OpGet key) Hre Hs I) as (s' & s2' & ans & G' & a' & Hex & Hst & _).
  rewrite (reached_online ops s s2 G a Hre). destruct Hre as [Hrel Hr _ _].
  rewrite (rel_current_leader _ _ (proj1 (sr_state _ _ Hrel))).
  destruct (refines_leader G _ a Hr) as [Hsome Hnone].
  inversion Hst as [| |? b ? Hel| | | | | |]; subst. eexists s', _. split; [done|].
  destruct (abs_get_answer _ _ _ key Hel) as [-> _]. apply abs_elect_available in Hel as ->.
  destruct (a_leader a) as [c|]; simpl.
  - rewrite (Hsome c eq_refl). destruct (a_map a !! c_str key); split; intros; naive_solver.
  - rewrite (Hnone eq_refl). destruct (majority (a_online a)); [|done].
    destruct (a_map a !! c_str key); split; intros; naive_solver.
Qed.

Lemma read_availability_witness :
  let s := demo_state [OpPut "k" "v"; OpFail "s0-r1"; OpFail "s0-r2"] in
  majority (r_online <$> sh_replicas (sy_state s).1) = false /\
  current_leader (sy_state s).1 = Some 0%nat /\
  exists s' res, exec (OpGet "k") s = (s', Ok (AResult res)) /\
    (res_status res = 503 <->
     current_leader (sy_state s).1 = None /\
     majority (r_online <$> sh_replicas (sy_state s).1) = false).
Proof.
  intros s. split; [vm_compute; reflexivity|]. split; [vm_compute; reflexivity|].
  apply (read_availability (S := MemDb) 0 3 mem_disk [OpPut "k" "v"; OpFail "s0-r1"; OpFail "s0-r2"] s
    (demo_answers [OpPut "k" "v"; OpFail "s0-r1"; OpFail "s0-r2"]));
    [lia|apply mem_disk_empty|small|apply demo_history_ok; small].
Defined.
