(* ===== verification/ShardRecovery.v ===== *)
(** * Recovery of a shard

    A shard that has lost its majority serves again once enough replicas are back. *)

From S2P Require Import Prelude CppStd Common Sqlite Store LogFacts SqliteStore SqliteStoreProofs Raft RaftProofs Metrics Shard ShardFacts ShardInv Election Replication ShardOps Restart ShardSystem ShardSpec ShardTheorems ShardProperties.

#[local] Open Scope Z_scope.

(** No operation changes the number of the shard or of its replicas. *)
Lemma abs_step_shape a op ans a' :
  abs_step a op ans a' -> a_id a' = a_id a /\ length (a_online a') = length (a_online a).
Proof.
  intros [k v res a1 Hc|k res a1 Hc|k b a1 Hel|id i|id|id i b a1 _ Hel|id|b a1 Hel|a1 Hel]; try done.
  1-2: destruct Hc as [x Hel|x Hel|x Hel]; apply abs_elect_map in Hel as (_ & E1 & E2); simpl; by rewrite E1, E2.
  - apply abs_elect_map in Hel as (_ & -> & ->). done.
  - unfold abs_fail. simpl. rewrite length_insert. by case_decide.
  - apply abs_elect_map in Hel as (_ & -> & ->). simpl. by rewrite length_insert.
  - apply abs_elect_map in Hel as (_ & -> & ->). done.
  - apply abs_elect_map in Hel as (_ & -> & ->). simpl. by rewrite length_replicate.
Qed.

Lemma abs_run_shape a ops l a' :
  abs_run a ops l a' -> a_id a' = a_id a /\ length (a_online a') = length (a_online a).
Proof.
  induction 1 as [|a op ans a1 ops l a2 Hst _ [-> ->]]; [done|]. by eapply abs_step_shape.
Qed.

(** ** Recovering replicas *)

Definition recoveries (sid : Z) (ids : list nat) : list Op :=
  (fun i => OpRecover (replica_name sid i)) <$> ids.

Lemma position_name sid n i : (i < n)%nat -> position sid n (replica_name sid i) = Some i.
Proof.
  intros Hi. destruct (position sid n (replica_name sid i)) as [j|] eqn:E.
  - apply position_Some in E as [_ E]. by apply replica_name_inj in E as ->.
  - exfalso. unfold position in E. apply fmap_None, list_find_None in E. rewrite Forall_forall in E.
    apply (E i); [|done]. apply elem_of_seq. lia.
Qed.

(** A replica that was recovered is online; one that was online stays so. *)
Lemma recoveries_online a ids l a' :
  abs_run a (recoveries (a_id a) ids) l a' -> Forall (fun i => (i < length (a_online a))%nat) ids ->
  forall i, (i ∈ ids \/ a_online a !! i = Some true) -> a_online a' !! i = Some true.
Proof.
  revert a l. induction ids as [|j ids IH]; intros a l Hr Hl i Hi; cbn [recoveries fmap list_fmap] in Hr.
  - inversion Hr; subst. destruct Hi as [Hi|]; [by apply elem_of_nil in Hi|done].
  - apply Forall_cons in Hl as [Hj Hl]. inversion Hr as [|? ? ans a1 ? l' ? Hst Hr']; subst.
    destruct (abs_step_shape _ _ _ _ Hst) as [Eid Elen].
    assert (Hon : a_online a1 = <[j := true]> (a_online a)).
    { pose proof (position_name (a_id a) _ j Hj) as Hp.
      inversion Hst as [| | | | |id x b x1 Hx Hel|id Hx| |]; subst; unfold abs_position in Hx; rewrite Hp in Hx; [|done].
      injection Hx as <-. by apply abs_elect_map in Hel as (_ & _ & ->). }
    rewrite <- Eid in Hr'. apply (IH a1 l' Hr'); [by rewrite Elen|].
    rewrite Hon. destruct (decide (i = j)) as [->|Hne]; [right; by apply list_lookup_insert_eq|].
    rewrite list_lookup_insert_ne by done. destruct Hi as [[?|?]%elem_of_cons|?]; [done|by left|by right].
Qed.

(** ** Counting *)

Lemma count_positions (flags : list bool) k :
  length (filter (fun b => b = true) flags) =
  length (filter (fun p => p.2 = true) (imap (fun i b => ((k + i)%nat, b)) flags)).
Proof.
  revert k. induction flags as [|b flags IH]; intros k; [done|]. cbn [imap]. rewrite !filter_cons.
  assert (E : imap ((fun i b => ((k + i)%nat, b)) ∘ S) flags = imap (fun i b => ((S k + i)%nat, b)) flags).
  { apply imap_ext. intros i x _. simpl. f_equal. lia. }
  rewrite E. simpl. repeat case_decide; simpl; congruence || by rewrite (IH (S k)).
Qed.

Lemma online_at_least (flags : list bool) (ids : list nat) :
  NoDup ids -> (forall i, i ∈ ids -> flags !! i = Some true) ->
  (length ids <= length (filter (fun b => b = true) flags))%nat.
Proof.
  intros Hd Hi. rewrite (count_positions flags 0).
  rewrite <- (length_fmap fst (filter _ _)). apply submseteq_length, NoDup_submseteq; [done|].
  intros i Hin. apply list_elem_of_fmap. exists (i, true). split; [done|]. apply list_elem_of_filter. split; [done|].
  apply list_elem_of_lookup. exists i. rewrite list_lookup_imap, (Hi i Hin). done.
Qed.

(** ** Service *)

Lemma elected_leader a a' : abs_elect a true a' -> exists c, a_leader a' = Some c.
Proof. inversion 1; subst; eauto. Qed.

Lemma available_put a key value ans a' :
  abs_step a (OpPut key value) ans a' -> majority (a_online a) = true ->
  exists res c, ans = AResult res /\ res_status res = 201 /\ a_leader a' = Some c /\
    a_map a' !! c_str key = Some value.
Proof.
  intros Hst Hm. inversion Hst as [? ? res ? Hc| | | | | | | |]; subst.
  destruct Hc as [x Hx|x Hx Hmaj|x Hx _]; [|congruence|].
  - inversion Hx; congruence.
  - destruct (elected_leader _ _ Hx) as [c Hl]. eexists _, c. split_and!; try done. apply lookup_insert_eq.
Qed.

Lemma led_get a key ans a' c value :
  abs_step a (OpGet key) ans a' -> a_leader a = Some c -> a_map a !! c_str key = Some value ->
  exists res, ans = AResult res /\ res_status res = 200 /\ res_value res = value.
Proof.
  intros Hst Hl Hv. inversion Hst as [| |? b ? Hel| | | | | |]; subst. eexists. split; [done|].
  inversion Hel; subst; try congruence. unfold abs_read, read_result. by rewrite Hv.
Qed.

(** C37: a shard recovers.  After any history, whatever failed in it, once any
    majority of the replicas has been recovered a put is acknowledged, and a read
    after it is served and returns the value. *)
Theorem recovery_restores_service {S : Type} `{StoreSpec S} (sid : Z) (n : nat)
    (disk : string -> st_file (S := S)) (ops : list Op) (ids : list nat) (s : Sys S)
    (l : list (result Answer)) (key value : string) :
  (1 <= n)%nat -> empty_directory disk -> bounded (ops ++ recoveries sid ids ++ [OpPut key value]) ->
  NoDup ids -> Forall (fun i => (i < n)%nat) ids -> (quorum n <= length ids)%nat ->
  history sid n disk (ops ++ recoveries sid ids) = Ok (s, l) ->
  exists s' res s'' res',
    exec (OpPut key value) s = (s', Ok (AResult res)) /\ res_status res = 201 /\
    exec (OpGet key) s' = (s'', Ok (AResult res')) /\ res_status res' = 200 /\ res_value res' = value.
Proof.
  intros Hn Hd Hb Hnd Hids Hq Hh. rewrite app_assoc in Hb. pose proof Hb as [Hb1 Hput]%bounded_app.
  apply Forall_cons in Hput as [Hput _].
  destruct (history_refines sid n disk Hn Hd _ Hb1)
    as (s1 & s2 & l' & G & a0 & a & E & Hel & Habs & Hrel & Hr & Hl & Hm). rewrite Hh in E. simplify_eq.
  assert (Hmaj : majority (a_online a) = true).
  { destruct (abs_run_app _ _ _ _ _ Habs) as (l1 & l2 & a1 & _ & H1 & H2 & _).
    apply abs_elect_map in Hel as (_ & Eid & Eon). destruct (abs_run_shape _ _ _ _ H1) as [F1 F2].
    destruct (abs_run_shape _ _ _ _ H2) as [_ F3]. rewrite Eid in F1. rewrite Eon in F2. simpl in F1, F2.
    rewrite length_replicate in F2. rewrite <- F1 in H2.
    unfold majority. rewrite F3, F2. apply Nat.leb_le. etrans; [exact Hq|]. apply online_at_least; [done|].
    intros i Hi. apply (recoveries_online a1 ids l2 a H2); [by rewrite F2|by left]. }
  assert (Hre : reached (ops ++ recoveries sid ids) s1 s2 G a) by (by split).
  destruct (reached_exec _ _ _ _ _ (OpPut key value) Hre Hb1 Hput) as (s' & s2' & ans & G' & a' & Hex & Hst & Hre' & _).
  destruct (available_put _ _ _ _ _ Hst Hmaj) as (res & c & -> & H201 & Hlead & Hval).
  destruct (reached_exec _ _ _ _ _ (OpGet key) Hre' Hb I) as (s'' & s3 & ans & G2 & a2 & Hex2 & Hst2 & _).
  destruct (led_get _ _ _ _ _ _ Hst2 Hlead Hval) as (res' & -> & H200 & Hv).
  by exists s', res, s'', res'.
Qed.

(** All three replicas failed, and two of them recovered. *)
Definition demo_outage : list Op := [OpPut "k" "v"; OpFail "s0-r0"; OpFail "s0-r1"; OpFail "s0-r2"].

Lemma recovery_restores_service_witness :
  exists s' res s'' res',
    exec (OpPut "k" "w") (demo_state (demo_outage ++ recoveries 0 [2; 0]%nat)) = (s', Ok (AResult res)) /\
    res_status res = 201 /\
    exec (OpGet "k") s' = (s'', Ok (AResult res')) /\ res_status res' = 200 /\ res_value res' = "w".
Proof.
  apply (recovery_restores_service (S := MemDb) 0 3 mem_disk demo_outage [2; 0]%nat
    (demo_state (demo_outage ++ recoveries 0 [2; 0]%nat)) (demo_answers (demo_outage ++ recoveries 0 [2; 0]%nat)) "k" "w").
  - lia.
  - apply mem_disk_empty.
  - small.
  - apply (bool_decide_unpack _). vm_compute. exact I.
  - repeat constructor; lia.
  - done.
  - apply demo_history_ok. small.
Defined.
