(* ===== verification/Cluster.v ===== *)
(** * src/cluster.cpp, class Cluster: the shards and the routing of keys

    A key belongs to the shard its FNV-1a hash selects; each shard is a replica
    group of its own.  All shards share the metrics and the log stream. *)

From S2P Require Import Prelude CppStd Common Sqlite Store Raft Metrics Shard.

#[local] Open Scope Z_scope.

(** [shards_] *)
Abbreviation Cluster S := (list (Shard S)).

Section methods.
Context {S : Type} `{Store S}.

Abbreviation CM := (M (Cluster S * World)).

(** [shards_[i]->m()]; indexing beyond the end is undefined. *)
Definition on_shard {A} (i : Z) (m : M (Shard S * World) A) : CM A := fun s =>
  match s.1 !! Z.to_nat i with
  | None => (s, Throw (UndefinedBehaviour "shards_[] out of range"))
  | Some sh => let '((sh', w), a) := m (sh, s.2) in ((<[Z.to_nat i := sh']> s.1, w), a)
  end.

Definition shard_count (c : Cluster S) : Z := Z.of_nat (length c).

(** [fnv1a_64(key) % shards_.size()] *)
Definition shard_for_key (key : string) (c : Cluster S) : Z := fnv1a_64 key mod shard_count c.

Definition route {A} (key : string) (m : M (Shard S * World) A) : CM A :=
  shard ← gets (fun s => shard_for_key key s.1); on_shard shard m.

Definition put (key value : string) : CM OperationResult := route key (Shard.put key value).
Definition erase (key : string) : CM OperationResult := route key (Shard.erase key).
Definition get (key : string) : CM OperationResult := route key (Shard.get key).

(** [shard_id < shards_.size() && shards_[shard_id]->m()] *)
Definition if_shard (shard_id : Z) (m : M (Shard S * World) bool) : CM bool :=
  n ← gets (fun s => shard_count s.1);
  if shard_id <? n then on_shard shard_id m else mret false.

Definition fail_replica (shard_id : Z) (replica_id : string) : CM bool :=
  if_shard shard_id (Shard.fail_replica replica_id).
Definition recover_replica (shard_id : Z) (replica_id : string) : CM bool :=
  if_shard shard_id (Shard.recover_replica replica_id).
Definition elect (shard_id : Z) : CM bool := if_shard shard_id elect_leader.

Definition status_json : CM string :=
  n ← gets (fun s => shard_count s.1);
  parts ← for_fold (Z.of_nat <$> seq 0 (Z.to_nat n)) [] (fun parts i =>
    part ← on_shard i Shard.status_json; mret (parts ++ [part]));
  mret ("{" +:+ q "shard_count" +:+ ":" +:+ to_string n
        +:+ "," +:+ q "shards" +:+ ":[" +:+ join parts +:+ "]}").

(** The loop of the constructor over the shard numbers. *)
Fixpoint build_shards (ids : list nat) (replicas_per_shard : nat) (disk : string -> st_file)
    : M World (Cluster S) :=
  match ids with
  | [] => mret []
  | i :: ids' =>
      sh ← Shard_new (Z.of_nat i) replicas_per_shard disk;
      rest ← build_shards ids' replicas_per_shard disk;
      mret (sh :: rest)
  end.

Definition Cluster_new (shard_count replicas_per_shard : nat) (disk : string -> st_file)
    : M World (Cluster S) :=
  if (shard_count <? 1)%nat then throw (InvalidArgument "shard_count must be at least 1")
  else build_shards (seq 0 shard_count) replicas_per_shard disk.
End methods.

(** ** Routing *)

Lemma shard_for_key_range {S} key (c : Cluster S) :
  (1 <= length c)%nat -> 0 <= shard_for_key key c < shard_count c.
Proof. intros Hc. apply Z.mod_pos_bound. unfold shard_count. lia. Qed.

Lemma shard_for_key_length {S T} key (c : Cluster S) (c' : Cluster T) :
  length c' = length c -> shard_for_key key c' = shard_for_key key c.
Proof. unfold shard_for_key, shard_count. by intros ->. Qed.

(** ** Clusters over two stores *)

Section simulated.
Context {S : Type} `{StoreSpec S}.

Definition cluster_rel (s1 : Cluster S * World) (s2 : Cluster Tables * World) : Prop :=
  Forall2 (shard_rel holds) s1.1 s2.1 /\ s1.2 = s2.2.

Lemma cluster_on_shard_sim {A} i (m1 : M (Shard S * World) A) (m2 : M (Shard Tables * World) A) :
  sim (shard_state_rel holds) m1 m2 -> sim cluster_rel (on_shard i m1) (on_shard i m2).
Proof.
  intros Hm [c1 w1] [c2 w2] [Hc Hw]. simpl in *. subst w2. unfold on_shard. simpl.
  destruct (c1 !! Z.to_nat i) as [sh1|] eqn:E1.
  - destruct (Forall2_lookup_l _ _ _ _ _ Hc E1) as (sh2 & -> & Hsh).
    destruct (Hm (sh1, w1) (sh2, w1)) as ([s1 v1] & [s2 v2] & a & -> & -> & [Hs Hv]); [done|].
    simpl in *. subst v2. eexists _, _, _. split; [done|]. split; [done|].
    split; [|done]. by apply Forall2_insert.
  - rewrite (proj2 (lookup_ge_None c2 _)).
    2: { rewrite <- (Forall2_length _ _ _ Hc). by apply lookup_ge_None. }
    by eexists _, _, _.
Qed.

Lemma rel_shard_count c1 c2 :
  Forall2 (shard_rel (holds (S := S))) c1 c2 -> shard_count c1 = shard_count c2.
Proof. intros Hc. unfold shard_count. by rewrite (Forall2_length _ _ _ Hc). Qed.

Lemma route_sim {A} key (m1 : M (Shard S * World) A) (m2 : M (Shard Tables * World) A) :
  sim (shard_state_rel holds) m1 m2 -> sim cluster_rel (route key m1) (route key m2).
Proof.
  intros Hm. apply sim_bind.
  - apply sim_gets. intros [c1 w1] [c2 w2] [Hc _]. simpl in *.
    unfold shard_for_key. by rewrite (rel_shard_count c1 c2 Hc).
  - intros i. by apply cluster_on_shard_sim.
Qed.

Lemma if_shard_sim i (m1 : M (Shard S * World) bool) (m2 : M (Shard Tables * World) bool) :
  sim (shard_state_rel holds) m1 m2 -> sim cluster_rel (if_shard i m1) (if_shard i m2).
Proof.
  intros Hm. apply sim_bind.
  - apply sim_gets. intros [c1 w1] [c2 w2] [Hc _]. by apply rel_shard_count.
  - intros n. destruct (i <? n); [by apply cluster_on_shard_sim|apply sim_ret].
Qed.
End simulated.
