(* ===== verification/ClusterSpec.v ===== *)
(** * What a cluster promises

    The abstract cluster is a list of abstract shards; an operation on a key is
    an operation of the shard the key hashes to and touches no other shard. *)

From S2P Require Import Prelude CppStd Common Sqlite Store LogFacts SqliteStore SqliteStoreProofs Raft RaftProofs Metrics Shard ShardFacts ShardInv Election Replication ShardOps Restart ShardSystem ShardSpec ShardTheorems ShardProperties Cluster.

#[local] Open Scope Z_scope.

Inductive COp :=
  | CPut (key value : string)
  | CErase (key : string)
  | CGet (key : string)
  | CFail (shard_id : Z) (replica_id : string)
  | CRecover (shard_id : Z) (replica_id : string)
  | CElect (shard_id : Z).

Section system.
Context {S : Type} `{Store S}.

Definition answer {A} (f : A -> Answer) (m : M (Cluster S * World) A) : M (Cluster S * World) Answer :=
  x ← m; mret (f x).

Definition cexec (op : COp) : M (Cluster S * World) Answer :=
  match op with
  | CPut k v => answer AResult (Cluster.put k v)
  | CErase k => answer AResult (Cluster.erase k)
  | CGet k => answer AResult (Cluster.get k)
  | CFail i id => answer ABool (Cluster.fail_replica i id)
  | CRecover i id => answer ABool (Cluster.recover_replica i id)
  | CElect i => answer ABool (elect i)
  end.

Fixpoint crun (ops : list COp) (s : Cluster S * World) : (Cluster S * World) * list (result Answer) :=
  match ops with
  | [] => (s, [])
  | op :: ops' =>
      let '(s', a) := cexec op s in let '(s'', l) := crun ops' s' in (s'', a :: l)
  end.

(** A history of the cluster from its construction on. *)
Definition chistory (shards replicas : nat) (disk : string -> st_file) (ops : list COp)
    : result ((Cluster S * World) * list (result Answer)) :=
  match Cluster_new shards replicas disk {| w_metrics := zero_metrics; w_log := [] |} with
  | (w, Ok c) => Ok (crun ops (c, w))
  | (_, Throw e) => Throw e
  end.
End system.

(** ** The abstract cluster *)

(** The shard an operation is for, among [n], and what it is there. *)
Definition target (n : nat) (op : COp) : option (nat * Op) :=
  let of_key k := Z.to_nat (fnv1a_64 k mod Z.of_nat n) in
  let of_id (i : Z) (op : Op) := if i <? Z.of_nat n then Some (Z.to_nat i, op) else None in
  match op with
  | CPut k v => Some (of_key k, OpPut k v)
  | CErase k => Some (of_key k, OpErase k)
  | CGet k => Some (of_key k, OpGet k)
  | CFail i id => of_id i (OpFail id)
  | CRecover i id => of_id i (OpRecover id)
  | CElect i => of_id i OpElect
  end.

Inductive abs_cstep (c : list AbsShard) (op : COp) : Answer -> list AbsShard -> Prop :=
  | cstep_shard i sop a ans a' :
      target (length c) op = Some (i, sop) -> c !! i = Some a -> abs_step a sop ans a' ->
      abs_cstep c op ans (<[i := a']> c)
  | cstep_none : target (length c) op = None -> abs_cstep c op (ABool false) c.

Inductive abs_crun : list AbsShard -> list COp -> list Answer -> list AbsShard -> Prop :=
  | abs_crun_nil c : abs_crun c [] [] c
  | abs_crun_cons c op ans c' ops l c'' :
      abs_cstep c op ans c' -> abs_crun c' ops l c'' -> abs_crun c (op :: ops) (ans :: l) c''.

(** Shard numbers come from [std::size_t], and the size of a value is an [int]. *)
Definition sized (op : COp) : Prop :=
  match op with
  | CPut _ v => fits_int v
  | CFail i _ | CRecover i _ | CElect i => 0 <= i
  | _ => True
  end.

(** ** The refinement relation *)

(** Every shard refines its abstract shard, within the bound [k] on its log
    and its terms. *)
Record crefines (k : nat) (c : Cluster Tables) (ac : list AbsShard) : Prop := {
  cr_length : length ac = length c;
  cr_shard i sh : c !! i = Some sh -> exists G a, ac !! i = Some a /\ refines G sh a /\
    (length G <= k)%nat /\ max_term sh <= Z.of_nat k + 1;
}.

(** An operation of a shard as [exec] runs it. *)
Lemma shard_op_refines {A} (m : M (SH * World) A) f op G sh w a :
  (forall s, exec op s = ShardSystem.on_shard m f s) -> op_sized op ->
  refines G sh a -> in_range G sh ->
  exists sh' w' x G' a', m (sh, w) = ((sh', w'), Ok x) /\ abs_step a op (f x) a' /\
    refines G' sh' a' /\ stepped G sh G' sh'.
Proof.
  intros Hm Hop Hr Hrange.
  destruct (exec_refines op Hop G sh w (fun _ => empty_tables) a Hr Hrange)
    as (s' & ans & G' & a' & Hrun & Hst & Hr' & Hstep).
  rewrite Hm in Hrun. unfold ShardSystem.on_shard in Hrun. simpl in Hrun.
  destruct (m (sh, w)) as [[sh' w'] [x|e]]; [|done]. injection Hrun as <- <-.
  by exists sh', w', x, G', a'.
Qed.

(** An operation of the shard at [i]. *)
Lemma on_shard_refines {A} (m : M (SH * World) A) f op k c w ac i sop :
  (forall s, exec sop s = ShardSystem.on_shard m f s) -> op_sized sop ->
  crefines k c ac -> Z.of_nat k < int64_max ->
  target (length c) op = Some (Z.to_nat i, sop) -> (Z.to_nat i < length c)%nat ->
  exists c' w' x ac', on_shard i m (c, w) = ((c', w'), Ok x) /\ abs_cstep ac op (f x) ac' /\
    crefines (Datatypes.S k) c' ac' /\ length c' = length c.
Proof.
  intros Hm Hop [Hlen Hsh] Hk Ht Hi.
  destruct (lookup_lt_is_Some_2 c _ Hi) as [sh Hc].
  destruct (Hsh _ sh Hc) as (G & a & Ha & Hr & Hl & Hmt).
  destruct (shard_op_refines m f sop G sh w a Hm Hop Hr) as (sh' & w' & x & G' & a' & Hrun & Hst & Hr' & Hp & _ & Hl').
  { split; lia. }
  unfold on_shard. simpl. rewrite Hc, Hrun.
  eexists _, _, x, (<[Z.to_nat i := a']> ac). split; [done|]. split_and!.
  - eapply cstep_shard; [by rewrite Hlen|done..].
  - split; [by rewrite !length_insert|]. intros j y Hj.
    destruct (decide (j = Z.to_nat i)) as [->|Hne].
    + rewrite list_lookup_insert_eq in Hj by done. injection Hj as <-.
      exists G', a'. rewrite list_lookup_insert_eq by (by rewrite Hlen).
      pose proof (pr_succ _ _ Hp). split_and!; try done; lia.
    + rewrite list_lookup_insert_ne in Hj by done.
      destruct (Hsh j y Hj) as (Gj & aj & Haj & Hrj & Hlj & Hmj). exists Gj, aj.
      rewrite list_lookup_insert_ne by done. split_and!; try done; lia.
  - by rewrite length_insert.
Qed.

Lemma crefines_weaken k c ac : crefines k c ac -> crefines (Datatypes.S k) c ac.
Proof.
  intros [Hlen Hsh]. split; [done|]. intros i sh Hi. destruct (Hsh i sh Hi) as (G & a & ? & ? & ? & ?).
  exists G, a. split_and!; try done; lia.
Qed.

Lemma answer_run {A} (f : A -> Answer) (m : M (Cluster Tables * World) A) s s' x :
  m s = (s', Ok x) -> answer f m s = (s', Ok (f x)).
Proof. intros Hm. unfold answer. by rewrite (bind_ok _ _ _ _ _ Hm). Qed.

(** Operations on a key. *)
Lemma route_refines {A} (m : M (SH * World) A) f op key sop k c w ac :
  (forall s, exec sop s = ShardSystem.on_shard m f s) -> op_sized sop ->
  crefines k c ac -> Z.of_nat k < int64_max -> (1 <= length c)%nat ->
  target (length c) op = Some (Z.to_nat (fnv1a_64 key mod Z.of_nat (length c)), sop) ->
  exists c' w' ans ac', answer f (route key m) (c, w) = ((c', w'), Ok ans) /\
    abs_cstep ac op ans ac' /\ crefines (Datatypes.S k) c' ac' /\ length c' = length c.
Proof.
  intros Hm Hop Hr Hk Hc Ht. pose proof (shard_for_key_range key c Hc) as Hrange.
  unfold shard_for_key, shard_count in Hrange.
  destruct (on_shard_refines m f op k c w ac _ sop Hm Hop Hr Hk Ht) as (c' & w' & x & ac' & Hrun & Hst & Hr' & Hl);
    [lia|].
  eexists c', w', _, ac'. split; [|done]. apply answer_run.
  unfold route. rewrite bind_gets. exact Hrun.
Qed.

(** Operations on a shard number. *)
Lemma if_shard_refines (m : M (SH * World) bool) op i sop k c w ac :
  (forall s, exec sop s = ShardSystem.on_shard m ABool s) -> op_sized sop ->
  crefines k c ac -> Z.of_nat k < int64_max -> 0 <= i ->
  target (length c) op = (if i <? Z.of_nat (length c) then Some (Z.to_nat i, sop) else None) ->
  exists c' w' ans ac', answer ABool (if_shard i m) (c, w) = ((c', w'), Ok ans) /\
    abs_cstep ac op ans ac' /\ crefines (Datatypes.S k) c' ac' /\ length c' = length c.
Proof.
  intros Hm Hop Hr Hk Hi Ht. unfold if_shard, answer. rewrite bind_assoc, bind_gets. cbn [fst].
  unfold shard_count. destruct (i <? Z.of_nat (length c)) eqn:E.
  - destruct (on_shard_refines m ABool op k c w ac i sop Hm Hop Hr Hk Ht) as (c' & w' & x & ac' & Hrun & Hst & Hr' & Hl);
      [lia|].
    eexists c', w', _, ac'. split; [|done]. by rewrite (bind_ok _ _ _ _ _ Hrun).
  - eexists c, w, _, ac. split; [reflexivity|]. split; [|by split; [apply crefines_weaken|]].
    apply cstep_none. by rewrite (cr_length _ _ _ Hr).
Qed.

Lemma cexec_refines op k c w ac :
  crefines k c ac -> Z.of_nat k < int64_max -> (1 <= length c)%nat -> sized op ->
  exists c' w' ans ac', cexec op (c, w) = ((c', w'), Ok ans) /\ abs_cstep ac op ans ac' /\
    crefines (Datatypes.S k) c' ac' /\ length c' = length c.
Proof.
  intros Hr Hk Hc Hs.
  destruct op as [key v|key|key|i id|i id|i]; cbn [cexec sized] in *.
  - by apply (route_refines _ _ _ _ (OpPut key v) k c w ac).
  - by apply (route_refines _ _ _ _ (OpErase key) k c w ac).
  - by apply (route_refines _ _ _ _ (OpGet key) k c w ac).
  - by apply (if_shard_refines _ _ _ (OpFail id) k c w ac).
  - by apply (if_shard_refines _ _ _ (OpRecover id) k c w ac).
  - by apply (if_shard_refines _ _ _ OpElect k c w ac).
Qed.

Lemma crun_refines ops k c w ac :
  crefines k c ac -> Z.of_nat (k + length ops) <= int64_max -> (1 <= length c)%nat ->
  Forall sized ops ->
  exists c' w' l ac', crun ops (c, w) = ((c', w'), Ok <$> l) /\ abs_crun ac ops l ac' /\
    crefines (k + length ops) c' ac'.
Proof.
  revert k c w ac. induction ops as [|op ops IH]; intros k c w ac Hr Hk Hc Hs.
  - exists c, w, [], ac. rewrite Nat.add_0_r. split_and!; [done|constructor|done].
  - apply Forall_cons in Hs as [Hop Hs]. simpl in Hk.
    destruct (cexec_refines op k c w ac Hr) as (c1 & w1 & ans & ac1 & Hrun & Hst & Hr1 & Hl); [lia|done..|].
    destruct (IH (Datatypes.S k) c1 w1 ac1 Hr1) as (c2 & w2 & l & ac2 & Hrun2 & Hst2 & Hr2); [lia|lia|done|].
    exists c2, w2, (ans :: l), ac2. cbn [crun]. rewrite Hrun, Hrun2. split_and!; [done|by econstructor|].
    simpl. by rewrite Nat.add_succ_r.
Qed.

(** ** The first start *)

(** The abstract cluster once every shard has elected a leader. *)
Definition abs_cnew (n : nat) (ids : list nat) (ac : list AbsShard) : Prop :=
  Forall2 (fun i a => abs_elect (abs_new (Z.of_nat i) n) true a) ids ac.

Lemma build_shards_refines n ids w :
  (1 <= n)%nat ->
  exists c w' ac, build_shards (S := Tables) ids n (fun _ => empty_tables) w = (w', Ok c) /\
    abs_cnew n ids ac /\ crefines 0 c ac /\ length c = length ids.
Proof.
  intros Hn. revert w. induction ids as [|i ids IH]; intros w; simpl.
  - exists [], w, []. split_and!; try done. constructor.
  - assert (Hlen : length (sh_replicas (fresh_shard (Z.of_nat i) n)) = n)
      by (simpl; by rewrite length_fmap, length_seq).
    destruct (new_refines [] (fresh_shard (Z.of_nat i) n) (fun _ => empty_tables) w ∅)
      as (sh & w1 & a & Hrun & Hel & Hr & Hmt).
    + by apply fresh_inv.
    + split; [done|]. by rewrite fresh_max_term.
    + by rewrite Hlen.
    + done.
    + by intros j r ->%fresh_lookup.
    + rewrite Hlen in *. rewrite fresh_max_term in Hmt. simpl in Hrun.
      destruct (IH w1) as (c & w2 & ac & Hrun2 & Hel2 & [Hcl Hcs] & Hl).
      rewrite (bind_ok _ _ _ _ _ Hrun), (bind_ok _ _ _ _ _ Hrun2).
      exists (sh :: c), w2, (a :: ac). split_and!; [done|by constructor| |simpl; congruence].
      split; [simpl; congruence|]. intros [|j] y Hj; simpl in *.
      * injection Hj as <-. exists [], a. split_and!; try done. lia.
      * by apply Hcs.
Qed.

Lemma chistory_tables m n ops :
  (1 <= m)%nat -> (1 <= n)%nat -> Z.of_nat (length ops) <= int64_max -> Forall sized ops ->
  exists c w l ac0 ac, chistory (S := Tables) m n (fun _ => empty_tables) ops = Ok ((c, w), Ok <$> l) /\
    abs_cnew n (seq 0 m) ac0 /\ abs_crun ac0 ops l ac /\ crefines (length ops) c ac.
Proof.
  intros Hm Hn Hk Hs. unfold chistory, Cluster_new. rewrite (proj2 (Nat.ltb_ge _ _)) by done.
  destruct (build_shards_refines n (seq 0 m) {| w_metrics := zero_metrics; w_log := [] |} Hn)
    as (c & w & ac & -> & Hel & Hr & Hl). rewrite length_seq in Hl.
  destruct (crun_refines ops 0 c w ac) as (c' & w' & l & ac' & -> & Habs & Hr'); try done; [lia|].
  by exists c', w', l, ac, ac'.
Qed.

(** ** Any store *)

Section simulated.
Context {S : Type} `{StoreSpec S}.

Lemma answer_sim {A} f (m1 : M (Cluster S * World) A) (m2 : M (Cluster Tables * World) A) :
  sim cluster_rel m1 m2 -> sim cluster_rel (answer f m1) (answer f m2).
Proof. intros Hm. apply sim_bind; [done|]. intros x. apply sim_ret. Qed.

Lemma cexec_sim op : sim (cluster_rel (S := S)) (cexec op) (cexec op).
Proof.
  destruct op; apply answer_sim; first [apply route_sim|apply if_shard_sim].
  - apply replicate_command_sim.
  - apply replicate_command_sim.
  - apply shard_get_sim.
  - apply fail_replica_sim.
  - apply recover_replica_sim.
  - apply ensure_leader_sim.
Qed.

Lemma crun_sim ops s1 s2 :
  cluster_rel (S := S) s1 s2 ->
  exists s1' s2' l, crun ops s1 = (s1', l) /\ crun ops s2 = (s2', l) /\ cluster_rel s1' s2'.
Proof.
  revert s1 s2. induction ops as [|op ops IH]; intros s1 s2 Hs; simpl; [by eexists _, _, _|].
  destruct (cexec_sim op s1 s2 Hs) as (t1 & t2 & a & -> & -> & Ht).
  destruct (IH t1 t2 Ht) as (u1 & u2 & l & -> & -> & Hu). by eexists _, _, _.
Qed.

Lemma build_shards_sim ids n (disk : string -> st_file (S := S)) (tdisk : string -> Tables) w :
  (forall path, file_holds (disk path) (tdisk path)) ->
  (exists c1 c2 w', build_shards (S := S) ids n disk w = (w', Ok c1) /\
     build_shards (S := Tables) ids n tdisk w = (w', Ok c2) /\ Forall2 (shard_rel holds) c1 c2) \/
  (exists w' e, build_shards (S := S) ids n disk w = (w', Throw e) /\
     build_shards (S := Tables) ids n tdisk w = (w', Throw e)).
Proof.
  intros Hd. revert w. induction ids as [|i ids IH]; intros w; simpl; [left; by eexists [], [], w|].
  destruct (Shard_new_sim (Z.of_nat i) n disk tdisk w) as [(s1 & s2 & w1 & E1 & E2 & Hs)|(w1 & e & E1 & E2)];
    [done|..].
  - rewrite (bind_ok _ _ _ _ _ E1), (bind_ok _ _ _ _ _ E2).
    destruct (IH w1) as [(c1 & c2 & w2 & F1 & F2 & Hc)|(w2 & e & F1 & F2)].
    + left. rewrite (bind_ok _ _ _ _ _ F1), (bind_ok _ _ _ _ _ F2).
      eexists _, _, _. split; [done|]. split; [done|]. by constructor.
    + right. rewrite (bind_throw _ _ _ _ _ F1), (bind_throw _ _ _ _ _ F2). eauto.
  - right. rewrite (bind_throw _ _ _ _ _ E1), (bind_throw _ _ _ _ _ E2). eauto.
Qed.

(** Histories of the cluster on an empty directory. *)
Lemma chistory_refines m n (disk : string -> st_file (S := S)) ops :
  (1 <= m)%nat -> (1 <= n)%nat -> empty_directory disk ->
  Z.of_nat (length ops) <= int64_max -> Forall sized ops ->
  exists s l ac0 ac c, chistory m n disk ops = Ok (s, Ok <$> l) /\
    abs_cnew n (seq 0 m) ac0 /\ abs_crun ac0 ops l ac /\
    Forall2 (shard_rel holds) s.1 c /\ crefines (length ops) c ac.
Proof.
  intros Hm Hn Hd Hk Hs.
  destruct (chistory_tables m n ops Hm Hn Hk Hs) as (c & w & l & ac0 & ac & Hh & Hnew & Habs & Hr).
  unfold chistory, Cluster_new in *. rewrite (proj2 (Nat.ltb_ge _ _)) in * by done.
  destruct (build_shards_sim (seq 0 m) n disk (fun _ => empty_tables)
    {| w_metrics := zero_metrics; w_log := [] |} Hd)
    as [(c1 & c2 & w' & E1 & E2 & Hc)|(w' & e & E1 & E2)]; rewrite E2 in Hh; [|done].
  rewrite E1. injection Hh as Hrun.
  destruct (crun_sim ops (c1, w') (c2, w')) as (s1 & s2 & l' & -> & F & [Hc' _]); [done|].
  rewrite Hrun in F. injection F as <- <-. by exists s1, l, ac0, ac, c.
Qed.
End simulated.
