(* ===== verification/ClusterProperties.v ===== *)
(** * Runs of the abstract cluster

    What a put sets and a get reads, and what the operations in between leave
    alone. *)

From S2P Require Import Prelude CppStd Common Sqlite Store LogFacts SqliteStore SqliteStoreProofs Raft RaftProofs Metrics Shard ShardFacts ShardInv Election Replication ShardOps Restart ShardSystem ShardSpec ShardTheorems ShardProperties Cluster ClusterSpec.

#[local] Open Scope Z_scope.

(** The operation does not write the key. *)
Definition cleaves (key : string) (op : COp) : Prop :=
  match op with
  | CPut k _ | CErase k => c_str k <> c_str key
  | _ => True
  end.

Lemma target_leaves key n op i sop : target n op = Some (i, sop) -> cleaves key op -> leaves key sop.
Proof. destruct op; simpl; intros E Hl; try case_match; by simplify_eq. Qed.

Lemma abs_cstep_length c op ans c' : abs_cstep c op ans c' -> length c' = length c.
Proof. intros []; [by rewrite length_insert|done]. Qed.

Lemma abs_crun_length c ops l c' : abs_crun c ops l c' -> length c' = length c.
Proof. induction 1 as [|????????? IH]; [done|]. rewrite IH. by eapply abs_cstep_length. Qed.

(** What shard [i] maps the key to. *)
Definition value_at (c : list AbsShard) (i : nat) (key : string) : option string :=
  a ← c !! i; a_map a !! c_str key.

Lemma abs_cstep_leaves key c op ans c' i :
  abs_cstep c op ans c' -> cleaves key op -> value_at c' i key = value_at c i key.
Proof.
  intros [j sop a ans' a' Ht Hj Hst|] Hl; [|done]. unfold value_at.
  destruct (decide (i = j)) as [->|Hne]; [|by rewrite list_lookup_insert_ne].
  rewrite list_lookup_insert_eq by (by eapply lookup_lt_Some). rewrite Hj. simpl.
  eapply abs_step_leaves; [done|]. by eapply target_leaves.
Qed.

Lemma abs_crun_leaves key c ops l c' i :
  abs_crun c ops l c' -> Forall (cleaves key) ops -> value_at c' i key = value_at c i key.
Proof.
  induction 1 as [|c op ans c1 ops l c2 Hst _ IH]; intros Hl; [done|].
  apply Forall_cons in Hl as [Hop Hl]. rewrite IH by done. by eapply abs_cstep_leaves.
Qed.

Lemma abs_crun_app c ops1 ops2 l c' :
  abs_crun c (ops1 ++ ops2) l c' ->
  exists l1 l2 c1, l = l1 ++ l2 /\ abs_crun c ops1 l1 c1 /\ abs_crun c1 ops2 l2 c' /\
                   length l1 = length ops1.
Proof.
  revert c l. induction ops1 as [|op ops1 IH]; intros c l Hr.
  - exists [], l, c. split_and!; try done. constructor.
  - inversion Hr as [|? ? ans c1 ? l' ? Hst Hr']; subst.
    destruct (IH c1 l' Hr') as (l1 & l2 & c2 & -> & H1 & H2 & Hl).
    exists (ans :: l1), l2, c2. split_and!; [done|by econstructor|done|simpl; lia].
Qed.

(** The shard of a key among [n]. *)
Definition home (key : string) (n : nat) : nat := Z.to_nat (fnv1a_64 key mod Z.of_nat n).

(** An acknowledged put sets the value. *)
Lemma abs_put_sets c key value res c' :
  abs_cstep c (CPut key value) (AResult res) c' -> res_ok res = true ->
  value_at c' (home key (length c)) key = Some value.
Proof.
  intros Hput Hok. inversion Hput as [i0 sop0 a0 ans0 a1 Ht0 Hi0 Hst0|]; subst ans0.
  injection Ht0 as <- <-. inversion Hst0 as [? ? ? ? Hcmd| | | | | | | |]; subst. unfold value_at, home.
  rewrite list_lookup_insert_eq by (eapply lookup_lt_Some; exact Hi0). simpl.
  destruct Hcmd as [x Hx|x Hx|x Hx]; try done. simpl. by rewrite lookup_insert_eq.
Qed.

(** A read that is served returns the value. *)
Lemma abs_get_reads c key ans c' value :
  abs_cstep c (CGet key) ans c' -> value_at c (home key (length c)) key = Some value ->
  exists res, ans = AResult res /\ (res_status res <> 503 ->
    res_status res = 200 /\ res_ok res = true /\ res_value res = value).
Proof.
  intros Hst Hval. inversion Hst as [i sop a ans' a' Ht Hi Hst'|Ht]; [|done]; subst ans'.
  injection Ht as <- <-. inversion Hst' as [| |? b ? Hel| | | | | |]; subst.
  eexists. split; [done|]. unfold value_at, home in Hval. rewrite Hi in Hval. simpl in Hval.
  unfold abs_read. destruct b; [|done]. apply abs_elect_map in Hel as (Hmap & _).
  unfold read_result. intros _. by rewrite Hmap, Hval.
Qed.

(** A put that was acknowledged, operations that leave the key alone, a read. *)
Lemma abs_put_get c key value res ops l c1 c2 ans c3 :
  abs_cstep c (CPut key value) (AResult res) c1 -> res_ok res = true ->
  abs_crun c1 ops l c2 -> Forall (cleaves key) ops -> abs_cstep c2 (CGet key) ans c3 ->
  exists res', ans = AResult res' /\ (res_status res' <> 503 ->
    res_status res' = 200 /\ res_ok res' = true /\ res_value res' = value).
Proof.
  intros Hput Hok Hrun Hl Hget. eapply abs_get_reads; [exact Hget|].
  rewrite (abs_crun_leaves _ _ _ _ _ _ Hrun Hl), (abs_crun_length _ _ _ _ Hrun), (abs_cstep_length _ _ _ _ Hput).
  by eapply abs_put_sets.
Qed.
