(* ===== verification/ClusterRestart.v ===== *)
(** * Restarts of the process

    When the process ends, every replica closes its database; a new process that
    is started with the same data directory and the same counts builds the
    cluster from the files.  A history of a cluster may contain any number of
    such restarts. *)

From S2P Require Import Prelude CppStd Common Sqlite Store LogFacts SqliteStore SqliteStoreProofs Raft RaftProofs Metrics Shard ShardFacts ShardInv Election Replication ShardOps Restart ShardSystem ShardSpec ShardTheorems ShardProperties ShardRecovery Cluster ClusterSpec ClusterProperties.

From Stdlib Require Import Ascii.

#[local] Open Scope Z_scope.

(** ** The system *)

Inductive SOp :=
  | SRun (op : COp)
  | SRestart.

Section system.
Context {S : Type} `{Store S}.

(** The cluster, what it shares with the process, and the data directory. *)
Record CSys := { cy_state : Cluster S * World; cy_disk : string -> st_file (S := S) }.

(** The databases of all shards are in one directory. *)
Definition csaved (disk : string -> st_file (S := S)) (c : Cluster S) : string -> st_file (S := S) := fun path =>
  match list_find (fun r => db_file r = path) (concat (sh_replicas <$> c)) with
  | Some (_, r) => st_close (r_store r)
  | None => disk path
  end.

(** A new process, with fresh metrics. *)
Definition crestart (shards replicas : nat) : M CSys unit := fun s =>
  let disk := csaved (cy_disk s) (cy_state s).1 in
  let w := {| w_metrics := zero_metrics; w_log := w_log (cy_state s).2 |} in
  match Cluster_new shards replicas disk w with
  | (w', Ok c) => ({| cy_state := (c, w'); cy_disk := disk |}, Ok tt)
  | (w', Throw e) => ({| cy_state := ((cy_state s).1, w'); cy_disk := disk |}, Throw e)
  end.

Definition sexec (shards replicas : nat) (op : SOp) : M CSys Answer := fun s =>
  match op with
  | SRun op =>
      let '(st, a) := cexec op (cy_state s) in ({| cy_state := st; cy_disk := cy_disk s |}, a)
  | SRestart => (crestart shards replicas ;; mret ADone) s
  end.

Fixpoint srun (shards replicas : nat) (ops : list SOp) (s : CSys) : CSys * list (result Answer) :=
  match ops with
  | [] => (s, [])
  | op :: ops' =>
      let '(s', a) := sexec shards replicas op s in
      let '(s'', l) := srun shards replicas ops' s' in (s'', a :: l)
  end.

(** A history from the first start on. *)
Definition shistory (shards replicas : nat) (disk : string -> st_file (S := S)) (ops : list SOp)
    : result (CSys * list (result Answer)) :=
  match Cluster_new shards replicas disk {| w_metrics := zero_metrics; w_log := [] |} with
  | (w, Ok c) => Ok (srun shards replicas ops {| cy_state := (c, w); cy_disk := disk |})
  | (_, Throw e) => Throw e
  end.
End system.
Arguments CSys S {_}.

(** ** The abstract cluster *)

(** After a restart every replica is online, every shard elects a leader, and the
    maps are what they were. *)
Inductive abs_sstep (ac : list AbsShard) : SOp -> Answer -> list AbsShard -> Prop :=
  | sstep_run op ans ac' : abs_cstep ac op ans ac' -> abs_sstep ac (SRun op) ans ac'
  | sstep_restart ac' :
      Forall2 (fun a a' => abs_elect (abs_reset a) true a') ac ac' -> abs_sstep ac SRestart ADone ac'.

Inductive abs_srun : list AbsShard -> list SOp -> list Answer -> list AbsShard -> Prop :=
  | abs_srun_nil ac : abs_srun ac [] [] ac
  | abs_srun_cons ac op ans ac' ops l ac'' :
      abs_sstep ac op ans ac' -> abs_srun ac' ops l ac'' -> abs_srun ac (op :: ops) (ans :: l) ac''.

Definition ssized (op : SOp) : Prop := match op with SRun op => sized op | SRestart => True end.

(** ** Shapes *)

(** Shard [i] has the number [i], and [n] replicas. *)
Definition shaped (n : nat) (ac : list AbsShard) : Prop :=
  forall i a, ac !! i = Some a -> a_id a = Z.of_nat i /\ length (a_online a) = n.

Lemma shaped_cstep n ac op ans ac' : shaped n ac -> abs_cstep ac op ans ac' -> shaped n ac'.
Proof.
  intros Hs [i sop a ans' a' Ht Hi Hst|]; [|done]. intros j x Hj.
  apply list_lookup_insert_Some in Hj as [(-> & <- & _)|[_ Hj]]; [|by apply Hs].
  destruct (abs_step_shape _ _ _ _ Hst) as [-> ->]. by apply Hs.
Qed.

Lemma shaped_new n m ac : abs_cnew n (seq 0 m) ac -> shaped n ac.
Proof.
  intros Hnew i a Hi. destruct (Forall2_lookup_r _ _ _ _ _ Hnew Hi) as (j & Hj & Hel).
  apply lookup_seq in Hj as [-> _]. apply abs_elect_map in Hel as (_ & -> & ->). simpl.
  by rewrite length_replicate.
Qed.

(** ** Names *)

Lemma digits_split a a' b b' :
  all_digits a = true -> all_digits a' = true -> a +:+ String "-" b = a' +:+ String "-" b' -> a = a' /\ b = b'.
Proof.
  revert a'. induction a as [|c a IH]; intros [|c' a'] Ha Ha' E; simpl in *.
  - by injection E.
  - injection E as <- _. done.
  - injection E as -> _. done.
  - apply andb_true_iff in Ha as [_ Ha], Ha' as [_ Ha']. injection E as -> E.
    destruct (IH a' Ha Ha' E) as [-> ->]. done.
Qed.

Lemma replica_name_inj2 s s' i i' :
  0 <= s -> 0 <= s' -> replica_name s i = replica_name s' i' -> s = s' /\ i = i'.
Proof.
  intros Hs Hs' E. unfold replica_name in E. apply string_app_inj_l in E.
  assert (Hd : forall z, 0 <= z -> all_digits (to_string z) = true).
  { intros z Hz. unfold to_string. rewrite (proj2 (Z.ltb_ge _ _)) by done. by apply digits_all. }
  apply (digits_split (to_string s) (to_string s') ("r" +:+ to_string (Z.of_nat i)) ("r" +:+ to_string (Z.of_nat i')))
    in E as [E1 E2]; [|by apply Hd..].
  apply to_string_inj in E1. apply string_app_inj_l in E2. apply to_string_inj in E2. split; [done|lia].
Qed.

(** ** Restarts on the tables *)

(** What [crefines] says of each shard. *)
Definition shard_refines (k : nat) (sh : SH) (a : AbsShard) : Prop :=
  exists G, refines G sh a /\ (length G <= k)%nat /\ max_term sh <= Z.of_nat k + 1.

Lemma crefines_Forall2 k c ac : crefines k c ac <-> Forall2 (shard_refines k) c ac.
Proof.
  split.
  - intros [Hl Hs]. apply Forall2_same_length_lookup_2; [done|]. intros i sh a Hi Ha.
    destruct (Hs i sh Hi) as (G & a' & Ha' & H1 & H2). simplify_eq. by exists G.
  - intros Hf. split; [symmetry; by eapply Forall2_length|]. intros i sh Hi.
    destruct (Forall2_lookup_l _ _ _ _ _ Hf Hi) as (a & Ha & G & H1 & H2). by exists G, a.
Qed.

(** The files the shards leave. *)
Definition holds_files (disk : string -> Tables) (c : Cluster Tables) : Prop :=
  forall i sh j r, c !! i = Some sh -> sh_replicas sh !! j = Some r ->
    disk (replica_name (sh_id sh) j +:+ ".db") = r_store r.

Lemma csaved_lookup k n (c : Cluster Tables) ac disk :
  crefines k c ac -> shaped n ac -> holds_files (csaved (S := Tables) disk c) c.
Proof.
  intros [Hlen Hsh] Hs i sh j r Hi Hj. unfold csaved.
  assert (Hid : forall x y, c !! x = Some y -> sh_id y = Z.of_nat x /\ exists G, inv G y).
  { intros x y Hx. destruct (Hsh x y Hx) as (G & a & Ha & [Hinv Hida _ _ _] & _).
    split; [rewrite <- Hida; by apply Hs|eauto]. }
  destruct (Hid i sh Hi) as [Ei [G Hinv]]. rewrite Ei.
  destruct (list_find _ _) as [[p r']|] eqn:E.
  - apply list_find_Some in E as (Hp & E & _). apply list_elem_of_lookup_2 in Hp.
    apply list_elem_of_In, in_concat in Hp as (rs & Hrs & Hr').
    apply list_elem_of_In, list_elem_of_fmap in Hrs as (y & -> & Hy).
    apply list_elem_of_lookup in Hy as [x Hx]. apply list_elem_of_In, list_elem_of_lookup in Hr' as [j' Hj'].
    destruct (Hid x y Hx) as [Ex [G' Hinv']]. unfold db_file in E. apply string_app_inj_r in E.
    rewrite (inv_ids G' y Hinv' j' r' Hj'), Ex in E.
    apply replica_name_inj2 in E as [Exi ->]; [|lia..]. assert (x = i) as -> by lia. simpl. congruence.
  - apply list_find_None in E. rewrite Forall_forall in E. exfalso. apply (E r).
    + apply list_elem_of_In, in_concat. exists (sh_replicas sh). split.
      * apply list_elem_of_In, list_elem_of_fmap. exists sh. split; [done|]. apply list_elem_of_lookup. eauto.
      * apply list_elem_of_In, list_elem_of_lookup. eauto.
    + unfold db_file. by rewrite (inv_ids G sh Hinv j r Hj), Ei.
Qed.

Lemma build_restart n disk k cs acs off w :
  Forall2 (shard_refines k) cs acs -> (1 <= n)%nat -> Z.of_nat k < int64_max ->
  (forall i a, acs !! i = Some a -> a_id a = Z.of_nat (off + i) /\ length (a_online a) = n) ->
  holds_files disk cs ->
  exists c' w' acs', build_shards (S := Tables) (seq off (length cs)) n disk w = (w', Ok c') /\
    Forall2 (fun a a' => abs_elect (abs_reset a) true a') acs acs' /\ Forall2 (shard_refines (S k)) c' acs'.
Proof.
  intros Hf Hn Hk. revert off w. induction Hf as [|sh a cs acs (G & Hr & Hl & Hmt) Hf IH]; intros off w Hs Hd.
  - exists [], w, []. split_and!; [done|constructor|constructor].
  - destruct (Hs 0%nat a eq_refl) as [Hid Hon]. rewrite Nat.add_0_r in Hid.
    pose proof (refines_count G sh a Hr) as Hcount. pose proof Hr as [Hinv Hida Hmap _ _].
    destruct (new_refines G sh disk w (a_map a)) as (sh' & w1 & a' & Hrun & Hel & Hr' & Hmt'); try done.
    { split; lia. }
    { lia. }
    { intros i r Hi. by apply (Hd 0%nat). }
    assert (Hreset : abs_elect (abs_reset a) true a').
    { unfold abs_reset, a_with_leader, a_with_online. simpl. by rewrite Hida, Hcount. }
    rewrite <- Hida, Hid, <- Hcount, Hon in Hrun.
    destruct (IH (S off) w1) as (c' & w2 & acs' & Hrun2 & Hel2 & Hr2).
    { intros i x Hx. rewrite Nat.add_succ_l, <- Nat.add_succ_r. by apply (Hs (S i)). }
    { intros i y j r Hy. by apply (Hd (S i)). }
    exists (sh' :: c'), w2, (a' :: acs'). cbn [length seq build_shards].
    rewrite (bind_ok _ _ _ _ _ Hrun), (bind_ok _ _ _ _ _ Hrun2). split_and!; [done|by constructor|].
    constructor; [|done]. exists G. split_and!; [done|lia|lia].
Qed.

Lemma shaped_restart n ac ac' :
  shaped n ac -> Forall2 (fun a a' => abs_elect (abs_reset a) true a') ac ac' -> shaped n ac'.
Proof.
  intros Hs Hf i a' Hi. destruct (Forall2_lookup_r _ _ _ _ _ Hf Hi) as (a & Ha & Hel).
  apply abs_elect_map in Hel as (_ & -> & ->). simpl. rewrite length_replicate. by apply Hs.
Qed.

Lemma srun_refines n ops k c w disk ac :
  crefines k c ac -> shaped n ac -> (1 <= n)%nat -> (1 <= length c)%nat ->
  Z.of_nat (k + length ops) <= int64_max -> Forall ssized ops ->
  exists s l ac', srun (length c) n ops {| cy_state := (c, w); cy_disk := disk |} = (s, Ok <$> l) /\
    abs_srun ac ops l ac' /\ crefines (k + length ops) (cy_state s).1 ac' /\ shaped n ac'.
Proof.
  revert k c w disk ac. induction ops as [|op ops IH]; intros k c w disk ac Hr Hsh Hn Hc Hk Hs.
  - eexists _, [], ac. rewrite Nat.add_0_r. split_and!; [done|constructor|done|done].
  - apply Forall_cons in Hs as [Hop Hs]. cbn [length] in Hk.
    assert (Hstep : exists c1 w1 disk1 ans ac1,
      sexec (length c) n op {| cy_state := (c, w); cy_disk := disk |} =
        ({| cy_state := (c1, w1); cy_disk := disk1 |}, Ok ans) /\
      abs_sstep ac op ans ac1 /\ crefines (S k) c1 ac1 /\ length c1 = length c /\ shaped n ac1).
    { destruct op as [op|]; simpl in Hop.
      - destruct (cexec_refines op k c w ac Hr) as (c1 & w1 & ans & ac1 & Hrun & Hst & Hr1 & Hl); [lia|done..|].
        eexists c1, w1, disk, ans, ac1. unfold sexec. cbn [cy_state cy_disk]. rewrite Hrun.
        split_and!; [done|by constructor|done|done|by eapply shaped_cstep].
      - destruct (build_restart n (csaved disk c) k c ac 0 {| w_metrics := zero_metrics; w_log := w_log w |})
          as (c1 & w1 & ac1 & Hrun & Hel & Hf); [by apply crefines_Forall2|done|lia|done|by eapply csaved_lookup|].
        eexists c1, w1, _, ADone, ac1. unfold sexec, crestart, Cluster_new, mbind, M_bind. cbn [cy_state cy_disk fst snd].
        rewrite (proj2 (Nat.ltb_ge _ _)) by done. simpl in Hrun. rewrite Hrun. split_and!; [done|by constructor|by apply crefines_Forall2| |by eapply shaped_restart].
        by rewrite (Forall2_length _ _ _ Hf), <- (Forall2_length _ _ _ Hel), (cr_length _ _ _ Hr). }
    destruct Hstep as (c1 & w1 & disk1 & ans & ac1 & Hrun & Hst & Hr1 & Hl & Hsh1).
    destruct (IH (S k) c1 w1 disk1 ac1 Hr1 Hsh1 Hn) as (s & l & ac2 & Hrun2 & Hst2 & Hr2 & Hsh2); [lia|lia|done|].
    exists s, (ans :: l), ac2. cbn [srun]. rewrite Hrun. rewrite <- Hl, Hrun2.
    split_and!; [done|by econstructor| |done]. simpl. by rewrite Nat.add_succ_r.
Qed.

(** ** Any store *)

Section simulated.
Context {S : Type} `{StoreSpec S}.

Lemma concat_rel (c1 : Cluster S) c2 :
  Forall2 (shard_rel holds) c1 c2 ->
  Forall2 (rep_rel holds) (concat (sh_replicas <$> c1)) (concat (sh_replicas <$> c2)).
Proof.
  induction 1 as [|s1 s2 c1 c2 (_ & _ & Hr) _ IH]; [constructor|]. cbn [fmap list_fmap concat].
  by apply Forall2_app.
Qed.

Lemma csaved_sim disk tdisk (c1 : Cluster S) c2 path :
  Forall2 (shard_rel holds) c1 c2 -> file_holds (disk path) (tdisk path) ->
  file_holds (csaved disk c1 path) (csaved (S := Tables) tdisk c2 path).
Proof.
  intros Hc Hd. unfold csaved. induction (concat_rel c1 c2 Hc) as [|x y l1 l2 Hxy _ IH]; [done|].
  pose proof (rep_rel_fields _ _ _ Hxy) as (Hid & _). cbn [list_find]. unfold db_file in *.
  rewrite Hid. case_decide; [apply close_holds, Hxy|].
  destruct (list_find _ l1) as [[]|], (list_find _ l2) as [[]|]; exact IH.
Qed.

(** Systems whose stores and files hold the same tables. *)
Record csys_rel (s1 : CSys S) (s2 : CSys Tables) : Prop := {
  cyr_state : cluster_rel (cy_state s1) (cy_state s2);
  cyr_disk path : file_holds (cy_disk s1 path) (cy_disk s2 path);
}.

Lemma Cluster_new_sim m n (disk : string -> st_file (S := S)) (tdisk : string -> Tables) w :
  (forall path, file_holds (disk path) (tdisk path)) ->
  (exists c1 c2 w', Cluster_new (S := S) m n disk w = (w', Ok c1) /\
     Cluster_new (S := Tables) m n tdisk w = (w', Ok c2) /\ Forall2 (shard_rel holds) c1 c2) \/
  (exists w' e, Cluster_new (S := S) m n disk w = (w', Throw e) /\
     Cluster_new (S := Tables) m n tdisk w = (w', Throw e)).
Proof.
  intros Hd. unfold Cluster_new. destruct (m <? 1)%nat; [right; by eexists _, _|].
  by apply build_shards_sim.
Qed.

Lemma sexec_sim m n op : sim csys_rel (sexec m n op) (sexec m n op).
Proof.
  intros [[c1 w1] d1] [[c2 w2] d2] [[Hc Hw] Hd]. simpl in *. subst w2. destruct op as [op|]; unfold sexec.
  - cbn [cy_state cy_disk].
    destruct (cexec_sim op (c1, w1) (c2, w1)) as (t1 & t2 & a & -> & -> & Ht); [by split|].
    eexists _, _, _. split; [done|]. split; [done|]. by split.
  - unfold crestart, mbind, M_bind. cbn [cy_state cy_disk fst snd].
    assert (Hd' : forall path, file_holds (csaved d1 c1 path) (csaved (S := Tables) d2 c2 path))
      by (intros; by apply csaved_sim).
    destruct (Cluster_new_sim m n (csaved d1 c1) (@csaved Tables TablesStore d2 c2)
      {| w_metrics := zero_metrics; w_log := w_log w1 |} Hd')
      as [(t1 & t2 & w' & -> & E & Ht)|(w' & e & -> & E)]; rewrite E;
      (eexists _, _, _; split; [done|]; split; [done|]; by split).
Qed.

Lemma srun_sim m n ops s1 s2 :
  csys_rel s1 s2 ->
  exists s1' s2' l, srun m n ops s1 = (s1', l) /\ srun m n ops s2 = (s2', l) /\ csys_rel s1' s2'.
Proof.
  revert s1 s2. induction ops as [|op ops IH]; intros s1 s2 Hs; simpl; [by eexists _, _, _|].
  destruct (sexec_sim m n op s1 s2 Hs) as (t1 & t2 & a & -> & -> & Ht).
  destruct (IH t1 t2 Ht) as (u1 & u2 & l & -> & -> & Hu). by eexists _, _, _.
Qed.

Lemma shistory_refines m n (disk : string -> st_file (S := S)) ops :
  (1 <= m)%nat -> (1 <= n)%nat -> empty_directory disk ->
  Z.of_nat (length ops) <= int64_max -> Forall ssized ops ->
  exists s l ac0 ac c, shistory m n disk ops = Ok (s, Ok <$> l) /\
    abs_cnew n (seq 0 m) ac0 /\ abs_srun ac0 ops l ac /\
    Forall2 (shard_rel holds) (cy_state s).1 c /\ crefines (length ops) c ac /\ length ac = m.
Proof.
  intros Hm Hn Hd Hk Hs. unfold shistory.
  destruct (Cluster_new_sim m n disk (fun _ => empty_tables) {| w_metrics := zero_metrics; w_log := [] |} Hd)
    as [(c1 & c2 & w & -> & E & Hc)|(w & e & _ & E)]; unfold Cluster_new in E;
    rewrite (proj2 (Nat.ltb_ge _ _)) in E by done;
    destruct (build_shards_refines n (seq 0 m) {| w_metrics := zero_metrics; w_log := [] |} Hn)
      as (c & w' & ac0 & E' & Hnew & Hr & Hl); rewrite length_seq in Hl; rewrite E' in E; [|done].
  injection E as <- <-.
  destruct (srun_refines n ops 0 c w' (fun _ => empty_tables) ac0 Hr (shaped_new _ _ _ Hnew) Hn)
    as (s2 & l & ac & Hrun & Habs & Hr2 & _); [lia|done|done|]. rewrite Hl in Hrun.
  destruct (srun_sim m n ops {| cy_state := (c1, w'); cy_disk := disk |}
    (@Build_CSys Tables TablesStore (c, w') (fun _ => empty_tables))) as (s1' & s2' & l' & E1 & E2 & [[Hst _] _]);
    [by split|]. rewrite Hrun in E2. injection E2 as <- <-.
  exists s1', l, ac0, ac, (cy_state s2).1. split_and!; try done; [by rewrite E1|].
  clear -Habs Hnew. assert (Hl : length ac = length ac0).
  { clear Hnew. induction Habs as [|ac op ans ac1 ops l ac2 Hst _ IH]; [done|]. rewrite IH.
    destruct Hst as [op ans ac' Hst|ac' Hf]; [by eapply abs_cstep_length|symmetry; by eapply Forall2_length]. }
  rewrite Hl. by rewrite <- (Forall2_length _ _ _ Hnew), length_seq.
Qed.
End simulated.

(** ** The properties of a cluster *)

(** C16: a cluster on the SQLite store refines a list of independent maps.
    From an empty directory, every operation of any sequence of operations and
    restarts of the process answers without an exception or undefined behaviour
    (in particular no shard index is out of range), an operation on a key is one
    of the shard selected by its hash, an operation on a shard number one of that
    shard or refused, no operation affects another shard, and a restart keeps all
    maps. *)
Theorem sqlite_cluster_refines {SQL : Sqlite} {SPEC : SqliteSpec SQL} {REL : SqliteReliable SQL}
    (m n : nat) (disk : string -> sqlite3_file) (ops : list SOp) :
  (1 <= m)%nat -> (1 <= n)%nat -> (forall path, file_tables (disk path) = empty_tables) ->
  Z.of_nat (length ops) <= int64_max -> Forall ssized ops ->
  exists s l ac0 ac, shistory (S := sqlite3) m n disk ops = Ok (s, Ok <$> l) /\
    abs_cnew n (seq 0 m) ac0 /\ abs_srun ac0 ops l ac /\ length (cy_state s).1 = m.
Proof.
  intros Hm Hn Hd Hk Hs.
  destruct (@shistory_refines sqlite3 SqliteStore SqliteStoreSpec m n disk ops Hm Hn)
    as (s & l & ac0 & ac & c & Hh & Hnew & Habs & Hc & Hr & Hl); [|done..|].
  { intros path. split; [apply Hd|apply text_ok_empty]. }
  exists s, l, ac0, ac. split_and!; try done.
  by rewrite (Forall2_length _ _ _ Hc), <- (cr_length _ _ _ Hr).
Qed.

(** Two shards of three replicas, and two restarts. *)
Definition demo_sops : list SOp :=
  [SRun (CPut "alpha" "1"); SRun (CPut "beta" "2"); SRun (CFail 0 "s0-r0"); SRestart; SRun (CElect 7);
   SRun (CRecover 0 "s0-r0"); SRun (CErase "beta"); SRestart].

Definition demo_sstate (ops : list SOp) : CSys MemDb :=
  match shistory (S := MemDb) 2 3 mem_disk ops with
  | Ok (s, _) => s
  | Throw _ => {| cy_state := ([], {| w_metrics := zero_metrics; w_log := [] |}); cy_disk := mem_disk |}
  end.
Definition demo_sanswers (ops : list SOp) : list (result Answer) :=
  match shistory (S := MemDb) 2 3 mem_disk ops with Ok (_, l) => l | Throw _ => [] end.

Lemma demo_sops_sized : Forall ssized demo_sops.
Proof. repeat constructor; done. Qed.

Lemma demo_shistory_ok :
  shistory (S := MemDb) 2 3 mem_disk demo_sops = Ok (demo_sstate demo_sops, demo_sanswers demo_sops).
Proof.
  unfold demo_sstate, demo_sanswers.
  destruct (shistory_refines (S := MemDb) 2 3 mem_disk demo_sops) as (s & l & ac0 & ac & c & E & _);
    [lia|lia|apply mem_disk_empty|done|apply demo_sops_sized|]. by rewrite E.
Qed.

Lemma sqlite_cluster_refines_witness :
  exists s l ac0 ac, shistory (S := MemDb) 2 3 mem_disk demo_sops = Ok (s, Ok <$> l) /\
    abs_cnew 3 (seq 0 2) ac0 /\ abs_srun ac0 demo_sops l ac /\ length (cy_state s).1 = 2%nat.
Proof.
  apply (sqlite_cluster_refines (SQL := MemSqlite) 2 3 mem_disk demo_sops);
    [lia|lia|done|done|apply demo_sops_sized].
Defined.

(** The operation or restart does not write the key. *)
Definition sleaves (key : string) (op : SOp) : Prop :=
  match op with SRun op => cleaves key op | SRestart => True end.

Lemma abs_sstep_leaves key ac op ans ac' i :
  abs_sstep ac op ans ac' -> sleaves key op ->
  value_at ac' i key = value_at ac i key /\ length ac' = length ac.
Proof.
  intros [op' ans' ac1 Hst|ac1 Hf] Hl.
  - split; [by eapply abs_cstep_leaves|by eapply abs_cstep_length].
  - split; [|symmetry; by eapply Forall2_length]. unfold value_at.
    destruct (ac !! i) as [a|] eqn:E.
    + destruct (Forall2_lookup_l _ _ _ _ _ Hf E) as (a' & -> & Hel). simpl.
      by apply abs_elect_map in Hel as (-> & _).
    + rewrite (proj2 (lookup_ge_None ac1 i)); [done|].
      rewrite <- (Forall2_length _ _ _ Hf). by apply lookup_ge_None.
Qed.

Lemma abs_srun_leaves key ac ops l ac' i :
  abs_srun ac ops l ac' -> Forall (sleaves key) ops ->
  value_at ac' i key = value_at ac i key /\ length ac' = length ac.
Proof.
  induction 1 as [|ac op ans ac1 ops l ac2 Hst _ IH]; intros Hl; [done|].
  apply Forall_cons in Hl as [Hop Hl]. destruct (abs_sstep_leaves key _ _ _ _ i Hst Hop) as [<- <-].
  by apply IH.
Qed.

Lemma abs_srun_app ac ops1 ops2 l ac' :
  abs_srun ac (ops1 ++ ops2) l ac' ->
  exists l1 l2 ac1, l = l1 ++ l2 /\ abs_srun ac ops1 l1 ac1 /\ abs_srun ac1 ops2 l2 ac' /\
                    length l1 = length ops1.
Proof.
  revert ac l. induction ops1 as [|op ops1 IH]; intros ac l Hr.
  - exists [], l, ac. split_and!; try done. constructor.
  - inversion Hr as [|? ? ans c1 ? l' ? Hst Hr']; subst.
    destruct (IH c1 l' Hr') as (l1 & l2 & c2 & -> & H1 & H2 & Hl).
    exists (ans :: l1), l2, c2. split_and!; [done|by econstructor|done|simpl; lia].
Qed.

(** C17: a write acknowledged by the cluster is never lost.  After a put that
    was answered with success and any operations, on any shards, none of which puts
    or deletes the same key, and any number of restarts of the process on the files
    it left, with the same numbers of shards and replicas, a read of the key that is
    served (not answered with 503) returns the value with success and 200. *)
Theorem cluster_write_survives {S : Type} `{StoreSpec S} (m n : nat)
    (disk : string -> st_file (S := S)) (ops1 ops2 : list SOp) (key value : string)
    (s : CSys S) (l : list (result Answer)) (res : OperationResult) :
  (1 <= m)%nat -> (1 <= n)%nat -> empty_directory disk ->
  Z.of_nat (length (ops1 ++ SRun (CPut key value) :: ops2)) < int64_max ->
  Forall ssized (ops1 ++ SRun (CPut key value) :: ops2) ->
  shistory m n disk (ops1 ++ SRun (CPut key value) :: ops2) = Ok (s, l) ->
  l !! length ops1 = Some (Ok (AResult res)) -> res_ok res = true ->
  Forall (sleaves key) ops2 ->
  exists s' res', cexec (CGet key) (cy_state s) = (s', Ok (AResult res')) /\
    (res_status res' <> 503 -> res_status res' = 200 /\ res_ok res' = true /\ res_value res' = value).
Proof.
  intros Hm Hn Hd Hk Hs Hh Hl Hok Hleave.
  destruct (shistory_refines m n disk _ Hm Hn Hd (Z.lt_le_incl _ _ Hk) Hs)
    as (s1 & l1 & ac0 & ac & c & E & Hnew & Habs & Hc & Hr & Hlac).
  rewrite Hh in E. simplify_eq.
  destruct (cexec_refines (CGet key) _ c (cy_state s1).2 ac Hr Hk) as (c' & w' & ans & ac' & Hrun & Hst & _);
    [rewrite <- (cr_length _ _ _ Hr); lia|done|].
  destruct (cexec_sim (CGet key) (cy_state s1) (c, (cy_state s1).2)) as (s' & s2 & a & E1 & E2 & _); [by split|].
  rewrite Hrun in E2. injection E2 as <- <-.
  destruct (abs_srun_app _ _ _ _ _ Habs) as (la & lb & c1 & -> & Ha & Hb & Hla).
  inversion Hb as [|? ? ans' c2 ? lb' ? Hput Hrest]; subst. inversion Hput as [? ? ? Hput'|]; subst.
  rewrite fmap_app, lookup_app_r, length_fmap, Hla, Nat.sub_diag in Hl by (rewrite length_fmap; lia).
  simpl in Hl. injection Hl as ->.
  destruct (abs_srun_leaves key _ _ _ _ (home key (length c1)) Hrest Hleave) as [Hval Hlen].
  rewrite (abs_put_sets _ _ _ _ _ Hput' Hok) in Hval.
  rewrite <- (abs_cstep_length _ _ _ _ Hput'), <- Hlen in Hval.
  destruct (abs_get_reads _ _ _ _ _ Hst Hval) as (res' & -> & Hres). by exists s', res'.
Qed.

Lemma cluster_write_survives_witness :
  exists s' res', cexec (CGet "alpha") (cy_state (demo_sstate demo_sops)) = (s', Ok (AResult res')) /\
    (res_status res' <> 503 -> res_status res' = 200 /\ res_ok res' = true /\ res_value res' = "1").
Proof.
  apply (cluster_write_survives (S := MemDb) 2 3 mem_disk [] (tail demo_sops) "alpha" "1"
    (demo_sstate demo_sops) (demo_sanswers demo_sops)
    (accepted_result 1 "s1-r0" "PUT")).
  - lia.
  - lia.
  - apply mem_disk_empty.
  - reflexivity.
  - apply demo_sops_sized.
  - apply demo_shistory_ok.
  - vm_compute. reflexivity.
  - reflexivity.
  - repeat constructor; done.
Defined.
