(* ===== verification/Resilience.v ===== *)
(** * src/gateway.cpp: the token bucket and the circuit breaker

    Both read [std::chrono::steady_clock].  The readings are a parameter: the
    [k]-th reading of the process is [steady k], in nanoseconds, and the state
    of a call carries the number of readings made so far.  A [double] is an
    IEEE 754 binary64 number with the operations of the Standard Library's
    specification of floating-point arithmetic. *)

From S2P Require Import Prelude CppStd.
From Stdlib Require Import SpecFloat.

#[local] Open Scope Z_scope.

(** ** Doubles *)

Abbreviation double := spec_float.

Definition dadd : double -> double -> double := SFadd 53 1024.
Definition dsub : double -> double -> double := SFsub 53 1024.
Definition dmul : double -> double -> double := SFmul 53 1024.
Definition ddiv : double -> double -> double := SFdiv 53 1024.
Definition dltb : double -> double -> bool := SFltb.

(** The conversion of an integer. *)
Definition double_of_Z (z : Z) : double := binary_normalize 53 1024 z 0 false.

(** [std::min(a, b)] *)
Definition dmin (a b : double) : double := if dltb b a then b else a.

(** ** The clock *)

Section clock.
Context (steady : nat -> Z).

(** [steady_clock::now()] with an object of type [S] at hand. *)
Definition now {S} : M (S * nat) Z := fun s => ((s.1, Datatypes.S s.2), Ok (steady s.2)).

Definition self {S A} (f : S -> A) : M (S * nat) A := gets (fun s => f s.1).
Definition update {S} (f : S -> S) : M (S * nat) unit := modify (fun s => (f s.1, s.2)).

(** ** TokenBucket *)

Record TokenBucket := {
  refill_per_second : double;
  capacity : double;
  tokens : double;
  last_refill : Z;
}.

Definition TokenBucket_new (refill_per_second capacity : double) (now : Z) : TokenBucket :=
  {| refill_per_second := refill_per_second; capacity := capacity; tokens := capacity;
     last_refill := now |}.

(** [duration<double>(ns).count()]: nanoseconds as seconds. *)
Definition seconds (ns : Z) : double := ddiv (double_of_Z ns) (double_of_Z 1000000000).

Definition with_tokens (x : double) (b : TokenBucket) : TokenBucket :=
  {| refill_per_second := refill_per_second b; capacity := capacity b; tokens := x;
     last_refill := last_refill b |}.

(** The tokens after [now - last_refill] has passed, at most [capacity]. *)
Definition refill (now : Z) (b : TokenBucket) : TokenBucket :=
  {| refill_per_second := refill_per_second b; capacity := capacity b;
     tokens := dmin (capacity b)
       (dadd (tokens b) (dmul (seconds (now - last_refill b)) (refill_per_second b)));
     last_refill := now |}.

Definition consume (n : double) : M (TokenBucket * nat) bool :=
  t ← now;
  update (refill t) ;;
  have ← self tokens;
  if dltb have n then mret false
  else update (fun b => with_tokens (dsub (tokens b) n) b) ;; mret true.

(** ** CircuitBreaker *)

Inductive CircuitState := Closed | Open | HalfOpen.

Record CircuitBreaker := {
  failure_threshold : Z;
  open_duration : Z;        (* nanoseconds *)
  consecutive_failures : Z;
  state : CircuitState;
  opened_at : Z;
}.

(** [open_duration] is given in milliseconds. *)
Definition CircuitBreaker_new (failure_threshold open_duration_ms : Z) : CircuitBreaker :=
  {| failure_threshold := failure_threshold; open_duration := open_duration_ms * 1000000;
     consecutive_failures := 0; state := Closed; opened_at := 0 |}.

Definition with_state (x : CircuitState) (b : CircuitBreaker) : CircuitBreaker :=
  {| failure_threshold := failure_threshold b; open_duration := open_duration b;
     consecutive_failures := consecutive_failures b; state := x; opened_at := opened_at b |}.
Definition with_failures (x : Z) (b : CircuitBreaker) : CircuitBreaker :=
  {| failure_threshold := failure_threshold b; open_duration := open_duration b;
     consecutive_failures := x; state := state b; opened_at := opened_at b |}.
Definition with_opened_at (x : Z) (b : CircuitBreaker) : CircuitBreaker :=
  {| failure_threshold := failure_threshold b; open_duration := open_duration b;
     consecutive_failures := consecutive_failures b; state := state b; opened_at := x |}.

Definition allow_request : M (CircuitBreaker * nat) bool :=
  b ← self (fun b => b);
  match state b with
  | Closed => mret true
  | Open =>
      t ← now;
      if open_duration b <=? t - opened_at b
      then update (with_state HalfOpen) ;; mret true
      else mret false
  | HalfOpen => mret true
  end.

Definition record_success : M (CircuitBreaker * nat) unit :=
  update (with_failures 0) ;; update (with_state Closed).

Definition is_half_open (s : CircuitState) : bool :=
  match s with HalfOpen => true | _ => false end.

Definition record_failure : M (CircuitBreaker * nat) unit :=
  update (fun b => with_failures (wrap_u64 (consecutive_failures b + 1)) b) ;;
  b ← self (fun b => b);
  when (is_half_open (state b) || (failure_threshold b <=? consecutive_failures b))
    (update (with_state Open) ;; t ← now; update (with_opened_at t)).

Definition state_string (b : CircuitBreaker) : string :=
  match state b with
  | Closed => "closed"
  | Open => "open"
  | HalfOpen => "half-open"
  end.
End clock.
