(* ===== verification/ResilienceProperties.v ===== *)
(** * The properties of the circuit breaker and of the token bucket

    The breaker is a state machine with three states, a counter and a time; its
    decisions are those of a rule without states: a request is let through
    unless the last [threshold] outcomes were failures and the last one is more
    recent than [open_duration]. *)

From S2P Require Import Prelude CppStd Resilience.
From Stdlib Require Import SpecFloat.

#[local] Open Scope Z_scope.

(** ** Histories of a breaker *)

Inductive Event := Allow | Success | Failure.

Section breaker.
Context (steady : nat -> Z).

Definition step_event (e : Event) : M (CircuitBreaker * nat) unit :=
  match e with
  | Allow => allow_request steady ;; mret tt
  | Success => record_success
  | Failure => record_failure steady
  end.

Definition run_events (h : list Event) : M (CircuitBreaker * nat) unit := for_each h step_event.

(** The failures recorded since the last success. *)
Definition fails (h : list Event) : nat :=
  foldl (fun k e => match e with Allow => k | Success => 0%nat | Failure => Datatypes.S k end) 0%nat h.

(** The breaker has seen [k] failures in a row. *)
Record after_failures (T D : Z) (k : nat) (b : CircuitBreaker) : Prop := {
  af_threshold : failure_threshold b = T;
  af_duration : open_duration b = D;
  af_failures : consecutive_failures b = Z.of_nat k;
  af_state : state b = Closed <-> Z.of_nat k < T;
}.

Lemma run_events_snoc h e s s1 :
  run_events h s = (s1, Ok tt) -> run_events (h ++ [e]) s = step_event e s1.
Proof.
  unfold run_events. revert s. induction h as [|x h IH]; intros s Hrun; simpl.
  - unfold mret, M_ret in Hrun. injection Hrun as <-.
    unfold mbind, M_bind. by destruct (step_event e s) as [s' [[]|]].
  - simpl in Hrun. unfold mbind, M_bind in *. destruct (step_event x s) as [s' [[]|]]; [|done].
    by apply IH.
Qed.

(** One event, as a function of the breaker and the number of readings. *)
Lemma allow_run b n :
  exists b' n' a, allow_request steady (b, n) = ((b', n'), Ok a) /\ (n <= n')%nat /\
    failure_threshold b' = failure_threshold b /\ open_duration b' = open_duration b /\
    consecutive_failures b' = consecutive_failures b /\ opened_at b' = opened_at b /\
    match state b with
    | Closed => a = true /\ state b' = Closed
    | HalfOpen => a = true /\ state b' = HalfOpen
    | Open => a = (open_duration b <=? steady n - opened_at b) /\ n' = Datatypes.S n /\
              state b' = if a then HalfOpen else Open
    end.
Proof.
  unfold allow_request, self, update, now. rewrite bind_gets. cbn [fst snd].
  destruct (state b) eqn:E; [by exists b, n, true| |by exists b, n, true].
  unfold mbind, M_bind. simpl. destruct (_ <=? _).
  - eexists _, _, true. split; [done|]. split; [simpl; lia|done].
  - exists b, (Datatypes.S n), false. split; [done|]. split; [lia|done].
Qed.

Lemma failure_run T D k b n :
  after_failures T D k b -> 1 <= T -> Z.of_nat k + 1 < uint64_mod ->
  exists b' n', record_failure steady (b, n) = ((b', n'), Ok tt) /\
    after_failures T D (Datatypes.S k) b' /\
    if Z.of_nat k + 1 <? T then n' = n
    else n' = Datatypes.S n /\ state b' = Open /\ opened_at b' = steady n.
Proof.
  intros [HT HD Hk Hs] H1 Hw. unfold record_failure, self, update, now.
  rewrite bind_modify, bind_gets. cbn [fst snd].
  set (b1 := with_failures _ b). assert (Hc : consecutive_failures b1 = Z.of_nat k + 1).
  { simpl. unfold wrap_u64. rewrite Hk, Z.mod_small; [done|]. lia. }
  rewrite Hc. change (failure_threshold b1) with (failure_threshold b). rewrite HT.
  change (state b1) with (state b).
  destruct (Z.of_nat k + 1 <? T) eqn:E.
  - assert (Hcl : state b = Closed) by (apply Hs; lia). rewrite Hcl.
    rewrite (proj2 (Z.leb_gt _ _)) by lia. simpl. exists b1, n. split; [done|]. split; [|done].
    split; try done; [rewrite Hc; lia|]. change (state b1) with (state b). rewrite Hcl. split; [lia|done].
  - rewrite (proj2 (Z.leb_le _ _)) by lia. rewrite orb_true_r. simpl.
    eexists _, _. split; [reflexivity|]. split; [|done].
    split; simpl; try done; [|split; [done|lia]].
    unfold wrap_u64. rewrite Hk, Z.mod_small; lia.
Qed.

Lemma success_run T D k b n :
  after_failures T D k b -> 1 <= T ->
  exists b', record_success (b, n) = ((b', n), Ok tt) /\ after_failures T D 0 b'.
Proof.
  intros [HT HD _ _] H1. eexists. split; [reflexivity|]. split; simpl; try done. split; [lia|done].
Qed.

Lemma fails_snoc h e :
  fails (h ++ [e]) = match e with Allow => fails h | Success => 0%nat | Failure => Datatypes.S (fails h) end.
Proof. unfold fails. rewrite foldl_app. done. Qed.

Lemma fails_le h : (fails h <= length h)%nat.
Proof.
  induction h as [|e h IH] using rev_ind; [done|]. rewrite fails_snoc, length_app. simpl.
  destruct e; lia.
Qed.

(** The counter is the number of failures in a row, and the breaker is closed
    exactly below the threshold. *)
Lemma run_events_inv T D h n0 b0 :
  after_failures T D 0 b0 -> 1 <= T -> Z.of_nat (length h) < uint64_mod ->
  exists b n, run_events h (b0, n0) = ((b, n), Ok tt) /\ after_failures T D (fails h) b.
Proof.
  intros H0 H1. induction h as [|e h IH] using rev_ind; intros Hl; [by exists b0, n0|].
  rewrite length_app in Hl. simpl in Hl.
  destruct IH as (b & n & Hrun & Haf); [lia|]. pose proof (fails_le h).
  rewrite (run_events_snoc h e _ _ Hrun), fails_snoc. destruct e; cbn [step_event].
  - destruct (allow_run b n) as (b' & n' & a & E & _ & F1 & F2 & F3 & _ & F5).
    exists b', n'. rewrite (bind_ok _ _ _ _ _ E). split; [done|].
    destruct Haf as [HT HD Hk Hs]. split; try congruence. rewrite <- Hs.
    destruct (state b); [destruct F5 as [_ ->]|destruct F5 as (-> & _ & ->)|destruct F5 as [_ ->]];
      try done. by destruct (_ <=? _).
  - destruct (success_run T D _ b n Haf H1) as (b' & E & Haf'). by exists b', n.
  - destruct (failure_run T D _ b n Haf H1) as (b' & n' & E & Haf' & _); [lia|]. by exists b', n'.
Qed.

(** After a failure at the time [tf]: closed, open since [tf], or half open
    because [open_duration] has passed since. *)
Definition waiting (T D tf : Z) (k : nat) (b : CircuitBreaker) (n : nat) : Prop :=
  after_failures T D k b /\
  (Z.of_nat k < T \/ (state b = Open /\ opened_at b = tf) \/
   (state b = HalfOpen /\ exists m, (m < n)%nat /\ D <= steady m - tf)).

Lemma waiting_allow T D tf k b n :
  (forall i j, (i <= j)%nat -> steady i <= steady j) -> waiting T D tf k b n ->
  exists b' n', allow_request steady (b, n) =
      ((b', n'), Ok ((Z.of_nat k <? T) || (D <=? steady n - tf))) /\ waiting T D tf k b' n'.
Proof.
  intros Hmono [[HT HD Hk Hs] Hw].
  destruct (allow_run b n) as (b' & n' & a & E & Hn & F1 & F2 & F3 & F4 & F5). exists b', n'. rewrite E.
  assert (Haf' : (state b' = Closed <-> Z.of_nat k < T) -> after_failures T D k b')
    by (intros; split; congruence).
  destruct (Z.of_nat k <? T) eqn:Ek.
  - assert (Hc : state b = Closed) by (apply Hs; lia). rewrite Hc in F5. destruct F5 as [-> F5].
    split; [done|]. split; [|left; lia]. apply Haf'. rewrite F5. by rewrite <- Hs.
  - destruct Hw as [Hw|[[Ho Ht]|(Hh & m & Hm & Hd)]]; [lia|..].
    + rewrite Ho in F5. destruct F5 as (-> & -> & F5). rewrite HD, Ht in *. split; [done|].
      destruct (D <=? steady n - tf) eqn:Ed; (split; [apply Haf'; rewrite F5; split; [done|lia]|]).
      * right. right. split; [done|]. exists n. split; [lia|]. lia.
      * right. left. split; [done|]. congruence.
    + rewrite Hh in F5. destruct F5 as [-> F5]. pose proof (Hmono m n ltac:(lia)).
      rewrite (proj2 (Z.leb_le _ _)) by lia. split; [done|]. split.
      * apply Haf'. rewrite F5. split; [done|lia].
      * right. right. split; [done|]. exists m. split; [lia|done].
Qed.

Lemma waiting_allows T D tf k j b n :
  (forall i j, (i <= j)%nat -> steady i <= steady j) -> waiting T D tf k b n ->
  exists b' n', run_events (replicate j Allow) (b, n) = ((b', n'), Ok tt) /\ waiting T D tf k b' n'.
Proof.
  intros Hmono. revert b n. induction j as [|j IH]; intros b n Hw; [by exists b, n|].
  destruct (waiting_allow T D tf k b n Hmono Hw) as (b1 & n1 & E & Hw1).
  destruct (IH b1 n1 Hw1) as (b2 & n2 & E2 & Hw2). exists b2, n2. split; [|done].
  cbn [replicate run_events for_each step_event]. unfold run_events in *. cbn [for_each].
  rewrite bind_assoc, (bind_ok _ _ _ _ _ E). exact E2.
Qed.
End breaker.

Lemma run_events_app steady h1 h2 s s1 :
  run_events steady h1 s = (s1, Ok tt) -> run_events steady (h1 ++ h2) s = run_events steady h2 s1.
Proof.
  unfold run_events. revert s. induction h1 as [|e h1 IH]; intros s Hrun; simpl in *.
  - unfold mret, M_ret in Hrun. by injection Hrun as <-.
  - unfold mbind, M_bind in *. destruct (step_event steady e s) as [s' [[]|]]; [|done]. by apply IH.
Qed.

(** C18: the breaker's decisions are those of the rule.  On a clock that never
    goes back, after any history [h] of requests, successes and failures of a
    new breaker: with no failure since the last success a request is let
    through; and if a failure follows [h] and then any number of requests, a
    request is let through exactly when fewer than [T] outcomes in a row have
    been failures or [D] has passed since the time [steady n] of that failure. *)
Theorem breaker_decides (steady : nat -> Z) (T ms : Z) (h : list Event) (j : nat) :
  (forall i j, (i <= j)%nat -> steady i <= steady j) -> 1 <= T ->
  Z.of_nat (length h) + 1 < uint64_mod ->
  exists b n, run_events steady h (CircuitBreaker_new T ms, 0%nat) = ((b, n), Ok tt) /\
    (fails h = 0%nat -> (allow_request steady (b, n)).2 = Ok true) /\
    exists b' n', run_events steady (h ++ Failure :: replicate j Allow) (CircuitBreaker_new T ms, 0%nat) =
        ((b', n'), Ok tt) /\
      (allow_request steady (b', n')).2 =
        Ok ((Z.of_nat (fails h) + 1 <? T) || (ms * 1000000 <=? steady n' - steady n)).
Proof.
  intros Hmono HT Hl.
  assert (H0 : after_failures T (ms * 1000000) 0 (CircuitBreaker_new T ms)).
  { split; try done. simpl. split; [lia|done]. }
  destruct (run_events_inv steady T _ h 0 _ H0 HT) as (b & n & Hrun & Haf); [lia|].
  exists b, n. split; [done|]. split.
  - intros Hf. destruct (allow_run steady b n) as (b' & n' & a & -> & _ & _ & _ & _ & _ & F5). simpl.
    rewrite (proj2 (af_state _ _ _ _ Haf)) in F5 by (rewrite Hf; lia). by destruct F5 as [-> _].
  - pose proof (fails_le h).
    destruct (failure_run steady T _ _ b n Haf HT) as (b1 & n1 & E & Haf1 & Hcase); [lia|].
    assert (Hw : waiting steady T (ms * 1000000) (steady n) (S (fails h)) b1 n1).
    { split; [done|]. destruct (Z.of_nat (fails h) + 1 <? T) eqn:Ek; [left; lia|].
      right. left. tauto. }
    destruct (waiting_allows steady T _ _ _ j b1 n1 Hmono Hw) as (b2 & n2 & E2 & Hw2).
    exists b2, n2. split.
    + rewrite (run_events_app steady h _ _ _ Hrun). unfold run_events in *.
      cbn [for_each step_event]. by rewrite (bind_ok _ _ _ _ _ E).
    + destruct (waiting_allow steady T _ _ _ b2 n2 Hmono Hw2) as (b3 & n3 & -> & _). simpl.
      do 3 f_equal. lia.
Qed.

Lemma breaker_decides_witness :
  exists b n, run_events Z.of_nat [Failure; Failure] (CircuitBreaker_new 3 5000, 0%nat) = ((b, n), Ok tt) /\
    (fails [Failure; Failure] = 0%nat -> (allow_request Z.of_nat (b, n)).2 = Ok true) /\
    exists b' n', run_events Z.of_nat ([Failure; Failure] ++ Failure :: replicate 1 Allow)
        (CircuitBreaker_new 3 5000, 0%nat) = ((b', n'), Ok tt) /\
      (allow_request Z.of_nat (b', n')).2 =
        Ok ((Z.of_nat (fails [Failure; Failure]) + 1 <? 3) || (5000 * 1000000 <=? Z.of_nat n' - Z.of_nat n)).
Proof.
  apply (breaker_decides Z.of_nat 3 5000 [Failure; Failure] 1); [intros; lia|lia|reflexivity].
Defined.

(** ** Bursts *)

(** A finite number, as every configured rate is. *)
Definition is_finite (x : double) : bool :=
  match x with S754_zero _ | S754_finite _ _ _ => true | _ => false end.

(** The answers of [k] requests in a row. *)
Fixpoint consumes (steady : nat -> Z) (k : nat) (s : TokenBucket * nat) : list (result bool) :=
  match k with
  | O => []
  | S k' => let '(s', a) := consume steady (double_of_Z 1) s in a :: consumes steady k' s'
  end.

#[export] Instance spec_float_eq_dec : EqDecision spec_float.
Proof. solve_decision. Defined.

Abbreviation whole := (fun m : nat => double_of_Z (Z.of_nat m)).

(** Non-negative zero or a finite number: adding a zero changes nothing. *)
Definition plain (x : double) : bool :=
  match x with S754_zero false | S754_finite _ _ _ => true | _ => false end.

(** Whole numbers of at most 256 tokens: taking one is exact, and they compare
    as they should. *)
Definition exact_at (m : nat) : bool :=
  plain (whole m) && bool_decide (dsub (whole (S m)) (whole 1%nat) = whole m) &&
  negb (dltb (whole (S m)) (whole 1%nat)) &&
  forallb (fun n => bool_decide (dmin (whole n) (whole m) = whole m)) (seq m (257 - m)).

Lemma exact_below m : (m < 256)%nat -> exact_at m = true.
Proof.
  intros Hm. assert (H : forallb exact_at (seq 0 256) = true) by (vm_compute; reflexivity).
  rewrite forallb_forall in H. apply H. apply in_seq. lia.
Qed.

Lemma plain_256 : plain (whole 256%nat) = true /\ dmin (whole 256%nat) (whole 256%nat) = whole 256%nat.
Proof. by vm_compute. Qed.

Lemma whole_plain m : (m <= 256)%nat -> plain (whole m) = true.
Proof.
  intros Hm. destruct (decide (m = 256%nat)) as [->|Hne]; [apply plain_256|].
  pose proof (exact_below m ltac:(lia)) as H. unfold exact_at in H.
  rewrite !andb_true_iff in H. tauto.
Qed.

Lemma whole_min m n : (m <= n <= 256)%nat -> dmin (whole n) (whole m) = whole m.
Proof.
  intros Hm. destruct (decide (m = 256%nat)) as [->|Hne].
  - assert (n = 256%nat) as -> by lia. apply plain_256.
  - pose proof (exact_below m ltac:(lia)) as H. unfold exact_at in H.
    rewrite !andb_true_iff, forallb_forall in H. destruct H as [_ H].
    specialize (H n). rewrite bool_decide_eq_true in H. apply H, in_seq. lia.
Qed.

Lemma whole_step m : (m < 256)%nat ->
  dltb (whole (S m)) (whole 1%nat) = false /\ dsub (whole (S m)) (whole 1%nat) = whole m.
Proof.
  intros Hm. pose proof (exact_below m Hm) as H. unfold exact_at in H.
  rewrite !andb_true_iff, bool_decide_eq_true, negb_true_iff in H. tauto.
Qed.

Lemma add_zero x rate : plain x = true -> is_finite rate = true -> dadd x (dmul (seconds 0) rate) = x.
Proof.
  intros Hx Hr. change (seconds 0) with (S754_zero false).
  destruct rate as [s| | |s m e]; try done; destruct x as [[]| | |]; try done; by destruct s.
Qed.

(** A bucket with [m] of [n] tokens, last refilled at [t]. *)
Definition bucket_at (rate : double) (n m : nat) (t : Z) : TokenBucket :=
  {| refill_per_second := rate; capacity := whole n; tokens := whole m; last_refill := t |}.

Lemma refill_same rate n m t :
  is_finite rate = true -> (m <= n <= 256)%nat ->
  refill t (bucket_at rate n m t) = bucket_at rate n m t.
Proof.
  intros Hr Hm. unfold refill, bucket_at. cbn [refill_per_second capacity tokens last_refill].
  rewrite Z.sub_diag, (add_zero (whole m) rate) by (done || apply whole_plain; lia).
  by rewrite whole_min.
Qed.

Lemma consume_run steady rate n m t i :
  steady i = t -> is_finite rate = true -> (m <= n <= 256)%nat ->
  consume steady (double_of_Z 1) (bucket_at rate n m t, i) =
  match m with
  | O => ((bucket_at rate n 0 t, S i), Ok false)
  | S m' => ((bucket_at rate n m' t, S i), Ok true)
  end.
Proof.
  intros Ht Hr Hm. unfold consume, now, update, self, mbind, M_bind, modify, gets. cbn [fst snd].
  rewrite Ht, refill_same by done. cbn [tokens bucket_at]. change (double_of_Z 1) with (whole 1%nat).
  destruct m as [|m].
  - by change (dltb (whole 0%nat) (whole 1%nat)) with true.
  - destruct (whole_step m) as [E1 E2]; [lia|]. rewrite E1. unfold mret, M_ret, with_tokens, bucket_at.
    cbn [fst snd refill_per_second capacity tokens last_refill]. by rewrite E2.
Qed.

(** C19: a burst is exactly [burst] requests.  A client's new bucket of [n]
    tokens (a whole number up to 256; the default burst is 40), at any finite
    refill rate, grants the first [n] of any number of requests made at the same
    instant and refuses the rest, with the rounding of binary64 arithmetic. *)
Theorem burst_is_exact (steady : nat -> Z) (rate : double) (n j i : nat) (t : Z) :
  (forall k, steady k = t) -> is_finite rate = true -> (n <= 256)%nat ->
  consumes steady (n + j) (TokenBucket_new rate (double_of_Z (Z.of_nat n)) t, i) =
  (Ok <$> replicate n true) ++ (Ok <$> replicate j false).
Proof.
  intros Hc Hr Hn.
  assert (Hempty : forall i, consumes steady j (bucket_at rate n 0 t, i) = Ok <$> replicate j false).
  { induction j as [|j IH]; intros i'; [done|]. cbn [consumes].
    rewrite (consume_run steady rate n 0 t i') by (done || lia). by rewrite IH. }
  assert (Hgo : forall m i, (m <= n)%nat -> consumes steady (m + j) (bucket_at rate n m t, i) =
    (Ok <$> replicate m true) ++ (Ok <$> replicate j false)).
  { induction m as [|m IH]; intros i' Hm; [apply Hempty|]. cbn [Nat.add consumes].
    rewrite (consume_run steady rate n (S m) t i') by (done || lia). rewrite IH by lia. done. }
  apply (Hgo n i). done.
Qed.

Lemma burst_is_exact_witness :
  consumes (fun _ => 7) 42 (TokenBucket_new (double_of_Z 20) (double_of_Z 40) 7, 0%nat) =
  (Ok <$> replicate 40 true) ++ (Ok <$> replicate 2 false).
Proof. apply (burst_is_exact (fun _ => 7) (double_of_Z 20) 40 2 0 7); [done|reflexivity|lia]. Defined.
