(* ===== verification/Gateway.v ===== *)
(** * src/gateway.cpp, class Gateway: authentication, rate limiting, routing, retries

    A request is handled in one call of [handle].  The state of a call is the
    gateway, with the cluster and the metrics it refers to, and the number of
    clock readings made so far (see [Resilience]). *)

From S2P Require Import Prelude CppStd Common Sqlite Store Raft Metrics Shard Cluster Resilience.

#[local] Open Scope Z_scope.

(** ** Requests and responses (include/kv/http_server.hpp) *)

Record HttpRequest := {
  rq_method : string;
  rq_path : string;
  rq_version : string;
  rq_headers : gmap string string;
  rq_body : string;
  rq_remote_ip : string;
}.

Record HttpResponse := {
  rs_status : Z;
  rs_content_type : string;
  rs_body : string;
  rs_headers : gmap string string;
}.

Definition with_header (name value : string) (r : HttpResponse) : HttpResponse :=
  {| rs_status := rs_status r; rs_content_type := rs_content_type r; rs_body := rs_body r;
     rs_headers := <[name := value]> (rs_headers r) |}.

Definition json_response (status : Z) (body : string) : HttpResponse :=
  {| rs_status := status; rs_content_type := "application/json"; rs_body := body; rs_headers := ∅ |}.

(** ** JSON bodies *)

(** ["name":text] *)
Definition field_raw (name text : string) : string := q name +:+ ":" +:+ text.
(** ["name":"escaped value"] *)
Definition field_str (name value : string) : string := field_raw name (q (json_escape value)).
Definition error_body (message : string) : string := "{" +:+ field_raw "error" (q message) +:+ "}".

(** The body for the result of an operation on a key. *)
Definition operation_body (operation key : string) (result : OperationResult) : string :=
  if res_ok result then
    "{" +:+ field_str "status" (res_message result)
    +:+ "," +:+ field_str "key" key
    +:+ "," +:+ field_raw "shard" (to_string (res_shard result))
    +:+ "," +:+ field_str "leader" (res_leader result)
    +:+ (if decide (operation = "GET") then "," +:+ field_str "value" (res_value result) else "")
    +:+ "}"
  else
    "{" +:+ field_str "error" (res_message result)
    +:+ "," +:+ field_str "key" key
    +:+ "," +:+ field_raw "shard" (to_string (res_shard result))
    +:+ (if decide (res_leader result = "") then "" else "," +:+ field_str "leader" (res_leader result))
    +:+ "}".

(** ** The gateway *)

Record Gateway (S : Type) := {
  g_cluster : Cluster S;
  g_world : World;
  g_api_key : string;
  g_rate_per_second : double;
  g_burst : double;
  g_max_retries : Z;
  g_buckets : gmap string TokenBucket;
  g_breakers : list CircuitBreaker;
  g_sleeps : list Z;    (* the milliseconds slept before each retry, in order *)
}.
Arguments g_cluster {S}. Arguments g_world {S}. Arguments g_api_key {S}.
Arguments g_rate_per_second {S}. Arguments g_burst {S}. Arguments g_max_retries {S}.
Arguments g_buckets {S}. Arguments g_breakers {S}. Arguments g_sleeps {S}.

Definition with_cluster {S} (c : Cluster S * World) (g : Gateway S) : Gateway S :=
  {| g_cluster := c.1; g_world := c.2; g_api_key := g_api_key g;
     g_rate_per_second := g_rate_per_second g; g_burst := g_burst g;
     g_max_retries := g_max_retries g; g_buckets := g_buckets g; g_breakers := g_breakers g;
     g_sleeps := g_sleeps g |}.
Definition with_buckets {S} (x : gmap string TokenBucket) (g : Gateway S) : Gateway S :=
  {| g_cluster := g_cluster g; g_world := g_world g; g_api_key := g_api_key g;
     g_rate_per_second := g_rate_per_second g; g_burst := g_burst g;
     g_max_retries := g_max_retries g; g_buckets := x; g_breakers := g_breakers g;
     g_sleeps := g_sleeps g |}.
Definition with_breakers {S} (x : list CircuitBreaker) (g : Gateway S) : Gateway S :=
  {| g_cluster := g_cluster g; g_world := g_world g; g_api_key := g_api_key g;
     g_rate_per_second := g_rate_per_second g; g_burst := g_burst g;
     g_max_retries := g_max_retries g; g_buckets := g_buckets g; g_breakers := x;
     g_sleeps := g_sleeps g |}.
Definition with_sleep {S} (ms : Z) (g : Gateway S) : Gateway S :=
  {| g_cluster := g_cluster g; g_world := g_world g; g_api_key := g_api_key g;
     g_rate_per_second := g_rate_per_second g; g_burst := g_burst g;
     g_max_retries := g_max_retries g; g_buckets := g_buckets g; g_breakers := g_breakers g;
     g_sleeps := g_sleeps g ++ [ms] |}.

(** The constructor: a breaker per shard that opens for 5 s after 3 failures. *)
Definition Gateway_new {S} (cluster : Cluster S) (world : World) (api_key : string)
    (rate_per_second burst : double) (max_retries : Z) : Gateway S :=
  {| g_cluster := cluster; g_world := world; g_api_key := api_key;
     g_rate_per_second := rate_per_second; g_burst := burst; g_max_retries := max_retries;
     g_buckets := ∅; g_breakers := replicate (length cluster) (CircuitBreaker_new 3 5000);
     g_sleeps := [] |}.

Section methods.
Context (steady : nat -> Z) {S : Type} `{Store S}.
Abbreviation GM := (M (Gateway S * nat)).

(** A call on the cluster. *)
Definition on_cluster {A} (m : M (Cluster S * World) A) : GM A :=
  zoom (fun s => (g_cluster s.1, g_world s.1)) (fun c s => (with_cluster c s.1, s.2)) m.

(** [metrics_.inc_...()] *)
Definition metric (f : Metrics -> Metrics) : GM unit :=
  update (fun g => with_cluster (g_cluster g,
    {| w_metrics := f (w_metrics (g_world g)); w_log := w_log (g_world g) |}) g).

(** [breakers_.at(shard_id)] *)
Definition on_breaker {A} (shard_id : Z) (m : M (CircuitBreaker * nat) A) : GM A := fun s =>
  match g_breakers s.1 !! Z.to_nat shard_id with
  | None => (s, Throw (OutOfRange "vector::_M_range_check"))
  | Some b => let '((b', n), a) := m (b, s.2) in
              ((with_breakers (<[Z.to_nat shard_id := b']> (g_breakers s.1)) s.1, n), a)
  end.

Definition authorized (request : HttpRequest) (g : Gateway S) : bool :=
  match rq_headers request !! "authorization" with
  | None => false
  | Some v => bool_decide (v = "Bearer " +:+ g_api_key g)
  end.

(** [buckets_.try_emplace(client_id, rate, burst)]: a new bucket reads the
    clock. *)
Definition bucket_for (client_id : string) : GM TokenBucket :=
  g ← self (fun g => g);
  match g_buckets g !! client_id with
  | Some b => mret b
  | None => t ← now steady; mret (TokenBucket_new (g_rate_per_second g) (g_burst g) t)
  end.

(** [it->second.consume()], the bucket being in the map *)
Definition consume_from (client_id : string) (b : TokenBucket) : GM bool := fun s =>
  let '((b', n), a) := consume steady (double_of_Z 1) (b, s.2) in
  ((with_buckets (<[client_id := b']> (g_buckets s.1)) s.1, n), a).

Definition allowed_by_rate_limit (client_id : string) : GM bool :=
  b ← bucket_for client_id; consume_from client_id b.

(** [20 * (1ULL << attempt)] milliseconds; shifting by 64 or more is undefined. *)
Definition sleep_before_retry (attempt : Z) : GM unit :=
  if attempt <? 64 then update (with_sleep (wrap_u64 (20 * 2 ^ attempt)))
  else throw (UndefinedBehaviour "shift").

Definition call (operation key value : string) : GM OperationResult :=
  if decide (operation = "GET") then on_cluster (Cluster.get key)
  else if decide (operation = "PUT") then on_cluster (Cluster.put key value)
  else on_cluster (Cluster.erase key).

(** The loop over [attempt]; [n] attempts are left. *)
Fixpoint attempts (n : nat) (attempt : Z) (operation key value : string) (shard_id : Z)
    (result : OperationResult) : GM OperationResult :=
  match n with
  | O => mret result
  | Datatypes.S n' =>
      result ← call operation key value;
      if res_status result <? 500 then
        on_breaker shard_id record_success ;; mret result
      else
        on_breaker shard_id (record_failure steady) ;;
        max_retries ← self g_max_retries;
        when (attempt <? max_retries) (metric inc_retry ;; sleep_before_retry attempt) ;;
        attempts n' (attempt + 1) operation key value shard_id result
  end.

Definition execute_with_resilience (operation key value : string) : GM HttpResponse :=
  shard_id ← self (fun g => shard_for_key key (g_cluster g));
  allowed ← on_breaker shard_id (allow_request steady);
  if negb allowed then
    metric inc_circuit_open ;;
    mret (json_response 503 ("{" +:+ field_raw "error" (q "circuit breaker is open") +:+ ","
                             +:+ field_raw "shard" (to_string shard_id) +:+ "}"))
  else
    max_retries ← self g_max_retries;
    result ← attempts (Z.to_nat (max_retries + 1)) 0 operation key value shard_id default_result;
    when (500 <=? res_status result) (metric inc_gateway_failure) ;;
    mret (json_response (res_status result) (operation_body operation key result)).

(** The lambda [finish]: latency in microseconds. *)
Definition finish (started : Z) (response : HttpResponse) : GM HttpResponse :=
  t ← now steady;
  let elapsed := Z.quot (t - started) 1000 in
  metric (record_request (wrap_u64 elapsed)) ;;
  mret (with_header "X-Request-Latency-Us" (to_string elapsed)
          (with_header "X-Content-Type-Options" "nosniff" response)).

Definition handle_kv (started : Z) (request : HttpRequest) (key : string) : GM HttpResponse :=
  if (ssize key =? 0) || (512 <? ssize key)
  then finish started (json_response 400 (error_body "key must be 1-512 characters"))
  else if decide (rq_method request = "GET") then
    metric inc_get ;; r ← execute_with_resilience "GET" key ""; finish started r
  else if decide (rq_method request = "PUT") then
    if 1024 * 1024 <? ssize (rq_body request)
    then finish started (json_response 413 (error_body "value exceeds 1 MiB"))
    else metric inc_put ;; r ← execute_with_resilience "PUT" key (rq_body request); finish started r
  else if decide (rq_method request = "DELETE") then
    metric inc_delete ;; r ← execute_with_resilience "DELETE" key ""; finish started r
  else finish started (json_response 405 (error_body "method not allowed")).

Definition handle_replica (started : Z) (action shard replica : string) : GM HttpResponse :=
  catch
    (shard_id ← lift (stoull shard);
     ok ← (if decide (action = "fail") then on_cluster (Cluster.fail_replica shard_id replica)
           else on_cluster (Cluster.recover_replica shard_id replica));
     if negb ok then finish started (json_response 404 (error_body "replica or shard not found"))
     else finish started (json_response 200
       ("{" +:+ field_raw "status" (q "ok") +:+ "," +:+ field_str "action" action
        +:+ "," +:+ field_str "replica" replica +:+ "}")))
    (fun _ => finish started (json_response 400 (error_body "invalid shard id"))).

Definition handle_elect (started : Z) (shard : string) : GM HttpResponse :=
  catch
    (shard_id ← lift (stoull shard);
     ok ← on_cluster (elect shard_id);
     if negb ok then finish started (json_response 503 (error_body "leader election failed"))
     else finish started (json_response 200 ("{" +:+ field_raw "status" (q "leader elected") +:+ "}")))
    (fun _ => finish started (json_response 400 (error_body "invalid shard id"))).

(** The routes behind authentication and rate limiting. *)
Definition route_request (started : Z) (request : HttpRequest) : GM HttpResponse :=
  let parts := split_path (rq_path request) in
  let not_found := finish started (json_response 404 (error_body "route not found")) in
  match parts with
  | [p0; p1; key] =>
      if decide (p0 = "v1" /\ p1 = "kv") then handle_kv started request key
      else if decide (rq_path request = "/admin/cluster" /\ rq_method request = "GET") then
        body ← on_cluster Cluster.status_json; finish started (json_response 200 body)
      else if decide (p0 = "admin" /\ p1 = "elect" /\ rq_method request = "POST")
      then handle_elect started key
      else not_found
  | _ =>
      if decide (rq_path request = "/admin/cluster" /\ rq_method request = "GET") then
        body ← on_cluster Cluster.status_json; finish started (json_response 200 body)
      else
        match parts with
        | [p0; p1; p2; p3] =>
            if decide (p0 = "admin" /\ (p1 = "fail" \/ p1 = "recover") /\ rq_method request = "POST")
            then handle_replica started p1 p2 p3
            else not_found
        | _ => not_found
        end
  end.

Definition client_id (request : HttpRequest) : string :=
  default (rq_remote_ip request) (rq_headers request !! "x-client-id").

Definition handle (request : HttpRequest) : GM HttpResponse :=
  started ← now steady;
  if decide (rq_path request = "/healthz") then
    finish started (json_response 200 ("{" +:+ field_raw "status" (q "ok") +:+ "}"))
  else if decide (rq_path request = "/metrics") then
    body ← self (fun g => render_prometheus (w_metrics (g_world g)));
    finish started {| rs_status := 200; rs_content_type := "text/plain; version=0.0.4";
                      rs_body := body; rs_headers := ∅ |}
  else
    ok ← self (authorized request);
    if negb ok then
      metric inc_auth_failure ;;
      finish started (json_response 401 (error_body "missing or invalid bearer token"))
    else
      allowed ← allowed_by_rate_limit (client_id request);
      if negb allowed then
        metric inc_rate_limited ;;
        finish started (with_header "Retry-After" "1"
          (json_response 429 (error_body "rate limit exceeded")))
      else route_request started request.
End methods.
