(* ===== verification/GatewayProperties.v ===== *)
(** * The properties of the gateway *)

From S2P Require Import Prelude CppStd Common Sqlite Store LogFacts SqliteStore SqliteStoreProofs Raft RaftProofs Metrics Shard ShardFacts ShardInv Election Replication ShardOps Restart ShardSystem ShardSpec ShardTheorems ShardProperties Cluster ClusterSpec ClusterProperties Resilience ResilienceProperties Gateway.

#[local] Open Scope Z_scope.

(** ** Cluster calls *)

Section clusters.
Context {S : Type} `{StoreSpec S}.

(** The cluster is in a state reached within [k] operations. *)
Definition cluster_ok (k : nat) (c : Cluster S) : Prop :=
  (1 <= length c)%nat /\
  exists c2 ac, Forall2 (shard_rel holds) c c2 /\ crefines k c2 ac.

(** The same with the abstract cluster named. *)
Definition linked (k : nat) (c : Cluster S) (ac : list AbsShard) : Prop :=
  (1 <= length c)%nat /\ exists c2, Forall2 (shard_rel holds) c c2 /\ crefines k c2 ac.

Lemma cluster_ok_linked k c : cluster_ok k c <-> exists ac, linked k c ac.
Proof. unfold cluster_ok, linked. naive_solver. Qed.

Lemma linked_length k c ac : linked k c ac -> length ac = length c.
Proof.
  intros [_ (c2 & Hc & Hr)]. by rewrite (cr_length _ _ _ Hr), (Forall2_length _ _ _ Hc).
Qed.

Lemma linked_exec k c w ac op :
  linked k c ac -> Z.of_nat k < int64_max -> sized op ->
  exists c' w' ans ac', cexec op (c, w) = ((c', w'), Ok ans) /\ linked (Datatypes.S k) c' ac' /\
    length c' = length c /\ abs_cstep ac op ans ac'.
Proof.
  intros [Hl (c2 & Hc & Hr)] Hk Hs. pose proof (Forall2_length _ _ _ Hc) as Hlen.
  destruct (cexec_refines op k c2 w ac Hr Hk) as (c2' & w' & ans & ac' & Hrun & Hst & Hr' & Hl');
    [lia|done|].
  destruct (cexec_sim op (c, w) (c2, w)) as ([c' w1] & s2 & a & E1 & E2 & Hrel); [by split|].
  rewrite Hrun in E2. injection E2 as <- <-. destruct Hrel as [Hc' Hw]. simpl in *. subst w1.
  pose proof (Forall2_length _ _ _ Hc').
  exists c', w', ans, ac'. split_and!; [done|split; [lia|by exists c2']|lia|done].
Qed.

Lemma cluster_ok_exec k c w op :
  cluster_ok k c -> Z.of_nat k < int64_max -> sized op ->
  exists c' w' ans, cexec op (c, w) = ((c', w'), Ok ans) /\ cluster_ok (Datatypes.S k) c' /\
    length c' = length c /\
    exists ac ac', abs_cstep ac op ans ac'.
Proof.
  intros [ac Hc]%cluster_ok_linked Hk Hs.
  destruct (linked_exec k c w ac op Hc Hk Hs) as (c' & w' & ans & ac' & E & Hc' & Hl & Hst).
  exists c', w', ans. split_and!; eauto. apply cluster_ok_linked. eauto.
Qed.

Lemma cluster_ok_mono k k' c : cluster_ok k c -> (k <= k')%nat -> cluster_ok k' c.
Proof.
  intros [Hl (c2 & ac & Hc & [Hlen Hs])] Hk. split; [done|]. exists c2, ac. split; [done|].
  split; [done|]. intros i sh Hi. destruct (Hs i sh Hi) as (G & a & ? & ? & ? & ?).
  exists G, a. split_and!; try done; lia.
Qed.

(** The calls the gateway makes, without the answer wrapper. *)
Lemma answer_inv {A} (f : A -> Answer) (m : M (Cluster S * World) A) s s' ans :
  answer f m s = (s', Ok ans) -> exists x, m s = (s', Ok x) /\ ans = f x.
Proof.
  unfold answer, mbind, M_bind. destruct (m s) as [s1 [x|e]]; [|done].
  unfold mret, M_ret. intros [= <- <-]. by exists x.
Qed.
End clusters.

(** ** The cluster's status *)

Lemma cluster_status_sim {S} `{StoreSpec S} :
  sim (cluster_rel (S := S)) Cluster.status_json Cluster.status_json.
Proof.
  unfold Cluster.status_json. apply sim_bind.
  - apply sim_gets. intros [c1 w1] [c2 w2] [Hc _]. by apply rel_shard_count.
  - intros n. apply sim_bind; [|intros; apply sim_ret]. apply sim_for_fold. intros parts i.
    apply sim_bind; [|intros; apply sim_ret]. apply cluster_on_shard_sim, shard_status_sim.
Qed.

Lemma cluster_status_run (c : Cluster Tables) w :
  exists s, Cluster.status_json (c, w) = ((c, w), Ok s).
Proof.
  unfold Cluster.status_json. rewrite bind_gets. cbn [fst]. unfold shard_count. rewrite Nat2Z.id.
  assert (E : forall l parts, (forall i, i ∈ l -> (i < length c)%nat) -> exists parts',
    for_fold (Z.of_nat <$> l) parts (fun parts i =>
      part ← Cluster.on_shard i Shard.status_json; mret (parts ++ [part])) (c, w) = ((c, w), Ok parts')).
  { induction l as [|i l IH]; intros parts Hl; [by exists parts|]. rewrite fmap_cons. cbn [for_fold].
    destruct (lookup_lt_is_Some_2 c i) as [sh Hsh]; [apply Hl; by left|].
    assert (Hrun : exists x, Cluster.on_shard (Z.of_nat i) Shard.status_json (c, w) = ((c, w), Ok x)).
    { unfold Cluster.on_shard. simpl. rewrite Nat2Z.id, Hsh, status_run.
      eexists. by rewrite list_insert_id. }
    destruct Hrun as [x Hrun]. rewrite bind_assoc, (bind_ok _ _ _ _ _ Hrun).
    rewrite (bind_ok _ _ (c, w) (c, w) (parts ++ [x])) by done.
    apply IH. intros j Hj. apply Hl. by right. }
  destruct (E (seq 0 (length c)) []) as [parts Hrun]; [intros i Hi%elem_of_seq; lia|].
  rewrite (bind_ok _ _ _ _ _ Hrun). by eexists.
Qed.

Lemma cluster_ok_status {S} `{StoreSpec S} k (c : Cluster S) w :
  cluster_ok k c ->
  exists c' w' s, Cluster.status_json (c, w) = ((c', w'), Ok s) /\ cluster_ok k c' /\ length c' = length c.
Proof.
  intros [Hl (c2 & ac & Hc & Hr)].
  destruct (cluster_status_run c2 w) as [s Hs].
  destruct (cluster_status_sim (c, w) (c2, w)) as ([c' w'] & s2 & a & E1 & E2 & [Hc' _]); [by split|].
  rewrite Hs in E2. injection E2 as <- <-. simpl in *.
  pose proof (Forall2_length _ _ _ Hc). pose proof (Forall2_length _ _ _ Hc').
  exists c', w', s. split; [done|]. split; [split; [lia|by exists c2, ac]|lia].
Qed.

(** The status of an operation on a key. *)
Lemma key_op_status ac op ans ac' :
  abs_cstep ac op ans ac' ->
  forall res, ans = AResult res -> res_status res ∈ [200; 201; 404; 503].
Proof.
  intros [i sop a ans' a' _ _ Hst|] res E; [|done]. subst ans'.
  inversion Hst as [? ? ? ? Hc|? ? ? Hc|? b ? Hel| | | | | |]; subst; try done.
  - destruct Hc; simpl; set_solver.
  - destruct Hc; simpl; set_solver.
  - unfold abs_read, read_result. destruct b; [|simpl; set_solver].
    destruct (_ !! _); simpl; set_solver.
Qed.

Section gateway.
Context (steady : nat -> Z) {S : Type} `{StoreSpec S}.
Implicit Types (g : Gateway S) (n : nat).

(** The gateway can serve: its cluster is reachable and there is a breaker
    for every shard. *)
Record gateway_ok (k : nat) (g : Gateway S) : Prop := {
  go_cluster : cluster_ok k (g_cluster g);
  go_breakers : length (g_breakers g) = length (g_cluster g);
  go_retries : 0 <= g_max_retries g <= 59;
}.

(** The parts of the gateway a step leaves alone. *)
Definition keeps (g g' : Gateway S) : Prop :=
  g_cluster g' = g_cluster g /\ length (g_breakers g') = length (g_breakers g) /\
  g_max_retries g' = g_max_retries g /\ g_sleeps g' = g_sleeps g.

Lemma keeps_ok k g g' : gateway_ok k g -> keeps g g' -> gateway_ok k g'.
Proof. intros [] (E1 & E2 & E3 & _). split; congruence. Qed.

Lemma keeps_refl g : keeps g g.
Proof. done. Qed.
Lemma keeps_trans g1 g2 g3 : keeps g1 g2 -> keeps g2 g3 -> keeps g1 g3.
Proof. intros (?&?&?&?) (?&?&?&?). split_and!; congruence. Qed.

Lemma bind_self {A B} (f : Gateway S -> A) (k : A -> M (Gateway S * nat) B) g n :
  (self f ≫= k) (g, n) = k (f g) (g, n).
Proof. done. Qed.

Lemma metric_run f g n :
  exists g', metric f (g, n) = ((g', n), Ok tt) /\ keeps g g' /\
    w_metrics (g_world g') = f (w_metrics (g_world g)) /\ g_buckets g' = g_buckets g /\
    g_breakers g' = g_breakers g.
Proof. eexists. split; [reflexivity|]. done. Qed.

Lemma finish_run started r g n :
  exists g' latency, finish steady started r (g, n) =
      ((g', Datatypes.S n), Ok (with_header "X-Request-Latency-Us" (to_string latency)
         (with_header "X-Content-Type-Options" "nosniff" r))) /\ keeps g g' /\
    w_metrics (g_world g') = record_request (wrap_u64 latency) (w_metrics (g_world g)) /\
    g_buckets g' = g_buckets g /\ g_breakers g' = g_breakers g.
Proof.
  unfold finish. rewrite (bind_ok _ _ (g, n) (g, Datatypes.S n) (steady n) eq_refl). cbv zeta.
  destruct (metric_run (record_request (wrap_u64 (Z.quot (steady n - started) 1000))) g
    (Datatypes.S n)) as (g' & E & Hk & Hm & Hb & Hbr).
  rewrite (bind_ok _ _ _ _ _ E). by eexists g', _.
Qed.

Lemma on_breaker_run {A} i (m : M (CircuitBreaker * nat) A) g n :
  (i < length (g_breakers g))%nat ->
  (forall b n, exists b' n' a, m (b, n) = ((b', n'), Ok a)) ->
  exists g' n' a, on_breaker (Z.of_nat i) m (g, n) = ((g', n'), Ok a) /\ keeps g g'.
Proof.
  intros Hi Hm. unfold on_breaker. rewrite Nat2Z.id. simpl.
  destruct (lookup_lt_is_Some_2 _ _ Hi) as [b ->].
  destruct (Hm b n) as (b' & n' & a & ->). eexists _, _, a. split; [done|].
  split_and!; try done. simpl. by rewrite length_insert.
Qed.

Lemma record_failure_total b n :
  exists b' n' a, record_failure steady (b, n) = ((b', n'), Ok a).
Proof.
  unfold record_failure, self, update, now. rewrite bind_modify, bind_gets.
  destruct (_ || _); by eexists _, _, _.
Qed.
Lemma record_success_total b n :
  exists b' n' a, record_success (b, n) = ((b', n'), Ok a).
Proof. by eexists _, _, _. Qed.
Lemma allow_request_total b n :
  exists b' n' a, allow_request steady (b, n) = ((b', n'), Ok a).
Proof. destruct (allow_run steady b n) as (b' & n' & a & E & _). eauto. Qed.

(** One call on a key. *)
Lemma call_run k operation key value g n :
  gateway_ok k g -> Z.of_nat k < int64_max -> fits_int value ->
  exists g' res, call operation key value (g, n) = ((g', n), Ok res) /\
    gateway_ok (Datatypes.S k) g' /\ res_status res ∈ [200; 201; 404; 503] /\
    g_sleeps g' = g_sleeps g /\ length (g_cluster g') = length (g_cluster g) /\
    g_max_retries g' = g_max_retries g.
Proof.
  intros [Hc Hb Hr] Hk Hv.
  assert (Hgo : forall op m, sized op -> cexec op = answer AResult m ->
    exists g' res, on_cluster m (g, n) = ((g', n), Ok res) /\
    gateway_ok (Datatypes.S k) g' /\ res_status res ∈ [200; 201; 404; 503] /\
    g_sleeps g' = g_sleeps g /\ length (g_cluster g') = length (g_cluster g) /\
    g_max_retries g' = g_max_retries g).
  { intros op m Hs Hm.
    destruct (cluster_ok_exec k (g_cluster g) (g_world g) op Hc Hk Hs)
      as (c' & w' & ans & Hrun & Hok & Hl & ac & ac' & Hst).
    rewrite Hm in Hrun. apply answer_inv in Hrun as (res & Hrun & ->).
    unfold on_cluster, zoom. simpl. rewrite Hrun. eexists _, res. split; [done|].
    split; [by split; simpl; [done|congruence|done]|]. by split; [eapply key_op_status|]. }
  unfold call. repeat case_decide.
  - by apply (Hgo (CGet key)).
  - by apply (Hgo (CPut key value)).
  - by apply (Hgo (CErase key)).
Qed.

(** The pauses before the retries [from], [from + 1], ... *)
Definition backoff (from : Z) (count : nat) : list Z :=
  (fun a => 20 * 2 ^ a) <$> seqZ from (Z.of_nat count).

Lemma backoff_cons from count :
  backoff from (Datatypes.S count) = 20 * 2 ^ from :: backoff (from + 1) count.
Proof.
  unfold backoff. rewrite seqZ_cons by lia. rewrite fmap_cons. f_equal.
  f_equal. f_equal; lia.
Qed.

Lemma sleep_run attempt g n :
  0 <= attempt < 59 -> sleep_before_retry attempt (g, n) = ((with_sleep (20 * 2 ^ attempt) g, n), Ok tt).
Proof.
  intros Ha. unfold sleep_before_retry. rewrite (proj2 (Z.ltb_lt _ _)) by lia.
  unfold wrap_u64, update, modify. rewrite Z.mod_small; [done|].
  split; [nia|]. unfold uint64_mod. replace 64 with (5 + 59) by done. rewrite Z.pow_add_r by lia.
  assert (2 ^ attempt < 2 ^ 59) by (apply Z.pow_lt_mono_r; lia). lia.
Qed.

(** What the retry loop may do. *)
Definition retried (k : nat) (g g' : Gateway S) (from : Z) (count : nat) : Prop :=
  gateway_ok k g' /\ length (g_cluster g') = length (g_cluster g) /\
  g_max_retries g' = g_max_retries g /\ g_sleeps g' = g_sleeps g ++ backoff from count.

Lemma attempts_run m k attempt operation key value i res0 g n :
  gateway_ok k g -> fits_int value -> (i < length (g_cluster g))%nat -> 0 <= attempt ->
  attempt + Z.of_nat m = g_max_retries g + 1 -> Z.of_nat (k + m) <= int64_max -> (0 < m)%nat ->
  exists g' n' res j,
    attempts steady m attempt operation key value (Z.of_nat i) res0 (g, n) = ((g', n'), Ok res) /\
    retried (k + m) g g' attempt j /\ (j < m)%nat /\ res_status res ∈ [200; 201; 404; 503].
Proof.
  revert k attempt res0 g n. induction m as [|m IH]; intros k attempt res0 g n Hg Hv Hi Ha Hm Hk Hpos; [lia|].
  cbn [attempts].
  destruct (call_run k operation key value g n Hg) as (g1 & res & Hrun & Hg1 & Hres & Hs1 & Hl1 & Hr1); [lia|done|].
  rewrite (bind_ok _ _ _ _ _ Hrun).
  assert (Hi1 : (i < length (g_breakers g1))%nat) by (rewrite (go_breakers _ _ Hg1); lia).
  assert (Hdone : forall g2, keeps g1 g2 -> retried (k + Datatypes.S m) g g2 attempt 0).
  { intros g2 Hk2. pose proof Hk2 as (E1 & E2 & E3 & E4). split_and!; [|congruence|congruence|].
    - destruct (keeps_ok _ _ _ Hg1 Hk2) as [F1 F2 F3]. split; [|done|done].
      eapply cluster_ok_mono; [exact F1|lia].
    - rewrite E4, Hs1. by rewrite app_nil_r. }
  destruct (res_status res <? 500) eqn:E500.
  - destruct (on_breaker_run i record_success g1 n Hi1 record_success_total) as (g2 & n2 & a & E & Hk2).
    rewrite (bind_ok _ _ _ _ _ E). exists g2, n2, res, 0%nat. split_and!; [done|by apply Hdone|lia|done].
  - destruct (on_breaker_run i (record_failure steady) g1 n Hi1 record_failure_total) as (g2 & n2 & a & E & Hk2).
    rewrite (bind_ok _ _ _ _ _ E). rewrite bind_self.
    pose proof Hk2 as (F1 & F2 & F3 & F4). rewrite F3, Hr1.
    destruct (attempt <? g_max_retries g) eqn:Em.
    + destruct (metric_run inc_retry g2 n2) as (g3 & E3 & Hk3 & _).
      pose proof Hk3 as (K1 & K2 & K3 & K4). cbn [when].
      rewrite bind_assoc, (bind_ok _ _ _ _ _ E3).
      pose proof (go_retries _ _ Hg). rewrite (bind_ok _ _ _ _ _ (sleep_run attempt g3 n2 ltac:(lia))).
      set (g4 := with_sleep _ g3).
      assert (Hg4 : gateway_ok (Datatypes.S k) g4).
      { destruct (keeps_ok _ _ _ (keeps_ok _ _ _ Hg1 Hk2) Hk3). by split. }
      destruct (IH (Datatypes.S k) (attempt + 1) res g4 n2 Hg4 Hv) as (g5 & n5 & res5 & j & R & (T1 & T2 & T3 & T4) & Hj & Hst);
        [simpl; congruence || lia..|simpl; rewrite K3, F3, Hr1; lia|lia|lia|].
      exists g5, n5, res5, (Datatypes.S j). split; [done|]. split_and!; [|lia|done]. split_and!.
      * by rewrite Nat.add_succ_r.
      * rewrite T2. simpl. congruence.
      * rewrite T3. simpl. congruence.
      * rewrite T4. simpl. rewrite K4, F4, Hs1, backoff_cons. by rewrite <- app_assoc.
    + assert (m = 0%nat) as -> by lia. cbn [when attempts].
      exists g2, n2, res, 0%nat. split_and!; [done|by apply Hdone|lia|done].
Qed.

(** The whole of [execute_with_resilience]. *)
Lemma execute_run k operation key value g n :
  gateway_ok k g -> fits_int value -> Z.of_nat k + g_max_retries g + 1 <= int64_max ->
  exists g' n' r count, execute_with_resilience steady operation key value (g, n) = ((g', n'), Ok r) /\
    retried (k + Z.to_nat (g_max_retries g + 1)) g g' 0 count /\
    Z.of_nat count <= g_max_retries g /\ rs_status r ∈ [200; 201; 404; 503].
Proof.
  intros Hg Hv Hk. pose proof (go_retries _ _ Hg) as Hr. pose proof (go_cluster _ _ Hg) as [Hl _].
  unfold execute_with_resilience. rewrite bind_self.
  pose proof (shard_for_key_range key (g_cluster g) Hl) as Hrange. unfold shard_count in Hrange.
  set (shard := shard_for_key key (g_cluster g)) in *. rewrite <- (Z2Nat.id shard) by lia.
  set (i := Z.to_nat shard) in *. assert (Hi : (i < length (g_cluster g))%nat) by lia.
  destruct (on_breaker_run i (allow_request steady) g n) as (g1 & n1 & allowed & E & Hk1);
    [by rewrite (go_breakers _ _ Hg)|apply allow_request_total|].
  rewrite (bind_ok _ _ _ _ _ E). pose proof (keeps_ok _ _ _ Hg Hk1) as Hg1.
  pose proof Hk1 as (F1 & F2 & F3 & F4). destruct allowed; cbn [negb].
  - rewrite bind_self. rewrite F3.
    destruct (attempts_run (Z.to_nat (g_max_retries g + 1)) k 0 operation key value i default_result g1 n1)
      as (g2 & n2 & res & j & R & (T1 & T2 & T3 & T4) & Hj & Hst); try done; try lia; [congruence|].
    rewrite (bind_ok _ _ _ _ _ R).
    assert (Hfin : exists g3, when (500 <=? res_status res) (metric inc_gateway_failure) (g2, n2) =
      ((g3, n2), Ok tt) /\ keeps g2 g3).
    { destruct (500 <=? res_status res); [|by exists g2].
      destruct (metric_run inc_gateway_failure g2 n2) as (g3 & E3 & Hk3 & _). by exists g3. }
    destruct Hfin as (g3 & E3 & Hk3). rewrite (bind_ok _ _ _ _ _ E3).
    pose proof Hk3 as (K1 & K2 & K3 & K4).
    eexists g3, n2, _, j. split; [reflexivity|]. split_and!; [|lia|done].
    split_and!; [by eapply keeps_ok|congruence|congruence|congruence].
  - destruct (metric_run inc_circuit_open g1 n1) as (g2 & E2 & Hk2 & _).
    rewrite (bind_ok _ _ _ _ _ E2). pose proof (keeps_ok _ _ _ Hg1 Hk2) as [G1 G2 G3].
    pose proof Hk2 as (K1 & K2 & K3 & K4).
    eexists g2, n1, _, 0%nat. split; [reflexivity|]. split_and!; [|lia|simpl; set_solver].
    split_and!; [split; [|done|done]; eapply cluster_ok_mono; [exact G1|lia]|congruence|congruence|].
    rewrite K4, F4. by rewrite app_nil_r.
Qed.

(** ** Handling a request *)

(** The statuses of the responses of the gateway.  The document
    [api/openapi.yaml] does not list 400 and 405. *)
Definition statuses : list Z := [200; 201; 400; 401; 404; 405; 413; 429; 503].

(** What handling a request promises: a response with one of the nine
    statuses above and the security header, at most [max_retries] retries with
    doubling pauses, and a gateway that can serve the next request. *)
Definition responds (k : nat) (g0 g : Gateway S) n (m : M (Gateway S * nat) HttpResponse) : Prop :=
  exists g' n' r count, m (g, n) = ((g', n'), Ok r) /\
    retried (k + Z.to_nat (g_max_retries g0 + 1)) g0 g' 0 count /\
    Z.of_nat count <= g_max_retries g0 /\ rs_status r ∈ statuses /\
    rs_headers r !! "X-Content-Type-Options" = Some "nosniff".

Lemma retried_keeps K g0 g g' c : retried K g0 g 0 c -> keeps g g' -> retried K g0 g' 0 c.
Proof.
  intros (T1 & T2 & T3 & T4) Hk. pose proof Hk as (K1 & K2 & K3 & K4).
  split_and!; [by eapply keeps_ok|congruence..].
Qed.

Lemma retried_none k g0 g : gateway_ok k g0 -> keeps g0 g ->
  retried (k + Z.to_nat (g_max_retries g0 + 1)) g0 g 0 0.
Proof.
  intros Hg Hk. pose proof Hk as (K1 & K2 & K3 & K4).
  destruct (keeps_ok _ _ _ Hg Hk) as [F1 F2 F3].
  split_and!; [|congruence|congruence|by rewrite app_nil_r].
  split; [|done|done]. eapply cluster_ok_mono; [exact F1|lia].
Qed.

Lemma finish_responds k g0 g n started r c :
  retried (k + Z.to_nat (g_max_retries g0 + 1)) g0 g 0 c -> Z.of_nat c <= g_max_retries g0 ->
  rs_status r ∈ statuses -> responds k g0 g n (finish steady started r).
Proof.
  intros Hr Hc Hs. destruct (finish_run started r g n) as (g' & lat & E & Hk & _).
  eexists g', _, _, c. split; [exact E|]. split_and!; [by eapply retried_keeps|done|done|].
  simpl. rewrite lookup_insert_ne by done. apply lookup_insert_eq.
Qed.

Lemma bind_responds {A} k g0 g n (m : M (Gateway S * nat) A) f s' a :
  m (g, n) = (s', Ok a) -> responds k g0 s'.1 s'.2 (f a) -> responds k g0 g n (m ≫= f).
Proof.
  intros Hm (g' & n' & r & c & E & H1). exists g', n', r, c. rewrite (bind_ok _ _ _ _ _ Hm).
  by destruct s'.
Qed.

Lemma retried_base k g0 g g1 c :
  gateway_ok k g -> keeps g0 g -> retried (k + Z.to_nat (g_max_retries g + 1)) g g1 0 c ->
  retried (k + Z.to_nat (g_max_retries g0 + 1)) g0 g1 0 c.
Proof.
  intros Hg (K1 & K2 & K3 & K4) (T1 & T2 & T3 & T4). rewrite K3 in T1.
  split_and!; [done|congruence..].
Qed.

(** An operation on a key, counted in the metrics. *)
Lemma execute_responds k g0 g n started f operation key value :
  gateway_ok k g0 -> keeps g0 g -> fits_int value -> Z.of_nat k + g_max_retries g0 + 1 <= int64_max ->
  responds k g0 g n (metric f ;; r ← execute_with_resilience steady operation key value;
                     finish steady started r).
Proof.
  intros Hg Hk Hv Hb. destruct (metric_run f g n) as (g1 & E & Hk1 & _).
  assert (Hk01 : keeps g0 g1) by (by eapply keeps_trans).
  pose proof (keeps_ok _ _ _ Hg Hk01) as Hg1. pose proof Hk01 as (K1 & K2 & K3 & K4).
  eapply bind_responds; [exact E|]. cbn [fst snd].
  destruct (execute_run k operation key value g1 n Hg1 Hv) as (g2 & n2 & r & c & E2 & Hr & Hc & Hs);
    [by rewrite K3|].
  eapply bind_responds; [exact E2|]. cbn [fst snd].
  apply (finish_responds k g0 g2 n2 started r c); [by eapply retried_base|by rewrite <- K3|].
  unfold statuses. set_solver.
Qed.

Lemma reply_responds k g0 g n started r :
  gateway_ok k g0 -> keeps g0 g -> rs_status r ∈ statuses ->
  responds k g0 g n (finish steady started r).
Proof.
  intros Hg Hk Hs. pose proof (go_retries _ _ Hg).
  apply (finish_responds k g0 g n started r 0); [by apply retried_none|lia|done].
Qed.

Lemma handle_kv_responds k g0 g n started request key :
  gateway_ok k g0 -> keeps g0 g -> Z.of_nat k + g_max_retries g0 + 1 <= int64_max ->
  responds k g0 g n (handle_kv steady started request key).
Proof.
  intros Hg Hk Hb. unfold handle_kv.
  repeat first [case_match|case_decide];
    first [apply execute_responds; [done|done|unfold fits_int, int_max; simpl; lia|done]
          |apply reply_responds; [done|done|unfold statuses; simpl; set_solver]].
Qed.

(** An administrative operation on the cluster. *)
Lemma admin_run k g0 g n op m :
  gateway_ok k g0 -> keeps g0 g -> Z.of_nat k < int64_max -> sized op ->
  cexec op = answer ABool m ->
  exists g' b, on_cluster m (g, n) = ((g', n), Ok b) /\
    retried (k + Z.to_nat (g_max_retries g0 + 1)) g0 g' 0 0.
Proof.
  intros Hg Hk Hb Hs Hm. destruct (keeps_ok _ _ _ Hg Hk) as [F1 F2 F3].
  pose proof Hk as (K1 & K2 & K3 & K4).
  destruct (cluster_ok_exec k (g_cluster g) (g_world g) op F1 Hb Hs)
    as (c' & w' & ans & Hrun & Hok & Hl & _).
  rewrite Hm in Hrun. apply answer_inv in Hrun as (b & Hrun & _).
  unfold on_cluster, zoom. simpl. rewrite Hrun. eexists _, b. split; [done|].
  split_and!; simpl; [|congruence|congruence|by rewrite app_nil_r].
  split; simpl; [|congruence|done]. eapply cluster_ok_mono; [exact Hok|]. lia.
Qed.

(** [std::stoull] and what depends on it, under [catch (...)]. *)
Lemma catch_responds k g0 g n started text (body : Z -> M (Gateway S * nat) HttpResponse) :
  gateway_ok k g0 -> keeps g0 g ->
  (forall id, 0 <= id -> responds k g0 g n (body id)) ->
  responds k g0 g n (catch (id ← lift (stoull text); body id)
    (fun _ => finish steady started (json_response 400 (error_body "invalid shard id")))).
Proof.
  intros Hg Hk Hbody. unfold responds, catch.
  destruct (stoull text) as [id|e] eqn:E.
  - destruct (Hbody id (stou_nonneg _ _ _ E)) as (g' & n' & r & c & Hrun & H1).
    exists g', n', r, c. rewrite (bind_ok _ _ (g, n) (g, n) id) by done. by rewrite Hrun.
  - rewrite (bind_throw _ _ (g, n) (g, n) e) by done.
    assert (Hr : responds k g0 g n
      (finish steady started (json_response 400 (error_body "invalid shard id"))))
      by (apply reply_responds; [done|done|unfold statuses; simpl; set_solver]).
    by apply stou_throw in E as [-> | ->].
Qed.

Lemma admin_responds k g0 g n started op m (reply : bool -> HttpResponse) :
  gateway_ok k g0 -> keeps g0 g -> Z.of_nat k < int64_max -> sized op ->
  cexec op = answer ABool m -> (forall b, rs_status (reply b) ∈ statuses) ->
  responds k g0 g n (ok ← on_cluster m; finish steady started (reply ok)).
Proof.
  intros Hg Hk Hb Hs Hm Hst. pose proof (go_retries _ _ Hg).
  destruct (admin_run k g0 g n op m Hg Hk Hb Hs Hm) as (g' & b & E & Hr).
  eapply bind_responds; [exact E|]. by apply (finish_responds k g0 g' n started (reply b) 0); [|lia|].
Qed.

Lemma if_finish {A} (b : bool) (f : A -> M (Gateway S * nat) HttpResponse) (x y : A) :
  (if b then f x else f y) = f (if b then x else y).
Proof. by destruct b. Qed.

Lemma handle_replica_responds k g0 g n started action shard replica :
  gateway_ok k g0 -> keeps g0 g -> Z.of_nat k < int64_max ->
  responds k g0 g n (handle_replica steady started action shard replica).
Proof.
  intros Hg Hk Hb. unfold handle_replica. apply catch_responds; [done..|]. intros id Hid.
  set (yes := json_response 200 _). set (no := json_response 404 _).
  assert (Hgo : forall op m, sized op -> cexec op = answer ABool m ->
    responds k g0 g n (ok ← on_cluster m;
      if negb ok then finish steady started no else finish steady started yes)).
  { intros op m Hs Hm.
    destruct (admin_responds k g0 g n started op m (fun ok => if negb ok then no else yes))
      as (g' & n' & r & c & E & H1); try done.
    { intros []; unfold statuses; simpl; set_solver. }
    exists g', n', r, c. split; [|done]. rewrite <- E. unfold mbind, M_bind.
    destruct (on_cluster m (g, n)) as [s1 [[]|]]; done. }
  case_decide; [by apply (Hgo (CFail id replica))|by apply (Hgo (CRecover id replica))].
Qed.

Lemma handle_elect_responds k g0 g n started shard :
  gateway_ok k g0 -> keeps g0 g -> Z.of_nat k < int64_max ->
  responds k g0 g n (handle_elect steady started shard).
Proof.
  intros Hg Hk Hb. unfold handle_elect. apply catch_responds; [done..|]. intros id Hid.
  set (yes := json_response 200 _). set (no := json_response 503 _).
  destruct (admin_responds k g0 g n started (CElect id) (elect id) (fun ok => if negb ok then no else yes))
    as (g' & n' & r & c & E & H1); try done.
  { intros []; unfold statuses; simpl; set_solver. }
  exists g', n', r, c. split; [|done]. rewrite <- E. unfold mbind, M_bind.
  destruct (on_cluster (elect id) (g, n)) as [s1 [[]|]]; done.
Qed.

Lemma status_responds k g0 g n started :
  gateway_ok k g0 -> keeps g0 g ->
  responds k g0 g n (body ← on_cluster Cluster.status_json;
                     finish steady started (json_response 200 body)).
Proof.
  intros Hg Hk. destruct (keeps_ok _ _ _ Hg Hk) as [F1 F2 F3]. pose proof Hk as (K1 & K2 & K3 & K4).
  destruct (cluster_ok_status k (g_cluster g) (g_world g) F1) as (c' & w' & s & E & Hok & Hl).
  assert (Hrun : on_cluster Cluster.status_json (g, n) = ((with_cluster (c', w') g, n), Ok s)).
  { unfold on_cluster, zoom. simpl. by rewrite E. }
  eapply bind_responds; [exact Hrun|]. cbn [fst snd].
  apply (finish_responds k g0 _ n started _ 0); [|lia|unfold statuses; simpl; set_solver].
  split_and!; simpl; [|congruence|congruence|by rewrite app_nil_r].
  split; simpl; [|congruence|done]. eapply cluster_ok_mono; [exact Hok|]. lia.
Qed.

Lemma route_responds k g0 g n started request :
  gateway_ok k g0 -> keeps g0 g -> Z.of_nat k + g_max_retries g0 + 1 <= int64_max ->
  responds k g0 g n (route_request steady started request).
Proof.
  intros Hg Hk Hb. pose proof (go_retries _ _ Hg). assert (Hlt : Z.of_nat k < int64_max) by lia.
  assert (H404 : responds k g0 g n
    (finish steady started (json_response 404 (error_body "route not found"))))
    by (apply reply_responds; [done|done|unfold statuses; simpl; set_solver]).
  unfold route_request. cbv zeta. generalize (split_path (rq_path request)) as parts. intros parts.
  destruct parts as [|p0 [|p1 [|p2 [|p3 [|]]]]]; repeat case_decide;
    lazymatch goal with
    | |- responds _ _ _ _ (handle_kv _ _ _ _) => by apply handle_kv_responds
    | |- responds _ _ _ _ (handle_elect _ _ _) => by apply handle_elect_responds
    | |- responds _ _ _ _ (handle_replica _ _ _ _ _) => by apply handle_replica_responds
    | |- responds _ _ _ _ (finish _ _ _) => exact H404
    | |- _ => by apply status_responds
    end.
Qed.

Lemma rate_limit_run client g n :
  exists g' n' b, allowed_by_rate_limit steady client (g, n) = ((g', n'), Ok b) /\ keeps g g'.
Proof.
  unfold allowed_by_rate_limit, bucket_for. rewrite bind_assoc, bind_self.
  assert (Hgo : forall b m, exists g' n' a, consume_from steady client b (g, m) = ((g', n'), Ok a) /\ keeps g g').
  { intros b m. unfold consume_from, consume, now, update, self, mbind, M_bind, modify, gets. cbn [fst snd].
    destruct (dltb _ _); by eexists _, _, _. }
  destruct (g_buckets g !! client) as [b|].
  - rewrite (bind_ok _ _ (g, n) (g, n) b) by done. apply Hgo.
  - rewrite bind_assoc, (bind_ok _ _ (g, n) (g, Datatypes.S n) (steady n)) by done.
    erewrite bind_ok by reflexivity. apply Hgo.
Qed.

Lemma handle_responds k g n request :
  gateway_ok k g -> Z.of_nat k + g_max_retries g + 1 <= int64_max ->
  responds k g g n (handle steady request).
Proof.
  intros Hg Hb. unfold handle.
  eapply bind_responds; [reflexivity|]. cbn [fst snd].
  assert (Hreply : forall g' n' started r, keeps g g' -> rs_status r ∈ statuses ->
    responds k g g' n' (finish steady started r)) by (intros; by apply reply_responds).
  case_decide; [apply Hreply; [done|unfold statuses; simpl; set_solver]|].
  case_decide.
  { eapply bind_responds; [reflexivity|]. apply Hreply; [done|unfold statuses; simpl; set_solver]. }
  eapply bind_responds; [reflexivity|]. cbn [fst snd]. destruct (negb (authorized request g)).
  { destruct (metric_run inc_auth_failure g (Datatypes.S n)) as (g1 & E & Hk & _).
    eapply bind_responds; [exact E|]. apply Hreply; [done|unfold statuses; simpl; set_solver]. }
  destruct (rate_limit_run (client_id request) g (Datatypes.S n)) as (g1 & n1 & b & E & Hk).
  eapply bind_responds; [exact E|]. cbn [fst snd]. destruct b; cbn [negb].
  - by apply route_responds.
  - destruct (metric_run inc_rate_limited g1 n1) as (g2 & E2 & Hk2 & _).
    eapply bind_responds; [exact E2|].
    apply Hreply; [by eapply keeps_trans|unfold statuses; simpl; set_solver].
Qed.
End gateway.

(** ** From the start of the process *)

(** The answers to a sequence of requests. *)
Fixpoint serve {S} `{Store S} (steady : nat -> Z) (reqs : list HttpRequest) (s : Gateway S * nat)
    : list (result HttpResponse) :=
  match reqs with
  | [] => []
  | rq :: reqs' => let '(s', a) := handle steady rq s in a :: serve steady reqs' s'
  end.

Definition good_response (a : result HttpResponse) : Prop :=
  exists r, a = Ok r /\ rs_status r ∈ statuses /\
            rs_headers r !! "X-Content-Type-Options" = Some "nosniff".

Lemma serve_good {S} `{StoreSpec S} steady reqs k g n :
  gateway_ok k g ->
  Z.of_nat k + Z.of_nat (length reqs) * (g_max_retries g + 1) <= int64_max ->
  Forall good_response (serve steady reqs (g, n)).
Proof.
  revert k g n. induction reqs as [|rq reqs IH]; intros k g n Hg Hb; [constructor|].
  pose proof (go_retries _ _ Hg) as Hr. cbn [length] in Hb. cbn [serve].
  destruct (handle_responds steady k g n rq Hg) as (g' & n' & r & c & -> & (T1 & T2 & T3 & T4) & Hc & Hs & Hh);
    [nia|].
  constructor; [by exists r|]. apply (IH _ g' n' T1). rewrite T3. nia.
Qed.

Definition world0 : World := {| w_metrics := zero_metrics; w_log := [] |}.

Lemma new_cluster_ok {S} `{StoreSpec S} m n (disk : string -> st_file (S := S)) :
  (1 <= m)%nat -> (1 <= n)%nat -> empty_directory disk ->
  exists c w, Cluster_new m n disk world0 = (w, Ok c) /\ cluster_ok 0 c.
Proof.
  intros Hm Hn Hd.
  destruct (chistory_refines m n disk [] Hm Hn Hd) as (s & l & ac0 & ac & c & E & Hnew & Habs & Hc & Hr);
    [done|constructor|].
  unfold chistory in E. fold world0 in E.
  destruct (Cluster_new m n disk world0) as [w [c1|]]; [|done]. injection E as <- _.
  exists c1, w. split; [done|]. split; [|by exists c, ac].
  pose proof (Forall2_length _ _ _ Hc) as HL. simpl in HL.
  rewrite HL, <- (cr_length _ _ _ Hr), (abs_crun_length _ _ _ _ Habs).
  by rewrite <- (Forall2_length _ _ _ Hnew), length_seq.
Qed.

Lemma new_gateway_ok {S} `{StoreSpec S} (c : Cluster S) w key rate burst retries :
  cluster_ok 0 c -> 0 <= retries <= 59 -> gateway_ok 0 (Gateway_new c w key rate burst retries).
Proof. intros Hc Hr. split; [done|simpl; by rewrite length_replicate|done]. Qed.

(** C20: every request is answered.  A gateway started on an empty directory
    with at most 59 retries answers any sequence of requests, whatever their
    path, headers and body and whatever the clock shows: no exception reaches
    the server, no index is out of range and nothing is undefined; every
    response has one of the nine statuses 200, 201, 400, 401, 404, 405, 413, 429
    and 503 and the header [X-Content-Type-Options].  (The number of tries of all
    requests together is limited to [int64_t], which the log indices have.) *)
Theorem gateway_answers_every_request {S : Type} `{StoreSpec S} (steady : nat -> Z) (m n : nat)
    (disk : string -> st_file (S := S)) (key : string) (rate burst : double) (retries : Z)
    (reqs : list HttpRequest) :
  (1 <= m)%nat -> (1 <= n)%nat -> empty_directory disk -> 0 <= retries <= 59 ->
  Z.of_nat (length reqs) * (retries + 1) <= int64_max ->
  exists c w, Cluster_new m n disk world0 = (w, Ok c) /\
    length (serve steady reqs (Gateway_new c w key rate burst retries, 0%nat)) = length reqs /\
    Forall good_response (serve steady reqs (Gateway_new c w key rate burst retries, 0%nat)).
Proof.
  intros Hm Hn Hd Hr Hb. destruct (new_cluster_ok m n disk Hm Hn Hd) as (c & w & E & Hc).
  exists c, w. split; [done|]. split.
  - generalize (Gateway_new c w key rate burst retries, 0%nat) as s. clear -reqs.
    induction reqs as [|rq reqs IH]; intros s; [done|]. cbn [serve].
    destruct (handle steady rq s). simpl. by rewrite IH.
  - apply (serve_good steady reqs 0); [by apply new_gateway_ok|done].
Qed.

(** A request with the right token. *)
Definition demo_request (method path body : string) : HttpRequest :=
  {| rq_method := method; rq_path := path; rq_version := "HTTP/1.1";
     rq_headers := {[ "authorization" := "Bearer dev-secret" ]}; rq_body := body;
     rq_remote_ip := "127.0.0.1" |}.

Definition demo_requests : list HttpRequest :=
  [demo_request "PUT" "/v1/kv/alpha" "1"; demo_request "GET" "/v1/kv/alpha" "";
   demo_request "POST" "/admin/fail/x/s0-r0" ""].

Lemma gateway_answers_every_request_witness :
  exists c w, Cluster_new (S := MemDb) 2 3 mem_disk world0 = (w, Ok c) /\
    length (serve Z.of_nat demo_requests
      (Gateway_new c w "dev-secret" (double_of_Z 20) (double_of_Z 40) 2, 0%nat)) = 3%nat /\
    Forall good_response (serve Z.of_nat demo_requests
      (Gateway_new c w "dev-secret" (double_of_Z 20) (double_of_Z 40) 2, 0%nat)).
Proof.
  apply (gateway_answers_every_request (S := MemDb) Z.of_nat 2 3 mem_disk "dev-secret"
    (double_of_Z 20) (double_of_Z 40) 2 demo_requests); [lia|lia|apply mem_disk_empty|lia|done].
Defined.

(** C21: only the holder of the key reaches the store.  A request for any path
    but the health check and the metrics whose [authorization] header is not
    exactly [Bearer ] followed by the configured key is answered with 401; the
    cluster, the circuit breakers and the rate limiter are left as they were,
    and of the metrics only the counters of requests and of authentication
    failures change. *)
Theorem unauthorized_is_rejected {S : Type} `{StoreSpec S} (steady : nat -> Z)
    (request : HttpRequest) (g : Gateway S) (n : nat) :
  rq_path request <> "/healthz" -> rq_path request <> "/metrics" ->
  rq_headers request !! "authorization" <> Some ("Bearer " +:+ g_api_key g) ->
  exists g' r latency, handle steady request (g, n) = ((g', (n + 2)%nat), Ok r) /\
    rs_status r = 401 /\ g_cluster g' = g_cluster g /\ g_breakers g' = g_breakers g /\
    g_buckets g' = g_buckets g /\ g_sleeps g' = g_sleeps g /\
    w_metrics (g_world g') = record_request latency (inc_auth_failure (w_metrics (g_world g))).
Proof.
  intros Hh Hm Ha. unfold handle. erewrite bind_ok by reflexivity. rewrite !decide_False by done.
  cbn [fst snd]. rewrite bind_self. assert (Hf : authorized request g = false).
  { unfold authorized. destruct (rq_headers request !! "authorization") as [v|]; [|done].
    apply bool_decide_false. congruence. }
  rewrite Hf. cbn [negb fst snd].
  destruct (metric_run inc_auth_failure g (Datatypes.S n)) as (g1 & E1 & (K1 & _ & _ & K4) & M1 & B1 & R1).
  rewrite (bind_ok _ _ _ _ _ E1).
  destruct (finish_run steady (steady n) (json_response 401 (error_body "missing or invalid bearer token")) g1 (Datatypes.S n))
    as (g2 & lat & E2 & (L1 & _ & _ & L4) & M2 & B2 & R2).
  rewrite E2, Nat.add_comm. eexists g2, _, _. split; [done|]. split_and!; try congruence; [done|].
  by rewrite M2, M1.
Qed.

Lemma unauthorized_is_rejected_witness :
  let g := Gateway_new (S := Tables) [] world0 "dev-secret" (double_of_Z 20) (double_of_Z 40) 2 in
  let rq := {| rq_method := "PUT"; rq_path := "/v1/kv/a"; rq_version := "HTTP/1.1";
               rq_headers := {[ "authorization" := "Bearer dev-secre" ]}; rq_body := "x";
               rq_remote_ip := "127.0.0.1" |} in
  exists g' r latency, handle Z.of_nat rq (g, 0%nat) = ((g', 2%nat), Ok r) /\
    rs_status r = 401 /\ g_cluster g' = g_cluster g /\ g_breakers g' = g_breakers g /\
    g_buckets g' = g_buckets g /\ g_sleeps g' = g_sleeps g /\
    w_metrics (g_world g') = record_request latency (inc_auth_failure (w_metrics (g_world g))).
Proof.
  intros g rq. apply (unauthorized_is_rejected (S := Tables) Z.of_nat rq g 0); done.
Defined.


