(* ===== verification/HttpServer.v ===== *)
(** * src/http_server.cpp: reading a request from a connection and answering it

    [handle_client] runs in a thread of its own on the socket of one connection.
    The socket is the operating system's: what it delivers is a parameter, the
    segments that successive calls of [recv] find and the number of bytes that
    successive calls of [send] accept.  The handler is a parameter too; [main]
    passes the gateway.  [Listener] models how connections are accepted and
    [Threads] what their threads do in the gateway at the same time. *)

From S2P Require Import Prelude CppStd Common Sqlite Metrics Gateway.
From Stdlib Require Import Ascii.

#[local] Open Scope Z_scope.

(** ** Sockets *)

Record Socket := {
  so_pending : list string;   (* the segments still to be received *)
  so_room : list nat;         (* what the next calls of [send] accept *)
  so_sent : string;
  so_open : bool;
}.

Definition with_pending (x : list string) (s : Socket) : Socket :=
  {| so_pending := x; so_room := so_room s; so_sent := so_sent s; so_open := so_open s |}.

Fixpoint drop_bytes (n : nat) (s : string) : string :=
  match n, s with
  | S n', String _ s' => drop_bytes n' s'
  | _, _ => s
  end.

(** [::recv(fd, buffer, n, 0)]: at most [n] bytes of the next segment; no byte
    stands for a result of zero (the peer has closed) or less (a failure or the
    timeout). *)
Definition recv (n : Z) : M Socket string := fun s =>
  match so_pending s with
  | [] => (s, Ok "")
  | seg :: rest =>
      let left := drop_bytes (Z.to_nat n) seg in
      (with_pending (if decide (left = "") then rest else left :: rest) s,
       Ok (copy_bytes (Z.to_nat n) seg))
  end.

(** The loop of [send_all]: the bytes accepted and whether all of them were. *)
Fixpoint send_loop (room : list nat) (data : string) : list nat * string * bool :=
  if decide (data = "") then (room, "", true)
  else
    match room with
    | [] => ([], "", false)
    | O :: room' => (room', "", false)
    | rc :: room' =>
        let '(room2, sent, ok) := send_loop room' (drop_bytes rc data) in
        (room2, copy_bytes rc data +:+ sent, ok)
    end.

Definition send_all (data : string) : M Socket bool := fun s =>
  let '(room, sent, ok) := send_loop (so_room s) data in
  ({| so_pending := so_pending s; so_room := room; so_sent := so_sent s +:+ sent;
      so_open := so_open s |}, Ok ok).

(** [::shutdown(fd, SHUT_RDWR); ::close(fd)] *)
Definition close_socket : M Socket unit := modify (fun s =>
  {| so_pending := so_pending s; so_room := so_room s; so_sent := so_sent s; so_open := false |}).

(** ** Text *)

Definition cr : ascii := "013".
Definition lf : ascii := "010".
Definition crlf : string := String cr (String lf "").

(** [" \t\r\n"] *)
Definition is_blank (c : ascii) : bool := (uchar c =? 32) || (uchar c =? 9) || (uchar c =? 13) || (uchar c =? 10).

(** From [find_first_not_of] on, up to [find_last_not_of]. *)
Fixpoint trim_left (s : string) : string :=
  match s with
  | String c s' => if is_blank c then trim_left s' else s
  | EmptyString => ""
  end.

Fixpoint trim_right (s : string) : string :=
  match s with
  | String c s' =>
      match trim_right s' with
      | EmptyString => if is_blank c then "" else String c ""
      | t => String c t
      end
  | EmptyString => ""
  end.

Definition trim (value : string) : string := trim_right (trim_left value).

(** The lines successive calls of [std::getline] extract: the last one need not
    end in a newline, and nothing is extracted at the end of the stream. *)
Fixpoint getlines (s : string) : list string :=
  match s with
  | EmptyString => []
  | String c s' =>
      if Ascii.eqb c lf then "" :: getlines s'
      else match getlines s' with
           | [] => [String c ""]
           | l :: ls => String c l :: ls
           end
  end.

(** [stream >> word]: skip white space, then read up to the next. *)
Fixpoint span_word (s : string) : string * string :=
  match s with
  | EmptyString => ("", "")
  | String c s' =>
      if isspace c then ("", s)
      else let '(w, rest) := span_word s' in (String c w, rest)
  end.
Definition read_word (s : string) : string * string := span_word (drop_spaces s).

(** [s.find(c)] and what is before and after it. *)
Fixpoint split_at (c : ascii) (s : string) : option (string * string) :=
  match s with
  | EmptyString => None
  | String d s' =>
      if Ascii.eqb d c then Some ("", s')
      else match split_at c s' with
           | Some (before, after) => Some (String d before, after)
           | None => None
           end
  end.

(** [s.find(pattern)] *)
Fixpoint find_sub (pattern s : string) : option nat :=
  if String.prefix pattern s then Some 0%nat
  else match s with
       | EmptyString => None
       | String _ s' => S <$> find_sub pattern s'
       end.

(** ** Parsing the head of a request *)

(** The method, the path and the version. *)
Definition request_line_words (line : string) : result (string * string * string) :=
  let '(method, rest1) := read_word (trim line) in
  let '(path, rest2) := read_word rest1 in
  let '(version, _) := read_word rest2 in
  if decide (method = "" \/ path = "") then Throw (RuntimeError "invalid request line")
  else Ok (method, path, version).

Fixpoint header_loop (lines : list string) (headers : gmap string string) (content_length : Z)
    : result (gmap string string * Z) :=
  match lines with
  | [] => Ok (headers, content_length)
  | line :: lines' =>
      let header_line := trim line in
      if decide (header_line = "") then header_loop lines' headers content_length
      else
        match split_at ":" header_line with
        | None => header_loop lines' headers content_length
        | Some (before, after) =>
            let name := to_lower (trim before) in
            let value := trim after in
            let headers := <[name := value]> headers in
            if decide (name = "content-length") then
              match stoull value with
              | Ok n => header_loop lines' headers n
              | Throw e => Throw e
              end
            else header_loop lines' headers content_length
        end
  end.

(** ** The connection *)

Definition max_request_size : Z := 1024 * 1024 + 64 * 1024.
Definition buffer_size : Z := 8192.

Definition reason_phrase (status : Z) : string :=
  if status =? 200 then "OK"
  else if status =? 201 then "Created"
  else if status =? 400 then "Bad Request"
  else if status =? 401 then "Unauthorized"
  else if status =? 404 then "Not Found"
  else if status =? 405 then "Method Not Allowed"
  else if status =? 413 then "Payload Too Large"
  else if status =? 429 then "Too Many Requests"
  else if status =? 500 then "Internal Server Error"
  else if status =? 503 then "Service Unavailable"
  else "Response".

(** The headers in the order of a [std::map]. *)
Definition header_list (headers : gmap string string) : list (string * string) :=
  merge_sort text_le (map_to_list headers).

Fixpoint header_lines (l : list (string * string)) : string :=
  match l with
  | [] => ""
  | (name, value) :: l' => name +:+ ": " +:+ value +:+ crlf +:+ header_lines l'
  end.

Definition render_response (r : HttpResponse) : string :=
  "HTTP/1.1 " +:+ to_string (rs_status r) +:+ " " +:+ reason_phrase (rs_status r) +:+ crlf
  +:+ "Content-Type: " +:+ rs_content_type r +:+ crlf
  +:+ "Content-Length: " +:+ to_string (ssize (rs_body r)) +:+ crlf
  +:+ "Connection: close" +:+ crlf
  +:+ header_lines (header_list (rs_headers r))
  +:+ crlf +:+ rs_body r.

(** Answers the server gives itself. *)
Definition bad_request (e : exn) : HttpResponse := json_response 400 (error_body (json_escape (exn_what e))).
Definition too_large : HttpResponse := json_response 413 (error_body "request body too large").

(** The bytes and segments still to come, which bound the turns of the loops. *)
Definition segments_size (segs : list string) : nat :=
  foldr (fun seg n => (S (String.length seg) + n)%nat) 0%nat segs.

Section server.
Context {H : Type} (handler : HttpRequest -> M H HttpResponse).

Abbreviation CM := (M (Socket * H)).

Definition on_socket {A} (m : M Socket A) : CM A := zoom fst (fun s c => (s, c.2)) m.
Definition on_handler {A} (m : M H A) : CM A := zoom snd (fun h c => (c.1, h)) m.

(** Until the blank line; [fuel] bounds the number of calls of [recv]. *)
Fixpoint read_head (fuel : nat) (raw : string) : CM (string * nat) :=
  match find_sub (crlf +:+ crlf) raw with
  | Some header_end => mret (raw, header_end)
  | None =>
      match fuel with
      | O => throw (UndefinedBehaviour "out of fuel")
      | S fuel' =>
          bytes ← on_socket (recv buffer_size);
          if decide (bytes = "") then throw (RuntimeError "failed to read request headers")
          else
            let raw := raw +:+ bytes in
            if max_request_size <? ssize raw then throw (RuntimeError "request too large")
            else read_head fuel' raw
      end
  end.

Fixpoint read_body (fuel : nat) (content_length : Z) (body : string) : CM string :=
  if ssize body <? content_length then
    match fuel with
    | O => throw (UndefinedBehaviour "out of fuel")
    | S fuel' =>
        bytes ← on_socket (recv (Z.min buffer_size (content_length - ssize body)));
        if decide (bytes = "") then throw (RuntimeError "incomplete request body")
        else read_body fuel' content_length (body +:+ bytes)
    end
  else mret (copy_bytes (Z.to_nat content_length) body).

(** The body of the [try] block. *)
Definition serve_request (remote_ip : string) : CM HttpResponse :=
  fuel ← gets (fun c => S (segments_size (so_pending c.1)));
  p ← read_head fuel "";
  let '(raw, header_end) := p in
  let lines := getlines (copy_bytes header_end raw) in
  words ← lift (request_line_words (default "" (head lines)));
  let '(method, path, version) := words in
  parsed ← lift (header_loop (tail lines) ∅ 0);
  let '(headers, content_length) := parsed in
  if 1024 * 1024 <? content_length then mret too_large
  else
    fuel ← gets (fun c => S (segments_size (so_pending c.1)));
    body ← read_body fuel content_length (drop_bytes (header_end + 4) raw);
    on_handler (handler {| rq_method := method; rq_path := path; rq_version := version;
                           rq_headers := headers; rq_body := body; rq_remote_ip := remote_ip |}).

Definition handle_client (remote_ip : string) : CM unit :=
  response ← catch (serve_request remote_ip) (fun e => mret (bad_request e));
  on_socket (send_all (render_response response)) ;;
  on_socket close_socket.
End server.
