(* ===== verification/HttpFacts.v ===== *)
(** * Strings as the HTTP server handles them

    Lemmas on cutting, searching, trimming and splitting strings, and on the
    segments in which a socket delivers them. *)

From S2P Require Import Prelude CppStd Common Sqlite Metrics Gateway HttpServer.
From Stdlib Require Import Ascii.

#[local] Open Scope Z_scope.

(** ** Cutting *)

Lemma ssize_length s : ssize s = Z.of_nat (String.length s).
Proof. induction s as [|c s IH]; [done|]. cbn [ssize String.length]. lia. Qed.

Lemma length_app_str (s t : string) : String.length (s +:+ t) = (String.length s + String.length t)%nat.
Proof. induction s as [|c s IH]; [done|]. rewrite app_cons_str. simpl. by rewrite IH. Qed.

Lemma copy_drop n s : copy_bytes n s +:+ drop_bytes n s = s.
Proof.
  revert s. induction n as [|n IH]; intros [|c s]; try done.
  cbn [copy_bytes drop_bytes]. by rewrite app_cons_str, IH.
Qed.

Lemma copy_app s t : copy_bytes (String.length s) (s +:+ t) = s.
Proof. induction s as [|c s IH]; [by destruct t|]. rewrite app_cons_str. simpl. by rewrite IH. Qed.

Lemma drop_app s t : drop_bytes (String.length s) (s +:+ t) = t.
Proof. induction s as [|c s IH]; [by destruct t|]. rewrite app_cons_str. simpl. by rewrite IH. Qed.

Lemma drop_bytes_length n s : String.length (drop_bytes n s) = (String.length s - n)%nat.
Proof. revert s. induction n as [|n IH]; intros [|c s]; simpl; auto. Qed.

Lemma copy_bytes_length n s : String.length (copy_bytes n s) = (n `min` String.length s)%nat.
Proof. revert s. induction n as [|n IH]; intros [|c s]; simpl; try done. by rewrite IH. Qed.

Lemma app_eq_length (a b c d : string) :
  a +:+ b = c +:+ d -> (String.length a <= String.length c)%nat ->
  exists e, c = a +:+ e /\ b = e +:+ d.
Proof.
  revert c. induction a as [|x a IH]; intros c E Hl.
  - exists c. by rewrite app_nil_str in E.
  - destruct c as [|y c]; [simpl in Hl; lia|]. rewrite !app_cons_str in E. injection E as -> E.
    destruct (IH c E) as (e & -> & ->); [simpl in Hl; lia|]. exists e. by rewrite app_cons_str.
Qed.

Lemma copy_app_le n s t : (n <= String.length s)%nat -> copy_bytes n (s +:+ t) = copy_bytes n s.
Proof.
  revert s. induction n as [|n IH]; intros [|c s] Hn; simpl in *; try done; [lia|].
  f_equal. apply IH. lia.
Qed.

Lemma drop_app_le n s t : (n <= String.length s)%nat -> drop_bytes n (s +:+ t) = drop_bytes n s +:+ t.
Proof.
  revert s. induction n as [|n IH]; intros [|c s] Hn; try done; [simpl in Hn; lia|].
  rewrite app_cons_str. simpl in *. apply IH. lia.
Qed.

(** ** Searching *)

Lemma prefix_app p s : String.prefix p (p +:+ s) = true.
Proof.
  induction p as [|c p IH]; [by destruct s|]. rewrite app_cons_str. simpl.
  destruct (ascii_dec c c); [apply IH|done].
Qed.

Lemma prefix_long p s t :
  (String.length p <= String.length s)%nat -> String.prefix p (s +:+ t) = String.prefix p s.
Proof.
  revert s. induction p as [|c p IH]; intros [|d s] Hl; simpl in *; try (by destruct t); try lia; try done.
  destruct (ascii_dec c d); [|done]. apply IH. lia.
Qed.

Lemma prefix_length p s : String.prefix p s = true -> (String.length p <= String.length s)%nat.
Proof.
  revert s. induction p as [|c p IH]; intros [|d s] Hp; simpl in *; try done; [lia|].
  destruct (ascii_dec c d); [|done]. apply IH in Hp. lia.
Qed.

Lemma find_sub_length p s k : find_sub p s = Some k -> (k + String.length p <= String.length s)%nat.
Proof.
  revert k. induction s as [|c s IH]; intros k Hf; cbn [find_sub] in Hf.
  - destruct (String.prefix p "") eqn:E; [|done]. injection Hf as <-. by apply prefix_length in E.
  - destruct (String.prefix p (String c s)) eqn:E.
    + injection Hf as <-. by apply prefix_length in E.
    + destruct (find_sub p s) as [j|]; [|done]. injection Hf as <-. specialize (IH j eq_refl). simpl. lia.
Qed.

(** A first occurrence stays the first when more follows. *)
Lemma find_sub_app p s t k : find_sub p s = Some k -> find_sub p (s +:+ t) = Some k.
Proof.
  revert k. induction s as [|c s IH]; intros k Hf; pose proof (find_sub_length _ _ _ Hf) as Hl.
  - cbn [find_sub] in Hf. destruct (String.prefix p "") eqn:E; [|done]. injection Hf as <-.
    destruct p; [|done]. by destruct t.
  - rewrite app_cons_str. cbn [find_sub] in *. rewrite <- (app_cons_str c s t), prefix_long by lia.
    destruct (String.prefix p (String c s)); [done|].
    destruct (find_sub p s) as [j|]; [|done]. by rewrite (IH j eq_refl).
Qed.

(** An occurrence that a part of the string does not have reaches beyond it. *)
Lemma find_sub_beyond p s t k :
  find_sub p s = None -> find_sub p (s +:+ t) = Some k -> (String.length s < k + String.length p)%nat.
Proof.
  revert k. induction s as [|c s IH]; intros k Hn Hf.
  - destruct p; [by simpl in Hn|simpl; lia].
  - rewrite app_cons_str in Hf. cbn [find_sub] in *.
    destruct (String.prefix p (String c s)) eqn:E; [done|].
    destruct (find_sub p s) as [j|] eqn:Es; [done|].
    rewrite <- app_cons_str in Hf. destruct (String.prefix p (String c s +:+ t)) eqn:E2.
    + injection Hf as <-. destruct (decide (String.length p <= String.length (String c s))%nat) as [Hl|Hl]; [|lia].
      rewrite prefix_long in E2 by done. congruence.
    + destruct (find_sub p (s +:+ t)) as [j|] eqn:E3; [|done]. injection Hf as <-.
      specialize (IH j eq_refl eq_refl). simpl. lia.
Qed.

(** ** Lines *)

Fixpoint all_chars (P : ascii -> bool) (s : string) : bool :=
  match s with
  | EmptyString => true
  | String c s' => P c && all_chars P s'
  end.

Lemma all_chars_app P s t : all_chars P (s +:+ t) = all_chars P s && all_chars P t.
Proof.
  induction s as [|c s IH]; [done|]. rewrite app_cons_str. simpl. by rewrite IH, andb_assoc.
Qed.

Lemma all_chars_impl (P Q : ascii -> bool) s :
  (forall c, P c = true -> Q c = true) -> all_chars P s = true -> all_chars Q s = true.
Proof.
  intros HPQ. induction s as [|c s IH]; [done|]. simpl. intros [Hc Hs]%andb_true_iff.
  by rewrite HPQ, IH.
Qed.

(** No newline. *)
Definition one_line (s : string) : Prop := all_chars (fun c => negb (Ascii.eqb c lf)) s = true.

Lemma one_line_cons c s : one_line (String c s) -> Ascii.eqb c lf = false /\ one_line s.
Proof. unfold one_line. simpl. rewrite andb_true_iff, negb_true_iff. done. Qed.

Lemma one_line_app s t : one_line s -> one_line t -> one_line (s +:+ t).
Proof. unfold one_line. rewrite all_chars_app. by intros -> ->. Qed.

Lemma getlines_line l rest :
  one_line l -> getlines (l +:+ String lf rest) = l :: getlines rest.
Proof.
  induction l as [|c l IH]; intros Hl; [done|]. apply one_line_cons in Hl as [Hc Hl].
  rewrite app_cons_str. cbn [getlines]. by rewrite Hc, IH.
Qed.

Lemma getlines_last l : one_line l -> l <> "" -> getlines l = [l].
Proof.
  induction l as [|c l IH]; intros Hl Hne; [done|]. apply one_line_cons in Hl as [Hc Hl].
  cbn [getlines]. rewrite Hc. destruct l as [|d l]; [done|]. by rewrite IH.
Qed.

(** The text of some lines, separated by CRLF. *)
Fixpoint lines_text (l : string) (ls : list string) : string :=
  match ls with
  | [] => l
  | l' :: ls' => l +:+ crlf +:+ lines_text l' ls'
  end.

(** The lines as [getline] sees them: all but the last end in CR. *)
Fixpoint with_cr (l : string) (ls : list string) : list string :=
  match ls with
  | [] => [l]
  | l' :: ls' => (l +:+ String cr "") :: with_cr l' ls'
  end.

Definition proper_line (l : string) : Prop := one_line l /\ l <> "".

Lemma getlines_text l ls :
  proper_line l -> Forall proper_line ls -> getlines (lines_text l ls) = with_cr l ls.
Proof.
  revert l. induction ls as [|l' ls IH]; intros l [H1 H2] Hls; simpl; [by apply getlines_last|].
  apply Forall_cons in Hls as [Hl' Hls]. rewrite <- (IH l') by done.
  unfold crlf. change (String cr (String lf "")) with (String cr "" +:+ String lf "").
  rewrite <- !app_assoc_str. rewrite (app_assoc_str (l +:+ String cr "")). apply getlines_line.
  by apply one_line_app.
Qed.

(** ** The blank line *)

Definition blank_line : string := crlf +:+ crlf.

Lemma blank_line_eq : blank_line = String cr (String lf (String cr (String lf ""))).
Proof. done. Qed.

Lemma prefix_step c p d s :
  String.prefix (String c p) (String d s) = (Ascii.eqb c d && String.prefix p s)%bool.
Proof. simpl. destruct (ascii_dec c d) as [->|Hne]; [by rewrite Ascii.eqb_refl|].
  apply Ascii.eqb_neq in Hne. by rewrite Hne. Qed.

Lemma find_sub_cons p c s :
  find_sub p (String c s) =
    if String.prefix p (String c s) then Some 0%nat else S <$> find_sub p s.
Proof. done. Qed.

Lemma find_sub_here p s : find_sub p (p +:+ s) = Some 0%nat.
Proof. destruct (p +:+ s) eqn:E; cbn [find_sub]; by rewrite <- E, prefix_app. Qed.

(** No blank line begins inside a line. *)
Lemma find_in_line l s :
  one_line l -> find_sub blank_line (l +:+ String cr s) =
    (fun k => String.length l + k)%nat <$> find_sub blank_line (String cr s).
Proof.
  induction l as [|c l IH]; intros Hl.
  - rewrite app_nil_str. by destruct (find_sub _ _).
  - apply one_line_cons in Hl as [Hc Hl]. rewrite app_cons_str.
    assert (Hp : String.prefix blank_line (String c (l +:+ String cr s)) = false).
    { rewrite blank_line_eq, prefix_step. destruct l as [|d l].
      - rewrite app_nil_str, prefix_step. change (Ascii.eqb lf cr) with false. by rewrite andb_false_r.
      - rewrite app_cons_str, prefix_step. apply one_line_cons in Hl as [Hd _].
        rewrite Ascii.eqb_sym in Hd. by rewrite Hd, andb_false_r. }
    rewrite (find_sub_cons _ c), Hp, IH by done. by destruct (find_sub blank_line (String cr s)).
Qed.

(** A line that is not empty is not a blank line. *)
Lemma find_line_end l s :
  proper_line l ->
  find_sub blank_line (crlf +:+ l +:+ String cr s) =
    (fun k => 2 + k)%nat <$> find_sub blank_line (l +:+ String cr s).
Proof.
  intros [Hl Hne]. destruct l as [|c l]; [done|]. apply one_line_cons in Hl as [Hc Hl].
  assert (Hp : String.prefix blank_line (crlf +:+ String c l +:+ String cr s) = false).
  { rewrite blank_line_eq. unfold crlf. rewrite !app_cons_str, app_nil_str, !prefix_step. change (Ascii.eqb cr cr) with true.
    change (Ascii.eqb lf lf) with true. simpl andb. destruct l as [|d l].
    - rewrite app_nil_str, prefix_step. change (Ascii.eqb lf cr) with false. by rewrite andb_false_r.
    - rewrite app_cons_str, prefix_step. apply one_line_cons in Hl as [Hd _].
      rewrite Ascii.eqb_sym in Hd. by rewrite Hd, andb_false_r. }
  set (rest := String c l +:+ String cr s) in *.
  change (crlf +:+ rest) with (String cr (String lf rest)) in *.
  assert (Hq : String.prefix blank_line (String lf rest) = false)
    by (by rewrite blank_line_eq, prefix_step).
  rewrite (find_sub_cons _ cr), Hp, (find_sub_cons _ lf), Hq. by destruct (find_sub blank_line rest).
Qed.

Lemma find_head l ls s :
  proper_line l -> Forall proper_line ls ->
  find_sub blank_line (lines_text l ls +:+ blank_line +:+ s) = Some (String.length (lines_text l ls)).
Proof.
  revert l. induction ls as [|l' ls IH]; intros l Hl Hls; simpl.
  - change (blank_line +:+ s) with (String cr (String lf (crlf +:+ s))).
    rewrite find_in_line by apply Hl.
    change (String cr (String lf (crlf +:+ s))) with (blank_line +:+ s).
    rewrite find_sub_here. simpl. f_equal. lia.
  - apply Forall_cons in Hls as [Hl' Hls]. rewrite !app_assoc_str.
    assert (Hr : exists r, lines_text l' ls +:+ blank_line +:+ s = l' +:+ String cr r).
    { destruct ls as [|l'' ls]; simpl; [by eexists (String lf (crlf +:+ s))|].
      rewrite !app_assoc_str. by eexists. }
    destruct Hr as [r Hr]. change (crlf +:+ lines_text l' ls +:+ blank_line +:+ s) with
      (String cr (String lf (lines_text l' ls +:+ blank_line +:+ s))).
    rewrite find_in_line by apply Hl.
    change (String cr (String lf (lines_text l' ls +:+ blank_line +:+ s))) with
      (crlf +:+ (lines_text l' ls +:+ blank_line +:+ s)).
    specialize (IH l' Hl' Hls). rewrite Hr in *. rewrite find_line_end, IH by done. simpl.
    rewrite !length_app_str. simpl. done.
Qed.

(** ** Trimming *)

Lemma isspace_blank c : isspace c = false -> is_blank c = false.
Proof. unfold isspace, is_blank. lia. Qed.

Lemma trim_right_cons c s : is_blank c = false -> trim_right (String c s) = String c (trim_right s).
Proof. intros Hc. cbn [trim_right]. rewrite Hc. by destruct (trim_right s). Qed.

Lemma trim_right_app s t : trim_right t <> "" -> trim_right (s +:+ t) = s +:+ trim_right t.
Proof.
  intros Ht. induction s as [|c s IH]; [done|]. rewrite app_cons_str. cbn [trim_right]. rewrite IH.
  destruct s as [|d s]; [rewrite app_nil_str; by destruct (trim_right t)|done].
Qed.

Lemma trim_right_blank s c : is_blank c = true -> trim_right (s +:+ String c "") = trim_right s.
Proof.
  intros Hc. induction s as [|d s IH]; [rewrite app_nil_str; cbn [trim_right]; by rewrite Hc|].
  rewrite app_cons_str. cbn [trim_right]. by rewrite IH.
Qed.

(** Not empty and without white space. *)
Definition token (s : string) : Prop := s <> "" /\ all_chars (fun c => negb (isspace c)) s = true.

Lemma token_cons s : token s -> exists c s', s = String c s' /\ isspace c = false /\
  all_chars (fun c => negb (isspace c)) s' = true.
Proof.
  intros [Hne Ha]. destruct s as [|c s]; [done|]. simpl in Ha.
  apply andb_true_iff in Ha as [Hc Ha]. apply negb_true_iff in Hc. by exists c, s.
Qed.

Lemma token_one_line s : token s -> one_line s.
Proof.
  intros [_ Ha]. eapply all_chars_impl; [|exact Ha]. intros c. rewrite !negb_true_iff.
  intros Hc. apply Ascii.eqb_neq. by intros ->.
Qed.

Lemma token_trim_right s : token s -> trim_right s = s.
Proof.
  intros (c & s' & -> & Hc & Ha)%token_cons. revert c Hc. induction s' as [|d s' IH]; intros c Hc.
  - cbn [trim_right]. by rewrite isspace_blank.
  - simpl in Ha. apply andb_true_iff in Ha as [Hd Ha]. apply negb_true_iff in Hd.
    rewrite trim_right_cons by (by apply isspace_blank). by rewrite IH.
Qed.

(** A line that begins with a visible character, with or without the CR. *)
Lemma trim_line c l :
  is_blank c = false -> trim (String c l) = trim_right (String c l) /\
  trim (String c l +:+ String cr "") = trim_right (String c l).
Proof.
  intros Hc. rewrite <- (trim_right_blank (String c l) cr) at 2 by done.
  unfold trim. rewrite app_cons_str. cbn [trim_left]. by rewrite Hc.
Qed.

(** ** Words *)

Lemma span_word_token s t :
  all_chars (fun c => negb (isspace c)) s = true ->
  span_word (s +:+ String " " t) = (s, String " " t) /\ span_word s = (s, "").
Proof.
  induction s as [|c s IH]; intros Ha; [done|]. simpl in Ha.
  apply andb_true_iff in Ha as [Hc Ha]. apply negb_true_iff in Hc. destruct (IH Ha) as [E1 E2].
  rewrite app_cons_str. cbn [span_word]. by rewrite Hc, E1, E2.
Qed.

Lemma drop_spaces_token s t : token s -> drop_spaces (s +:+ t) = s +:+ t.
Proof.
  intros (c & s' & -> & Hc & Ha)%token_cons. rewrite app_cons_str. cbn [drop_spaces]. by rewrite Hc.
Qed.

Lemma drop_spaces_space s : drop_spaces (String " " s) = drop_spaces s.
Proof. done. Qed.

Lemma request_line_spec m p v l :
  token m -> token p -> token v ->
  let line := m +:+ String " " (p +:+ String " " v) in
  l = line \/ l = line +:+ String cr "" ->
  request_line_words l = Ok (m, p, v).
Proof.
  intros Hm Hp Hv line Hl. assert (Ht : trim l = line).
  { destruct (token_cons m Hm) as (c & m' & E & Hc & _). subst line.
    assert (Hr : trim_right (m +:+ String " " (p +:+ String " " v)) = m +:+ String " " (p +:+ String " " v)).
    { assert (Hpv : trim_right (String " " (p +:+ String " " v)) = String " " (p +:+ String " " v)).
      { change (String " " (p +:+ String " " v)) with (String " " p +:+ (String " " v)).
        change (String " " v) with (" " +:+ v). rewrite <- app_assoc_str.
        rewrite trim_right_app; rewrite token_trim_right by done; [done|apply Hv]. }
      rewrite trim_right_app by (by rewrite Hpv). by rewrite Hpv. }
    subst m. rewrite !app_cons_str in *.
    destruct (trim_line c (m' +:+ String " " (p +:+ String " " v))) as [T1 T2]; [by apply isspace_blank|].
    rewrite app_cons_str in T2. destruct Hl as [-> | ->]; congruence. }
  unfold request_line_words. rewrite Ht. subst line. unfold read_word.
  rewrite drop_spaces_token by done. rewrite (proj1 (span_word_token m _ (proj2 Hm))).
  rewrite drop_spaces_space, drop_spaces_token by done. rewrite (proj1 (span_word_token p _ (proj2 Hp))).
  rewrite drop_spaces_space. rewrite <- (app_nil_r_str v), drop_spaces_token by done.
  rewrite app_nil_r_str. rewrite (proj2 (span_word_token v "" (proj2 Hv))).
  rewrite decide_False; [done|]. intros [-> | ->]; [by destruct Hm|by destruct Hp].
Qed.

(** ** Header lines *)

(** A header as it is sent: a name without white space and colons, in any case,
    and after the colon any text on the same line. *)
Record proper_header (h : string * string) : Prop := {
  ph_token : token h.1;
  ph_colon : all_chars (fun c => negb (Ascii.eqb c ":")) h.1 = true;
  ph_line : one_line h.2;
}.

Definition header_text (h : string * string) : string := h.1 +:+ String ":" h.2.

(** As it is received: names in lower case, values without the white space around
    them. *)
Definition received (h : string * string) : string * string := (to_lower h.1, trim h.2).

Lemma header_text_proper h : proper_header h -> proper_line (header_text h).
Proof.
  intros [Ht Hc Ho]. split; [|by destruct h as [[] ?]; [destruct Ht|]].
  apply one_line_app; [by apply token_one_line|]. unfold one_line. simpl. exact Ho.
Qed.

Lemma split_at_app c a b :
  all_chars (fun d => negb (Ascii.eqb d c)) a = true -> split_at c (a +:+ String c b) = Some (a, b).
Proof.
  induction a as [|d a IH]; intros Ha.
  - rewrite app_nil_str. cbn [split_at]. by rewrite Ascii.eqb_refl.
  - simpl in Ha. apply andb_true_iff in Ha as [Hd Ha]. apply negb_true_iff in Hd.
    rewrite app_cons_str. cbn [split_at]. by rewrite Hd, IH.
Qed.

Lemma trim_right_idemp s : trim_right (trim_right s) = trim_right s.
Proof.
  induction s as [|c s IH]; [done|]. cbn [trim_right]. destruct (trim_right s) as [|d t] eqn:E.
  - destruct (is_blank c) eqn:Hc; [done|]. cbn [trim_right]. by rewrite Hc.
  - cbn [trim_right] in *. by rewrite IH.
Qed.

(** White space on the right does not matter for [trim]. *)
Lemma trim_trim_right s : trim (trim_right s) = trim s.
Proof.
  unfold trim. induction s as [|c s IH]; [done|]. cbn [trim_left]. destruct (is_blank c) eqn:Hc.
  - rewrite <- IH. cbn [trim_right]. rewrite Hc. destruct (trim_right s) as [|d t] eqn:E; [done|].
    cbn [trim_left]. by rewrite Hc.
  - rewrite trim_right_cons by done. cbn [trim_left]. rewrite Hc.
    rewrite <- trim_right_cons by done. apply trim_right_idemp.
Qed.

Lemma token_trim s : token s -> trim s = s.
Proof.
  intros Ht. pose proof (token_trim_right s Ht) as Hr. unfold trim.
  destruct (token_cons s Ht) as (c & s' & -> & Hc & _). cbn [trim_left]. by rewrite isspace_blank.
Qed.

(** What the header loop does with a line. *)
Lemma header_loop_line h l lines headers n :
  proper_header h -> l = header_text h \/ l = header_text h +:+ String cr "" ->
  header_loop (l :: lines) headers n =
    (if decide (to_lower h.1 = "content-length") then
       match stoull (trim h.2) with
       | Ok n' => header_loop lines (<[to_lower h.1 := trim h.2]> headers) n'
       | Throw e => Throw e
       end
     else header_loop lines (<[to_lower h.1 := trim h.2]> headers) n).
Proof.
  intros [Ht Hc Ho] Hl. destruct h as [name value]. cbn [fst snd] in *.
  assert (Etr : trim l = name +:+ String ":" (trim_right value)).
  { assert (Er : trim_right (header_text (name, value)) = name +:+ String ":" (trim_right value)).
    { unfold header_text. cbn [fst snd]. rewrite trim_right_app; rewrite trim_right_cons by done; done. }
    destruct (token_cons name Ht) as (c & s' & -> & Hs & _). unfold header_text in *.
    cbn [fst snd] in *. rewrite app_cons_str in *.
    destruct (trim_line c (s' +:+ String ":" value)) as [T1 T2]; [by apply isspace_blank|].
    destruct Hl as [-> | ->]; [exact (eq_trans T1 Er)|exact (eq_trans T2 Er)]. }
  cbn [header_loop]. rewrite Etr.
  rewrite decide_False by (by destruct name). rewrite split_at_app by done.
  by rewrite (token_trim name), trim_trim_right by done.
Qed.
