(* ===== verification/HttpProofs.v ===== *)
(** * Reading and answering a connection

    What the loops of [handle_client] do on any sequence of segments: they end,
    with the request or with an exception that is answered; and on the segments
    of a well-formed request they collect exactly its text. *)

From S2P Require Import Prelude CppStd Common Sqlite Metrics Gateway HttpServer HttpFacts.
From Stdlib Require Import Ascii.

#[local] Open Scope Z_scope.

(** ** Segments *)

Definition stream (segs : list string) : string := foldr (fun s t => s +:+ t) "" segs.

(** No segment is empty: the peer has not closed and no call times out. *)
Definition live (segs : list string) : Prop := Forall (fun s => s <> "") segs.

Lemma with_pending_id s : with_pending (so_pending s) s = s.
Proof. by destruct s. Qed.

Lemma with_pending_twice x y s : with_pending x (with_pending y s) = with_pending x s.
Proof. done. Qed.

(** A call of [recv] returns nothing or shortens what is to come. *)
Lemma recv_any n s :
  0 < n -> exists got segs, recv n s = (with_pending segs s, Ok got) /\
    (got = "" \/ (segments_size segs < segments_size (so_pending s))%nat) /\ ssize got <= n.
Proof.
  intros Hn. unfold recv. destruct (so_pending s) as [|seg rest] eqn:E.
  - exists "", []. rewrite <- E, with_pending_id. split_and!; [done|by left|simpl; lia].
  - eexists _, _. split; [done|]. split; [right|rewrite ssize_length, copy_bytes_length; lia].
    case_decide; [simpl; lia|]. cbn [segments_size foldr]. rewrite drop_bytes_length.
    destruct seg as [|c seg]; [by destruct (Z.to_nat n)|]. cbn [String.length]. lia.
Qed.

Lemma recv_live n s :
  0 < n -> live (so_pending s) -> so_pending s <> [] ->
  exists got segs, recv n s = (with_pending segs s, Ok got) /\ got <> "" /\ live segs /\
    got +:+ stream segs = stream (so_pending s) /\ ssize got <= n /\
    (segments_size segs < segments_size (so_pending s))%nat.
Proof.
  intros Hn Hl Hne. destruct (recv_any n s Hn) as (got & segs & E & Hs & Hg). exists got, segs.
  split; [done|]. unfold recv in E. destruct (so_pending s) as [|seg rest]; [done|]. injection E as E <-.
  apply Forall_cons in Hl as [Hseg Hl].
  assert (Hgot : copy_bytes (Z.to_nat n) seg <> "").
  { destruct seg as [|c seg]; [done|]. destruct (Z.to_nat n) eqn:Ez; [lia|done]. }
  subst segs.
  split; [done|]. split_and!; [|..|done|].
  - case_decide; [done|]. by constructor.
  - transitivity ((copy_bytes (Z.to_nat n) seg +:+ drop_bytes (Z.to_nat n) seg) +:+ stream rest);
      [|by rewrite copy_drop]. rewrite app_assoc_str. f_equal.
    case_decide as Ed; [by rewrite Ed|done].
  - by destruct Hs as [?|Hs].
Qed.

(** ** The loops *)

Section loops.
Context {H : Type}.

Lemma on_socket_run {A} (m : M Socket A) s s' (h : H) r :
  m s = (s', r) -> on_socket m (s, h) = ((s', h), r).
Proof. intros Hm. unfold on_socket, zoom. simpl. by rewrite Hm. Qed.

(** On any segments, reading the head ends. *)
Lemma read_head_total fuel raw s (h : H) :
  (segments_size (so_pending s) < fuel)%nat ->
  exists segs r, read_head fuel raw (s, h) = ((with_pending segs s, h), r) /\
    ((exists raw' i, r = Ok (raw', i)) \/ exists w, r = Throw (RuntimeError w)).
Proof.
  revert raw s. induction fuel as [|fuel IH]; intros raw s Hf; [lia|]. cbn [read_head].
  destruct (find_sub _ raw) as [i|].
  { eexists (so_pending s), _. rewrite with_pending_id. split; [done|]. left. by eexists _, _. }
  destruct (recv_any buffer_size s) as (got & segs & E & Hs & _); [done|].
  rewrite (bind_ok _ _ _ _ _ (on_socket_run _ _ _ h _ E)). case_decide as Hg.
  { eexists segs, _. split; [done|]. right. by eexists. }
  destruct Hs as [?|Hs]; [done|]. destruct (max_request_size <? _).
  { eexists segs, _. split; [done|]. right. by eexists. }
  destruct (IH (raw +:+ got) (with_pending segs s)) as (segs' & r & E' & Hr); [simpl; lia|].
  exists segs', r. by rewrite E'.
Qed.

(** On any segments, reading the body ends, with as many bytes as announced. *)
Lemma read_body_total fuel n body s (h : H) :
  0 <= n -> (segments_size (so_pending s) < fuel)%nat ->
  exists segs r, read_body fuel n body (s, h) = ((with_pending segs s, h), r) /\
    ((exists b, r = Ok b /\ ssize b = n) \/ exists w, r = Throw (RuntimeError w)).
Proof.
  intros Hn. revert body s. induction fuel as [|fuel IH]; intros body s Hf; [lia|]. cbn [read_body].
  destruct (ssize body <? n) eqn:Hlt.
  2: { eexists (so_pending s), _. rewrite with_pending_id. split; [done|]. left.
       eexists. split; [done|]. rewrite ssize_length, copy_bytes_length.
       rewrite ssize_length in Hlt. lia. }
  destruct (recv_any (Z.min buffer_size (n - ssize body)) s) as (got & segs & E & Hs & _);
    [unfold buffer_size; lia|].
  rewrite (bind_ok _ _ _ _ _ (on_socket_run _ _ _ h _ E)). case_decide as Hg.
  { eexists segs, _. split; [done|]. right. by eexists. }
  destruct Hs as [?|Hs]; [done|].
  destruct (IH (body +:+ got) (with_pending segs s)) as (segs' & r & E' & Hr); [simpl; lia|].
  exists segs', r. by rewrite E'.
Qed.

(** On the segments of a text with a blank line, the head is found, whatever
    the segments are. *)
Lemma read_head_stream fuel raw s (h : H) text i :
  live (so_pending s) -> (segments_size (so_pending s) < fuel)%nat ->
  raw +:+ stream (so_pending s) = text -> find_sub blank_line text = Some i ->
  Z.of_nat i + 4 + buffer_size <= max_request_size ->
  exists segs raw', read_head fuel raw (s, h) = ((with_pending segs s, h), Ok (raw', i)) /\
    live segs /\ raw' +:+ stream segs = text /\ (i + 4 <= String.length raw')%nat.
Proof.
  intros Hl Hf Htext Hi Hmax. revert raw s Hl Hf Htext.
  induction fuel as [|fuel IH]; intros raw s Hl Hf Htext; [lia|]. cbn [read_head].
  change (crlf +:+ crlf) with blank_line. destruct (find_sub blank_line raw) as [j|] eqn:Ej.
  { pose proof (find_sub_app _ _ (stream (so_pending s)) _ Ej) as Ej'.
    rewrite Htext, Hi in Ej'. injection Ej' as <-. apply find_sub_length in Ej.
    eexists (so_pending s), raw. rewrite with_pending_id. done. }
  rewrite <- Htext in Hi. pose proof (find_sub_beyond _ _ _ _ Ej Hi) as Hb. change (String.length blank_line) with 4%nat in Hb.
  assert (Hne : so_pending s <> []).
  { intros E. rewrite E in Hi. simpl in Hi. rewrite app_nil_r_str in Hi. congruence. }
  destruct (recv_live buffer_size s) as (got & segs & E & Hg & Hl' & Hst & Hsz & Hlt); [done..|].
  rewrite (bind_ok _ _ _ _ _ (on_socket_run _ _ _ h _ E)). rewrite decide_False by done.
  rewrite (proj2 (Z.ltb_ge _ _)) by (rewrite ssize_app, (ssize_length raw); lia).
  destruct (IH (raw +:+ got) (with_pending segs s)) as (segs' & raw' & E' & H1 & H2 & H3);
    [done|simpl; lia|by rewrite app_assoc_str; simpl; rewrite Hst|].
  exists segs', raw'. by rewrite E'.
Qed.

(** On the segments of the rest of a body, the body is completed. *)
Lemma read_body_stream fuel body0 body extra s (h : H) :
  live (so_pending s) -> (segments_size (so_pending s) < fuel)%nat ->
  body0 +:+ stream (so_pending s) = body +:+ extra ->
  exists segs, read_body fuel (ssize body) body0 (s, h) = ((with_pending segs s, h), Ok body).
Proof.
  revert body0 s. induction fuel as [|fuel IH]; intros body0 s Hl Hf Htext; [lia|]. cbn [read_body].
  destruct (ssize body0 <? ssize body) eqn:Hlt; rewrite !ssize_length in Hlt.
  2: { exists (so_pending s). rewrite with_pending_id.
       destruct (app_eq_length body extra body0 (stream (so_pending s))) as (e & -> & _); [done|lia|].
       rewrite ssize_length, Nat2Z.id. by rewrite copy_app. }
  assert (Hne : so_pending s <> []).
  { intros E. rewrite E in Htext. simpl in Htext. rewrite app_nil_r_str in Htext. subst body0.
    apply Z.ltb_lt in Hlt. rewrite length_app_str in Hlt. lia. }
  destruct (recv_live (Z.min buffer_size (ssize body - ssize body0)) s)
    as (got & segs & E & Hg & Hl' & Hst & Hsz & Hs); [rewrite !ssize_length; unfold buffer_size; lia|done..|].
  rewrite (bind_ok _ _ _ _ _ (on_socket_run _ _ _ h _ E)). rewrite decide_False by done.
  destruct (IH (body0 +:+ got) (with_pending segs s)) as (segs' & E');
    [done|simpl; lia|by rewrite app_assoc_str; simpl; rewrite Hst|].
  exists segs'. by rewrite E'.
Qed.
End loops.

(** ** Sending *)

Lemma send_loop_spec room data :
  let '(room', sent, ok) := send_loop room data in
  exists rest, data = sent +:+ rest /\ (ok = true <-> rest = "").
Proof.
  revert data. induction room as [|rc room IH]; intros data; cbn [send_loop]; case_decide as Hd.
  - exists "". by subst.
  - by exists data.
  - exists "". by subst.
  - destruct rc as [|rc]; [by exists data|]. specialize (IH (drop_bytes (S rc) data)).
    destruct (send_loop room (drop_bytes (S rc) data)) as [[room' sent] ok].
    destruct IH as (rest & E & Hok). exists rest. split; [|done].
    rewrite app_assoc_str, <- E. symmetry. apply copy_drop.
Qed.

(** The peer accepts at least one byte at a time, and enough of them. *)
Definition accepts (room : list nat) (n : Z) : Prop :=
  Forall (fun k => (0 < k)%nat) room /\ n <= Z.of_nat (sum_list room).

Lemma send_loop_complete room data :
  accepts room (ssize data) -> (send_loop room data).2 = true.
Proof.
  rewrite ssize_length. revert data. induction room as [|rc room IH]; intros data [Hp Hs];
    cbn [send_loop]; case_decide as Hd; try done.
  - destruct data; [done|]. simpl in Hs. lia.
  - apply Forall_cons in Hp as [Hrc Hp]. destruct rc as [|rc]; [lia|].
    specialize (IH (drop_bytes (S rc) data)).
    destruct (send_loop room (drop_bytes (S rc) data)) as [[room' sent] ok]. apply IH.
    split; [done|]. rewrite drop_bytes_length. simpl in Hs. lia.
Qed.

(** ** The connection as a whole *)

Section connection.
Context {H : Type} (handler : HttpRequest -> M H HttpResponse).

Lemma request_line_cases l :
  (exists w, request_line_words l = Ok w) \/
  request_line_words l = Throw (RuntimeError "invalid request line").
Proof.
  unfold request_line_words. destruct (read_word _) as [m r1]. destruct (read_word r1) as [p r2].
  destruct (read_word r2) as [v r3]. case_decide; eauto.
Qed.

Lemma header_loop_cases lines headers n :
  0 <= n ->
  (exists hs n', header_loop lines headers n = Ok (hs, n') /\ 0 <= n') \/
  (exists w, header_loop lines headers n = Throw (InvalidArgument w)) \/
  (exists w, header_loop lines headers n = Throw (OutOfRange w)).
Proof.
  revert headers n. induction lines as [|l lines IH]; intros headers n Hn; cbn [header_loop].
  - left. by eexists _, _.
  - case_decide; [by apply IH|]. destruct (split_at _ _) as [[before after]|]; [|by apply IH].
    case_decide; [|by apply IH]. destruct (stoull (trim after)) as [n'|e] eqn:E.
    + apply IH. by eapply stou_nonneg.
    + apply stou_throw in E as [-> | ->]; eauto.
Qed.

(** Reading and handling a request: the handler is called at most once, with
    the address of the peer and a body of at most a mebibyte. *)
Inductive handled (ip : string) (h : H) : H -> result HttpResponse -> Prop :=
  | handled_too_large : handled ip h h (Ok too_large)
  | handled_unreadable w : handled ip h h (Throw (RuntimeError w))
  | handled_invalid w : handled ip h h (Throw (InvalidArgument w))
  | handled_out_of_range w : handled ip h h (Throw (OutOfRange w))
  | handled_request rq h' r :
      rq_remote_ip rq = ip -> ssize (rq_body rq) <= 1024 * 1024 -> handler rq h = (h', r) ->
      handled ip h h' r.

Lemma serve_request_run ip s h :
  exists segs h' r, serve_request handler ip (s, h) = ((with_pending segs s, h'), r) /\
    handled ip h h' r.
Proof.
  unfold serve_request. rewrite bind_gets. cbn [fst].
  destruct (read_head_total (S (segments_size (so_pending s))) "" s h)
    as (segs & r & E & [(raw & i & ->)|[w ->]]); [lia|..].
  2: { eexists segs, h, _. rewrite (bind_throw _ _ _ _ _ E). split; [done|constructor]. }
  rewrite (bind_ok _ _ _ _ _ E). set (lines := getlines (copy_bytes i raw)).
  destruct (request_line_cases (default "" (head lines))) as [[[[m p] v] ->] | ->].
  2: { eexists segs, h, _. split; [reflexivity|constructor]. }
  erewrite (bind_ok _ _ _ (with_pending segs s, h)) by reflexivity.
  destruct (header_loop_cases (tail lines) ∅ 0) as [(hs & n & -> & Hn)|[[w ->]|[w ->]]]; [done|..];
    [|eexists segs, h, _; split; [reflexivity|constructor]..].
  erewrite (bind_ok _ _ _ (with_pending segs s, h)) by reflexivity.
  cbv beta match. destruct (1024 * 1024 <? n) eqn:Hmax.
  { eexists segs, h, _. split; [reflexivity|constructor]. }
  rewrite bind_gets. cbn [fst].
  destruct (read_body_total (S (segments_size segs)) n (drop_bytes (i + 4) raw) (with_pending segs s) h)
    as (segs' & r & E' & [(b & -> & Hb)|[w ->]]); [done|simpl; lia|..].
  2: { eexists segs', h, _. setoid_rewrite (bind_throw _ _ _ _ _ E'). split; [reflexivity|constructor]. }
  setoid_rewrite (bind_ok _ _ _ _ _ E'). unfold on_handler, zoom. cbn [fst snd].
  set (rq := Build_HttpRequest _ _ _ _ _ _). destruct (handler rq h) as [h' r] eqn:Eh.
  exists segs', h', r. split; [reflexivity|]. apply (handled_request _ _ rq); [done| |done].
  subst rq. cbn [rq_body]. lia.
Qed.

(** The response sent: the handler's, or one of the server's own. *)
Definition reply_of (r : result HttpResponse) : HttpResponse :=
  match r with Ok x => x | Throw e => bad_request e end.

Lemma handle_client_run ip s h :
  (forall rq w, (handler rq h).2 <> Throw (UndefinedBehaviour w)) ->
  exists s' h' r, handle_client handler ip (s, h) = ((s', h'), Ok tt) /\
    handled ip h h' r /\ so_open s' = false /\
    (exists rest sent, so_sent s' = so_sent s +:+ sent /\
       render_response (reply_of r) = sent +:+ rest /\
       (accepts (so_room s) (ssize (render_response (reply_of r))) -> rest = "")).
Proof.
  intros Hub. destruct (serve_request_run ip s h) as (segs & h' & r & E & Hr).
  unfold handle_client. set (m := catch _ _).
  assert (Em : m (s, h) = ((with_pending segs s, h'), Ok (reply_of r))).
  { subst m. unfold catch. rewrite E. destruct r as [x|[w|w|w|w]]; try done.
    inversion Hr as [| | | |rq ? ? _ _ Eh]; subst. exfalso. apply (Hub rq w). by rewrite Eh. }
  rewrite (bind_ok _ _ _ _ _ Em). unfold send_all, close_socket, on_socket, zoom, modify, mbind, M_bind.
  cbn [fst snd so_room so_pending with_pending so_sent so_open].
  pose proof (send_loop_spec (so_room s) (render_response (reply_of r))) as Hspec.
  pose proof (send_loop_complete (so_room s) (render_response (reply_of r))) as Hcomp.
  destruct (send_loop _ _) as [[room sent] ok]. destruct Hspec as (rest & Hd & Hok).
  eexists _, h', r. split; [reflexivity|]. split_and!; [done|done|].
  exists rest, sent. split_and!; [done|done|]. intros Ha. apply Hok. by apply Hcomp.
Qed.
End connection.
