(* ===== verification/HttpProperties.v ===== *)
(** * The properties of the HTTP server

    A request is understood however the network cuts it into segments, and every
    connection is answered. *)

From S2P Require Import Prelude CppStd Common Sqlite Store SqliteStore SqliteStoreProofs Raft Metrics Shard ShardSystem ShardTheorems ShardProperties Cluster ClusterSpec Resilience Gateway GatewayProperties HttpServer HttpFacts HttpProofs.
From Stdlib Require Import Ascii.

#[local] Open Scope Z_scope.

(** ** Requests on the wire *)

(** The text of a request, as a client sends it. *)
Definition request_text (m p v : string) (hdrs : list (string * string)) (body : string) : string :=
  lines_text (m +:+ String " " (p +:+ String " " v)) (header_text <$> hdrs) +:+ blank_line +:+ body.

Definition head_size (m p v : string) (hdrs : list (string * string)) : Z :=
  ssize (lines_text (m +:+ String " " (p +:+ String " " v)) (header_text <$> hdrs)).

(** A method, a path and a version without white space; any headers, with names in
    any case and any white space around the values; every content length that is
    announced is that of the body, and a body that is not empty is announced; all
    within the limits of the server. *)
Record proper_request (m p v : string) (hdrs : list (string * string)) (body : string) : Prop := {
  pr_method : token m;
  pr_path : token p;
  pr_version : token v;
  pr_headers : Forall proper_header hdrs;
  pr_length h : h ∈ hdrs -> to_lower h.1 = "content-length" -> stoull (trim h.2) = Ok (ssize body);
  pr_announced : body <> "" -> exists h, h ∈ hdrs /\ to_lower h.1 = "content-length";
  pr_body : ssize body <= 1024 * 1024;
  pr_head : head_size m p v hdrs + 4 + buffer_size <= max_request_size;
}.

(** The headers as the handler gets them; of equal names the last counts. *)
Definition wire_headers (hdrs : list (string * string)) : gmap string string :=
  list_to_map (reverse (received <$> hdrs)).

(** ** Parsing the head *)

Lemma with_cr_lines l hdrs :
  (head (with_cr l (header_text <$> hdrs)) = Some l \/
   head (with_cr l (header_text <$> hdrs)) = Some (l +:+ String cr "")) /\
  Forall2 (fun h x => x = header_text h \/ x = header_text h +:+ String cr "")
    hdrs (tail (with_cr l (header_text <$> hdrs))).
Proof.
  revert l. induction hdrs as [|h hdrs IH]; intros l; [by split; [left|constructor]|].
  rewrite fmap_cons. cbn [with_cr head tail]. split; [by right|].
  destruct (IH (header_text h)) as [Hh Ht].
  destruct (with_cr (header_text h) (header_text <$> hdrs)) as [|x xs]; [naive_solver|].
  constructor; [|done]. destruct Hh as [[= ->]|[= ->]]; auto.
Qed.

Lemma header_loop_headers hdrs lines headers n N :
  Forall proper_header hdrs ->
  Forall2 (fun h x => x = header_text h \/ x = header_text h +:+ String cr "") hdrs lines ->
  (forall h, h ∈ hdrs -> to_lower h.1 = "content-length" -> stoull (trim h.2) = Ok N) ->
  exists n', header_loop lines headers n =
      Ok (foldl (fun m h => <[h.1 := h.2]> m) headers (received <$> hdrs), n') /\
    (n' = N \/ (n' = n /\ forall h, h ∈ hdrs -> to_lower h.1 <> "content-length")).
Proof.
  intros Hp Hl Hn. revert headers n Hp Hn. induction Hl as [|h x hdrs lines Hx Hl IH]; intros headers n Hp Hn.
  - exists n. split; [done|]. right. split; [done|]. by intros ? ?%elem_of_nil.
  - apply Forall_cons in Hp as [Hh Hp]. rewrite (header_loop_line h) by done.
    assert (Hn' : forall h, h ∈ hdrs -> to_lower h.1 = "content-length" -> stoull (trim h.2) = Ok N)
      by (intros h' Hin; apply Hn; by right).
    rewrite fmap_cons. cbn [foldl received fst snd]. destruct (decide (to_lower h.1 = "content-length")) as [E|E].
    + rewrite (Hn h) by (done || by left). destruct (IH (<[to_lower h.1 := trim h.2]> headers) N Hp Hn') as (n' & -> & Hc).
      exists n'. split; [done|]. left. by destruct Hc as [?|[? _]].
    + destruct (IH (<[to_lower h.1 := trim h.2]> headers) n Hp Hn') as (n' & -> & Hc).
      exists n'. split; [done|]. destruct Hc as [?|[? Hno]]; [by left|right]. split; [done|].
      intros h' [->|Hin]%elem_of_cons; [done|by apply Hno].
Qed.

Lemma foldl_insert (l : list (string * string)) :
  foldl (fun (m : gmap string string) h => <[h.1 := h.2]> m) ∅ l = list_to_map (reverse l).
Proof.
  induction l as [|[k x] l IH] using rev_ind; [done|].
  by rewrite foldl_app, reverse_app, IH.
Qed.

Section understood.
Context {H : Type} (handler : HttpRequest -> M H HttpResponse).
Context (m p v : string) (hdrs : list (string * string)) (body extra ip : string).
Context (Hpr : proper_request m p v hdrs body).

Definition wire_request : HttpRequest :=
  {| rq_method := m; rq_path := p; rq_version := v; rq_headers := wire_headers hdrs;
     rq_body := body; rq_remote_ip := ip |}.

Lemma first_line_proper : proper_line (m +:+ String " " (p +:+ String " " v)).
Proof.
  split; [|destruct Hpr as [[Hm _] _ _ _ _ _ _ _]; by destruct m].
  apply one_line_app; [apply token_one_line, Hpr|]. change (String " " ?x) with (" " +:+ x).
  apply one_line_app; [done|]. apply one_line_app; [apply token_one_line, Hpr|].
  change (String " " v) with (" " +:+ v). apply one_line_app; [done|]. apply token_one_line, Hpr.
Qed.

Lemma header_loop_request :
  header_loop (tail (with_cr (m +:+ String " " (p +:+ String " " v)) (header_text <$> hdrs))) ∅ 0 =
    Ok (wire_headers hdrs, ssize body).
Proof.
  destruct (with_cr_lines (m +:+ String " " (p +:+ String " " v)) hdrs) as [_ Hl].
  destruct (header_loop_headers hdrs _ ∅ 0 (ssize body) (pr_headers _ _ _ _ _ Hpr) Hl (pr_length _ _ _ _ _ Hpr))
    as (n & -> & Hn).
  rewrite foldl_insert. f_equal. f_equal. destruct Hn as [->|[-> Hno]]; [done|].
  destruct (decide (body = "")) as [->|Hb]; [done|].
  destruct (pr_announced _ _ _ _ _ Hpr Hb) as (h & Hin & Hc). by destruct (Hno h Hin).
Qed.

Lemma serve_request_understood s h :
  live (so_pending s) -> stream (so_pending s) = request_text m p v hdrs body +:+ extra ->
  exists segs, serve_request handler ip (s, h) =
    (let '(h', r) := handler wire_request h in ((with_pending segs s, h'), r)).
Proof.
  intros Hl Ht. unfold serve_request. rewrite bind_gets. cbn [fst].
  set (first := m +:+ String " " (p +:+ String " " v)). set (head := lines_text first (header_text <$> hdrs)).
  assert (Hlines : Forall proper_line (header_text <$> hdrs)).
  { apply Forall_fmap. eapply Forall_impl; [apply Hpr|]. apply header_text_proper. }
  assert (Htext : stream (so_pending s) = head +:+ blank_line +:+ (body +:+ extra)).
  { rewrite Ht. unfold request_text. fold first head. by rewrite !app_assoc_str. }
  destruct (read_head_stream (S (segments_size (so_pending s))) "" s h (stream (so_pending s)) (String.length head))
    as (segs & raw & E & Hlive & Hraw & Hlen); try done; [lia| |..].
  { rewrite Htext. by apply find_head; [apply first_line_proper|]. }
  { pose proof (pr_head _ _ _ _ _ Hpr) as Hh. unfold head_size in Hh. fold first head in Hh.
    by rewrite ssize_length in Hh. }
  rewrite (bind_ok _ _ _ _ _ E). cbv beta match.
  assert (Hcopy : copy_bytes (String.length head) raw = head).
  { rewrite <- (copy_app_le _ raw (stream segs)) by lia. rewrite Hraw, Htext. apply copy_app. }
  assert (Hdrop : drop_bytes (String.length head + 4) raw +:+ stream segs = body +:+ extra).
  { rewrite <- drop_app_le, Hraw, Htext, <- app_assoc_str by done.
    replace (String.length head + 4)%nat with (String.length (head +:+ blank_line)) by (by rewrite length_app_str).
    apply drop_app. }
  rewrite Hcopy. unfold head. rewrite getlines_text by (done || apply first_line_proper).
  destruct (with_cr_lines first hdrs) as [Hfirst _].
  rewrite (request_line_spec m p v) by (try apply Hpr; destruct Hfirst as [-> | ->]; auto).
  erewrite (bind_ok _ _ _ (with_pending segs s, h)) by reflexivity. cbv beta match.
  subst first. rewrite header_loop_request. erewrite (bind_ok _ _ _ (with_pending segs s, h)) by reflexivity.
  cbv beta match. rewrite (proj2 (Z.ltb_ge _ _)) by apply Hpr. rewrite bind_gets. cbn [fst].
  destruct (read_body_stream (S (segments_size segs)) _ body extra (with_pending segs s) h Hlive (Nat.lt_succ_diag_r _) Hdrop)
    as (segs' & E').
  exists segs'. etrans; [exact (bind_ok _ _ _ _ _ E')|]. unfold on_handler, zoom. cbn [fst snd]. fold wire_request.
  by destruct (handler wire_request h).
Qed.
End understood.

(** C24: a request is understood however it is cut into segments.  Let the text of
    a request be its method, path and version separated by single spaces, header
    lines [name:value] with names in any case and any white space around the values,
    a blank line and the body, whose length every header [content-length] announces
    (none is needed for an empty body), of at most 1 MiB for the body and 4 bytes less
    than 1 MiB + 56 KiB for the head.  Whatever non-empty segments it arrives in, and
    whatever follows it, the handler is called with exactly its method, path, version
    and body and with its headers, names in lower case, values trimmed, the last of
    equal names; if the peer accepts the answer, the handler's response is sent
    whole, and the connection is closed. *)
Theorem request_is_understood {H : Type} (handler : HttpRequest -> M H HttpResponse)
    (m p v : string) (hdrs : list (string * string)) (body extra ip : string) (s : Socket)
    (h h' : H) (r : HttpResponse) :
  proper_request m p v hdrs body ->
  live (so_pending s) -> stream (so_pending s) = request_text m p v hdrs body +:+ extra ->
  handler (wire_request m p v hdrs body ip) h = (h', Ok r) ->
  accepts (so_room s) (ssize (render_response r)) ->
  exists s', handle_client handler ip (s, h) = ((s', h'), Ok tt) /\
    so_sent s' = so_sent s +:+ render_response r /\ so_open s' = false.
Proof.
  intros Hpr Hl Ht Hh Ha.
  destruct (serve_request_understood handler m p v hdrs body extra ip Hpr s h Hl Ht) as [segs E].
  rewrite Hh in E. unfold handle_client.
  rewrite (bind_ok _ _ _ (with_pending segs s, h') r) by (unfold catch; by rewrite E).
  unfold send_all, close_socket, on_socket, zoom, modify, mbind, M_bind.
  cbn [fst snd so_room so_pending with_pending so_sent so_open].
  pose proof (send_loop_spec (so_room s) (render_response r)) as Hspec.
  pose proof (send_loop_complete _ _ Ha) as Hok.
  destruct (send_loop _ _) as [[room sent] ok]. destruct Hspec as (rest & Hd & Hr).
  simpl in Hok. subst ok. apply proj1 in Hr. rewrite (Hr eq_refl), app_nil_r_str in Hd.
  eexists. split; [reflexivity|]. by rewrite Hd.
Qed.

(** A handler that echoes the body and remembers the requests. *)
Definition echo (rq : HttpRequest) : M (list HttpRequest) HttpResponse := fun h =>
  (h ++ [rq], Ok (json_response 200 (rq_body rq))).

Definition demo_headers : list (string * string) :=
  [("Host", " localhost:8080"); ("Content-Length", "  5 "); ("AUTHORIZATION", "Bearer dev-secret")].

Definition demo_segments : list string :=
  ["PUT /v1/kv/a HTT"; "P/1.1" +:+ crlf +:+ "Host: localhost:8080" +:+ crlf +:+ "Content-Le";
   "ngth:  5 " +:+ crlf +:+ "AUTHORIZATION:Bearer dev-secret" +:+ String cr "";
   String lf (String cr ""); String lf "he"; "llo and more"].

Definition demo_socket (segs : list string) : Socket :=
  {| so_pending := segs; so_room := [50; 50; 500]%nat; so_sent := ""; so_open := true |}.

Lemma demo_proper : proper_request "PUT" "/v1/kv/a" "HTTP/1.1" demo_headers "hello".
Proof.
  split; try (split; done); try done.
  - repeat constructor; done.
  - intros h Hin Hc. unfold demo_headers in Hin.
    repeat (apply elem_of_cons in Hin as [->|Hin]; [by vm_compute in Hc || vm_compute|]). by apply elem_of_nil in Hin.
  - intros _. exists ("Content-Length", "  5 "). split; [right; left|done].
Qed.

Lemma request_is_understood_witness :
  exists s', handle_client echo "127.0.0.1" (demo_socket demo_segments, []) =
      ((s', [wire_request "PUT" "/v1/kv/a" "HTTP/1.1" demo_headers "hello" "127.0.0.1"]), Ok tt) /\
    so_sent s' = render_response (json_response 200 "hello") /\ so_open s' = false.
Proof.
  apply (request_is_understood echo "PUT" "/v1/kv/a" "HTTP/1.1" demo_headers "hello" " and more"
    "127.0.0.1" (demo_socket demo_segments) []).
  - apply demo_proper.
  - repeat constructor; done.
  - vm_compute. reflexivity.
  - reflexivity.
  - split; [repeat constructor; lia|vm_compute; discriminate].
Defined.

(** ** The server in front of the gateway *)

(** The connections of a server, one after the other. *)
Fixpoint serve_connections {S} `{Store S} (steady : nat -> Z) (conns : list (string * Socket))
    (g : Gateway S * nat) : list Socket * result unit :=
  match conns with
  | [] => ([], Ok tt)
  | (ip, s) :: conns' =>
      match handle_client (handle steady) ip (s, g) with
      | ((s', g'), Ok _) =>
          let '(l, r) := serve_connections steady conns' g' in (s' :: l, r)
      | ((s', _), Throw e) => ([s'], Throw e)
      end
  end.

(** A closed connection on which a response with one of the nine [statuses] was
    sent, whole if the peer accepted all of it. *)
Definition answered (c : string * Socket) (s' : Socket) : Prop :=
  so_open s' = false /\
  exists r sent rest, rs_status r ∈ statuses /\ render_response r = sent +:+ rest /\
    so_sent s' = so_sent c.2 +:+ sent /\
    (accepts (so_room c.2) (ssize (render_response r)) -> rest = "").

Lemma gateway_connection {S} `{StoreSpec S} steady k (g : Gateway S) n ip s :
  gateway_ok k g -> Z.of_nat k + g_max_retries g + 1 <= int64_max ->
  exists s' g' n', handle_client (handle steady) ip (s, (g, n)) = ((s', (g', n')), Ok tt) /\
    gateway_ok (k + Z.to_nat (g_max_retries g + 1)) g' /\ g_max_retries g' = g_max_retries g /\
    answered (ip, s) s'.
Proof.
  intros Hg Hb. destruct (handle_client_run (handle steady) ip s (g, n)) as (s' & [g' n'] & r & E & Hh & Ho & Hs).
  { intros rq w. by destruct (handle_responds steady k g n rq Hg Hb) as (? & ? & ? & ? & -> & _). }
  exists s', g', n'. split; [done|].
  assert (Hst : gateway_ok (k + Z.to_nat (g_max_retries g + 1)) g' /\ g_max_retries g' = g_max_retries g /\
    rs_status (reply_of r) ∈ statuses).
  { assert (Hk : gateway_ok (k + Z.to_nat (g_max_retries g + 1)) g).
    { destruct Hg as [F1 F2 F3]. split; [|done|done]. eapply cluster_ok_mono; [exact F1|lia]. }
    inversion Hh as [| | | |rq g1 r1 _ _ Eh]; subst;
      try (split_and!; [done|done|unfold statuses; simpl; set_solver]).
    destruct (handle_responds steady k g n rq Hg Hb)
      as (g1 & n1 & x & c & E1 & (T1 & T2 & T3 & T4) & _ & Hx & _).
    rewrite E1 in Eh. by simplify_eq. }
  destruct Hst as (H1 & H2 & H3). split_and!; [done|done|].
  destruct Hs as (rest & sent & Q1 & Q2 & Q3). split; [done|]. by exists (reply_of r), sent, rest.
Qed.

(** C25: every connection is answered.  Behind a server whose gateway was
    started on an empty directory with at most 59 retries, whatever the peers
    of any sequence of connections send and whenever they stop, the thread of
    the connection ends without an exception escaping, the connection is
    closed, and what was sent on it is a response with one of the statuses 200, 201,
    400, 401, 404, 405, 413, 429 and 503, whole if the peer accepted all of it.
    (The number of tries of all requests together is limited to [int64_t].) *)
Theorem connections_are_answered {S : Type} `{StoreSpec S} (steady : nat -> Z) (m n : nat)
    (disk : string -> st_file (S := S)) (key : string) (rate burst : double) (retries : Z)
    (conns : list (string * Socket)) :
  (1 <= m)%nat -> (1 <= n)%nat -> empty_directory disk -> 0 <= retries <= 59 ->
  Z.of_nat (length conns) * (retries + 1) <= int64_max ->
  exists c w socks, Cluster_new m n disk world0 = (w, Ok c) /\
    serve_connections steady conns (Gateway_new c w key rate burst retries, 0%nat) = (socks, Ok tt) /\
    Forall2 answered conns socks.
Proof.
  intros Hm Hn Hd Hr Hb. destruct (new_cluster_ok m n disk Hm Hn Hd) as (c & w & E & Hc).
  exists c, w. pose proof (new_gateway_ok c w key rate burst retries Hc Hr) as Hg.
  set (g := Gateway_new c w key rate burst retries) in *.
  assert (Hrg : g_max_retries g = retries) by done. clearbody g.
  assert (Hb' : Z.of_nat 0 + Z.of_nat (length conns) * (retries + 1) <= int64_max) by lia. clear Hb.
  revert Hg Hb' Hrg. generalize 0%nat at 1 2 as k. generalize 0%nat as t.
  clear -Hr E. revert g. induction conns as [|[ip s] conns IH]; intros g t k Hg Hb Hrg.
  - exists []. split; [done|]. by split; [|constructor].
  - cbn [length] in Hb.
    destruct (gateway_connection steady k g t ip s Hg) as (s' & g' & t' & E1 & Hg' & Hr' & Ha); [nia|].
    destruct (IH g' t' _ Hg') as (socks & _ & E2 & Hf); [rewrite Hrg; nia|congruence|].
    exists (s' :: socks). split; [done|]. cbn [serve_connections]. rewrite E1, E2. by split; [|constructor].
Qed.

(** A request in pieces, one that ends early, and a peer that sends nothing. *)
Definition demo_connections : list (string * Socket) :=
  [("127.0.0.1", demo_socket demo_segments);
   ("127.0.0.1", demo_socket ["GET /v1/kv/a HTTP/1.1" +:+ crlf; ""]);
   ("127.0.0.1", demo_socket [])].

Lemma connections_are_answered_witness :
  exists c w socks, Cluster_new (S := MemDb) 2 3 mem_disk world0 = (w, Ok c) /\
    serve_connections Z.of_nat demo_connections
      (Gateway_new c w "dev-secret" (double_of_Z 20) (double_of_Z 40) 2, 0%nat) = (socks, Ok tt) /\
    Forall2 answered demo_connections socks.
Proof.
  apply (connections_are_answered (S := MemDb) Z.of_nat 2 3 mem_disk "dev-secret" (double_of_Z 20)
    (double_of_Z 40) 2 demo_connections); [lia|lia|apply mem_disk_empty|lia|].
  vm_compute. discriminate.
Defined.
