(* ===== verification/Config.v ===== *)
(** * src/main.cpp: the configuration and the start of the server

    A configuration comes from the defaults, the environment and the command
    line, in this order.  The environment is a parameter ([getenv]), and so is
    [std::stod], the conversion of decimal text to [double] of the C library.
    [MainProgram] holds the banner and [main], [Listener] the signal handler. *)

From S2P Require Import Prelude CppStd Common Sqlite Store Raft Metrics Shard Cluster Resilience Gateway.

#[local] Open Scope Z_scope.

Record Config := {
  cf_bind : string;
  cf_port : Z;
  cf_data_dir : string;
  cf_shards : Z;
  cf_replicas : Z;
  cf_api_key : string;
  cf_rate_per_second : double;
  cf_burst : double;
  cf_retries : Z;
}.

Definition default_config : Config :=
  {| cf_bind := "0.0.0.0"; cf_port := 8080; cf_data_dir := "./data"; cf_shards := 4;
     cf_replicas := 3; cf_api_key := "dev-secret"; cf_rate_per_second := double_of_Z 20;
     cf_burst := double_of_Z 40; cf_retries := 2 |}.

(** ** Assignments to the members *)

Definition set_bind (x : string) (c : Config) : Config :=
  {| cf_bind := x; cf_port := cf_port c; cf_data_dir := cf_data_dir c; cf_shards := cf_shards c;
     cf_replicas := cf_replicas c; cf_api_key := cf_api_key c;
     cf_rate_per_second := cf_rate_per_second c; cf_burst := cf_burst c; cf_retries := cf_retries c |}.
(** [static_cast<std::uint16_t>(x)] *)
Definition set_port (x : Z) (c : Config) : Config :=
  {| cf_bind := cf_bind c; cf_port := x mod 2 ^ 16; cf_data_dir := cf_data_dir c; cf_shards := cf_shards c;
     cf_replicas := cf_replicas c; cf_api_key := cf_api_key c;
     cf_rate_per_second := cf_rate_per_second c; cf_burst := cf_burst c; cf_retries := cf_retries c |}.
Definition set_data_dir (x : string) (c : Config) : Config :=
  {| cf_bind := cf_bind c; cf_port := cf_port c; cf_data_dir := x; cf_shards := cf_shards c;
     cf_replicas := cf_replicas c; cf_api_key := cf_api_key c;
     cf_rate_per_second := cf_rate_per_second c; cf_burst := cf_burst c; cf_retries := cf_retries c |}.
Definition set_shards (x : Z) (c : Config) : Config :=
  {| cf_bind := cf_bind c; cf_port := cf_port c; cf_data_dir := cf_data_dir c; cf_shards := x;
     cf_replicas := cf_replicas c; cf_api_key := cf_api_key c;
     cf_rate_per_second := cf_rate_per_second c; cf_burst := cf_burst c; cf_retries := cf_retries c |}.
Definition set_replicas (x : Z) (c : Config) : Config :=
  {| cf_bind := cf_bind c; cf_port := cf_port c; cf_data_dir := cf_data_dir c; cf_shards := cf_shards c;
     cf_replicas := x; cf_api_key := cf_api_key c;
     cf_rate_per_second := cf_rate_per_second c; cf_burst := cf_burst c; cf_retries := cf_retries c |}.
Definition set_api_key (x : string) (c : Config) : Config :=
  {| cf_bind := cf_bind c; cf_port := cf_port c; cf_data_dir := cf_data_dir c; cf_shards := cf_shards c;
     cf_replicas := cf_replicas c; cf_api_key := x;
     cf_rate_per_second := cf_rate_per_second c; cf_burst := cf_burst c; cf_retries := cf_retries c |}.
Definition set_rate (x : double) (c : Config) : Config :=
  {| cf_bind := cf_bind c; cf_port := cf_port c; cf_data_dir := cf_data_dir c; cf_shards := cf_shards c;
     cf_replicas := cf_replicas c; cf_api_key := cf_api_key c;
     cf_rate_per_second := x; cf_burst := cf_burst c; cf_retries := cf_retries c |}.
Definition set_burst (x : double) (c : Config) : Config :=
  {| cf_bind := cf_bind c; cf_port := cf_port c; cf_data_dir := cf_data_dir c; cf_shards := cf_shards c;
     cf_replicas := cf_replicas c; cf_api_key := cf_api_key c;
     cf_rate_per_second := cf_rate_per_second c; cf_burst := x; cf_retries := cf_retries c |}.
Definition set_retries (x : Z) (c : Config) : Config :=
  {| cf_bind := cf_bind c; cf_port := cf_port c; cf_data_dir := cf_data_dir c; cf_shards := cf_shards c;
     cf_replicas := cf_replicas c; cf_api_key := cf_api_key c;
     cf_rate_per_second := cf_rate_per_second c; cf_burst := cf_burst c; cf_retries := x |}.

Section config.
Context (stod : string -> result double) (getenv : string -> option string).

Definition env_or (name fallback : string) : string := default fallback (getenv name).

Definition env_size_or (name : string) (fallback : Z) : result Z :=
  match getenv name with Some value => stoull value | None => Ok fallback end.

Definition env_double_or (name : string) (fallback : double) : result double :=
  match getenv name with Some value => stod value | None => Ok fallback end.

(** [config.member = value], where computing the value reads the member or
    throws. *)
Definition assign {A} (set : A -> Config -> Config) (value : Config -> result A) : M Config unit :=
  fun c => match value c with Ok x => (set x c, Ok tt) | Throw e => (c, Throw e) end.

Definition read_environment : M Config unit :=
  assign set_bind (fun c => Ok (env_or "KV_BIND" (cf_bind c))) ;;
  assign set_port (fun c => env_size_or "KV_PORT" (cf_port c)) ;;
  assign set_data_dir (fun c => Ok (env_or "KV_DATA_DIR" (cf_data_dir c))) ;;
  assign set_shards (fun c => env_size_or "KV_SHARDS" (cf_shards c)) ;;
  assign set_replicas (fun c => env_size_or "KV_REPLICAS" (cf_replicas c)) ;;
  assign set_api_key (fun c => Ok (env_or "KV_API_KEY" (cf_api_key c))) ;;
  assign set_rate (fun c => env_double_or "KV_RATE_PER_SECOND" (cf_rate_per_second c)) ;;
  assign set_burst (fun c => env_double_or "KV_BURST" (cf_burst c)) ;;
  assign set_retries (fun c => env_size_or "KV_RETRIES" (cf_retries c)).

(** What an option assigns, given its value; [None] for a text that is not an
    option with a value. *)
Definition option_setter (arg : string) : option (string -> M Config unit) :=
  if decide (arg = "--bind") then Some (fun value => assign set_bind (fun _ => Ok value))
  else if decide (arg = "--port") then Some (fun value => assign set_port (fun _ => stoul value))
  else if decide (arg = "--data-dir") then Some (fun value => assign set_data_dir (fun _ => Ok value))
  else if decide (arg = "--shards") then Some (fun value => assign set_shards (fun _ => stoull value))
  else if decide (arg = "--replicas") then Some (fun value => assign set_replicas (fun _ => stoull value))
  else if decide (arg = "--api-key") then Some (fun value => assign set_api_key (fun _ => Ok value))
  else if decide (arg = "--rate") then Some (fun value => assign set_rate (fun _ => stod value))
  else if decide (arg = "--burst") then Some (fun value => assign set_burst (fun _ => stod value))
  else if decide (arg = "--retries") then Some (fun value => assign set_retries (fun _ => stoull value))
  else None.

(** The loop over [argv]; [false] is [std::exit(0)] after the help text. *)
Fixpoint read_arguments (args : list string) : M Config bool :=
  match args with
  | [] => mret true
  | arg :: rest =>
      match option_setter arg with
      | Some set =>
          match rest with
          | [] => throw (InvalidArgument ("missing value for " +:+ arg))
          | value :: rest' => set value ;; read_arguments rest'
          end
      | None =>
          if decide (arg = "--help") then mret false
          else throw (InvalidArgument ("unknown argument: " +:+ arg))
      end
  end.

(** [None]: the process has exited. *)
Definition parse_config (args : list string) : result (option Config) :=
  match (read_environment ;; read_arguments args) default_config with
  | (c, Ok true) =>
      if decide (cf_shards c = 0 \/ cf_replicas c = 0)
      then Throw (InvalidArgument "shards and replicas must be positive")
      else Ok (Some c)
  | (_, Ok false) => Ok None
  | (_, Throw e) => Throw e
  end.

(** [main] up to [server.run()]: the gateway the server calls.  The databases
    are below the data directory of the configuration. *)
Definition main_start {S} `{Store S} (disk : string -> string -> st_file (S := S)) (args : list string)
    : result (option (Config * Gateway S)) :=
  match parse_config args with
  | Ok (Some c) =>
      match Cluster_new (Z.to_nat (cf_shards c)) (Z.to_nat (cf_replicas c)) (disk (cf_data_dir c))
              {| w_metrics := zero_metrics; w_log := [] |} with
      | (w, Ok cluster) =>
          Ok (Some (c, Gateway_new cluster w (cf_api_key c) (cf_rate_per_second c) (cf_burst c)
                         (cf_retries c)))
      | (_, Throw e) => Throw e
      end
  | Ok None => Ok None
  | Throw e => Throw e
  end.
End config.
