(* ===== verification/ConfigProperties.v ===== *)
(** * The properties of the configuration

    Where each member of an accepted configuration comes from, its range, and
    that the program starts on it. *)

From S2P Require Import Prelude CppStd Common Sqlite Store SqliteStore SqliteStoreProofs Raft Metrics Shard ShardSystem ShardTheorems ShardProperties Cluster ClusterSpec Resilience Gateway GatewayProperties Config.

#[local] Open Scope Z_scope.

(** The values given to an option, in order. *)
Fixpoint values (flag : string) (args : list string) : list string :=
  match args with
  | arg :: value :: rest =>
      if decide (arg = flag) then value :: values flag rest else values flag rest
  | _ => []
  end.

(** A number read as a port. *)
Definition to_port (r : result Z) : result Z :=
  match r with Ok x => Ok (x mod 2 ^ 16) | Throw e => Throw e end.

Section config.
Context (stod : string -> result double) (getenv : string -> option string).

(** The last value given to an option, or what was there before. *)
Definition last_value {A} (convert : string -> result A) (flag : string) (args : list string)
    (before : result A) : result A :=
  match last (values flag args) with Some value => convert value | None => before end.

(** Where the members of a configuration come from, given those before the
    command line was read. *)
Record from_arguments (args : list string) (c c' : Config) : Prop := {
  fa_bind : Ok (cf_bind c') = last_value Ok "--bind" args (Ok (cf_bind c));
  fa_port : Ok (cf_port c') = last_value (fun v => to_port (stoul v)) "--port" args (Ok (cf_port c));
  fa_data_dir : Ok (cf_data_dir c') = last_value Ok "--data-dir" args (Ok (cf_data_dir c));
  fa_shards : Ok (cf_shards c') = last_value stoull "--shards" args (Ok (cf_shards c));
  fa_replicas : Ok (cf_replicas c') = last_value stoull "--replicas" args (Ok (cf_replicas c));
  fa_api_key : Ok (cf_api_key c') = last_value Ok "--api-key" args (Ok (cf_api_key c));
  fa_rate : Ok (cf_rate_per_second c') = last_value stod "--rate" args (Ok (cf_rate_per_second c));
  fa_burst : Ok (cf_burst c') = last_value stod "--burst" args (Ok (cf_burst c));
  fa_retries : Ok (cf_retries c') = last_value stoull "--retries" args (Ok (cf_retries c));
}.

Lemma last_value_cons {A} (convert : string -> result A) flag arg value rest b0 b1 b2 :
  b1 = last_value convert flag [arg; value] b0 -> b2 = last_value convert flag rest b1 ->
  b2 = last_value convert flag (arg :: value :: rest) b0.
Proof.
  unfold last_value. cbn [values]. intros -> ->. case_decide; [|done].
  rewrite (last_cons value (values flag rest)). by destruct (last (values flag rest)).
Qed.

(** One option. *)
Lemma option_setter_from arg set value c c' :
  option_setter stod arg = Some set -> set value c = (c', Ok tt) ->
  from_arguments [arg; value] c c'.
Proof.
  unfold option_setter. intros Hset Hrun.
  repeat case_decide; simplify_eq; unfold assign in Hrun; cbv beta in Hrun;
    try match type of Hrun with context [match ?x with Ok _ => _ | Throw _ => _ end] =>
      destruct x eqn:? end; simplify_eq; split; unfold last_value; simpl;
    first [congruence|by match goal with E : _ = Ok _ |- _ => rewrite E end].
Qed.

Lemma from_arguments_cons arg value rest c c1 c2 :
  from_arguments [arg; value] c c1 -> from_arguments rest c1 c2 ->
  from_arguments (arg :: value :: rest) c c2.
Proof.
  intros [] []. split; by eapply last_value_cons.
Qed.

Lemma read_arguments_from args c c' :
  read_arguments stod args c = (c', Ok true) -> from_arguments args c c'.
Proof.
  remember (length args) as k eqn:Hk. revert args c Hk. induction (lt_wf k) as [k _ IH]. intros args c -> Hrun.
  destruct args as [|arg rest]; [injection Hrun as <-; by split|]. cbn [read_arguments] in Hrun.
  destruct (option_setter stod arg) as [set|] eqn:Es; [|by case_decide].
  destruct rest as [|value rest]; [done|]. apply bind_inv_ok in Hrun as (c1 & [] & E1 & E2).
  eapply from_arguments_cons; [by eapply option_setter_from|].
  apply (IH (length rest)); [simpl; lia|done|done].
Qed.

(** Where the members of an accepted configuration come from: the last value on
    the command line, else the environment, else the default. *)
Record configured (args : list string) (c : Config) : Prop := {
  co_bind : Ok (cf_bind c) = last_value Ok "--bind" args (Ok (env_or getenv "KV_BIND" "0.0.0.0"));
  co_port : Ok (cf_port c) = last_value (fun v => to_port (stoul v)) "--port" args
    (to_port (env_size_or getenv "KV_PORT" 8080));
  co_data_dir : Ok (cf_data_dir c) =
    last_value Ok "--data-dir" args (Ok (env_or getenv "KV_DATA_DIR" "./data"));
  co_shards : Ok (cf_shards c) =
    last_value stoull "--shards" args (env_size_or getenv "KV_SHARDS" 4);
  co_replicas : Ok (cf_replicas c) =
    last_value stoull "--replicas" args (env_size_or getenv "KV_REPLICAS" 3);
  co_api_key : Ok (cf_api_key c) =
    last_value Ok "--api-key" args (Ok (env_or getenv "KV_API_KEY" "dev-secret"));
  co_rate : Ok (cf_rate_per_second c) =
    last_value stod "--rate" args (env_double_or stod getenv "KV_RATE_PER_SECOND" (double_of_Z 20));
  co_burst : Ok (cf_burst c) =
    last_value stod "--burst" args (env_double_or stod getenv "KV_BURST" (double_of_Z 40));
  co_retries : Ok (cf_retries c) =
    last_value stoull "--retries" args (env_size_or getenv "KV_RETRIES" 2);
}.

Lemma assign_inv {A} (set : A -> Config -> Config) value c c' :
  assign set value c = (c', Ok tt) -> exists x, value c = Ok x /\ c' = set x c.
Proof. unfold assign. destruct (value c) as [x|e]; [|done]. intros [= <-]. eauto. Qed.

Lemma parse_config_inv args c :
  parse_config stod getenv args = Ok (Some c) ->
  (exists c0, read_environment stod getenv default_config = (c0, Ok tt) /\
     read_arguments stod args c0 = (c, Ok true)) /\ cf_shards c <> 0 /\ cf_replicas c <> 0.
Proof.
  unfold parse_config. set (m := _ ≫= _). destruct (m default_config) as [c1 [[]|e]] eqn:E; try done.
  case_decide as Hd; [done|]. intros [= <-]. split; [|tauto].
  apply bind_inv_ok in E as (c0 & [] & E1 & E2). eauto.
Qed.
End config.

Lemma read_sources (stod : string -> result double) (getenv : string -> option string) args c0 c :
  read_environment stod getenv default_config = (c0, Ok tt) -> read_arguments stod args c0 = (c, Ok true) ->
  configured stod getenv args c.
Proof.
  intros E Ha. apply read_arguments_from in Ha. unfold read_environment in E.
  repeat (apply bind_inv_ok in E as (? & [] & ?%assign_inv & E)).
  apply assign_inv in E.
  repeat match goal with H : exists _, _ /\ _ |- _ => destruct H as (? & ? & ->) end.
  destruct Ha. split; simpl in *; try congruence.
  by match goal with E : env_size_or _ "KV_PORT" _ = _ |- _ => rewrite E end.
Qed.

Lemma config_sources (stod : string -> result double) (getenv : string -> option string) args c :
  parse_config stod getenv args = Ok (Some c) -> configured stod getenv args c.
Proof.
  intros Hp. destruct (parse_config_inv stod getenv args c Hp) as [(c0 & E & Ha) _]. by eapply read_sources.
Qed.

(** ** What is accepted *)

Definition text_options : list string := ["--bind"; "--data-dir"; "--api-key"].
Definition size_options : list string := ["--port"; "--shards"; "--replicas"; "--retries"].
Definition double_options : list string := ["--rate"; "--burst"].
Definition all_options : list string := text_options ++ size_options ++ double_options.

(** Text that [std::stoull], or [std::stod], reads as a number. *)
Definition is_size (v : string) : Prop := exists n, stoull v = Ok n.
Definition is_double (stod : string -> result double) (v : string) : Prop := exists d, stod v = Ok d.

(** A command line of options, each with a value of its kind. *)
Inductive well_formed (stod : string -> result double) : list string -> Prop :=
  | wf_nil : well_formed stod []
  | wf_text flag v rest : flag ∈ text_options -> well_formed stod rest -> well_formed stod (flag :: v :: rest)
  | wf_size flag v rest :
      flag ∈ size_options -> is_size v -> well_formed stod rest -> well_formed stod (flag :: v :: rest)
  | wf_double flag v rest :
      flag ∈ double_options -> is_double stod v -> well_formed stod rest -> well_formed stod (flag :: v :: rest).

(** The numbers in the environment are numbers. *)
Definition good_environment (stod : string -> result double) (getenv : string -> option string) : Prop :=
  (forall name v, name ∈ ["KV_PORT"; "KV_SHARDS"; "KV_REPLICAS"; "KV_RETRIES"] -> getenv name = Some v -> is_size v) /\
  (forall name v, name ∈ ["KV_RATE_PER_SECOND"; "KV_BURST"] -> getenv name = Some v -> is_double stod v).

Section accepted.
Context (stod : string -> result double) (getenv : string -> option string).

Lemma env_size_ok name fallback :
  (forall v, getenv name = Some v -> is_size v) -> exists n, env_size_or getenv name fallback = Ok n.
Proof. unfold env_size_or. destruct (getenv name) as [v|]; [|eauto]. intros H. by apply H. Qed.

Lemma env_double_ok name fallback :
  (forall v, getenv name = Some v -> is_double stod v) -> exists d, env_double_or stod getenv name fallback = Ok d.
Proof. unfold env_double_or. destruct (getenv name) as [v|]; [|eauto]. intros H. by apply H. Qed.

Lemma read_environment_ok :
  good_environment stod getenv -> exists c0, read_environment stod getenv default_config = (c0, Ok tt).
Proof.
  intros [Hs Hd].
  assert (forall name x, name ∈ ["KV_PORT"; "KV_SHARDS"; "KV_REPLICAS"; "KV_RETRIES"] ->
    exists n, env_size_or getenv name x = Ok n) as Es by (intros; apply env_size_ok; eauto).
  assert (forall name x, name ∈ ["KV_RATE_PER_SECOND"; "KV_BURST"] ->
    exists d, env_double_or stod getenv name x = Ok d) as Ed by (intros; apply env_double_ok; eauto).
  edestruct (Es "KV_PORT") as [? E1]; [set_solver|]. edestruct (Es "KV_SHARDS") as [? E2]; [set_solver|].
  edestruct (Es "KV_REPLICAS") as [? E3]; [set_solver|]. edestruct (Es "KV_RETRIES") as [? E4]; [set_solver|].
  edestruct (Ed "KV_RATE_PER_SECOND") as [? E5]; [set_solver|]. edestruct (Ed "KV_BURST") as [? E6]; [set_solver|].
  eexists. unfold read_environment, assign, mbind, M_bind. simpl.
  rewrite E1. simpl. rewrite E2. simpl. rewrite E3. simpl. rewrite E5. simpl. rewrite E6. simpl. by rewrite E4.
Qed.

Lemma stoul_ok v : is_size v -> exists n, stoul v = Ok n.
Proof.
  unfold is_size, stoull, stoul, stou. destruct (strto v) as [[neg n]|]; [|by intros []].
  case_match; [eauto|by intros []].
Qed.

(** The setter of an option succeeds on a value of its kind. *)
Lemma setter_ok flag v rest c :
  well_formed stod (flag :: v :: rest) ->
  exists set c', option_setter stod flag = Some set /\ set v c = (c', Ok tt) /\ well_formed stod rest.
Proof.
  intros Hw. inversion Hw as [|? ? ? Hf|? ? ? Hf Hv|? ? ? Hf [d Hd]]; subst.
  - repeat (apply elem_of_cons in Hf as [->|Hf]); [..|by apply elem_of_nil in Hf]; eexists _, _; split_and!; done.
  - destruct (stoul_ok v Hv) as [k Hk]. destruct Hv as [n Hn].
    repeat (apply elem_of_cons in Hf as [->|Hf]); [..|by apply elem_of_nil in Hf];
      (eexists _, _; split_and!; [done| |done]); unfold assign; by rewrite ?Hk, ?Hn.
  - repeat (apply elem_of_cons in Hf as [->|Hf]); [..|by apply elem_of_nil in Hf];
      (eexists _, _; split_and!; [done| |done]); unfold assign; by rewrite Hd.
Qed.

Lemma read_well_formed args rest c :
  well_formed stod args -> exists c', read_arguments stod args c = (c', Ok true) /\
    read_arguments stod (args ++ rest) c = read_arguments stod rest c'.
Proof.
  remember (length args) as k eqn:Hk. revert args c Hk. induction (lt_wf k) as [k _ IH]. intros args c -> Hw.
  destruct args as [|flag [|v args]]; [eauto|by inversion Hw|].
  destruct (setter_ok flag v args c Hw) as (set & c1 & E1 & E2 & Hw').
  destruct (IH (length args)) with (args := args) (c := c1) as (c' & H1 & H2); [simpl; lia|done|done|].
  exists c'. cbn [app read_arguments]. rewrite E1. unfold mbind, M_bind. by rewrite E2.
Qed.

Lemma setter_options flag : (exists set, option_setter stod flag = Some set) <-> flag ∈ all_options.
Proof.
  unfold option_setter. split.
  - intros [set E]. repeat case_decide; subst; try done; unfold all_options; set_solver.
  - intros Hf. repeat (apply elem_of_cons in Hf as [->|Hf]); [by eauto..|by apply elem_of_nil in Hf].
Qed.

Lemma parse_config_reads args c0 :
  read_environment stod getenv default_config = (c0, Ok tt) ->
  parse_config stod getenv args =
    match read_arguments stod args c0 with
    | (c, Ok true) =>
        if decide (cf_shards c = 0 \/ cf_replicas c = 0)
        then Throw (InvalidArgument "shards and replicas must be positive") else Ok (Some c)
    | (_, Ok false) => Ok None
    | (_, Throw e) => Throw e
    end.
Proof. intros E. unfold parse_config, mbind, M_bind. by rewrite E. Qed.

(** How each command line that starts well ends. *)
Lemma parse_well_formed args :
  good_environment stod getenv -> well_formed stod args ->
  (forall rest, parse_config stod getenv (args ++ "--help" :: rest) = Ok None) /\
  (forall x rest, x ∉ all_options -> x <> "--help" ->
     parse_config stod getenv (args ++ x :: rest) = Throw (InvalidArgument ("unknown argument: " +:+ x))) /\
  (forall x, x ∈ all_options ->
     parse_config stod getenv (args ++ [x]) = Throw (InvalidArgument ("missing value for " +:+ x))) /\
  exists c, configured stod getenv args c /\
    parse_config stod getenv args =
      if decide (cf_shards c = 0 \/ cf_replicas c = 0)
      then Throw (InvalidArgument "shards and replicas must be positive") else Ok (Some c).
Proof.
  intros [c0 E0]%read_environment_ok Hw. split_and!; [intros rest|intros x rest Hx Hh|intros x Hx|].
  - rewrite (parse_config_reads _ c0 E0). by destruct (read_well_formed args ("--help" :: rest) c0 Hw) as (c & _ & ->).
  - rewrite (parse_config_reads _ c0 E0). destruct (read_well_formed args (x :: rest) c0 Hw) as (c & _ & ->).
    cbn [read_arguments]. destruct (option_setter stod x) eqn:Es; [destruct Hx; apply setter_options; eauto|].
    by rewrite decide_False by done.
  - rewrite (parse_config_reads _ c0 E0). destruct (read_well_formed args [x] c0 Hw) as (c & _ & ->).
    apply setter_options in Hx as [set Es]. cbn [read_arguments]. by rewrite Es.
  - destruct (read_well_formed args [] c0 Hw) as (c & E & _). exists c. split; [by eapply read_sources|].
    rewrite (parse_config_reads _ c0 E0). by rewrite E.
Qed.
End accepted.

Lemma last_size_range getenv flag args name before x :
  Ok x = last_value stoull flag args (env_size_or getenv name before) ->
  in_uint64 before -> in_uint64 x.
Proof.
  unfold last_value, env_size_or. intros E Hb.
  destruct (last (values flag args)); [by eapply stou_range|].
  destruct (getenv name); [by eapply stou_range|]. by injection E as ->.
Qed.

Lemma last_port_range flag args r x :
  Ok x = last_value (fun v => to_port (stoul v)) flag args (to_port r) -> 0 <= x < 2 ^ 16.
Proof.
  unfold last_value, to_port. intros E.
  destruct (last (values flag args)) as [v|]; [destruct (stoul v)|destruct r]; try done;
    injection E as ->; by apply Z.mod_pos_bound.
Qed.

(** C28: the command line overrides the environment, which overrides the
    defaults.  Each member of an accepted configuration is the last value its
    option has on the command line, else the value of its variable, else its
    default; ports are reduced to 16 bits. *)
Theorem config_precedence (stod : string -> result double) (getenv : string -> option string)
    (args : list string) (c : Config) :
  parse_config stod getenv args = Ok (Some c) -> configured stod getenv args c.
Proof. apply config_sources. Qed.

(** A [stod] for whole numbers, and an environment. *)
Definition whole_stod (s : string) : result double :=
  match stoull s with Ok z => Ok (double_of_Z z) | Throw e => Throw e end.

Definition demo_env (name : string) : option string :=
  if decide (name = "KV_SHARDS") then Some "8"
  else if decide (name = "KV_PORT") then Some "65537" else None.

Definition demo_args : list string :=
  ["--shards"; "2"; "--api-key"; "secret"; "--shards"; "6"; "--burst"; "10"].

Definition demo_config : Config :=
  {| cf_bind := "0.0.0.0"; cf_port := 1; cf_data_dir := "./data"; cf_shards := 6; cf_replicas := 3;
     cf_api_key := "secret"; cf_rate_per_second := double_of_Z 20; cf_burst := double_of_Z 10;
     cf_retries := 2 |}.

Lemma config_precedence_witness : configured whole_stod demo_env demo_args demo_config.
Proof. apply config_precedence. vm_compute. reflexivity. Defined.

Lemma build_shards_length {S} `{Store S} ids n disk w w' (c : Cluster S) :
  build_shards ids n disk w = (w', Ok c) -> length c = length ids.
Proof.
  revert w w' c. induction ids as [|i ids IH]; intros w w' c E; [by injection E as _ <-|].
  apply bind_inv_ok in E as (w1 & sh & _ & E). apply bind_inv_ok in E as (w2 & rest & E & E').
  injection E' as _ <-. simpl. f_equal. by eapply IH.
Qed.

Lemma new_cluster_length {S} `{Store S} m n disk w w' (c : Cluster S) :
  Cluster_new m n disk w = (w', Ok c) -> length c = m.
Proof.
  unfold Cluster_new. destruct (m <? 1)%nat; [done|]. intros E%build_shards_length. by rewrite length_seq in E.
Qed.

(** The construction of cluster and gateway from an accepted configuration. *)
Lemma accepted_starts {S : Type} `{StoreSpec S} (stod : string -> result double)
    (getenv : string -> option string) (disk : string -> string -> st_file (S := S))
    (args : list string) (c : Config) :
  parse_config stod getenv args = Ok (Some c) -> empty_directory (disk (cf_data_dir c)) ->
  (1 <= cf_shards c < uint64_mod /\ 1 <= cf_replicas c < uint64_mod /\ 0 <= cf_port c < 2 ^ 16 /\
   in_uint64 (cf_retries c)) /\
  exists g, main_start stod getenv disk args = Ok (Some (c, g)) /\
    Z.of_nat (length (g_cluster g)) = cf_shards c /\ length (g_breakers g) = length (g_cluster g) /\
    g_api_key g = cf_api_key c /\ g_max_retries g = cf_retries c /\
    (cf_retries c <= 59 -> gateway_ok 0 g).
Proof.
  intros Hp Hd. assert (Hr : 1 <= cf_shards c < uint64_mod /\ 1 <= cf_replicas c < uint64_mod /\
    0 <= cf_port c < 2 ^ 16 /\ in_uint64 (cf_retries c)).
  { destruct (parse_config_inv stod getenv args c Hp) as (_ & H1 & H2).
    pose proof (config_sources stod getenv args c Hp) as Hc.
    pose proof (last_size_range _ _ _ _ _ _ (co_shards _ _ _ _ Hc)) as R1.
    pose proof (last_size_range _ _ _ _ _ _ (co_replicas _ _ _ _ Hc)) as R2.
    pose proof (last_size_range _ _ _ _ _ _ (co_retries _ _ _ _ Hc)) as R3.
    pose proof (last_port_range _ _ _ _ (co_port _ _ _ _ Hc)) as R4.
    unfold in_uint64 in *. specialize (R1 ltac:(done)). specialize (R2 ltac:(done)). specialize (R3 ltac:(done)).
    lia. }
  split; [done|]. destruct Hr as (R1 & R2 & _ & R4). unfold main_start. rewrite Hp.
  destruct (new_cluster_ok (Z.to_nat (cf_shards c)) (Z.to_nat (cf_replicas c)) (disk (cf_data_dir c)))
    as (cl & w & E & Hok); [lia|lia|done|].
  fold world0. rewrite E. eexists. split; [done|].
  pose proof (new_cluster_length _ _ _ _ _ _ E) as Hl. simpl.
  split_and!; [rewrite Hl; lia|by rewrite length_replicate|done|done|].
  intros H59. apply new_gateway_ok; [done|]. unfold in_uint64 in R4. lia.
Qed.

(** C29: an accepted configuration starts.  Its shard and replica counts are
    positive and all its numbers fit their types; on an empty data directory the
    cluster with these counts and the gateway are constructed, and with at most
    59 retries the gateway is ready to serve (see C20 and C25). *)
Theorem accepted_config_starts {S : Type} `{StoreSpec S} (stod : string -> result double)
    (getenv : string -> option string) (disk : string -> string -> st_file (S := S))
    (args : list string) (c : Config) :
  parse_config stod getenv args = Ok (Some c) -> empty_directory (disk (cf_data_dir c)) ->
  (1 <= cf_shards c < uint64_mod /\ 1 <= cf_replicas c < uint64_mod /\ 0 <= cf_port c < 2 ^ 16 /\
   in_uint64 (cf_retries c)) /\
  exists g, main_start stod getenv disk args = Ok (Some (c, g)) /\
    Z.of_nat (length (g_cluster g)) = cf_shards c /\ length (g_breakers g) = length (g_cluster g) /\
    g_api_key g = cf_api_key c /\ g_max_retries g = cf_retries c /\
    (cf_retries c <= 59 -> gateway_ok 0 g).
Proof. apply accepted_starts. Qed.

Lemma accepted_config_starts_witness :
  (1 <= 6 < uint64_mod /\ 1 <= 3 < uint64_mod /\ 0 <= 1 < 2 ^ 16 /\ in_uint64 2) /\
  exists g, main_start (S := MemDb) whole_stod demo_env (fun _ => mem_disk) demo_args = Ok (Some (demo_config, g)) /\
    Z.of_nat (length (g_cluster g)) = 6 /\ length (g_breakers g) = length (g_cluster g) /\
    g_api_key g = "secret" /\ g_max_retries g = 2 /\ (2 <= 59 -> gateway_ok 0 g).
Proof.
  apply (accepted_config_starts (S := MemDb) whole_stod demo_env (fun _ => mem_disk) demo_args demo_config).
  - vm_compute. reflexivity.
  - apply mem_disk_empty.
Defined.
