(* ===== verification/Listener.v ===== *)
(** * src/http_server.cpp, src/main.cpp: the life of the listening socket

    [HttpServer::run] creates the listening socket, accepts connections and
    starts a thread for each; [HttpServer::stop] may be called at any time by a
    signal handler, and is called by the destructor; [main] runs the server,
    destroys it and exits.  These run in different threads, so they are machines
    that do one access to shared state or one system call per step, and a
    schedule interleaves their steps.  What the system calls answer, and how long
    [accept] waits, are parameters of the schedule.  What a connection thread does with its socket is
    the subject of [HttpServer]; here it only matters whether it still has to
    call the handler. *)

From S2P Require Import Prelude CppStd Common.
From Stdlib Require Import Ascii.

#[local] Open Scope Z_scope.

(** ** System calls *)

(** What a system call returns: its result, the value of [errno], and for
    [accept] the address of the peer as [inet_ntop] writes it, if it does.  For
    the constructor of [std::thread], a result other than 0 is a failure. *)
Record SysAnswer := { sys_rc : Z; sys_errno : Z; sys_ip : option string }.

Definition EINTR : Z := 4.

(** The open descriptors, those that accept connections, those on which a call of
    [accept] waits for a connection, and whether [close] was ever called on a
    descriptor that was not open.  As on Linux, [shutdown] ends the waiting and
    [close] alone does not. *)
Record Kernel := {
  k_open : gset Z;
  k_accepting : gset Z;
  k_waits : gset Z;
  k_bad_close : bool;
}.

(** A descriptor returned by [socket] or [accept]. *)
Definition k_add (fd : Z) (k : Kernel) : Kernel :=
  {| k_open := {[ fd ]} ∪ k_open k; k_accepting := k_accepting k; k_waits := k_waits k;
     k_bad_close := k_bad_close k |}.
Definition k_listen (fd : Z) (k : Kernel) : Kernel :=
  {| k_open := k_open k; k_accepting := {[ fd ]} ∪ k_accepting k; k_waits := {[ fd ]} ∪ k_waits k;
     k_bad_close := k_bad_close k |}.
Definition k_shutdown (fd : Z) (k : Kernel) : Kernel :=
  {| k_open := k_open k; k_accepting := k_accepting k ∖ {[ fd ]}; k_waits := k_waits k ∖ {[ fd ]};
     k_bad_close := k_bad_close k |}.
Definition k_close (fd : Z) (k : Kernel) : Kernel :=
  {| k_open := k_open k ∖ {[ fd ]}; k_accepting := k_accepting k ∖ {[ fd ]}; k_waits := k_waits k;
     k_bad_close := k_bad_close k || bool_decide (fd ∉ k_open k) |}.

(** ** The threads *)

(** [HttpServer::stop], by the access it makes next. *)
Inductive StopPc := AtExchange | AtCheck | AtShutdown | AtClose | AtReset | Stopped.

#[export] Instance StopPc_eq_dec : EqDecision StopPc.
Proof. solve_decision. Defined.

(** The main thread in [run], by what it does next, and in [main] after it. *)
Inductive MainPc :=
  | AtSocket | AtPton | AtBind | AtListen | AtStore
  | AtWhile | AtAccept | AtFailed (errno : Z) | AtSpawn (client_fd : Z) (ip : string)
  | Returned                              (* [run] has returned *)
  | Threw (e : exn)                       (* [run] has thrown *)
  | Destroying (s : StopPc) (r : result unit)   (* in the destructor, after [r] *)
  | Destroyed (r : result unit)           (* leaving the block of [main] *)
  | Exited (code : Z) (err : string).     (* with what is written to [std::cerr] *)

(** A connection thread: the handler is still to be called, or has been. *)
Inductive ClientPc := Serving | Replying | Ended.

Record Client := { cl_fd : Z; cl_ip : string; cl_pc : ClientPc }.

(** ** The state *)

(** The members of the server object that change, and whether it exists. *)
Record Server := { running : bool; server_fd : Z; alive : bool }.

Record Process := {
  p_server : Server;
  p_kernel : Kernel;
  p_main : MainPc;
  p_registered : bool;          (* [g_server] is not null *)
  p_stops : list StopPc;        (* the calls of [stop] by the signal handler *)
  p_clients : list Client;      (* the connection threads, in order *)
  p_socket : option Z;          (* what [socket] returned *)
  p_undefined : bool;           (* a destroyed object was used *)
  p_log : list LogEvent;
}.

Definition set_server (x : Server) (p : Process) : Process :=
  {| p_server := x; p_kernel := p_kernel p; p_main := p_main p; p_registered := p_registered p;
     p_stops := p_stops p; p_clients := p_clients p; p_socket := p_socket p;
     p_undefined := p_undefined p; p_log := p_log p |}.
Definition set_kernel (x : Kernel) (p : Process) : Process :=
  {| p_server := p_server p; p_kernel := x; p_main := p_main p; p_registered := p_registered p;
     p_stops := p_stops p; p_clients := p_clients p; p_socket := p_socket p;
     p_undefined := p_undefined p; p_log := p_log p |}.
Definition set_main (x : MainPc) (p : Process) : Process :=
  {| p_server := p_server p; p_kernel := p_kernel p; p_main := x; p_registered := p_registered p;
     p_stops := p_stops p; p_clients := p_clients p; p_socket := p_socket p;
     p_undefined := p_undefined p; p_log := p_log p |}.
Definition set_registered (x : bool) (p : Process) : Process :=
  {| p_server := p_server p; p_kernel := p_kernel p; p_main := p_main p; p_registered := x;
     p_stops := p_stops p; p_clients := p_clients p; p_socket := p_socket p;
     p_undefined := p_undefined p; p_log := p_log p |}.
Definition set_stops (x : list StopPc) (p : Process) : Process :=
  {| p_server := p_server p; p_kernel := p_kernel p; p_main := p_main p;
     p_registered := p_registered p; p_stops := x; p_clients := p_clients p; p_socket := p_socket p;
     p_undefined := p_undefined p; p_log := p_log p |}.
Definition set_clients (x : list Client) (p : Process) : Process :=
  {| p_server := p_server p; p_kernel := p_kernel p; p_main := p_main p;
     p_registered := p_registered p; p_stops := p_stops p; p_clients := x; p_socket := p_socket p;
     p_undefined := p_undefined p; p_log := p_log p |}.
Definition set_socket (x : option Z) (p : Process) : Process :=
  {| p_server := p_server p; p_kernel := p_kernel p; p_main := p_main p;
     p_registered := p_registered p; p_stops := p_stops p; p_clients := p_clients p; p_socket := x;
     p_undefined := p_undefined p; p_log := p_log p |}.
Definition log (level event details : string) (p : Process) : Process :=
  {| p_server := p_server p; p_kernel := p_kernel p; p_main := p_main p;
     p_registered := p_registered p; p_stops := p_stops p; p_clients := p_clients p;
     p_socket := p_socket p; p_undefined := p_undefined p;
     p_log := p_log p ++ [{| ev_level := level; ev_event := event; ev_details := details |}] |}.
(** An access to an object that has to exist. *)
Definition touch (p : Process) : Process :=
  {| p_server := p_server p; p_kernel := p_kernel p; p_main := p_main p;
     p_registered := p_registered p; p_stops := p_stops p; p_clients := p_clients p;
     p_socket := p_socket p; p_undefined := p_undefined p || negb (alive (p_server p));
     p_log := p_log p |}.

Definition set_running (x : bool) (p : Process) : Process :=
  set_server {| running := x; server_fd := server_fd (p_server p); alive := alive (p_server p) |} p.
Definition set_fd (x : Z) (p : Process) : Process :=
  set_server {| running := running (p_server p); server_fd := x; alive := alive (p_server p) |} p.
Definition destroy (p : Process) : Process :=
  set_server {| running := running (p_server p); server_fd := server_fd (p_server p); alive := false |} p.

(** A system call on the kernel. *)
Definition sys (f : Kernel -> Kernel) (p : Process) : Process := set_kernel (f (p_kernel p)) p.

(** After the constructor and [g_server = &server]. *)
Definition Process_new (open : gset Z) : Process :=
  {| p_server := {| running := false; server_fd := -1; alive := true |};
     p_kernel := {| k_open := open; k_accepting := ∅; k_waits := ∅; k_bad_close := false |};
     p_main := AtSocket; p_registered := true; p_stops := []; p_clients := []; p_socket := None;
     p_undefined := false; p_log := [] |}.

(** ** The steps *)

(** [stop]: the members it reads, the calls it makes, and where it is then. *)
Definition stop_step (pc : StopPc) (p : Process) : Process * StopPc :=
  let fd := server_fd (p_server p) in
  match pc with
  | AtExchange => (set_running false p, if running (p_server p) then AtCheck else Stopped)
  | AtCheck => (p, if 0 <=? fd then AtShutdown else Stopped)
  | AtShutdown => (sys (k_shutdown fd) p, AtClose)
  | AtClose => (sys (k_close fd) p, AtReset)
  | AtReset => (set_fd (-1) p, Stopped)
  | Stopped => (p, Stopped)
  end.

Section run.
Context (strerror : Z -> string) (bind_address : string) (port : Z).

(** [close(server_fd_); server_fd_ = -1; throw] *)
Definition fail_setup (e : exn) (p : Process) : Process :=
  set_main (Threw e) (set_fd (-1) (sys (k_close (server_fd (p_server p))) p)).

(** One step of the main thread, given what the system call it makes answers. *)
Definition main_step (a : SysAnswer) (p : Process) : Process :=
  let fd := server_fd (p_server p) in
  match p_main p with
  | AtSocket =>
      let p := set_fd (sys_rc a) p in
      if sys_rc a <? 0
      then set_main (Threw (RuntimeError ("socket() failed: " +:+ strerror (sys_errno a)))) p
      else set_main AtPton (set_socket (Some (sys_rc a)) (sys (k_add (sys_rc a)) p))
  | AtPton =>
      if negb (sys_rc a =? 1) then fail_setup (RuntimeError ("invalid bind address: " +:+ bind_address)) p
      else set_main AtBind p
  | AtBind =>
      if sys_rc a <? 0 then fail_setup (RuntimeError ("bind() failed: " +:+ strerror (sys_errno a))) p
      else set_main AtListen p
  | AtListen =>
      if sys_rc a <? 0 then fail_setup (RuntimeError ("listen() failed: " +:+ strerror (sys_errno a))) p
      else set_main AtStore (sys (k_listen fd) p)
  | AtStore =>
      set_main AtWhile (log "INFO" "http_server_started" (bind_address +:+ ":" +:+ to_string port)
        (set_running true p))
  | AtWhile => set_main (if running (p_server p) then AtAccept else Returned) p
  | AtAccept =>
      if sys_rc a <? 0 then set_main (AtFailed (sys_errno a)) p
      else set_main (AtSpawn (sys_rc a) (default "unknown" (sys_ip a))) (sys (k_add (sys_rc a)) p)
  | AtFailed errno =>
      if negb (running (p_server p)) then set_main Returned p
      else if errno =? EINTR then set_main AtWhile p
      else set_main AtWhile (log "ERROR" "accept_failed" (strerror errno) p)
  | AtSpawn client_fd ip =>
      if negb (sys_rc a =? 0) then set_main (Threw (RuntimeError (strerror (sys_errno a)))) p
      else set_main AtWhile
        (set_clients (p_clients p ++ [{| cl_fd := client_fd; cl_ip := ip; cl_pc := Serving |}]) p)
  | Returned => set_main (Destroying AtExchange (Ok tt)) (set_registered false p)
  | Threw e => set_main (Destroying AtExchange (Throw e)) p
  | Destroying Stopped r => set_main (Destroyed r) (destroy p)
  | Destroyed (Ok _) => set_main (Exited 0 "") p
  | Destroyed (Throw e) => set_main (Exited 1 ("fatal: " +:+ exn_what e +:+ String "010" "")) p
  | Destroying pc r => let '(p', pc') := stop_step pc p in set_main (Destroying pc' r) p'
  | Exited _ _ => p
  end.

(** The [i]-th call of [stop] by the signal handler. *)
Definition signal_step (i : nat) (p : Process) : Process :=
  match p_stops p !! i with
  | Some Stopped | None => p
  | Some pc => let '(p', pc') := stop_step pc (touch p) in set_stops (<[i := pc']> (p_stops p')) p'
  end.

(** [handle_signal] *)
Definition handle_signal (p : Process) : Process :=
  if p_registered p then set_stops (p_stops p ++ [AtExchange]) p else p.

(** The [i]-th connection thread: calling the handler, which is a member of the
    server, and then answering and closing the connection. *)
Definition client_step (i : nat) (p : Process) : Process :=
  match p_clients p !! i with
  | Some {| cl_fd := fd; cl_ip := ip; cl_pc := Serving |} =>
      set_clients (<[i := {| cl_fd := fd; cl_ip := ip; cl_pc := Replying |}]> (p_clients p)) (touch p)
  | Some {| cl_fd := fd; cl_ip := ip; cl_pc := Replying |} =>
      set_clients (<[i := {| cl_fd := fd; cl_ip := ip; cl_pc := Ended |}]> (p_clients p))
        (sys (k_close fd) p)
  | _ => p
  end.

(** ** Schedules *)

(** A turn of the main thread in which it makes a step, given the answer of the
    system call, or in which it goes on waiting in [accept]; a signal; a turn of a
    call of [stop], and of a connection thread. *)
Inductive Action :=
  ActMain (a : SysAnswer) | ActWait | ActSignal | ActStop (i : nat) | ActClient (i : nat).

Definition act (x : Action) (p : Process) : Process :=
  match x with
  | ActMain a => main_step a p
  | ActWait => p
  | ActSignal => handle_signal p
  | ActStop i => signal_step i p
  | ActClient i => client_step i p
  end.

(** What POSIX promises of the answers: a call that fails returns -1, a new
    descriptor is not one that is open, and [accept] gives a connection only on
    a descriptor that listens. *)
Definition answers (a : SysAnswer) (p : Process) : bool :=
  let fresh := (sys_rc a =? -1) || ((0 <=? sys_rc a) && bool_decide (sys_rc a ∉ k_open (p_kernel p))) in
  match p_main p with
  | AtSocket => fresh
  | AtAccept => fresh && ((sys_rc a <? 0) || bool_decide (server_fd (p_server p) ∈ k_accepting (p_kernel p)))
  | _ => true
  end.

(** The other threads end with the process. *)
Definition has_exited (p : Process) : bool :=
  match p_main p with Exited _ _ => true | _ => false end.

(** [accept] may go on waiting while the socket has not been shut down. *)
Definition may_wait (p : Process) : bool :=
  match p_main p, p_socket p with
  | AtAccept, Some f => bool_decide (f ∈ k_waits (p_kernel p))
  | _, _ => false
  end.

Definition allowed (x : Action) (p : Process) : bool :=
  match x with
  | ActMain a => answers a p
  | ActWait => may_wait p
  | _ => negb (has_exited p)
  end.

Inductive step (p : Process) : Process -> Prop :=
  | step_act x : allowed x p = true -> step p (act x p).

(** Running a schedule; [None] if it asks for something that cannot happen. *)
Fixpoint execute (acts : list Action) (p : Process) : option Process :=
  match acts with
  | [] => Some p
  | x :: acts' => if allowed x p then execute acts' (act x p) else None
  end.
End run.
