(* ===== verification/ListenerProofs.v ===== *)
(** * The invariant of the listening socket

    Who owns the socket in every reachable state of the process: [run] while it
    sets the socket up, the running server, the one call of [stop] that found it
    running, or nobody once it is closed. *)

From S2P Require Import Prelude CppStd Common Listener.
From stdpp Require Import relations.

#[local] Open Scope Z_scope.

(** ** Ownership *)

(** A call of [stop] that does not own the socket. *)
Definition idle (pc : StopPc) : Prop := pc = AtExchange \/ pc = Stopped.

(** What holds of the socket [f] when [stop] is at [pc]. *)
Definition owned_at (pc : StopPc) (f : Z) (k : Kernel) : Prop :=
  match pc with
  | AtCheck | AtShutdown => f ∈ k_open k /\ k_accepting k = {[ f ]}
  | AtClose => f ∈ k_open k /\ k_accepting k = ∅
  | AtReset => (f ∉ k_open k) /\ k_accepting k = ∅
  | _ => False
  end.

(** The owner of the socket, given all calls of [stop]; [setup] says whether
    [run] is setting it up. *)
Inductive owner (sv : Server) (k : Kernel) (F : option Z) (L : list StopPc) : bool -> Prop :=
  | owner_run f :
      F = Some f -> 0 <= f -> server_fd sv = f -> f ∈ k_open k -> k_accepting k ⊆ {[ f ]} ->
      running sv = false -> Forall idle L -> owner sv k F L true
  | owner_server f :
      F = Some f -> 0 <= f -> server_fd sv = f -> f ∈ k_open k -> k_accepting k = {[ f ]} ->
      running sv = true -> Forall idle L -> owner sv k F L false
  | owner_stop f j pc :
      F = Some f -> 0 <= f -> server_fd sv = f -> owned_at pc f k -> running sv = false ->
      L !! j = Some pc -> (forall i x, i <> j -> L !! i = Some x -> idle x) -> owner sv k F L false
  | owner_none :
      server_fd sv = -1 -> k_accepting k = ∅ -> running sv = false -> Forall idle L ->
      (forall f, F = Some f -> f ∉ k_open k) -> owner sv k F L false.

(** A call of [stop] takes one step: only the owner closes, and only once. *)
Lemma Forall_idle_insert L j pc : Forall idle L -> idle pc -> Forall idle (<[j := pc]> L).
Proof. intros. by apply Forall_insert. Qed.

Lemma idle_insert_other L (j i : nat) pc x :
  Forall idle L -> i <> j -> <[j := pc]> L !! i = Some x -> idle x.
Proof.
  intros HL Hne Hi. rewrite list_lookup_insert_ne in Hi by done. by eapply Forall_lookup_1.
Qed.

Lemma idle_rest (L : list StopPc) j pc :
  (forall i x, i <> j -> L !! i = Some x -> idle x) -> idle pc -> Forall idle (<[j := pc]> L).
Proof.
  intros HL Hpc. apply Forall_lookup_2. intros i x Hi.
  destruct (decide (i = j)) as [->|Hne].
  - apply list_lookup_insert_Some in Hi. naive_solver.
  - rewrite list_lookup_insert_ne in Hi by done. by eapply HL.
Qed.

Create HintDb listener.
#[local] Hint Resolve Forall_idle_insert idle_rest : listener.
#[local] Hint Extern 1 (idle _) => (by left) || (by right) : listener.

(** What a step of [stop] leaves alone, and what it does to ownership. *)
Definition same_but_socket (p p' : Process) : Prop :=
  p_main p' = p_main p /\ p_registered p' = p_registered p /\ p_stops p' = p_stops p /\
  p_clients p' = p_clients p /\ p_socket p' = p_socket p /\ p_undefined p' = p_undefined p /\
  p_log p' = p_log p /\ alive (p_server p') = alive (p_server p).

Lemma stop_step_same pc p : same_but_socket p (stop_step pc p).1.
Proof. destruct pc; done. Qed.

Lemma stop_step_owner pc p p' pc' L j b :
  owner (p_server p) (p_kernel p) (p_socket p) L b -> L !! j = Some pc ->
  stop_step pc p = (p', pc') ->
  owner (p_server p') (p_kernel p') (p_socket p) (<[j := pc']> L) b /\
  k_bad_close (p_kernel p') = k_bad_close (p_kernel p) /\
  (forall x, p_socket p <> Some x -> x ∈ k_open (p_kernel p) -> x ∈ k_open (p_kernel p')).
Proof.
  intros Ho Hj E. pose proof (lookup_lt_Some _ _ _ Hj) as Hlt.
  destruct Ho as [f HF Hf Hfd Hop Hac Hr HL|f HF Hf Hfd Hop Hac Hr HL
                 |f j0 pc0 HF Hf Hfd Hown Hr Hj0 Hrest|Hfd Hac Hr HL HF].
  - destruct (Forall_lookup_1 _ _ _ _ HL Hj) as [-> | ->]; simpl in E.
    + rewrite Hr in E. injection E as <- <-. split; [|done].
      eapply owner_run; simpl; eauto with listener.
    + injection E as <- <-. split; [|done]. eapply owner_run; eauto with listener.
  - destruct (Forall_lookup_1 _ _ _ _ HL Hj) as [-> | ->]; simpl in E.
    + rewrite Hr in E. injection E as <- <-. split; [|done].
      eapply (owner_stop _ _ _ _ f j AtCheck); simpl; try done.
      * by rewrite list_lookup_insert_eq.
      * intros. by eapply idle_insert_other.
    + injection E as <- <-. split; [|done]. eapply owner_server; eauto with listener.
  - destruct (decide (j = j0)) as [->|Hne].
    + rewrite Hj in Hj0. injection Hj0 as <-.
      assert (Hnext : forall q pc2, server_fd (p_server q) = f -> owned_at pc2 f (p_kernel q) ->
        running (p_server q) = false ->
        owner (p_server q) (p_kernel q) (p_socket p) (<[j0 := pc2]> L) false).
      { intros q pc2 H1 H2 H3. eapply (owner_stop _ _ _ _ f j0 pc2); try done.
        - by rewrite list_lookup_insert_eq.
        - intros i x Hi Hx. rewrite list_lookup_insert_ne in Hx by done. by eapply Hrest. }
      destruct pc; simpl in Hown, E; try done; rewrite ?Hfd in E.
      * rewrite (proj2 (Z.leb_le _ _) Hf) in E. injection E as <- <-. split; [by apply Hnext|done].
      * injection E as <- <-. split; [|done]. apply Hnext; [done| |done]. simpl. set_solver.
      * injection E as <- <-. split; [apply Hnext; [done| |done]; simpl; set_solver|].
        simpl. rewrite bool_decide_eq_false_2 by tauto. split; [by rewrite orb_false_r|set_solver].
      * injection E as <- <-. split; [|done]. eapply owner_none; simpl; try tauto; eauto with listener.
        rewrite HF. intros f' [= <-]. tauto.
    + destruct (Hrest j pc) as [-> | ->]; [done|done|..]; simpl in E.
      * rewrite Hr in E. injection E as <- <-. split; [|done].
        eapply (owner_stop _ _ _ _ f j0 pc0); simpl; try done.
        -- by rewrite list_lookup_insert_ne.
        -- intros i x Hi Hx. apply list_lookup_insert_Some in Hx as [(-> & <- & _)|[_ Hx]]; [by right|by eapply Hrest].
      * injection E as <- <-. split; [|done].
        eapply (owner_stop _ _ _ _ f j0 pc0); try done.
        -- by rewrite list_lookup_insert_ne.
        -- intros i x Hi Hx. apply list_lookup_insert_Some in Hx as [(-> & <- & _)|[_ Hx]]; [by right|by eapply Hrest].
  - destruct (Forall_lookup_1 _ _ _ _ HL Hj) as [-> | ->]; simpl in E.
    + rewrite Hr in E. injection E as <- <-. split; [|done]. eapply owner_none; simpl; eauto with listener.
    + injection E as <- <-. split; [|done]. eapply owner_none; eauto with listener.
Qed.

(** ** The whole state *)

Definition main_stop (pc : MainPc) : list StopPc :=
  match pc with Destroying s _ => [s] | _ => [] end.

(** All calls of [stop], the destructor's last. *)
Definition all_stops (p : Process) : list StopPc := p_stops p ++ main_stop (p_main p).

Definition is_setup (pc : MainPc) : bool :=
  match pc with AtPton | AtBind | AtListen | AtStore => true | _ => false end.

(** The destructor has asked for the stop. *)
Definition past_exchange (pc : MainPc) : bool :=
  match pc with
  | Destroying AtExchange _ => false
  | Destroying _ _ | Destroyed _ | Exited _ _ => true
  | _ => false
  end.

(** The descriptors of connections that are still to be closed. *)
Definition live_fds (l : list Client) : list Z :=
  omap (fun c => match cl_pc c with Ended => None | _ => Some (cl_fd c) end) l.

Definition open_clients (p : Process) : list Z :=
  live_fds (p_clients p) ++ match p_main p with AtSpawn fd _ => [fd] | _ => [] end.

Record inv (p : Process) : Prop := {
  i_owner : owner (p_server p) (p_kernel p) (p_socket p) (all_stops p) (is_setup (p_main p));
  i_fresh : p_main p = AtSocket -> p_socket p = None;
  i_store : p_main p = AtStore -> k_accepting (p_kernel p) = {[ server_fd (p_server p) ]};
  i_past : past_exchange (p_main p) = true -> running (p_server p) = false;
  i_bad : k_bad_close (p_kernel p) = false;
  i_NoDup : NoDup (open_clients p);
  i_clients : Forall (fun x => x ∈ k_open (p_kernel p) /\ p_socket p <> Some x) (open_clients p);
  i_early : p_main p = AtSocket \/ is_setup (p_main p) = true -> p_clients p = [];
}.

(** Steps of [stop], in the signal handler and in the destructor. *)
Lemma stop_running pc p : running (p_server (stop_step pc p).1) = true -> running (p_server p) = true.
Proof. by destruct pc. Qed.

Lemma exchange_running p : running (p_server (stop_step AtExchange p).1) = false.
Proof. done. Qed.

Lemma stop_fd pc p : running (p_server p) = false -> idle pc ->
  p_server (stop_step pc p).1 = p_server p /\ p_kernel (stop_step pc p).1 = p_kernel p.
Proof. intros Hr [-> | ->]; [|done]. simpl. split; [|done]. destruct (p_server p). simpl in *. by subst. Qed.

(** A call of [stop] that owns nothing may come or go. *)
Lemma owner_add sv k F L1 x L2 b :
  idle x -> owner sv k F (L1 ++ L2) b -> owner sv k F (L1 ++ x :: L2) b.
Proof.
  intros Hx Ho.
  assert (HL : Forall idle (L1 ++ L2) -> Forall idle (L1 ++ x :: L2)).
  { rewrite !Forall_app, Forall_cons. tauto. }
  destruct Ho as [f|f|f j pc HF Hf Hfd Hown Hr Hj Hrest|]; [econstructor; eauto..| |].
  - destruct (decide (j < length L1)%nat) as [Hlt|Hge].
    + eapply (owner_stop _ _ _ _ f j pc); try done; [by rewrite lookup_app_l in Hj |- * by done|].
      intros i y Hi Hy. destruct (decide (i < length L1)%nat).
      * apply (Hrest i); [done|]. by rewrite lookup_app_l in Hy |- * by done.
      * rewrite lookup_app_r in Hy by lia. destruct (i - length L1)%nat as [|m] eqn:E; [by injection Hy as <-|].
        apply (Hrest (i - 1)%nat); [lia|]. rewrite lookup_app_r by lia.
        by replace (i - 1 - length L1)%nat with m by lia.
    + eapply (owner_stop _ _ _ _ f (S j) pc); try done.
      { rewrite lookup_app_r in Hj |- * by lia. by replace (S j - length L1)%nat with (S (j - length L1)) by lia. }
      intros i y Hi Hy. destruct (decide (i < length L1)%nat).
      * apply (Hrest i); [lia|]. by rewrite lookup_app_l in Hy |- * by done.
      * rewrite lookup_app_r in Hy by lia. destruct (i - length L1)%nat as [|m] eqn:E; [by injection Hy as <-|].
        apply (Hrest (i - 1)%nat); [lia|]. rewrite lookup_app_r by lia.
        by replace (i - 1 - length L1)%nat with m by lia.
  - eapply owner_none; eauto.
Qed.

Lemma owned_not_idle pc f k : owned_at pc f k -> idle pc -> False.
Proof. by intros H [-> | ->]. Qed.

Lemma owner_drop sv k F L x b : idle x -> owner sv k F (L ++ [x]) b -> owner sv k F L b.
Proof.
  intros Hx Ho.
  assert (HL : Forall idle (L ++ [x]) -> Forall idle L) by (rewrite Forall_app; tauto).
  destruct Ho as [f|f|f j pc HF Hf Hfd Hown Hr Hj Hrest|]; [econstructor; eauto..| |].
  - apply lookup_snoc_Some in Hj as [[Hlt Hj]|[-> <-]]; [|by destruct (owned_not_idle _ _ _ Hown Hx)].
    eapply (owner_stop _ _ _ _ f j pc); try done.
    intros i y Hi Hy. apply (Hrest i); [done|]. by apply lookup_app_l_Some.
  - eapply owner_none; eauto.
Qed.

(** ** The invariant is kept *)

Lemma inv_new open : inv (Process_new open).
Proof.
  split; simpl; try done.
  - by eapply owner_none; simpl; try done.
  - constructor.
Qed.

Lemma clients_kept p p' :
  p_clients p' = p_clients p -> p_main p' = p_main p -> p_socket p' = p_socket p ->
  (forall x, p_socket p <> Some x -> x ∈ k_open (p_kernel p) -> x ∈ k_open (p_kernel p')) ->
  Forall (fun x => x ∈ k_open (p_kernel p) /\ p_socket p <> Some x) (open_clients p) ->
  Forall (fun x => x ∈ k_open (p_kernel p') /\ p_socket p' <> Some x) (open_clients p').
Proof.
  intros Hc Hm Hs Hk. unfold open_clients. rewrite Hc, Hm, Hs. intros HF.
  eapply Forall_impl; [exact HF|]. naive_solver.
Qed.

(** In the set-up a stop finds nothing running and changes nothing. *)
Lemma setup_stop_idle p L j pc :
  owner (p_server p) (p_kernel p) (p_socket p) L true -> L !! j = Some pc ->
  p_server (stop_step pc p).1 = p_server p /\ p_kernel (stop_step pc p).1 = p_kernel p.
Proof. inversion 1; subst. intros Hj. apply stop_fd; [done|]. by eapply Forall_lookup_1. Qed.

Lemma inv_signal_step i p : inv p -> inv (signal_step i p).
Proof.
  intros Hi. unfold signal_step. destruct (p_stops p !! i) as [pc|] eqn:E; [|done].
  destruct (decide (pc = Stopped)) as [->|Hne]; [done|].
  destruct (stop_step pc (touch p)) as [p' pc'] eqn:Es.
  replace (match pc with Stopped => p | _ => set_stops (<[i:=pc']> (p_stops p')) p' end)
    with (set_stops (<[i:=pc']> (p_stops p')) p') by (by destruct pc).
  pose proof (stop_step_same pc (touch p)) as Hsame. rewrite Es in Hsame.
  destruct Hsame as (H1 & H2 & H3 & H4 & H5 & H6 & H7 & H8). simpl in *.
  assert (Hj : all_stops p !! i = Some pc) by (by apply lookup_app_l_Some).
  destruct (stop_step_owner pc (touch p) p' pc' (all_stops p) i _ (i_owner _ Hi) Hj Es) as (Ho & Hb & Hk).
  simpl in *. split; simpl.
  - unfold all_stops in *. simpl. rewrite H1, H3, H5. rewrite insert_app_l in Ho; [done|].
    by eapply lookup_lt_Some.
  - rewrite H1, H5. apply Hi.
  - rewrite H1. intros Hm. pose proof (i_owner _ Hi) as Ho2. rewrite Hm in Ho2.
    destruct (setup_stop_idle (touch p) _ i pc Ho2 Hj) as [Q1 Q2]. rewrite Es in Q1, Q2. simpl in *.
    rewrite Q1, Q2. by apply Hi.
  - rewrite H1. intros Hp. pose proof (i_past _ Hi Hp) as Hr. pose proof (stop_running pc (touch p)) as Hx.
    rewrite Es in Hx. simpl in Hx. destruct (running (p_server p')); [|done]. rewrite Hr in Hx. naive_solver.
  - rewrite Hb. apply Hi.
  - unfold open_clients. simpl. rewrite H1, H4. apply Hi.
  - apply (clients_kept p (set_stops _ p')); try done. apply Hi.
  - rewrite H1, H4. apply Hi.
Qed.

Lemma inv_handle_signal p : inv p -> inv (handle_signal p).
Proof.
  intros Hi. unfold handle_signal. destruct (p_registered p); [|done].
  destruct Hi as [H1 H2 H3 H4 H5 H6 H7 H8]. split; try done. simpl.
  unfold all_stops in *. simpl. rewrite <- app_assoc. apply owner_add; [by left|done].
Qed.

(** A thread ends: one connection less to be closed. *)
Lemma live_insert l i c c' :
  l !! i = Some c -> cl_fd c' = cl_fd c -> cl_pc c <> Ended ->
  live_fds (<[i := c']> l) =
    match cl_pc c' with Ended => live_fds (delete i l) | _ => live_fds l end /\
  live_fds l ≡ₚ cl_fd c :: live_fds (delete i l).
Proof.
  intros Hi Hf Hp.
  assert (Hmid : live_fds l = live_fds (take i l) ++ cl_fd c :: live_fds (drop (S i) l)).
  { rewrite <- (take_drop_middle l i c Hi) at 1. unfold live_fds. rewrite omap_app.
    cbn [omap list_omap]. by destruct (cl_pc c). }
  rewrite (insert_take_drop l i c') by (by eapply lookup_lt_Some). rewrite delete_take_drop, Hmid.
  unfold live_fds. rewrite !omap_app. cbn [omap list_omap]. rewrite Hf.
  split; [by destruct (cl_pc c')|]. symmetry. apply Permutation_middle.
Qed.

Lemma inv_client_step i p : inv p -> inv (client_step i p).
Proof.
  intros Hi. unfold client_step. destruct (p_clients p !! i) as [[fd ip pc]|] eqn:E; [|done].
  destruct Hi as [H1 H2 H3 H4 H5 H6 H7 H8]. destruct pc; [| |done].
  - destruct (live_insert _ _ _ {| cl_fd := fd; cl_ip := ip; cl_pc := Replying |} E) as [Hl _]; [done|done|].
    simpl in Hl. unfold open_clients in *.
    split; simpl; try done; unfold open_clients; simpl.
    + by rewrite Hl.
    + by rewrite Hl.
    + intros Hm. rewrite (H8 Hm) in E. done.
  - destruct (live_insert _ _ _ {| cl_fd := fd; cl_ip := ip; cl_pc := Ended |} E) as [Hl Hp]; [done|done|].
    simpl in Hl, Hp. unfold open_clients in *.
    rewrite Hp in H6, H7. simpl in H6, H7. apply NoDup_cons in H6 as [Hn H6]. apply Forall_cons in H7 as [[Hop Hns] H7].
    split; simpl; try done; unfold open_clients; simpl.
    + destruct H1 as [f|f|f j pc HF Hf Hfd Hown Hr Hj Hrest|Hfd Hac Hr HL HF]; subst.
      * eapply owner_run; simpl; eauto; set_solver.
      * eapply owner_server; simpl; eauto; set_solver.
      * eapply owner_stop; simpl; eauto. destruct pc; simpl in *; set_solver.
      * eapply owner_none; simpl; eauto; set_solver.
    + intros Hm. pose proof (H3 Hm) as Ha. rewrite Hm in H1. inversion H1; subst. set_solver.
    + rewrite H5. simpl. by rewrite bool_decide_eq_false_2 by tauto.
    + by rewrite Hl.
    + rewrite Hl.
      apply Forall_forall. intros x Hx. pose proof (proj1 (Forall_forall _ _) H7 x Hx) as [? ?].
      split; [|done]. assert (x <> fd) by (intros ->; done). set_solver.
    + intros Hm. rewrite (H8 Hm) in E. done.
Qed.

(** The main thread moves on without touching the socket. *)
Definition not_spawning (pc : MainPc) : Prop := match pc with AtSpawn _ _ => False | _ => True end.

Lemma inv_set_main pc p :
  inv p -> main_stop pc = main_stop (p_main p) -> is_setup pc = is_setup (p_main p) ->
  pc <> AtSocket -> pc <> AtStore -> not_spawning pc ->
  (past_exchange pc = true -> running (p_server p) = false) -> inv (set_main pc p).
Proof.
  intros [H1 H2 H3 H4 H5 H6 H7 H8] Hs Hsu Hn1 Hn2 Hsp Hp.
  assert (Hop : open_clients (set_main pc p) = live_fds (p_clients p)).
  { unfold open_clients. simpl. by destruct pc; rewrite ?app_nil_r. }
  unfold open_clients in H6, H7. apply NoDup_app in H6 as [H6 _]. apply Forall_app in H7 as [H7 _].
  split; try done.
  - unfold all_stops in *. simpl. by rewrite Hs, Hsu.
  - by rewrite Hop.
  - by rewrite Hop.
  - intros [?|Hb]; [done|]. apply H8. right. by rewrite <- Hsu.
Qed.

Lemma inv_log a b c p : inv p -> inv (log a b c p).
Proof. by intros []. Qed.

(** A failure of the set-up closes the socket. *)
Lemma inv_fail_setup e p : inv p -> is_setup (p_main p) = true -> inv (fail_setup e p).
Proof.
  intros [H1 H2 H3 H4 H5 H6 H7 H8] Hs. rewrite Hs in H1.
  inversion H1 as [f HF Hf Hfd Hop Hac Hr HL| | |]; subst f.
  assert (Hm : main_stop (p_main p) = []) by (by destruct (p_main p)).
  specialize (H8 (or_intror Hs)).
  split; simpl; try done.
  - unfold all_stops in *. simpl. rewrite Hm in HL. eapply owner_none; simpl; try done; [set_solver|].
    rewrite HF. intros f [= <-]. set_solver.
  - rewrite H5. simpl. by rewrite bool_decide_eq_false_2 by tauto.
  - unfold open_clients. simpl. rewrite H8. constructor.
  - unfold open_clients. simpl. rewrite H8. constructor.
Qed.

Lemma inv_socket (strerror : Z -> string) bind port a p :
  inv p -> p_main p = AtSocket -> answers a p = true -> inv (main_step strerror bind port a p).
Proof.
  intros Hi Hm Ha. unfold answers in Ha. unfold main_step. rewrite Hm in *. simpl in Ha.
  pose proof (i_owner _ Hi) as Ho. rewrite Hm in Ho. pose proof (i_fresh _ Hi Hm) as HF. rewrite HF in Ho.
  unfold all_stops in Ho. rewrite Hm, app_nil_r in Ho. simpl in Ho.
  inversion Ho as [|f|f|Hfd Hac Hr HL _]; try done.
  pose proof (i_early _ Hi (or_introl Hm)) as Hc.
  destruct (sys_rc a <? 0) eqn:Erc.
  - assert (Hrc : sys_rc a = -1) by lia. rewrite Hrc.
    split; simpl; try done; unfold all_stops, open_clients; simpl.
    + rewrite app_nil_r. eapply owner_none; simpl; try done. by rewrite HF.
    + apply Hi.
    + rewrite Hc. constructor.
    + rewrite Hc. constructor.
  - assert (Hfresh : 0 <= sys_rc a /\ sys_rc a ∉ k_open (p_kernel p)).
    { destruct (sys_rc a =? -1) eqn:E1; [lia|]. simpl in Ha. apply andb_true_iff in Ha as [A1 A2].
      apply bool_decide_eq_true in A2. split; [lia|done]. }
    split; simpl; try done; unfold all_stops, open_clients; simpl.
    + rewrite app_nil_r. eapply (owner_run _ _ _ _ (sys_rc a)); simpl; try done; set_solver.
    + apply Hi.
    + rewrite Hc. constructor.
    + rewrite Hc. constructor.
Qed.

Lemma inv_listen p :
  inv p -> p_main p = AtListen ->
  inv (set_main AtStore (sys (k_listen (server_fd (p_server p))) p)).
Proof.
  intros [H1 H2 H3 H4 H5 H6 H7 H8] Hm. rewrite Hm in H1. inversion H1 as [f HF Hf Hfd Hop Hac Hr HL| | |]; subst f.
  unfold all_stops, open_clients in *. rewrite Hm in *. specialize (H8 (or_intror eq_refl)).
  split; simpl; try done; unfold all_stops, open_clients; simpl.
  - eapply owner_run; simpl; eauto. set_solver.
  - set_solver.
Qed.

Lemma inv_store b p :
  inv p -> p_main p = AtStore -> inv (set_main AtWhile (log "INFO" "http_server_started" b (set_running true p))).
Proof.
  intros [H1 H2 H3 H4 H5 H6 H7 H8] Hm. specialize (H3 Hm).
  rewrite Hm in H1. inversion H1 as [f HF Hf Hfd Hop Hac Hr HL| | |]; subst f.
  unfold all_stops, open_clients in *. rewrite Hm in *. split; simpl; try done; unfold all_stops; simpl.
  - eapply owner_server; simpl; eauto.
  - by intros [?|?].
Qed.

(** A new connection. *)
Lemma inv_accept a p ip :
  inv p -> p_main p = AtAccept -> answers a p = true -> (sys_rc a <? 0) = false ->
  inv (set_main (AtSpawn (sys_rc a) ip) (sys (k_add (sys_rc a)) p)).
Proof.
  intros Hi Hm Ha Hrc. unfold answers in Ha. rewrite Hm, Hrc in Ha. simpl in Ha.
  apply andb_true_iff in Ha as [Hfresh Hacc%bool_decide_eq_true].
  assert (Hnew : sys_rc a ∉ k_open (p_kernel p)).
  { destruct (sys_rc a =? -1) eqn:E1; [lia|]. simpl in Hfresh.
    by apply andb_true_iff in Hfresh as [_ ?%bool_decide_eq_true]. }
  destruct Hi as [H1 H2 H3 H4 H5 H6 H7 H8].
  assert (HF : exists f, p_socket p = Some f /\ f ∈ k_open (p_kernel p)).
  { rewrite Hm in H1. inversion H1 as [|f|f j pc HF Hf Hfd Hown|Hfd Hac]; subst.
    - eauto.
    - destruct pc; simpl in Hown; try done; destruct Hown as [? Hac]; try by eauto.
      rewrite Hac in Hacc. set_solver.
    - rewrite Hac in Hacc. set_solver. }
  destruct HF as (f & HF & Hf).
  unfold all_stops, open_clients in *. rewrite Hm in *. simpl in *. rewrite app_nil_r in H6, H7.
  split; simpl; try done; unfold all_stops, open_clients; simpl.
  - rewrite app_nil_r in *. inversion H1 as [|? HF2 ? ? Hop|? j pc HF2 ? ? Hown|Hfd Hac Hr HL Hcl]; subst.
    + eapply owner_server; simpl; eauto; set_solver.
    + eapply owner_stop; simpl; eauto. destruct pc; simpl in *; set_solver.
    + naive_solver.
  - apply NoDup_app. split_and!; [done| |apply NoDup_singleton].
    intros x Hx Heq. apply list_elem_of_singleton in Heq as ->.
    pose proof (proj1 (Forall_forall _ _) H7 _ Hx) as [? _]. done.
  - apply Forall_app. split; [|apply Forall_singleton; split; [set_solver|congruence]].
    eapply Forall_impl; [exact H7|]. simpl. set_solver.
  - naive_solver.
Qed.

(** A new thread takes the connection over. *)
Lemma inv_spawn fd ip p :
  inv p -> p_main p = AtSpawn fd ip ->
  inv (set_main AtWhile (set_clients (p_clients p ++ [{| cl_fd := fd; cl_ip := ip; cl_pc := Serving |}]) p)).
Proof.
  intros [H1 H2 H3 H4 H5 H6 H7 H8] Hm. unfold all_stops, open_clients in *. rewrite Hm in *. simpl in *.
  assert (E : live_fds (p_clients p ++ [{| cl_fd := fd; cl_ip := ip; cl_pc := Serving |}]) =
    live_fds (p_clients p) ++ [fd]) by (unfold live_fds; by rewrite omap_app).
  split; simpl; try done; unfold all_stops, open_clients; simpl; rewrite ?app_nil_r in *.
  - by rewrite E, ?app_nil_r.
  - by rewrite E, ?app_nil_r.
  - by intros [?|?].
Qed.

(** The destructor's call of [stop]. *)
Lemma inv_begin_destroy pc r p :
  inv p -> main_stop pc = [] -> is_setup pc = false -> p_main p = pc -> not_spawning pc ->
  inv (set_main (Destroying AtExchange r) p).
Proof.
  intros [H1 H2 H3 H4 H5 H6 H7 H8] Hs Hsu Hm Hsp. unfold all_stops, open_clients in *. rewrite Hm in *.
  rewrite Hs, Hsu in *. split; simpl; try done; unfold all_stops, open_clients; simpl.
  - apply owner_add; [by left|done].
  - rewrite app_nil_r. by destruct pc; rewrite ?app_nil_r in H6.
  - rewrite app_nil_r. by destruct pc; rewrite ?app_nil_r in H7.
  - by intros [?|?].
Qed.

Lemma inv_destroying s r p p' s' :
  inv p -> p_main p = Destroying s r -> stop_step s p = (p', s') ->
  (s = AtExchange \/ running (p_server p') = false) -> inv (set_main (Destroying s' r) p').
Proof.
  intros Hi Hm Es Hr. pose proof (stop_step_same s p) as Hsame. rewrite Es in Hsame.
  destruct Hsame as (Q1 & Q2 & Q3 & Q4 & Q5 & Q6 & Q7 & Q8). simpl in *.
  assert (Hj : all_stops p !! length (p_stops p) = Some s).
  { unfold all_stops. rewrite Hm, lookup_app_r, Nat.sub_diag by lia. done. }
  destruct (stop_step_owner s p p' s' (all_stops p) _ _ (i_owner _ Hi) Hj Es) as (Ho & Hb & Hk).
  destruct Hi as [H1 H2 H3 H4 H5 H6 H7 H8]. rewrite Hm in *. simpl in *.
  split; simpl; try done.
  - unfold all_stops in *. simpl. rewrite Q3, Q5. rewrite Hm in Ho. simpl in Ho.
    rewrite insert_app_r_alt, Nat.sub_diag in Ho by lia. done.
  - intros _. destruct Hr as [-> |?]; [|done]. simpl in Es. by injection Es as <- _.
  - by rewrite Hb.
  - unfold open_clients in *. simpl. rewrite Q4. by rewrite Hm in H6.
  - unfold open_clients in *. simpl. rewrite Q4, Q5. rewrite Hm in H7. simpl in H7.
    eapply Forall_impl; [exact H7|]. simpl. naive_solver.
  - by intros [?|?].
Qed.

Lemma inv_destroyed r p :
  inv p -> p_main p = Destroying Stopped r -> inv (set_main (Destroyed r) (destroy p)).
Proof.
  intros [H1 H2 H3 H4 H5 H6 H7 H8] Hm. unfold all_stops, open_clients in *. rewrite Hm in *.
  simpl in *. split; simpl; try done; unfold all_stops; simpl.
  - rewrite app_nil_r. apply owner_drop in H1; [|by right].
    inversion H1; subst; [eapply owner_server|eapply owner_stop|eapply owner_none]; simpl; eauto.
  - by intros [?|?].
Qed.

Section reachable.
Context (strerror : Z -> string) (bind_address : string) (port : Z).

Lemma main_step_destroying a p s r :
  p_main p = Destroying s r -> s <> Stopped ->
  main_step strerror bind_address port a p =
    (let '(p', s') := stop_step s p in set_main (Destroying s' r) p').
Proof. intros Hm Hs. unfold main_step. rewrite Hm. by destruct s. Qed.

Lemma inv_main_step a p :
  inv p -> answers a p = true -> inv (main_step strerror bind_address port a p).
Proof.
  intros Hi Ha. destruct (p_main p) as [| | | | | | |errno|fd ip| |e|s r|r|code err] eqn:Hm.
  - by apply inv_socket.
  - unfold main_step. rewrite Hm. destruct (negb _); [apply inv_fail_setup|apply inv_set_main]; by rewrite ?Hm.
  - unfold main_step. rewrite Hm. destruct (_ <? _); [apply inv_fail_setup|apply inv_set_main]; by rewrite ?Hm.
  - unfold main_step. rewrite Hm. destruct (_ <? _); [apply inv_fail_setup|apply inv_listen]; by rewrite ?Hm.
  - unfold main_step. rewrite Hm. by apply inv_store.
  - unfold main_step. rewrite Hm. apply inv_set_main; rewrite ?Hm; try done; by destruct (running _).
  - unfold main_step. rewrite Hm. destruct (_ <? _) eqn:E; [apply inv_set_main|apply inv_accept]; by rewrite ?Hm.
  - unfold main_step. rewrite Hm. destruct (negb _); [|destruct (_ =? _)];
      apply inv_set_main; try apply inv_log; by simpl; rewrite ?Hm.
  - unfold main_step. rewrite Hm. destruct (negb _); [|by apply inv_spawn].
    apply inv_set_main; by rewrite ?Hm.
  - unfold main_step. rewrite Hm. by apply (inv_begin_destroy Returned); [destruct Hi|..].
  - unfold main_step. rewrite Hm. by apply (inv_begin_destroy (Threw e)).
  - destruct (decide (s = Stopped)) as [->|Hne].
    { unfold main_step. rewrite Hm. by apply inv_destroyed. }
    rewrite (main_step_destroying a p s r) by done. destruct (stop_step s p) as [p' s'] eqn:Es.
    eapply inv_destroying; try done. destruct (decide (s = AtExchange)); [by left|right].
    pose proof (stop_running s p) as Hx. rewrite Es in Hx. simpl in Hx.
    assert (running (p_server p) = false) as Hr by (apply Hi; rewrite Hm; by destruct s).
    destruct (running (p_server p')); [|done]. rewrite Hr in Hx. naive_solver.
  - unfold main_step. rewrite Hm. pose proof (i_past _ Hi) as Hr. rewrite Hm in Hr.
    destruct r; apply inv_set_main; by rewrite ?Hm.
  - unfold main_step. by rewrite Hm.
Qed.

Lemma inv_act x p : inv p -> allowed x p = true -> inv (act strerror bind_address port x p).
Proof.
  intros Hi Ha. destruct x as [a| | |i|i]; simpl in *.
  - by apply inv_main_step.
  - done.
  - by apply inv_handle_signal.
  - by apply inv_signal_step.
  - by apply inv_client_step.
Qed.

(** ** Waiting for connections *)

(** [accept] waits only on the socket that listens, not before [listen] and not
    after [shutdown]; the signal handler knows the server as long as it runs. *)
Definition is_early (pc : MainPc) : bool :=
  match pc with AtSocket | AtPton | AtBind | AtListen => true | _ => false end.
Definition in_run (pc : MainPc) : bool :=
  match pc with
  | Returned | Threw _ | Destroying _ _ | Destroyed _ | Exited _ _ => false
  | _ => true
  end.

Record waits (p : Process) : Prop := {
  w_accepting : k_waits (p_kernel p) ⊆ k_accepting (p_kernel p);
  w_early : is_early (p_main p) = true -> k_waits (p_kernel p) = ∅;
  w_registered : in_run (p_main p) = true -> p_registered p = true;
}.

Lemma accepting_socket p x : inv p -> x ∈ k_accepting (p_kernel p) -> p_socket p = Some x.
Proof.
  intros [Ho _ _ _ _ _ _ _] Hx.
  destruct Ho as [f HF _ _ _ Hac|f HF _ _ _ Hac|f j pc HF _ _ Hown|_ Hac]; [set_solver..| |set_solver].
  destruct pc; simpl in Hown; set_solver.
Qed.

Lemma closing_accepts_nothing p j :
  inv p -> all_stops p !! j = Some AtClose -> k_accepting (p_kernel p) = ∅.
Proof.
  intros [Ho _ _ _ _ _ _ _] Hj. assert (Hni : ~ idle AtClose) by (by intros [?|?]).
  destruct Ho as [f ? ? ? ? ? ? HL|f ? ? ? ? ? ? HL|f j0 pc _ _ _ Hown _ Hj0 Hrest|? ? ? HL];
    try (by destruct (Hni (Forall_lookup_1 _ _ _ _ HL Hj))).
  destruct (decide (j = j0)) as [->|Hne]; [|by destruct (Hni (Hrest j _ Hne Hj))].
  rewrite Hj in Hj0. injection Hj0 as <-. apply Hown.
Qed.

(** A step of [stop] leaves fewer descriptors to wait on. *)
Lemma stop_step_waits pc p j :
  inv p -> all_stops p !! j = Some pc -> k_waits (p_kernel p) ⊆ k_accepting (p_kernel p) ->
  k_waits (p_kernel (stop_step pc p).1) ⊆ k_accepting (p_kernel (stop_step pc p).1) /\
  k_waits (p_kernel (stop_step pc p).1) ⊆ k_waits (p_kernel p).
Proof.
  intros Hi Hj Hw. destruct pc; simpl; try done; [set_solver|].
  pose proof (closing_accepts_nothing p j Hi Hj). set_solver.
Qed.

Lemma touch_inv p : inv p -> inv (touch p).
Proof. by intros []. Qed.

Lemma waits_signal_step i p : inv p -> waits p -> waits (signal_step i p).
Proof.
  intros Hi [W1 W2 W3]. unfold signal_step. destruct (p_stops p !! i) as [pc|] eqn:E; [|done].
  destruct (decide (pc = Stopped)) as [->|Hne]; [done|].
  assert (Hj : all_stops (touch p) !! i = Some pc) by (by apply lookup_app_l_Some).
  destruct (stop_step_waits pc (touch p) i (touch_inv p Hi) Hj W1) as [V1 V2].
  pose proof (stop_step_same pc (touch p)) as (H1 & H2 & _).
  destruct (stop_step pc (touch p)) as [p' pc']. simpl in *.
  replace (match pc with Stopped => p | _ => set_stops (<[i:=pc']> (p_stops p')) p' end)
    with (set_stops (<[i:=pc']> (p_stops p')) p') by (by destruct pc).
  split; simpl; [done| |by rewrite H1, H2]. rewrite H1. intros He. specialize (W2 He). set_solver.
Qed.

Lemma waits_client_step i p : inv p -> waits p -> waits (client_step i p).
Proof.
  intros Hi [W1 W2 W3]. unfold client_step. destruct (p_clients p !! i) as [[fd ip []]|] eqn:E; try done.
  split; simpl; [|done|done].
  assert (Hfd : p_socket p <> Some fd).
  { apply (proj1 (Forall_forall _ _) (i_clients _ Hi) fd). unfold open_clients. apply elem_of_app. left.
    unfold live_fds. apply list_elem_of_omap. eexists. split; [by eapply list_elem_of_lookup_2|done]. }
  assert (fd ∉ k_accepting (p_kernel p)) by (intros Hx; by apply Hfd, accepting_socket).
  set_solver.
Qed.

Ltac close := simpl; try done; try (by auto);
  try match goal with W : true = true -> k_waits _ = ∅ |- _ => rewrite W by done end; set_solver.

Lemma waits_main_step a p : inv p -> waits p -> waits (main_step strerror bind_address port a p).
Proof.
  intros Hi [W1 W2 W3]. destruct (p_main p) as [| | | | | | |errno|fd ip| |e|s r|r|code err] eqn:Hm;
    unfold main_step; rewrite Hm in *; simpl in W2, W3.
  - destruct (_ <? 0); split; close.
  - destruct (negb _); split; close.
  - destruct (_ <? 0); split; close.
  - destruct (_ <? 0); split; close.
  - split; close.
  - destruct (running _); split; close.
  - destruct (_ <? 0); split; close.
  - destruct (negb _); [|destruct (_ =? _)]; split; close.
  - destruct (negb _); split; close.
  - split; close.
  - split; close.
  - assert (Hj : all_stops p !! length (p_stops p) = Some s).
    { unfold all_stops. rewrite Hm, lookup_app_r, Nat.sub_diag by lia. done. }
    destruct (stop_step_waits s p _ Hi Hj W1) as [V1 V2].
    destruct s; simpl in *; split; close.
  - destruct r; split; close.
  - split; rewrite ?Hm; close.
Qed.

(** The states of a process, from the construction of the server on. *)
Definition reachable (open : gset Z) (p : Process) : Prop :=
  rtc (step strerror bind_address port) (Process_new open) p.

Lemma reachable_inv open p : reachable open p -> inv p.
Proof.
  intros Hr. refine (rtc_ind_r inv _ (inv_new open) _ p Hr).
  intros q r _ [x Hx] Hi. by apply inv_act.
Qed.

Lemma reachable_waits open p : reachable open p -> waits p.
Proof.
  intros Hr. enough (inv p /\ waits p) by tauto.
  refine (rtc_ind_r (fun p => inv p /\ waits p) (Process_new open) _ _ p Hr).
  - split; [apply inv_new|by split].
  - intros q r _ [x Hx] [Hi Hw]. split; [by apply inv_act|]. destruct x as [a| | |i|i]; simpl.
    + by apply waits_main_step.
    + done.
    + unfold handle_signal. destruct (p_registered q) eqn:E; [|done]. destruct Hw as [W1 W2 W3].
      by split.
    + by apply waits_signal_step.
    + by apply waits_client_step.
Qed.

Lemma execute_reachable open acts p q :
  reachable open p -> execute strerror bind_address port acts p = Some q -> reachable open q.
Proof.
  revert p. induction acts as [|x acts IH]; intros p Hp E; [by injection E as <-|].
  cbn [execute] in E. destruct (allowed x p) eqn:Ha; [|done]. apply (IH _ ltac:(eapply rtc_r; [exact Hp|by constructor]) E).
Qed.
End reachable.
