(* ===== verification/ListenerProperties.v ===== *)
(** * The properties of the listening socket *)

From S2P Require Import Prelude CppStd Common Listener ListenerProofs.
From stdpp Require Import relations.

#[local] Open Scope Z_scope.

(** ** Ending *)

(** The steps of the main thread that are left once the server is told to stop. *)
Definition steps_left (pc : MainPc) : nat :=
  match pc with
  | AtAccept => 7
  | AtSpawn _ _ => 6
  | AtWhile | AtFailed _ => 5
  | Returned | Threw _ => 4
  | Destroying AtExchange _ => 3
  | Destroying _ _ => 2
  | Destroyed _ => 1
  | _ => 0
  end.

(** The server has been told to stop while it was serving. *)
Definition stopping (p : Process) : Prop :=
  running (p_server p) = false /\
  match p_main p with
  | AtSocket | AtPton | AtBind | AtListen | AtStore => False
  | Destroying s _ => idle s
  | _ => True
  end.

(** The connections a thread was or will still be started for. *)
Definition connections (p : Process) : nat :=
  (length (p_clients p) + match p_main p with AtAccept | AtSpawn _ _ => 1 | _ => 0 end)%nat.

(** The turns of the main thread, also those it spends waiting in [accept]. *)
Definition is_main (x : Action) : bool := match x with ActMain _ | ActWait => true | _ => false end.
Definition main_turns (acts : list Action) : nat := length (filter is_main acts).

(** The turns of a call of [stop]. *)
Definition is_stop (i : nat) (x : Action) : bool := match x with ActStop j => bool_decide (i = j) | _ => false end.
Definition stop_turns (i : nat) (acts : list Action) : nat := length (filter (is_stop i) acts).

(** The steps a call of [stop] that owns the socket has left. *)
Definition stop_left (pc : StopPc) : nat :=
  match pc with AtCheck => 4 | AtShutdown => 3 | AtClose => 2 | AtReset => 1 | _ => 0 end.

Lemma signal_step_main i p :
  p_main (signal_step i p) = p_main p /\ p_clients (signal_step i p) = p_clients p /\
  (running (p_server p) = false -> running (p_server (signal_step i p)) = false).
Proof.
  unfold signal_step. by destruct (p_stops p !! i) as [[]|].
Qed.

Lemma client_step_main i p :
  p_main (client_step i p) = p_main p /\ length (p_clients (client_step i p)) = length (p_clients p) /\
  p_server (client_step i p) = p_server p.
Proof.
  unfold client_step. destruct (p_clients p !! i) as [[fd ip []]|]; try done;
    simpl; by rewrite length_insert.
Qed.

Section lifecycle.
Context (strerror : Z -> string) (bind_address : string) (port : Z).

Lemma stopping_main a p :
  stopping p ->
  stopping (main_step strerror bind_address port a p) /\
  (steps_left (p_main (main_step strerror bind_address port a p)) <= steps_left (p_main p) - 1)%nat /\
  (connections (main_step strerror bind_address port a p) <= connections p)%nat.
Proof.
  intros [Hr Hp]. unfold main_step, stopping, connections in *.
  destruct (p_main p) as [| | | | | | |errno|fd ip| |e|s r|r|code err] eqn:Hm; try done; simpl.
  - rewrite Hr. simpl. split_and!; try done; lia.
  - destruct (sys_rc a <? 0); simpl; split_and!; try done; lia.
  - rewrite Hr. simpl. split_and!; try done; lia.
  - destruct (negb _); simpl; rewrite ?length_app; simpl; split_and!; try done; lia.
  - split_and!; try done; try lia. by left.
  - split_and!; try done; try lia. by left.
  - destruct Hp as [-> | ->]; simpl; [rewrite Hr|]; simpl; split_and!; try done; try lia. by right.
  - destruct r; simpl; split_and!; try done; lia.
  - rewrite Hm. split_and!; try done; simpl; lia.
Qed.

Lemma stopping_act x p :
  stopping p ->
  stopping (act strerror bind_address port x p) /\
  (connections (act strerror bind_address port x p) <= connections p)%nat.
Proof.
  intros Hs. destruct x as [a| | |i|i]; simpl.
  - by destruct (stopping_main a p Hs) as (? & _ & ?).
  - done.
  - unfold handle_signal. destruct (p_registered p); split; simpl; try done; lia.
  - destruct (signal_step_main i p) as (E1 & E2 & E3). destruct Hs as [Hr Hp].
    unfold stopping, connections. rewrite E1, E2. split_and!; [by apply E3|done|lia].
  - destruct (client_step_main i p) as (E1 & E2 & E3). destruct Hs as [Hr Hp].
    unfold stopping, connections. rewrite E1, E2, E3. split_and!; [done|done|lia].
Qed.

Lemma stopping_execute acts p q :
  stopping p -> execute strerror bind_address port acts p = Some q ->
  stopping q /\ (connections q <= connections p)%nat.
Proof.
  revert p. induction acts as [|x acts IH]; intros p Hs E; [injection E as <-; split; [done|lia]|].
  cbn [execute] in E. destruct (allowed x p); [|done].
  destruct (stopping_act x p Hs) as [H1 H2]. destruct (IH _ H1 E) as [K1 K2]. split; [done|lia].
Qed.

(** *** The calls of [stop] come to their end *)

Definition left_at (p : Process) (i : nat) : nat := from_option stop_left 0%nat (p_stops p !! i).

Lemma idle_left pc : idle pc <-> stop_left pc = 0%nat.
Proof. split; [by intros [-> | ->]|]. destruct pc; simpl; try lia; [by left|by right]. Qed.

Lemma stop_step_left pc p :
  running (p_server p) = false -> (stop_left (stop_step pc p).2 <= stop_left pc - 1)%nat.
Proof. intros Hr. destruct pc; simpl; try lia; [by rewrite Hr|destruct (0 <=? _); simpl; lia]. Qed.

Lemma left_act x p i :
  running (p_server p) = false ->
  (left_at (act strerror bind_address port x p) i <= left_at p i - if is_stop i x then 1 else 0)%nat.
Proof.
  intros Hr. unfold left_at. destruct x as [a| | |j|j]; simpl.
  - replace (p_stops (main_step strerror bind_address port a p)) with (p_stops p); [lia|].
    unfold main_step.
    destruct (p_main p) as [| | | | | | |errno|fd ip| |e|[] r|[]|code err]; try done; by repeat case_match.
  - lia.
  - unfold handle_signal. destruct (p_registered p); [|lia]. simpl.
    destruct (decide (i < length (p_stops p))%nat); [rewrite lookup_app_l by done; lia|].
    rewrite lookup_app_r by lia. destruct (i - length (p_stops p))%nat as [|k]; simpl; lia.
  - unfold signal_step. destruct (p_stops p !! j) as [pc|] eqn:E.
    2: { case_bool_decide; [subst|]; rewrite ?E; simpl; lia. }
    destruct (decide (pc = Stopped)) as [->|Hne].
    { case_bool_decide; [subst|]; rewrite ?E; simpl; lia. }
    pose proof (stop_step_left pc (touch p) Hr) as Hl. pose proof (stop_step_same pc (touch p)) as (_ & _ & Hs & _).
    destruct (stop_step pc (touch p)) as [p' pc']. simpl in *.
    replace (match pc with Stopped => p | _ => set_stops (<[j:=pc']> (p_stops p')) p' end)
      with (set_stops (<[j:=pc']> (p_stops p')) p') by (by destruct pc).
    simpl. rewrite Hs. case_bool_decide as Hij; [subst|].
    + rewrite list_lookup_insert_eq by (by eapply lookup_lt_Some). rewrite E. simpl. lia.
    + rewrite list_lookup_insert_ne by done. lia.
  - unfold client_step. destruct (p_clients p !! j) as [[fd ip []]|]; simpl; lia.
Qed.

Lemma left_execute acts p q i :
  stopping p -> execute strerror bind_address port acts p = Some q ->
  (left_at q i <= left_at p i - stop_turns i acts)%nat.
Proof.
  revert p. induction acts as [|x acts IH]; intros p Hs E; [injection E as <-; unfold stop_turns; simpl; lia|].
  cbn [execute] in E. destruct (allowed x p); [|done].
  pose proof (left_act x p i (proj1 Hs)) as Hl. destruct (stopping_act x p Hs) as [H1 _].
  specialize (IH _ H1 E). unfold stop_turns in *. rewrite filter_cons. destruct (is_stop i x); simpl in *; lia.
Qed.

(** *** The main thread does not wait once they have *)

Definition stopped (p : Process) : Prop := stopping p /\ forall i, left_at p i = 0%nat.

Lemma stopped_idle p : stopped p -> Forall idle (all_stops p).
Proof.
  intros [[_ Hm] Hl]. apply Forall_app. split.
  - apply Forall_lookup_2. intros i pc Hi. apply idle_left. specialize (Hl i). unfold left_at in Hl. by rewrite Hi in Hl.
  - destruct (p_main p); simpl; first [by apply Forall_nil|by apply Forall_singleton].
Qed.

Lemma stopped_no_wait open p :
  reachable strerror bind_address port open p -> stopped p -> may_wait p = false.
Proof.
  intros Hr Hs. pose proof (reachable_waits _ _ _ _ _ Hr) as [W1 _ _]. apply reachable_inv in Hr as [Ho _ _ _ _ _ _ _].
  unfold may_wait. destruct (p_main p) eqn:Hm; try done. destruct (p_socket p) as [f|]; [|done].
  pose proof (stopped_idle p Hs) as HL. destruct Hs as [[Hrun _] _].
  apply bool_decide_eq_false_2. simpl in Ho.
  inversion Ho as [|g HF ? ? ? ? Hr'|g j pc HF Hf Hfd Hown _ Hj|Hfd Hac]; subst; [congruence| |set_solver].
  by destruct (owned_not_idle _ _ _ Hown (Forall_lookup_1 _ _ _ _ HL Hj)).
Qed.

Lemma stopped_execute open acts p q :
  reachable strerror bind_address port open p -> stopped p ->
  execute strerror bind_address port acts p = Some q ->
  stopped q /\ (steps_left (p_main q) <= steps_left (p_main p) - main_turns acts)%nat.
Proof.
  revert p. induction acts as [|x acts IH]; intros p Hr Hs E.
  { injection E as <-. split; [done|]. unfold main_turns. simpl. lia. }
  cbn [execute] in E. destruct (allowed x p) eqn:Ha; [|done].
  assert (Hr' : reachable strerror bind_address port open (act strerror bind_address port x p))
    by (eapply rtc_r; [exact Hr|by constructor]).
  assert (Hs' : stopped (act strerror bind_address port x p)).
  { destruct Hs as [Hs Hl]. split; [by apply stopping_act|]. intros i.
    pose proof (left_act x p i (proj1 Hs)). rewrite Hl in H. lia. }
  assert (Hx : (steps_left (p_main (act strerror bind_address port x p)) <=
                steps_left (p_main p) - if is_main x then 1 else 0)%nat).
  { destruct x as [a| | |i|i]; simpl in *.
    - apply stopping_main, Hs.
    - rewrite (stopped_no_wait _ _ Hr Hs) in Ha. done.
    - unfold handle_signal. destruct (p_registered p); simpl; lia.
    - rewrite (proj1 (signal_step_main i p)). lia.
    - rewrite (proj1 (client_step_main i p)). lia. }
  destruct (IH _ Hr' Hs' E) as [H1 H2]. split; [done|].
  unfold main_turns in *. rewrite filter_cons. destruct (is_main x); simpl in *; lia.
Qed.

Lemma execute_app acts1 acts2 p :
  execute strerror bind_address port (acts1 ++ acts2) p =
    (q ← execute strerror bind_address port acts1 p; execute strerror bind_address port acts2 q).
Proof.
  revert p. induction acts1 as [|x acts1 IH]; intros p; [done|]. cbn [app execute].
  destruct (allowed x p); [apply IH|done].
Qed.
End lifecycle.

(** ** Ownership *)

(** C30: the listening socket has one owner.  In every state the process can
    reach, whatever the system calls answer and however signals, connection
    threads and the main thread are interleaved: no descriptor is closed twice
    or without being open; while the server is running its socket is open and
    listening; once it is neither being set up nor running and no call of [stop]
    is under way, the socket is closed, on every error path of [run] too, and no
    further connection is accepted; a process that has exited is not running. *)
Theorem listening_socket_has_one_owner (strerror : Z -> string) (bind_address : string) (port : Z)
    (open : gset Z) (p : Process) :
  reachable strerror bind_address port open p ->
  k_bad_close (p_kernel p) = false /\
  NoDup (open_clients p) /\
  (running (p_server p) = true ->
     server_fd (p_server p) ∈ k_open (p_kernel p) /\ server_fd (p_server p) ∈ k_accepting (p_kernel p)) /\
  (is_setup (p_main p) = false -> running (p_server p) = false -> Forall idle (all_stops p) ->
     (forall f, p_socket p = Some f -> f ∉ k_open (p_kernel p)) /\
     (forall a, p_main p = AtAccept -> answers a p = true -> sys_rc a = -1)) /\
  (has_exited p = true -> running (p_server p) = false).
Proof.
  intros Hr%reachable_inv. destruct Hr as [Ho H2 H3 H4 H5 H6 H7 H8]. split_and!; try done.
  - intros Hrun. clear -Ho Hrun.
    destruct Ho as [? ? ? ? ? ? Hr|f HF Hf Hfd Hop Hac|? ? ? ? ? ? ? Hr|? ? Hr];
      [by rewrite Hr in Hrun| |by rewrite Hr in Hrun..].
    rewrite Hac, Hfd. split; [done|]. by apply elem_of_singleton_2.
  - intros Hs Hrun Hidle. rewrite Hs in Ho. clear -Ho Hrun Hidle.
    inversion Ho as [|f HF ? ? ? ? Hr|f j pc HF Hf Hfd Hown _ Hj|Hfd Hac _ _ Hcl]; subst; [by rewrite Hr in Hrun| |].
    { by destruct (owned_not_idle _ _ _ Hown (Forall_lookup_1 _ _ _ _ Hidle Hj)). }
    split; [done|]. intros a Hm Ha. unfold answers in Ha. rewrite Hm, Hac in Ha.
    rewrite (bool_decide_eq_false_2 (server_fd _ ∈ ∅)), orb_false_r in Ha by apply not_elem_of_empty.
    destruct (sys_rc a =? -1) eqn:E; lia.
  - intros Hx. apply H4. unfold has_exited in Hx. by destruct (p_main p).
Qed.

Definition ans (rc : Z) : SysAnswer := {| sys_rc := rc; sys_errno := 9; sys_ip := Some "127.0.0.1" |}.

(** Started on descriptor 3; a connection on 5 has been accepted after a while; a
    signal has arrived and [stop] has reset [running_]; then it has shut the socket
    down. *)
Definition demo_told : list Action :=
  [ActMain (ans 3); ActMain (ans 1); ActMain (ans 0); ActMain (ans 0); ActMain (ans 0);
   ActMain (ans 0); ActWait; ActMain (ans 5); ActMain (ans 0); ActMain (ans 0);
   ActSignal; ActStop 0].
Definition demo_schedule : list Action := demo_told ++ [ActStop 0; ActStop 0].

Definition demo_process (acts : list Action) : Process :=
  default (Process_new ∅) (execute (fun _ => "error") "0.0.0.0" 8080 acts (Process_new ∅)).

Lemma demo_reachable acts :
  execute (fun _ => "error") "0.0.0.0" 8080 acts (Process_new ∅) <> None ->
  reachable (fun _ => "error") "0.0.0.0" 8080 ∅ (demo_process acts).
Proof.
  intros Hs. unfold demo_process. destruct (execute _ _ _ acts _) as [p|] eqn:E; [|done].
  eapply execute_reachable; [apply rtc_refl|exact E].
Qed.

Lemma listening_socket_has_one_owner_witness :
  k_bad_close (p_kernel (demo_process demo_schedule)) = false /\
  NoDup (open_clients (demo_process demo_schedule)) /\
  (running (p_server (demo_process demo_schedule)) = true ->
     server_fd (p_server (demo_process demo_schedule)) ∈ k_open (p_kernel (demo_process demo_schedule)) /\
     server_fd (p_server (demo_process demo_schedule)) ∈ k_accepting (p_kernel (demo_process demo_schedule))) /\
  (is_setup (p_main (demo_process demo_schedule)) = false ->
     running (p_server (demo_process demo_schedule)) = false ->
     Forall idle (all_stops (demo_process demo_schedule)) ->
     (forall f, p_socket (demo_process demo_schedule) = Some f ->
        f ∉ k_open (p_kernel (demo_process demo_schedule))) /\
     (forall a, p_main (demo_process demo_schedule) = AtAccept ->
        answers a (demo_process demo_schedule) = true -> sys_rc a = -1)) /\
  (has_exited (demo_process demo_schedule) = true ->
     running (p_server (demo_process demo_schedule)) = false).
Proof.
  apply (listening_socket_has_one_owner (fun _ => "error") "0.0.0.0" 8080 ∅ (demo_process demo_schedule)).
  apply demo_reachable. vm_compute. discriminate.
Defined.

(** C31: a server that is told to stop ends.  Take any state the process can reach
    in which [stop] has reset [running_] while the server was serving.  Let it go on
    in any way in which the calls of [stop] that are under way get four turns each,
    and then in any way in which the main thread gets seven turns, where it may
    spend turns waiting in [accept] as long as the socket has not been shut down:
    the process has exited then, whatever the system calls answer and whatever the
    other threads do, and at most one more connection was accepted. *)
Theorem stop_ends_the_process (strerror : Z -> string) (bind_address : string) (port : Z)
    (open : gset Z) (p q : Process) (acts1 acts2 : list Action) :
  reachable strerror bind_address port open p -> stopping p ->
  execute strerror bind_address port (acts1 ++ acts2) p = Some q ->
  (forall i pc, p_stops p !! i = Some pc -> idle pc \/ (4 <= stop_turns i acts1)%nat) ->
  (7 <= main_turns acts2)%nat ->
  has_exited q = true /\ (length (p_clients q) <= S (length (p_clients p)))%nat.
Proof.
  intros Hr Hs E Hst Hn. destruct (stopping_execute _ _ _ _ _ _ Hs E) as [Hq Hc]. rewrite execute_app in E.
  destruct (execute strerror bind_address port acts1 p) as [p1|] eqn:E1; [|done]. cbn [mbind option_bind] in E.
  assert (Hs1 : stopped p1).
  { split; [by destruct (stopping_execute _ _ _ _ _ _ Hs E1)|]. intros i. pose proof (left_execute _ _ _ _ _ _ i Hs E1) as Hl.
    unfold left_at at 2 in Hl. destruct (p_stops p !! i) as [pc|] eqn:Hi; simpl in Hl; [|lia].
    destruct (Hst i pc Hi) as [Hid%idle_left|Ht]; [lia|]. destruct pc; simpl in Hl; lia. }
  pose proof (execute_reachable _ _ _ _ _ _ _ Hr E1) as Hr1.
  destruct (stopped_execute _ _ _ _ _ _ _ Hr1 Hs1 E) as [_ Hl]. split.
  - assert (steps_left (p_main p1) <= 7)%nat by (destruct (p_main p1) as [| | | | | | | | | | |[] ?| |]; simpl; lia).
    destruct Hq as [_ Hq]. unfold has_exited.
    destruct (p_main q) as [| | | | | | | | | | |s r| |] eqn:Em; try done; simpl in Hl; try lia.
    destruct s; lia.
  - unfold connections in Hc. destruct (p_main p), (p_main q); lia.
Qed.

(** What follows [demo_told]: the main thread goes on waiting until the socket
    is shut down, [stop] comes to its end, the accept fails, [run] returns, and the
    destructor finds nothing to stop. *)
Definition demo_stops : list Action := [ActWait; ActStop 0; ActStop 0; ActClient 0; ActStop 0; ActStop 0].
Definition demo_ending : list Action :=
  [ActMain (ans (-1)); ActMain (ans 0); ActMain (ans 0); ActClient 0; ActMain (ans 0);
   ActMain (ans 0); ActMain (ans 0); ActMain (ans 0)].

Lemma stop_ends_the_process_witness :
  has_exited (demo_process (demo_told ++ demo_stops ++ demo_ending)) = true /\
  (length (p_clients (demo_process (demo_told ++ demo_stops ++ demo_ending))) <=
     S (length (p_clients (demo_process demo_told))))%nat.
Proof.
  apply (stop_ends_the_process (fun _ => "error") "0.0.0.0" 8080 ∅ (demo_process demo_told)
    (demo_process (demo_told ++ demo_stops ++ demo_ending)) demo_stops demo_ending).
  - apply demo_reachable. vm_compute. discriminate.
  - split; vm_compute; done.
  - vm_compute. reflexivity.
  - intros [|i] pc Hi; [right; vm_compute; lia|done].
  - vm_compute. lia.
Defined.

(** ** What is still running when the server is destroyed *)

(** A signal arrives while the main thread is in [accept]; [stop], the [n]-th call,
    shuts the socket down and closes it; [accept], and only it, fails for that
    reason; [run] returns and [main] destroys the server. *)
Definition abandoning (n : nat) : list Action :=
  ActSignal :: replicate 5 (ActStop n) ++
  [ActMain {| sys_rc := -1; sys_errno := 22; sys_ip := None |}] ++
  replicate 4 (ActMain {| sys_rc := 0; sys_errno := 0; sys_ip := None |}).

Lemma signal_last l pc p :
  p_stops p = l ++ [pc] -> pc <> Stopped ->
  signal_step (length l) p =
    (let '(p', pc') := stop_step pc (touch p) in set_stops (l ++ [pc']) p').
Proof.
  intros Hs Hpc. unfold signal_step. rewrite Hs, lookup_app_r, Nat.sub_diag by lia. simpl.
  pose proof (stop_step_same pc (touch p)) as (_ & _ & E & _).
  destruct (stop_step pc (touch p)) as [p' pc']. simpl in E. rewrite E, Hs, insert_app_r_alt, Nat.sub_diag by lia.
  by destruct pc.
Qed.

Lemma execute_cons strerror bind port x acts p :
  allowed x p = true -> execute strerror bind port (x :: acts) p = execute strerror bind port acts (act strerror bind port x p).
Proof. intros Ha. cbn [execute]. by rewrite Ha. Qed.

(** What a call of [stop] that is alone leaves as it was. *)
Record undisturbed (p q : Process) : Prop := {
  ud_main : p_main q = p_main p;
  ud_clients : p_clients q = p_clients p;
}.

(** A call of [stop] while the server is running comes to its end. *)
Lemma stop_alone strerror bind port l p :
  p_stops p = l ++ [AtExchange] -> running (p_server p) = true -> 0 <= server_fd (p_server p) ->
  has_exited p = false ->
  exists q, execute strerror bind port (replicate 5 (ActStop (length l))) p = Some q /\
    undisturbed p q /\ running (p_server q) = false.
Proof.
  destruct p as [[run fd al] k m reg st cl so un lg]. cbn -[execute]. intros -> -> Hfd Hx.
  assert (Hal : forall (p : Process), p_main p = m -> allowed (ActStop (length l)) p = true)
    by (intros p Hp; unfold allowed, has_exited in *; rewrite Hp; cbn in Hx; by rewrite Hx).
  eexists. split; [|split; [split|]].
  - cbn [replicate].
    do 5 (rewrite execute_cons by (by apply Hal); cbn [act]; erewrite (signal_last l) by done; cbn -[execute];
      try rewrite (proj2 (Z.leb_le 0 fd) Hfd)).
    cbn. reflexivity.
  - done.
  - done.
  - done.
Qed.

(** Once it has, the main thread finds its socket closed and destroys the server. *)
Lemma main_leaves strerror bind port p :
  p_main p = AtAccept -> running (p_server p) = false ->
  exists q, execute strerror bind port
      (ActMain {| sys_rc := -1; sys_errno := 22; sys_ip := None |} ::
       replicate 4 (ActMain {| sys_rc := 0; sys_errno := 0; sys_ip := None |})) p = Some q /\
    p_main q = Destroyed (Ok tt) /\ alive (p_server q) = false /\ p_clients q = p_clients p.
Proof.
  destruct p as [[run fd al] k m reg st cl so un lg]. cbn. intros -> ->. eauto.
Qed.

(** C32: the end of the program does not wait for the connection threads.  In any
    state the process can reach in which the server waits for connections, let a
    signal arrive.  With [stop] and the main thread running on, and no system call
    failing but the [accept] on the socket that was shut down, the server is
    destroyed, and the connection threads are where they were: one that had yet to
    call its handler then calls the handler of a server that no longer exists. *)
Theorem shutdown_waits_for_nobody (strerror : Z -> string) (bind_address : string) (port : Z)
    (open : gset Z) (p : Process) :
  reachable strerror bind_address port open p -> p_main p = AtAccept -> running (p_server p) = true ->
  exists q, execute strerror bind_address port (abandoning (length (p_stops p))) p = Some q /\
    p_main q = Destroyed (Ok tt) /\ alive (p_server q) = false /\ p_clients q = p_clients p /\
    forall i c, p_clients p !! i = Some c -> cl_pc c = Serving ->
      allowed (ActClient i) q = true /\ p_undefined (client_step i q) = true.
Proof.
  intros Hr Hm Hrun. pose proof (w_registered _ (reachable_waits _ _ _ _ _ Hr)) as Hreg. rewrite Hm in Hreg.
  specialize (Hreg eq_refl). apply reachable_inv in Hr as [Ho _ _ _ _ _ _ _]. rewrite Hm in Ho.
  assert (Hfd : 0 <= server_fd (p_server p)).
  { inversion Ho as [|f HF Hf Hs|f j pc HF Hf Hs Hown Hr'|]; subst; [done|congruence|congruence]. }
  destruct (stop_alone strerror bind_address port (p_stops p) (handle_signal p)) as (p1 & E1 & [Hm1 Hc1] & Hr1);
    [by unfold handle_signal; rewrite Hreg..|by unfold handle_signal; rewrite Hreg|
     unfold handle_signal, has_exited; rewrite Hreg; simpl; by rewrite Hm|].
  assert (Hh : p_main (handle_signal p) = p_main p /\ p_clients (handle_signal p) = p_clients p)
    by (unfold handle_signal; by rewrite Hreg).
  destruct Hh as [Hm0 Hc0]. rewrite Hm0, Hm in Hm1. rewrite Hc0 in Hc1.
  destruct (main_leaves strerror bind_address port p1 Hm1 Hr1) as (q & E2 & Hmq & Haq & Hcq). rewrite Hc1 in Hcq.
  exists q. split_and!; try done.
  - unfold abandoning. rewrite execute_cons by (unfold allowed, has_exited; by rewrite Hm).
    rewrite execute_app. cbn [act]. rewrite E1. exact E2.
  - intros i [cfd ip pc] Hi Hpc. simpl in Hpc. subst pc. split; [unfold allowed, has_exited; by rewrite Hmq|].
    unfold client_step. rewrite Hcq, Hi. simpl. by rewrite Haq, orb_true_r.
Qed.

Lemma shutdown_waits_for_nobody_witness :
  let p := demo_process (take 10 demo_told) in
  exists q, execute (fun _ => "error") "0.0.0.0" 8080 (abandoning 0) p = Some q /\
    p_main q = Destroyed (Ok tt) /\ alive (p_server q) = false /\ p_clients q = p_clients p /\
    forall i c, p_clients p !! i = Some c -> cl_pc c = Serving ->
      allowed (ActClient i) q = true /\ p_undefined (client_step i q) = true.
Proof.
  intros p. apply (shutdown_waits_for_nobody (fun _ => "error") "0.0.0.0" 8080 ∅ p).
  - apply demo_reachable. vm_compute. discriminate.
  - vm_compute. reflexivity.
  - vm_compute. reflexivity.
Defined.

(** A stop that is requested before [run] has set [running_] is lost: it changes
    nothing, and [run] goes on to serve. *)
Lemma early_stop_is_lost (strerror : Z -> string) (bind_address : string) (port : Z) (open : gset Z)
    (p : Process) :
  reachable strerror bind_address port open p ->
  (p_main p = AtSocket \/ is_setup (p_main p) = true) -> p_registered p = true ->
  let q := signal_step (length (p_stops p)) (handle_signal p) in
  p_stops q = p_stops p ++ [Stopped] /\ p_server q = p_server p /\ p_main q = p_main p.
Proof.
  intros Hr%reachable_inv Hm Hreg q.
  assert (Hrun : running (p_server p) = false).
  { destruct Hr as [Ho Hf _ _ _ _ _ _]. destruct Hm as [Hm|Hm].
    - specialize (Hf Hm). inversion Ho; congruence.
    - rewrite Hm in Ho. by inversion Ho. }
  subst q. unfold handle_signal. rewrite Hreg. unfold signal_step. simpl.
  rewrite lookup_app_r, Nat.sub_diag by lia. simpl. rewrite Hrun.
  rewrite insert_app_r_alt, Nat.sub_diag by lia. split_and!; try done.
  destruct (p_server p). simpl in *. by subst.
Qed.
