(* ===== verification/MainProgram.v ===== *)
(** * src/main.cpp: the whole program

    [main] parses the configuration, constructs the cluster, the gateway and the
    server, prints the banner and runs the server; an exception ends it with a
    message and the status 1. *)

From S2P Require Import Prelude CppStd Common Sqlite Store SqliteStore SqliteStoreProofs Raft Metrics Shard ShardSystem ShardTheorems ShardProperties Cluster ClusterSpec Resilience Gateway GatewayProperties Config ConfigProperties Listener ListenerProofs ListenerProperties.
From Stdlib Require Import Ascii.
From stdpp Require Import relations.

#[local] Open Scope Z_scope.

(** ** Texts *)

Definition help_text : string :=
  "Fault-Tolerant Sharded KV Store" +:+ nl +:+ nl
  +:+ "Options:" +:+ nl
  +:+ "  --bind ADDRESS       Bind address (default 0.0.0.0)" +:+ nl
  +:+ "  --port PORT          HTTP port (default 8080)" +:+ nl
  +:+ "  --data-dir PATH      SQLite data directory (default ./data)" +:+ nl
  +:+ "  --shards N           Number of shards (default 4)" +:+ nl
  +:+ "  --replicas N         Replicas per shard (default 3)" +:+ nl
  +:+ "  --api-key KEY        Bearer token (default dev-secret)" +:+ nl
  +:+ "  --rate N             Requests/sec per client (default 20)" +:+ nl
  +:+ "  --burst N            Token bucket capacity (default 40)" +:+ nl
  +:+ "  --retries N          Gateway retries (default 2)" +:+ nl.

Definition dquote : ascii := "034".
Definition backslash : ascii := "092".

(** [std::quoted], which a [std::filesystem::path] is written with. *)
Fixpoint escape_quotes (s : string) : string :=
  match s with
  | EmptyString => ""
  | String c s' =>
      if Ascii.eqb c dquote || Ascii.eqb c backslash
      then String backslash (String c (escape_quotes s')) else String c (escape_quotes s')
  end.
Definition quoted (s : string) : string := String dquote (escape_quotes s +:+ String dquote "").

Definition banner (c : Config) : string :=
  "Fault-Tolerant Sharded KV Store" +:+ nl
  +:+ "  listening: http://" +:+ cf_bind c +:+ ":" +:+ to_string (cf_port c) +:+ nl
  +:+ "  shards: " +:+ to_string (cf_shards c) +:+ nl
  +:+ "  replicas/shard: " +:+ to_string (cf_replicas c) +:+ nl
  +:+ "  data dir: " +:+ quoted (cf_data_dir c) +:+ nl
  +:+ "  API key: configured" +:+ nl.

Definition fatal_text (e : exn) : string := "fatal: " +:+ exn_what e +:+ nl.

(** ** The program *)

(** What is written to the standard output, what the handler in [main] writes to
    the standard error, and the exit status once there is one. *)
Record Outcome := { oc_out : string; oc_err : string; oc_status : option Z }.

(** [catch (const std::exception& error)] *)
Definition caught (e : exn) : option Outcome :=
  match e with
  | UndefinedBehaviour _ => None
  | _ => Some {| oc_out := ""; oc_err := fatal_text e; oc_status := Some 1 |}
  end.

Definition outcome (out : string) (p : Process) : Outcome :=
  match p_main p with
  | Exited code err => {| oc_out := out; oc_err := err; oc_status := Some code |}
  | _ => {| oc_out := out; oc_err := ""; oc_status := None |}
  end.

Section main.
Context (strerror : Z -> string) (stod : string -> result double) (getenv : string -> option string).
Context {S : Type} `{Store S}.

(** The program after the steps [acts] of its threads; [None] for steps that
    cannot happen and for undefined behaviour. *)
Definition main (disk : string -> string -> st_file (S := S)) (args : list string) (open : gset Z)
    (acts : list Action) : option Outcome :=
  match main_start stod getenv disk args with
  | Throw e => caught e
  | Ok None => Some {| oc_out := help_text; oc_err := ""; oc_status := Some 0 |}
  | Ok (Some (c, _)) =>
      outcome (banner c) <$> execute strerror (cf_bind c) (cf_port c) acts (Process_new open)
  end.
End main.

(** ** Why the server ends *)

(** The exceptions [HttpServer::run] throws. *)
Definition run_error (strerror : Z -> string) (bind_address : string) (e : exn) : Prop :=
  e = RuntimeError ("invalid bind address: " +:+ bind_address) \/
  exists n, e = RuntimeError ("socket() failed: " +:+ strerror n) \/
            e = RuntimeError ("bind() failed: " +:+ strerror n) \/
            e = RuntimeError ("listen() failed: " +:+ strerror n) \/
            e = RuntimeError (strerror n).

Definition ends_well (strerror : Z -> string) (bind_address : string) (pc : MainPc) : Prop :=
  match pc with
  | Threw e | Destroying _ (Throw e) | Destroyed (Throw e) => run_error strerror bind_address e
  | Exited code err =>
      (code = 0 /\ err = "") \/ exists e, code = 1 /\ err = fatal_text e /\ run_error strerror bind_address e
  | _ => True
  end.

Section ends.
Context (strerror : Z -> string) (bind_address : string) (port : Z).

Lemma main_step_ends a p :
  ends_well strerror bind_address (p_main p) ->
  ends_well strerror bind_address (p_main (main_step strerror bind_address port a p)).
Proof.
  intros He. unfold main_step.
  destruct (p_main p) as [| | | | | | |errno|fd ip| |e|s r|r|code err] eqn:Hm; simpl in He.
  - destruct (_ <? 0); simpl; unfold run_error; eauto 10.
  - destruct (negb _); simpl; unfold run_error; eauto 10.
  - destruct (_ <? 0); simpl; unfold run_error; eauto 10.
  - destruct (_ <? 0); simpl; unfold run_error; eauto 10.
  - done.
  - simpl. by destruct (running _).
  - by destruct (_ <? 0).
  - destruct (negb _); [done|]. by destruct (_ =? _).
  - destruct (negb _); simpl; unfold run_error; eauto 10.
  - done.
  - done.
  - destruct s; destruct r; simpl in *; try done; by destruct (_ <=? _) || idtac.
  - destruct r; simpl; [by left|right]. eauto.
  - by rewrite Hm.
Qed.

Lemma reachable_ends open p :
  reachable strerror bind_address port open p -> ends_well strerror bind_address (p_main p).
Proof.
  intros Hr. refine (rtc_ind_r (fun p => ends_well strerror bind_address (p_main p)) (Process_new open) I _ p Hr).
  intros q r _ [x Hx] Hi. destruct x as [a| | |i|i]; simpl.
  - by apply main_step_ends.
  - done.
  - unfold handle_signal. by destruct (p_registered q).
  - by rewrite (proj1 (signal_step_main i q)).
  - by rewrite (proj1 (client_step_main i q)).
Qed.
End ends.

(** C33: how the program ends.  Let the numbers in the environment be numbers, the
    data directory be empty, and [args] be options with values of their kinds.
    [args] followed by [--help] and anything prints the options and exits with 0;
    followed by an argument that is no option, or by an option without a value, it
    reports that argument and exits with 1.  [args] alone gives the configuration
    [c] of C28; if it has no shards or no replicas this is reported and the status is
    1.  Otherwise the program prints the banner and serves: after any steps [acts]
    its threads can make, it has a status exactly if the process has exited, which is
    0 with nothing reported, or 1 with one of the errors of [run] reported. *)
Theorem main_exit_status {S : Type} `{StoreSpec S} (strerror : Z -> string)
    (stod : string -> result double) (getenv : string -> option string)
    (disk : string -> string -> st_file (S := S)) (args : list string) (open : gset Z)
    (acts : list Action) :
  good_environment stod getenv -> well_formed stod args -> (forall dir, empty_directory (disk dir)) ->
  let run args := main strerror stod getenv disk args open acts in
  let refused text := Some {| oc_out := ""; oc_err := "fatal: " +:+ text +:+ nl; oc_status := Some 1 |} in
  (forall rest, run (args ++ "--help" :: rest) =
     Some {| oc_out := help_text; oc_err := ""; oc_status := Some 0 |}) /\
  (forall x rest, x ∉ all_options -> x <> "--help" -> run (args ++ x :: rest) = refused ("unknown argument: " +:+ x)) /\
  (forall x, x ∈ all_options -> run (args ++ [x]) = refused ("missing value for " +:+ x)) /\
  exists c, configured stod getenv args c /\
    if decide (cf_shards c = 0 \/ cf_replicas c = 0) then run args = refused "shards and replicas must be positive"
    else forall p, execute strerror (cf_bind c) (cf_port c) acts (Process_new open) = Some p ->
      exists o, run args = Some o /\ oc_out o = banner c /\
        (has_exited p = false -> oc_err o = "" /\ oc_status o = None) /\
        (has_exited p = true ->
           (oc_err o = "" /\ oc_status o = Some 0) \/
           exists e, oc_err o = fatal_text e /\ oc_status o = Some 1 /\ run_error strerror (cf_bind c) e).
Proof.
  intros He Hw Hd run refused. destruct (parse_well_formed stod getenv args He Hw) as (P1 & P2 & P3 & c & Hc & Pc).
  subst run refused. cbv beta. unfold main, main_start. split_and!.
  - intros rest. by rewrite P1.
  - intros x rest Hx Hh. by rewrite P2.
  - intros x Hx. by rewrite P3.
  - exists c. split; [done|]. case_decide; [by rewrite Pc|]. intros p Ex.
    destruct (accepted_starts stod getenv disk args c Pc (Hd _)) as (_ & g & E & _). unfold main_start in E.
    rewrite E, Ex. eexists. split; [done|]. unfold outcome, has_exited.
    apply execute_reachable with (open := open) in Ex; [|apply rtc_refl]. apply reachable_ends in Ex.
    destruct (p_main p); simpl; try by eauto 10. split_and!; [done|done|]. intros _.
    destruct Ex as [[-> ->]|(e & -> & -> & Hr)]; [by left|right; eauto].
Qed.

(** The server cannot bind its address. *)
Definition bind_fails : list Action :=
  [ActMain (ans 3); ActMain (ans 1); ActMain (ans (-1)); ActMain (ans 0); ActMain (ans 0);
   ActMain (ans 0); ActMain (ans 0)].

Lemma demo_env_good : good_environment whole_stod demo_env.
Proof.
  split; intros name v Hn Hv.
  - unfold demo_env in Hv. repeat case_decide; simplify_eq; eexists; vm_compute; reflexivity.
  - repeat (apply elem_of_cons in Hn as [->|Hn]); [done..|by apply elem_of_nil in Hn].
Qed.

Lemma demo_args_well_formed : well_formed whole_stod demo_args.
Proof.
  apply wf_size; [set_solver|eexists; vm_compute; reflexivity|]. apply wf_text; [set_solver|].
  apply wf_size; [set_solver|eexists; vm_compute; reflexivity|].
  apply wf_double; [set_solver|eexists; vm_compute; reflexivity|]. apply wf_nil.
Qed.

Lemma main_exit_status_witness :
  let run args := main (S := MemDb) (fun _ => "in use") whole_stod demo_env (fun _ => mem_disk) args ∅ bind_fails in
  let refused text := Some {| oc_out := ""; oc_err := "fatal: " +:+ text +:+ nl; oc_status := Some 1 |} in
  (forall rest, run (demo_args ++ "--help" :: rest) =
     Some {| oc_out := help_text; oc_err := ""; oc_status := Some 0 |}) /\
  (forall x rest, x ∉ all_options -> x <> "--help" ->
     run (demo_args ++ x :: rest) = refused ("unknown argument: " +:+ x)) /\
  (forall x, x ∈ all_options -> run (demo_args ++ [x]) = refused ("missing value for " +:+ x)) /\
  exists c, configured whole_stod demo_env demo_args c /\
    if decide (cf_shards c = 0 \/ cf_replicas c = 0) then run demo_args = refused "shards and replicas must be positive"
    else forall p, execute (fun _ => "in use") (cf_bind c) (cf_port c) bind_fails (Process_new ∅) = Some p ->
      exists o, run demo_args = Some o /\ oc_out o = banner c /\
        (has_exited p = false -> oc_err o = "" /\ oc_status o = None) /\
        (has_exited p = true ->
           (oc_err o = "" /\ oc_status o = Some 0) \/
           exists e, oc_err o = fatal_text e /\ oc_status o = Some 1 /\ run_error (fun _ => "in use") (cf_bind c) e).
Proof.
  apply (main_exit_status (S := MemDb) (fun _ => "in use") whole_stod demo_env (fun _ => mem_disk) demo_args ∅ bind_fails).
  - apply demo_env_good.
  - apply demo_args_well_formed.
  - intros dir. apply mem_disk_empty.
Defined.

(** What such a run leaves. *)
Example bind_fails_outcome :
  main (S := MemDb) (fun _ => "in use") whole_stod demo_env (fun _ => mem_disk) demo_args ∅ bind_fails =
    Some {| oc_out := banner demo_config; oc_err := "fatal: bind() failed: in use" +:+ nl; oc_status := Some 1 |}.
Proof. vm_compute. reflexivity. Qed.
