(* ===== verification/Threads.v ===== *)
(** * src/gateway.cpp: requests handled by concurrent threads

    Every connection has a thread of its own, and all threads share the gateway.
    A thread is a program of atomic steps: a section under a mutex of the gateway
    ([rate_mutex_], [breaker_mutex_]), an operation on an atomic counter, a
    reading of the clock, or a call of a method of the cluster that runs under
    the mutex of one shard.  The definitions below follow [Gateway] statement by
    statement; [ThreadsProofs] shows that a thread that is not interrupted does
    what [Gateway.handle] does. *)

From S2P Require Import Prelude CppStd Common Sqlite Store Raft Metrics Shard ShardSystem ShardSpec Cluster ClusterSpec Resilience Gateway.

#[local] Open Scope Z_scope.

(** ** Programs of atomic steps *)

Section programs.
Context {St : Type}.

Inductive prog (A : Type) : Type :=
  | Done (r : result A)
  | Local {B : Type} (m : M St B) (k : result B -> prog A)
  | Call (op : COp) (k : result Answer -> prog A).
Arguments Done {A} r.
Arguments Local {A B} m k.
Arguments Call {A} op k.

#[export] Instance prog_ret : MRet prog := fun A a => Done (Ok a).

Fixpoint prog_bind_ {A B} (f : A -> prog B) (p : prog A) : prog B :=
  match p with
  | Done (Ok a) => f a
  | Done (Throw e) => Done (Throw e)
  | Local m k => Local m (fun r => prog_bind_ f (k r))
  | Call op k => Call op (fun r => prog_bind_ f (k r))
  end.
#[export] Instance prog_bind : MBind prog := @prog_bind_.

(** [try { p } catch (...) { h }] *)
Fixpoint prog_catch {A} (p : prog A) (h : exn -> prog A) : prog A :=
  match p with
  | Done (Throw (UndefinedBehaviour w)) => Done (Throw (UndefinedBehaviour w))
  | Done (Throw e) => h e
  | Done (Ok a) => Done (Ok a)
  | Local m k => Local m (fun r => prog_catch (k r) h)
  | Call op k => Call op (fun r => prog_catch (k r) h)
  end.

(** One atomic step on the shared state. *)
Definition atomic {A} (m : M St A) : prog A := Local m Done.
Definition if_true (c : bool) (p : prog unit) : prog unit := if c then p else mret tt.
Definition lift_result {A} (r : result A) : prog A := Done r.

(** A call of the cluster and the part of the answer that the method returns. *)
Definition ask_result (op : COp) : prog OperationResult :=
  Call op (fun a => Done (match a with
                          | Ok (AResult res) => Ok res
                          | Ok _ => Throw (UndefinedBehaviour "answer of another method")
                          | Throw e => Throw e
                          end)).
Definition ask_bool (op : COp) : prog bool :=
  Call op (fun a => Done (match a with
                          | Ok (ABool b) => Ok b
                          | Ok _ => Throw (UndefinedBehaviour "answer of another method")
                          | Throw e => Throw e
                          end)).

Fixpoint prog_for {A B} (l : list A) (b : B) (body : B -> A -> prog B) : prog B :=
  match l with
  | [] => mret b
  | x :: l' => b' ← body b x; prog_for l' b' body
  end.
End programs.
Arguments prog St A : clear implicits.
Arguments Done {St A} r.
Arguments Local {St A B} m k.
Arguments Call {St A} op k.

(** ** The counters *)

(** [requests_.fetch_add(1)] and [request_latency_us_.fetch_add(n)], the two
    steps of [record_request]. *)
Definition count_request (m : Metrics) : Metrics :=
  {| requests := fetch_add (requests m) 1; request_latency_us := request_latency_us m;
     auth_failures := auth_failures m; rate_limited := rate_limited m; gets_ := gets_ m;
     puts := puts m; deletes := deletes m; retries := retries m;
     circuit_open := circuit_open m; gateway_failures := gateway_failures m;
     elections := elections m; replication_failures := replication_failures m |}.
Definition add_latency (latency_us : Z) (m : Metrics) : Metrics :=
  {| requests := requests m; request_latency_us := fetch_add (request_latency_us m) latency_us;
     auth_failures := auth_failures m; rate_limited := rate_limited m; gets_ := gets_ m;
     puts := puts m; deletes := deletes m; retries := retries m;
     circuit_open := circuit_open m; gateway_failures := gateway_failures m;
     elections := elections m; replication_failures := replication_failures m |}.

(** ** A thread handling a request *)

Section threads.
Context (steady : nat -> Z) {S : Type} `{Store S}.
Abbreviation GM := (M (Gateway S * nat)).
Abbreviation Thread := (prog (Gateway S * nat)).

Definition t_now : Thread Z := atomic (now steady).
Definition t_metric (f : Metrics -> Metrics) : Thread unit := atomic (metric f).
Definition t_load (f : Metrics -> Z) : Thread Z := atomic (self (fun g => f (w_metrics (g_world g)))).

(** [render_prometheus]: the counters are loaded one after the other. *)
Definition t_render_prometheus : Thread string :=
  requests_ ← t_load requests;
  latency ← t_load request_latency_us;
  auth ← t_load auth_failures;
  limited ← t_load rate_limited;
  g ← t_load gets_;
  p ← t_load puts;
  d ← t_load deletes;
  r ← t_load retries;
  co ← t_load circuit_open;
  gf ← t_load gateway_failures;
  el ← t_load elections;
  rf ← t_load replication_failures;
  mret (render_prometheus
    {| requests := requests_; request_latency_us := latency; auth_failures := auth;
       rate_limited := limited; gets_ := g; puts := p; deletes := d; retries := r;
       circuit_open := co; gateway_failures := gf; elections := el; replication_failures := rf |}).

Definition t_finish (started : Z) (response : HttpResponse) : Thread HttpResponse :=
  t ← t_now;
  let elapsed := Z.quot (t - started) 1000 in
  t_metric count_request ;;
  t_metric (add_latency (wrap_u64 elapsed)) ;;
  mret (with_header "X-Request-Latency-Us" (to_string elapsed)
          (with_header "X-Content-Type-Options" "nosniff" response)).

(** The operation of the cluster behind an operation on a key. *)
Definition key_op (operation key value : string) : COp :=
  if decide (operation = "GET") then CGet key
  else if decide (operation = "PUT") then CPut key value
  else CErase key.

Fixpoint t_attempts (n : nat) (attempt : Z) (operation key value : string) (shard_id : Z)
    (result : OperationResult) : Thread OperationResult :=
  match n with
  | O => mret result
  | Datatypes.S n' =>
      result ← ask_result (key_op operation key value);
      if res_status result <? 500 then
        atomic (on_breaker shard_id record_success) ;; mret result
      else
        atomic (on_breaker shard_id (record_failure steady)) ;;
        max_retries ← atomic (self g_max_retries);
        if_true (attempt <? max_retries)
          (t_metric inc_retry ;; atomic (sleep_before_retry attempt)) ;;
        t_attempts n' (attempt + 1) operation key value shard_id result
  end.

Definition t_execute (operation key value : string) : Thread HttpResponse :=
  shard_id ← atomic (self (fun g => shard_for_key key (g_cluster g)));
  allowed ← atomic (on_breaker shard_id (allow_request steady));
  if negb allowed then
    t_metric inc_circuit_open ;;
    mret (json_response 503 ("{" +:+ field_raw "error" (q "circuit breaker is open") +:+ ","
                             +:+ field_raw "shard" (to_string shard_id) +:+ "}"))
  else
    max_retries ← atomic (self g_max_retries);
    result ← t_attempts (Z.to_nat (max_retries + 1)) 0 operation key value shard_id default_result;
    if_true (500 <=? res_status result) (t_metric inc_gateway_failure) ;;
    mret (json_response (res_status result) (operation_body operation key result)).

Definition t_handle_kv (started : Z) (request : HttpRequest) (key : string) : Thread HttpResponse :=
  if (ssize key =? 0) || (512 <? ssize key)
  then t_finish started (json_response 400 (error_body "key must be 1-512 characters"))
  else if decide (rq_method request = "GET") then
    t_metric inc_get ;; r ← t_execute "GET" key ""; t_finish started r
  else if decide (rq_method request = "PUT") then
    if 1024 * 1024 <? ssize (rq_body request)
    then t_finish started (json_response 413 (error_body "value exceeds 1 MiB"))
    else t_metric inc_put ;; r ← t_execute "PUT" key (rq_body request); t_finish started r
  else if decide (rq_method request = "DELETE") then
    t_metric inc_delete ;; r ← t_execute "DELETE" key ""; t_finish started r
  else t_finish started (json_response 405 (error_body "method not allowed")).

Definition t_handle_replica (started : Z) (action shard replica : string) : Thread HttpResponse :=
  prog_catch
    (shard_id ← lift_result (stoull shard);
     ok ← ask_bool (if decide (action = "fail") then CFail shard_id replica else CRecover shard_id replica);
     if negb ok then t_finish started (json_response 404 (error_body "replica or shard not found"))
     else t_finish started (json_response 200
       ("{" +:+ field_raw "status" (q "ok") +:+ "," +:+ field_str "action" action
        +:+ "," +:+ field_str "replica" replica +:+ "}")))
    (fun _ => t_finish started (json_response 400 (error_body "invalid shard id"))).

Definition t_handle_elect (started : Z) (shard : string) : Thread HttpResponse :=
  prog_catch
    (shard_id ← lift_result (stoull shard);
     ok ← ask_bool (CElect shard_id);
     if negb ok then t_finish started (json_response 503 (error_body "leader election failed"))
     else t_finish started (json_response 200 ("{" +:+ field_raw "status" (q "leader elected") +:+ "}")))
    (fun _ => t_finish started (json_response 400 (error_body "invalid shard id"))).

(** [Cluster::status_json]: the shards are locked one after the other. *)
Definition t_status_json : Thread string :=
  n ← atomic (on_cluster (gets (fun s => shard_count s.1)));
  parts ← prog_for (Z.of_nat <$> seq 0 (Z.to_nat n)) [] (fun parts i =>
    part ← atomic (on_cluster (Cluster.on_shard i Shard.status_json)); mret (parts ++ [part]));
  mret ("{" +:+ q "shard_count" +:+ ":" +:+ to_string n
        +:+ "," +:+ q "shards" +:+ ":[" +:+ join parts +:+ "]}").

Definition t_status (started : Z) : Thread HttpResponse :=
  body ← t_status_json; t_finish started (json_response 200 body).

Definition t_route_request (started : Z) (request : HttpRequest) : Thread HttpResponse :=
  let parts := split_path (rq_path request) in
  let not_found := t_finish started (json_response 404 (error_body "route not found")) in
  match parts with
  | [p0; p1; key] =>
      if decide (p0 = "v1" /\ p1 = "kv") then t_handle_kv started request key
      else if decide (rq_path request = "/admin/cluster" /\ rq_method request = "GET")
      then t_status started
      else if decide (p0 = "admin" /\ p1 = "elect" /\ rq_method request = "POST")
      then t_handle_elect started key
      else not_found
  | _ =>
      if decide (rq_path request = "/admin/cluster" /\ rq_method request = "GET")
      then t_status started
      else
        match parts with
        | [p0; p1; p2; p3] =>
            if decide (p0 = "admin" /\ (p1 = "fail" \/ p1 = "recover") /\ rq_method request = "POST")
            then t_handle_replica started p1 p2 p3
            else not_found
        | _ => not_found
        end
  end.

Definition t_handle (request : HttpRequest) : Thread HttpResponse :=
  started ← t_now;
  if decide (rq_path request = "/healthz") then
    t_finish started (json_response 200 ("{" +:+ field_raw "status" (q "ok") +:+ "}"))
  else if decide (rq_path request = "/metrics") then
    body ← t_render_prometheus;
    t_finish started {| rs_status := 200; rs_content_type := "text/plain; version=0.0.4";
                        rs_body := body; rs_headers := ∅ |}
  else
    ok ← atomic (self (authorized request));
    if negb ok then
      t_metric inc_auth_failure ;;
      t_finish started (json_response 401 (error_body "missing or invalid bearer token"))
    else
      allowed ← atomic (allowed_by_rate_limit steady (client_id request));
      if negb allowed then
        t_metric inc_rate_limited ;;
        t_finish started (with_header "Retry-After" "1"
          (json_response 429 (error_body "rate limit exceeded")))
      else t_route_request started request.

(** ** Schedules *)

(** A call of the cluster, by the number of the thread, with its answer. *)
Abbreviation Event := (nat * (COp * result Answer))%type.

Record Pool := {
  po_state : Gateway S * nat;
  po_threads : list (Thread HttpResponse);
  po_trace : list Event;          (* the calls of the cluster so far *)
}.

(** A step of the [i]-th thread, if there is one that has not finished. *)
Definition pool_step (i : nat) (p : Pool) : Pool :=
  match po_threads p !! i with
  | Some (Local m k) =>
      let '(s, r) := m (po_state p) in
      {| po_state := s; po_threads := <[i := k r]> (po_threads p); po_trace := po_trace p |}
  | Some (Call op k) =>
      let '(s, a) := on_cluster (cexec op) (po_state p) in
      {| po_state := s; po_threads := <[i := k a]> (po_threads p);
         po_trace := po_trace p ++ [(i, (op, a))] |}
  | _ => p
  end.

Definition run_schedule (schedule : list nat) (p : Pool) : Pool := foldl (fun p i => pool_step i p) p schedule.

(** A thread for every request. *)
Definition Pool_new (s : Gateway S * nat) (reqs : list HttpRequest) : Pool :=
  {| po_state := s; po_threads := t_handle <$> reqs; po_trace := [] |}.

(** A thread alone. *)
Fixpoint run_alone {A} (p : Thread A) : GM A :=
  match p with
  | Done r => lift r
  | Local m k => fun s => let '(s', r) := m s in run_alone (k r) s'
  | Call op k => fun s => let '(s', a) := on_cluster (cexec op) s in run_alone (k a) s'
  end.
End threads.
Arguments Pool S : clear implicits.
