(* ===== verification/ThreadsProofs.v ===== *)
(** * A thread alone

    A thread that is not interrupted does what [Gateway.handle] does. *)

From S2P Require Import Prelude CppStd Common Sqlite Store LogFacts SqliteStore SqliteStoreProofs Raft RaftProofs Metrics Shard ShardFacts ShardInv Election Replication ShardOps Restart ShardSystem ShardSpec ShardTheorems ShardProperties Cluster ClusterSpec ClusterProperties Resilience ResilienceProperties Gateway GatewayProperties Threads.

#[local] Open Scope Z_scope.

(** ** A thread alone *)

Lemma bind_ext {S A B} (m1 m2 : M S A) (f1 f2 : A -> M S B) :
  (forall s, m1 s = m2 s) -> (forall a s, f1 a s = f2 a s) -> forall s, (m1 ≫= f1) s = (m2 ≫= f2) s.
Proof. intros Hm Hf s. unfold mbind, M_bind. rewrite Hm. by destruct (m2 s) as [s' [a|e]]. Qed.

Lemma catch_ext {S A} (m1 m2 : M S A) (h1 h2 : exn -> M S A) :
  (forall s, m1 s = m2 s) -> (forall e s, h1 e s = h2 e s) -> forall s, catch m1 h1 s = catch m2 h2 s.
Proof. intros Hm Hh s. unfold catch. rewrite Hm. destruct (m2 s) as [s' [a|[]]]; by rewrite ?Hh. Qed.

Section alone.
Context (steady : nat -> Z) {S : Type} `{Store S}.
Abbreviation Thread := (prog (Gateway S * nat)).

Lemma run_alone_bind {A B} (p : Thread A) (f : A -> Thread B) s :
  run_alone (p ≫= f) s = (run_alone p ≫= (fun a => run_alone (f a))) s.
Proof.
  revert s. induction p as [[a|e]|C m k IH|op k IH]; intros s; [done|done|..];
    cbn [mbind prog_bind prog_bind_ run_alone]; unfold mbind, M_bind.
  - destruct (m s) as [s' r]. apply IH.
  - destruct (on_cluster (cexec op) s) as [s' r]. apply IH.
Qed.

Lemma run_alone_catch {A} (p : Thread A) h s :
  run_alone (prog_catch p h) s = catch (run_alone p) (fun e => run_alone (h e)) s.
Proof.
  revert s. induction p as [[a|[]]|C m k IH|op k IH]; intros s; try done;
    cbn [prog_catch run_alone]; unfold catch.
  - destruct (m s) as [s' r]. apply IH.
  - destruct (on_cluster (cexec op) s) as [s' r]. apply IH.
Qed.

Lemma run_alone_atomic {A} (m : M (Gateway S * nat) A) s : run_alone (atomic m) s = m s.
Proof. simpl. by destruct (m s). Qed.

Lemma run_alone_ret {A} (a : A) s : run_alone (mret a : Thread A) s = (mret a : M _ A) s.
Proof. done. Qed.

Lemma run_alone_if_true c (p : Thread unit) m s :
  (forall s, run_alone p s = m s) -> run_alone (if_true c p) s = when c m s.
Proof. intros Hp. destruct c; [apply Hp|done]. Qed.

Lemma on_cluster_answer {A} (f : A -> Answer) (m : M (Cluster S * World) A) s :
  on_cluster (answer f m) s =
    match on_cluster m s with
    | (s', Ok a) => (s', Ok (f a))
    | (s', Throw e) => (s', Throw e)
    end.
Proof.
  unfold on_cluster, zoom, answer, mbind, M_bind. by destruct (m _) as [c [a|e]].
Qed.

Lemma run_alone_ask_result op m s :
  cexec op = answer AResult m -> run_alone (ask_result op) s = on_cluster m s.
Proof.
  intros Hm. unfold ask_result. cbn [run_alone]. rewrite Hm, on_cluster_answer.
  by destruct (on_cluster m s) as [s' [a|e]].
Qed.

Lemma run_alone_ask_bool op m s :
  cexec op = answer ABool m -> run_alone (ask_bool op) s = on_cluster m s.
Proof.
  intros Hm. unfold ask_bool. cbn [run_alone]. rewrite Hm, on_cluster_answer.
  by destruct (on_cluster m s) as [s' [a|e]].
Qed.

Lemma run_alone_call operation key value s :
  run_alone (ask_result (key_op operation key value)) s = call operation key value s.
Proof.
  unfold key_op, call. repeat case_decide; by apply run_alone_ask_result.
Qed.

Lemma run_alone_for {A B} (l : list A) (b : B) body body' s :
  (forall b x s, run_alone (body b x : Thread B) s = body' b x s) ->
  run_alone (prog_for l b body) s = for_fold l b body' s.
Proof.
  intros Hb. revert b s. induction l as [|x l IH]; intros b s; [done|]. cbn [prog_for for_fold].
  rewrite run_alone_bind. by apply bind_ext.
Qed.
End alone.

(** [alone] compares a thread and a method of the same shape step by step. *)
Ltac alone :=
  repeat first
    [ rewrite run_alone_bind; apply bind_ext; [intros ?|intros ? ?]; cbv beta
    | apply run_alone_atomic
    | apply run_alone_call
    | apply run_alone_if_true; intros ?
    | case_decide
    | reflexivity
    | match goal with |- context [if ?b then _ else _] => destruct b end ].

Section handlers.
Context (steady : nat -> Z) {S : Type} `{Store S}.

Lemma finish_alone started r s :
  run_alone (t_finish steady started r) s = finish (S := S) steady started r s.
Proof.
  unfold t_finish, finish. rewrite run_alone_bind. apply bind_ext; [apply run_alone_atomic|].
  reflexivity.
Qed.

Lemma render_alone s :
  run_alone (t_render_prometheus (S := S)) s = self (fun g => render_prometheus (w_metrics (g_world g))) s.
Proof. destruct s as [[c [[] l] k r b mr bu br sl] n]. reflexivity. Qed.

Lemma attempts_alone n attempt operation key value shard_id res s :
  run_alone (t_attempts (S := S) steady n attempt operation key value shard_id res) s =
    attempts steady n attempt operation key value shard_id res s.
Proof.
  revert attempt res s. induction n as [|n IH]; intros attempt res s; [done|].
  cbn [t_attempts attempts]. unfold t_metric. alone. apply IH.
Qed.

Lemma execute_alone operation key value s :
  run_alone (t_execute (S := S) steady operation key value) s =
    execute_with_resilience steady operation key value s.
Proof.
  unfold t_execute, execute_with_resilience, t_metric. alone. apply attempts_alone.
Qed.

Lemma handle_kv_alone started request key s :
  run_alone (t_handle_kv (S := S) steady started request key) s = handle_kv steady started request key s.
Proof.
  unfold t_handle_kv, handle_kv, t_metric. alone; first [apply execute_alone|apply finish_alone].
Qed.

Lemma handle_replica_alone started action shard replica s :
  run_alone (t_handle_replica (S := S) steady started action shard replica) s =
    handle_replica steady started action shard replica s.
Proof.
  unfold t_handle_replica, handle_replica. rewrite run_alone_catch. apply catch_ext; intros; [|apply finish_alone].
  alone; first [by apply run_alone_ask_bool|apply finish_alone].
Qed.

Lemma handle_elect_alone started shard s :
  run_alone (t_handle_elect (S := S) steady started shard) s = handle_elect steady started shard s.
Proof.
  unfold t_handle_elect, handle_elect. rewrite run_alone_catch. apply catch_ext; intros; [|apply finish_alone].
  alone; first [by apply run_alone_ask_bool|apply finish_alone].
Qed.

(** Acting on the cluster step by step or in one go. *)
Lemma on_cluster_bind {A B} (m : M (Cluster S * World) A) (f : A -> M (Cluster S * World) B) s :
  on_cluster (m ≫= f) s = (on_cluster m ≫= (fun a => on_cluster (f a))) s.
Proof.
  destruct s as [g n]. unfold on_cluster, zoom, mbind, M_bind. cbn [fst snd].
  destruct (m (g_cluster g, g_world g)) as [[c w] [a|e]]; [|done]. cbn [fst snd].
  by destruct (f a _) as [[c' w'] [b|e]].
Qed.

Lemma on_cluster_ret {A} (a : A) s : on_cluster (mret a) s = (mret a : M (Gateway S * nat) A) s.
Proof. by destruct s as [[] n]. Qed.

Lemma on_cluster_for {A B} (l : list A) (b : B) (body : B -> A -> M (Cluster S * World) B) s :
  on_cluster (for_fold l b body) s = for_fold l b (fun b x => on_cluster (body b x)) s.
Proof.
  revert b s. induction l as [|x l IH]; intros b s; [apply on_cluster_ret|]. cbn [for_fold].
  rewrite on_cluster_bind. by apply bind_ext.
Qed.

Lemma status_json_alone s :
  run_alone (t_status_json (S := S)) s = on_cluster Cluster.status_json s.
Proof.
  unfold t_status_json, Cluster.status_json. rewrite on_cluster_bind, run_alone_bind.
  apply bind_ext; [apply run_alone_atomic|]. intros n s1. rewrite on_cluster_bind, run_alone_bind.
  apply bind_ext; [|intros; by rewrite on_cluster_ret]. intros s2. rewrite on_cluster_for.
  apply run_alone_for. intros parts i s3. rewrite on_cluster_bind, run_alone_bind.
  apply bind_ext; [apply run_alone_atomic|]. intros. by rewrite on_cluster_ret.
Qed.

Lemma status_alone started s :
  run_alone (t_status (S := S) steady started) s =
    (body ← on_cluster Cluster.status_json; finish steady started (json_response 200 body)) s.
Proof.
  unfold t_status. rewrite run_alone_bind.
  apply bind_ext; [apply status_json_alone|]. intros. apply finish_alone.
Qed.

Lemma route_alone started request s :
  run_alone (t_route_request (S := S) steady started request) s = route_request steady started request s.
Proof.
  unfold t_route_request, route_request. cbv zeta. generalize (split_path (rq_path request)) as parts.
  intros parts. destruct parts as [|p0 [|p1 [|p2 [|p3 [|]]]]]; repeat case_decide;
    lazymatch goal with
    | |- run_alone (t_handle_kv _ _ _ _) _ = _ => apply handle_kv_alone
    | |- run_alone (t_handle_elect _ _ _) _ = _ => apply handle_elect_alone
    | |- run_alone (t_handle_replica _ _ _ _ _) _ = _ => apply handle_replica_alone
    | |- run_alone (t_status _ _) _ = _ => apply status_alone
    | |- run_alone (t_finish _ _ _) _ = _ => apply finish_alone
    end.
Qed.

Lemma handle_alone request s : run_alone (t_handle (S := S) steady request) s = handle steady request s.
Proof.
  unfold t_handle, handle, t_metric. alone; first [apply render_alone|apply route_alone|apply finish_alone].
Qed.
End handlers.
