(* ===== verification/ThreadsSafe.v ===== *)
(** * Threads among others

    [safe] says of a program that, whatever the other threads do between its
    steps, each of its steps finds what it needs, keeps the invariant of the
    gateway, and ends within a number of steps; and what is known of its result
    and of its calls of the cluster. *)

From S2P Require Import Prelude CppStd Common Sqlite Store LogFacts SqliteStore SqliteStoreProofs Raft RaftProofs Metrics Shard ShardFacts ShardInv Election Replication ShardOps Restart ShardSystem ShardSpec ShardTheorems ShardProperties Cluster ClusterSpec ClusterProperties Resilience ResilienceProperties Gateway GatewayProperties Threads.

#[local] Open Scope Z_scope.

(** The calls of the cluster a thread has made, with their answers. *)
Abbreviation Calls := (list (COp * Answer)).

Section safe.
Context (steady : nat -> Z) {S : Type} `{StoreSpec S} (N : nat) (R : Z).
Context (W : COp -> Prop).
Abbreviation Thread := (prog (Gateway S * nat)).

(** The invariant of the shared state: the cluster is in a state that stands for
    the abstract cluster [ac], reached within [k] operations; there is a breaker
    for each of its [N] shards, and the gateway has [R] retries. *)
Record ok (k : nat) (ac : list AbsShard) (s : Gateway S * nat) : Prop := {
  ok_linked : linked k (g_cluster s.1) ac;
  ok_length : length (g_cluster s.1) = N;
  ok_breakers : length (g_breakers s.1) = N;
  ok_retries : g_max_retries s.1 = R;
}.

(** What a call may answer. *)
Definition possible (op : COp) (ans : Answer) : Prop :=
  exists ac ac', length ac = N /\ abs_cstep ac op ans ac'.

(** [safe P calls n c p]: having made [calls], [p] ends in at most [n] steps, at
    most [c] of them calls and all of those among [W], with a result and calls that
    satisfy [P]. *)
Inductive safe {A} (P : Calls -> A -> Prop) : Calls -> nat -> nat -> Thread A -> Prop :=
  | safe_done calls n c a : P calls a -> safe P calls n c (Done (Ok a))
  | safe_local calls n c B (m : M (Gateway S * nat) B) k :
      (forall j ac s, ok j ac s -> ok j ac (m s).1) ->
      (forall j ac s, ok j ac s -> safe P calls n c (k (m s).2)) ->
      safe P calls (Datatypes.S n) c (Local m k)
  | safe_call calls n c op k :
      W op -> sized op ->
      (forall ans, possible op ans -> safe P (calls ++ [(op, ans)]) n c (k (Ok ans))) ->
      safe P calls (Datatypes.S n) (Datatypes.S c) (Call op k).

Lemma safe_mono {A} (P Q : Calls -> A -> Prop) calls n n' c c' p :
  safe P calls n c p -> (n <= n')%nat -> (c <= c')%nat ->
  (forall calls a, P calls a -> Q calls a) -> safe Q calls n' c' p.
Proof.
  intros Hp. revert n' c'.
  induction Hp as [calls n c a|calls n c B m k Hm _ IH|calls n c op k Hw Hs _ IH]; intros n' c' Hn Hc HQ.
  - by constructor; apply HQ.
  - destruct n' as [|n']; [lia|]. constructor; [done|]. intros. eapply IH; [done|lia|done|done].
  - destruct n' as [|n']; [lia|]. destruct c' as [|c']; [lia|].
    constructor; [done|done|]. intros. apply IH; [done|lia|lia|done].
Qed.

Lemma safe_bind {A B} (P : Calls -> A -> Prop) (Q : Calls -> B -> Prop) calls n n' c c' p f :
  safe P calls n c p -> (forall calls a, P calls a -> safe Q calls n' c' (f a)) ->
  safe Q calls (n + n') (c + c') (p ≫= f).
Proof.
  intros Hp Hf. induction Hp as [calls n c a Ha|calls n c X m k Hm _ IH|calls n c op k Hw Hs _ IH].
  - cbn [mbind prog_bind prog_bind_]. eapply safe_mono; [by apply Hf|lia|lia|done].
  - cbn [mbind prog_bind prog_bind_ Nat.add]. constructor; [done|]. intros. by eapply IH.
  - cbn [mbind prog_bind prog_bind_ Nat.add]. constructor; [done|done|]. intros. by apply IH.
Qed.

Lemma safe_catch {A} (P : Calls -> A -> Prop) calls n c p h :
  safe P calls n c p -> safe P calls n c (prog_catch p h).
Proof.
  intros Hp. induction Hp as [calls n c a Ha|calls n c X m k Hm _ IH|calls n c op k Hw Hs _ IH];
    cbn [prog_catch]; constructor; try done; intros; by eapply IH.
Qed.

Lemma safe_ret {A} (P : Calls -> A -> Prop) calls n c a : P calls a -> safe P calls n c (mret a).
Proof. by constructor. Qed.

(** A step of its own. *)
Lemma safe_atomic {A} (P : Calls -> A -> Prop) calls c (m : M (Gateway S * nat) A) :
  (forall j ac s, ok j ac s -> exists s' a, m s = (s', Ok a) /\ ok j ac s' /\ P calls a) ->
  safe P calls 1 c (atomic m).
Proof.
  intros Hm. constructor; intros j ac s Hs; destruct (Hm j ac s Hs) as (s' & a & -> & Hok & HP); [done|].
  by constructor.
Qed.

(** A call, and its answer. *)
Lemma safe_ask_result (P : Calls -> OperationResult -> Prop) calls op :
  W op -> sized op ->
  (forall ans, possible op ans -> exists res, ans = AResult res /\ P (calls ++ [(op, ans)]) res) ->
  safe P calls 1 1 (ask_result op).
Proof.
  intros Hw Hs HP. constructor; [done|done|]. intros ans Hans. destruct (HP ans Hans) as (res & -> & Hres).
  by constructor.
Qed.

Lemma safe_ask_bool (P : Calls -> bool -> Prop) calls op :
  W op -> sized op ->
  (forall ans, possible op ans -> exists b, ans = ABool b /\ P (calls ++ [(op, ans)]) b) ->
  safe P calls 1 1 (ask_bool op).
Proof.
  intros Hw Hs HP. constructor; [done|done|]. intros ans Hans. destruct (HP ans Hans) as (b & -> & Hb).
  by constructor.
Qed.

(** ** The steps of the gateway *)

Lemma ok_keeps k ac (s s' : Gateway S * nat) : ok k ac s -> keeps s.1 s'.1 -> ok k ac s'.
Proof. intros [H1 H2 H3 H4] (E1 & E2 & E3 & _). split; congruence. Qed.

Lemma safe_self {A} (P : Calls -> A -> Prop) calls c (f : Gateway S -> A) :
  (forall j ac s, ok j ac s -> P calls (f s.1)) -> safe P calls 1 c (atomic (self f)).
Proof. intros Hf. apply safe_atomic. intros j ac s Hs. eexists s, _. split; [done|]. eauto. Qed.

Lemma safe_now (P : Calls -> Z -> Prop) calls c :
  (forall t, P calls t) -> safe P calls 1 c (t_now steady).
Proof.
  intros HP. apply safe_atomic. intros j ac [g n] Hs. eexists _, _. split; [done|].
  split; [by apply (ok_keeps _ _ (g, n))|done].
Qed.

Lemma safe_metric calls c f : safe (fun calls' _ => calls' = calls) calls 1 c (t_metric (S := S) f).
Proof.
  apply safe_atomic. intros j ac [g n] Hs. destruct (metric_run f g n) as (g' & E & Hk & _).
  eexists _, _. split; [exact E|]. split; [by apply (ok_keeps _ _ (g, n))|done].
Qed.

Lemma safe_breaker {A} calls c i (m : M (CircuitBreaker * nat) A) :
  0 <= i < Z.of_nat N -> (forall b n, exists b' n' a, m (b, n) = ((b', n'), Ok a)) ->
  safe (fun calls' _ => calls' = calls) calls 1 c (atomic (on_breaker (S := S) i m)).
Proof.
  intros Hi Hm. apply safe_atomic. intros j ac [g n] Hs.
  destruct (on_breaker_run (Z.to_nat i) m g n) as (g' & n' & a & E & Hk);
    [pose proof (ok_breakers _ _ _ Hs) as Hb; simpl in Hb; lia|done|].
  rewrite Z2Nat.id in E by lia. eexists _, a. split; [exact E|].
  split; [by apply (ok_keeps _ _ (g, n))|done].
Qed.

Lemma safe_sleep calls c attempt :
  0 <= attempt < 59 ->
  safe (fun calls' _ => calls' = calls) calls 1 c (atomic (sleep_before_retry (S := S) attempt)).
Proof.
  intros Ha. apply safe_atomic. intros j ac [g n] Hs. eexists _, _. split; [by apply sleep_run|].
  split; [by destruct Hs|done].
Qed.

Lemma safe_rate_limit calls c client :
  safe (fun calls' _ => calls' = calls) calls 1 c (atomic (allowed_by_rate_limit (S := S) steady client)).
Proof.
  apply safe_atomic. intros j ac [g n] Hs.
  destruct (rate_limit_run steady client g n) as (g' & n' & b & E & Hk).
  eexists _, _. split; [exact E|]. split; [by apply (ok_keeps _ _ (g, n))|done].
Qed.

(** A step and what follows, within a budget. *)
Lemma safe_seq {A B} (P : Calls -> A -> Prop) (Q : Calls -> B -> Prop) calls n n1 c c1 p f :
  safe P calls n1 c1 p -> (n1 <= n)%nat -> (c1 <= c)%nat ->
  (forall calls a, P calls a -> safe Q calls (n - n1) (c - c1) (f a)) -> safe Q calls n c (p ≫= f).
Proof.
  intros Hp Hn Hc Hf. eapply safe_mono; [exact (safe_bind _ _ _ _ _ _ _ _ _ Hp Hf)|lia|lia|done].
Qed.

(** The response with its headers: status and body are those decided before. *)
Definition responded (P : Calls -> Z -> string -> Prop) (calls : Calls) (r : HttpResponse) : Prop :=
  P calls (rs_status r) (rs_body r) /\ rs_headers r !! "X-Content-Type-Options" = Some "nosniff".

Lemma safe_finish (P : Calls -> Z -> string -> Prop) calls n c started r :
  P calls (rs_status r) (rs_body r) -> (3 <= n)%nat ->
  safe (responded P) calls n c (t_finish (S := S) steady started r).
Proof.
  intros HP Hn. unfold t_finish.
  eapply (safe_seq (fun calls' _ => calls' = calls)); [by apply (safe_now _ _ 0)|lia|lia|]. intros ? t ->. cbv zeta.
  eapply safe_seq; [apply (safe_metric _ 0)|lia|lia|]. intros ? _ ->.
  eapply safe_seq; [apply (safe_metric _ 0)|lia|lia|]. intros ? _ ->.
  apply safe_ret. split; [done|]. simpl. rewrite lookup_insert_ne by done. apply lookup_insert_eq.
Qed.
End safe.
