(* ===== verification/ThreadsHandle.v ===== *)
(** * A thread handling a request, among others

    What the response of a thread says about the calls of the cluster it made. *)

From S2P Require Import Prelude CppStd Common Sqlite Store LogFacts SqliteStore SqliteStoreProofs Raft RaftProofs Metrics Shard ShardFacts ShardInv Election Replication ShardOps Restart ShardSystem ShardSpec ShardTheorems ShardProperties Cluster ClusterSpec ClusterProperties Resilience ResilienceProperties Gateway GatewayProperties Threads ThreadsSafe.

#[local] Open Scope Z_scope.

(** ** What a response means *)

(** The key of a request for [/v1/kv/<key>]. *)
Definition kv_key (rq : HttpRequest) : option string :=
  match split_path (rq_path rq) with
  | [p0; p1; key] => if decide (p0 = "v1" /\ p1 = "kv") then Some key else None
  | _ => None
  end.

(** The calls of an operation that was tried [length tries + 1] times. *)
Definition tried (op : COp) (tries : list OperationResult) (res : OperationResult) : Calls :=
  (fun x => (op, AResult x)) <$> (tries ++ [res]).

(** The operations of administrators. *)
Definition admin_op (op : COp) : Prop :=
  match op with CFail _ _ | CRecover _ _ | CElect _ => True | _ => False end.

(** The number of the shard in the path of such an operation. *)
Definition admin_shard (rq : HttpRequest) : option string :=
  match split_path (rq_path rq) with
  | [p0; p1; shard] =>
      if decide (p0 = "admin" /\ p1 = "elect" /\ rq_method rq = "POST") then Some shard else None
  | [p0; p1; shard; _] =>
      if decide (p0 = "admin" /\ (p1 = "fail" \/ p1 = "recover") /\ rq_method rq = "POST")
      then Some shard else None
  | _ => None
  end.

(** The paths that are served without a token. *)
Definition is_open (rq : HttpRequest) : Prop := rq_path rq = "/healthz" \/ rq_path rq = "/metrics".

Definition asks_for_status (rq : HttpRequest) : Prop :=
  rq_path rq = "/admin/cluster" /\ rq_method rq = "GET".

Definition methods : list string := ["GET"; "PUT"; "DELETE"].

(** [{"status":"..."}] *)
Definition status_body (text : string) : string := "{" +:+ q "status" +:+ ":" +:+ q text +:+ "}".

(** The status and the body that a request and the answers of the calls made for
    it lead to. *)
Inductive answered_by (rq : HttpRequest) : Calls -> Z -> string -> Prop :=
  | by_health : rq_path rq = "/healthz" -> answered_by rq [] 200 (status_body "ok")
  | by_metrics m : rq_path rq = "/metrics" -> answered_by rq [] 200 (render_prometheus m)
  | by_unauthorized :
      ~ is_open rq -> answered_by rq [] 401 (error_body "missing or invalid bearer token")
  | by_rate_limit : ~ is_open rq -> answered_by rq [] 429 (error_body "rate limit exceeded")
  | by_bad_key key :
      kv_key rq = Some key -> ssize key = 0 \/ 512 < ssize key ->
      answered_by rq [] 400 (error_body "key must be 1-512 characters")
  | by_bad_method key :
      kv_key rq = Some key -> rq_method rq ∉ methods ->
      answered_by rq [] 405 (error_body "method not allowed")
  | by_large_value key :
      kv_key rq = Some key -> rq_method rq = "PUT" -> 1024 * 1024 < ssize (rq_body rq) ->
      answered_by rq [] 413 (error_body "value exceeds 1 MiB")
  | by_open_breaker key shard :
      kv_key rq = Some key -> rq_method rq ∈ methods ->
      answered_by rq [] 503 ("{" +:+ q "error" +:+ ":" +:+ q "circuit breaker is open" +:+ ","
                             +:+ q "shard" +:+ ":" +:+ to_string shard +:+ "}")
  | by_operation key tries res :
      (* the operation was tried until its status was below 500 *)
      kv_key rq = Some key -> rq_method rq ∈ methods ->
      Forall (fun x => res_status x = 503) tries -> res_status res ∈ [200; 201; 404; 503] ->
      answered_by rq (tried (key_op (rq_method rq) key (rq_body rq)) tries res)
        (res_status res) (operation_body (rq_method rq) key res)
  | by_status body : asks_for_status rq -> answered_by rq [] 200 body
  | by_no_route :
      kv_key rq = None -> admin_shard rq = None -> ~ asks_for_status rq ->
      answered_by rq [] 404 (error_body "route not found")
  | by_bad_shard text e :
      admin_shard rq = Some text -> stoull text = Throw e ->
      answered_by rq [] 400 (error_body "invalid shard id")
  | by_replica action text id replica b :
      split_path (rq_path rq) = ["admin"; action; text; replica] -> rq_method rq = "POST" ->
      action = "fail" \/ action = "recover" -> stoull text = Ok id ->
      answered_by rq
        [(if decide (action = "fail") then CFail id replica else CRecover id replica, ABool b)]
        (if b then 200 else 404)
        (if b then "{" +:+ q "status" +:+ ":" +:+ q "ok" +:+ "," +:+ q "action" +:+ ":" +:+ q (json_escape action)
                   +:+ "," +:+ q "replica" +:+ ":" +:+ q (json_escape replica) +:+ "}"
         else error_body "replica or shard not found")
  | by_elect text id b :
      split_path (rq_path rq) = ["admin"; "elect"; text] -> rq_method rq = "POST" -> stoull text = Ok id ->
      answered_by rq [(CElect id, ABool b)] (if b then 200 else 503)
        (if b then status_body "leader elected" else error_body "leader election failed").

(** The calls a thread may make for a request. *)
Definition op_of (rq : HttpRequest) (op : COp) : Prop :=
  match kv_key rq with
  | Some key => rq_method rq ∈ methods /\ op = key_op (rq_method rq) key (rq_body rq)
  | None => admin_op op
  end.

(** Statuses of operations on a key, and answers of the other operations. *)
Lemma possible_key N operation key value ans :
  possible N (key_op operation key value) ans ->
  exists res, ans = AResult res /\ res_status res ∈ [200; 201; 404; 503].
Proof.
  intros (ac & ac' & _ & Hst). assert (exists res, ans = AResult res) as [res ->].
  { unfold key_op in Hst.
    destruct Hst as [i sop a ans a' Ht _ Hst|Ht]; repeat case_decide; simpl in Ht; simplify_eq;
      inversion Hst; eauto. }
  exists res. split; [done|]. by eapply key_op_status.
Qed.

Lemma possible_bool N op ans :
  possible N op ans -> admin_op op -> exists b, ans = ABool b.
Proof.
  intros (ac & ac' & _ & Hst) Hop.
  destruct Hst as [i sop a ans a' Ht _ Hst|Ht]; [|by eexists].
  destruct op; simpl in *; try done; destruct (_ <? _); simplify_eq; inversion Hst; eauto.
Qed.

Section handle.
Context (steady : nat -> Z) {S : Type} `{StoreSpec S} (N : nat) (R : Z).
Context (HR : 0 <= R <= 59) (HN : (1 <= N)%nat).
Context (W : COp -> Prop).
Abbreviation safe := (safe N R W).

(** ** Operations on a key *)

Lemma safe_retry calls n c attempt :
  0 <= attempt < 59 -> (2 <= n)%nat ->
  safe (fun calls' _ => calls' = calls) calls n c
    (if_true (attempt <? R) (t_metric (S := S) inc_retry ;; atomic (sleep_before_retry attempt))).
Proof.
  intros Ha Hn. destruct (attempt <? R); [|by apply safe_ret].
  eapply safe_seq; [apply (safe_metric _ _ _ _ 0)|lia|lia|]. intros ? _ ->.
  eapply safe_mono; [by apply (safe_sleep N R W calls 0)|lia|lia|done].
Qed.

Lemma safe_attempts m n c calls attempt operation key value shard_id res0 :
  W (key_op operation key value) -> fits_int value -> 0 <= shard_id < Z.of_nat N -> 0 <= attempt ->
  attempt + Z.of_nat m = R + 1 -> (0 < m)%nat -> (5 * m <= n)%nat -> (m <= c)%nat ->
  safe (fun calls' res => exists tries, calls' = calls ++ tried (key_op operation key value) tries res /\
          Forall (fun x => res_status x = 503) tries /\ res_status res ∈ [200; 201; 404; 503])
    calls n c (t_attempts (S := S) steady m attempt operation key value shard_id res0).
Proof.
  intros HW Hv Hi. revert n c calls attempt res0.
  induction m as [|m IH]; intros n c calls attempt res0 Ha Hm Hpos Hn Hc; [lia|]. cbn [t_attempts].
  eapply (safe_seq _ _ _ (fun calls' res => calls' = calls ++ [(key_op operation key value, AResult res)] /\
    res_status res ∈ [200; 201; 404; 503]) _ _ n 1 c 1); [|lia|lia|].
  { apply safe_ask_result; [done|unfold key_op; by repeat case_decide|].
    intros ans (res & -> & Hres)%possible_key. by exists res. }
  intros calls1 res [-> Hres]. destruct (res_status res <? 500) eqn:E500.
  - eapply safe_seq; [apply (safe_breaker _ _ _ _ 0); [done|apply record_success_total]|lia|lia|].
    intros ? _ ->. apply safe_ret. exists []. split_and!; [done|constructor|done].
  - assert (H503 : res_status res = 503) by (clear -E500 Hres; set_solver by lia).
    eapply safe_seq; [apply (safe_breaker _ _ _ _ 0); [done|apply record_failure_total]|lia|lia|].
    intros ? _ ->.
    eapply (safe_seq _ _ _ (fun calls' r => calls' = calls ++ [(key_op operation key value, AResult res)] /\ r = R));
      [apply (safe_self _ _ _ _ _ 0); intros j ac s Hs; split; [done|apply Hs]|lia|lia|].
    intros ? ? [-> ->]. destruct m as [|m].
    + assert ((attempt <? R) = false) as -> by lia. cbn [if_true]. apply safe_ret.
      exists []. split_and!; [done|constructor|done].
    + eapply (safe_seq _ _ _ _ _ _ _ 2 _ 0); [apply safe_retry; lia|lia|lia|]. intros ? _ ->.
      eapply safe_mono; [apply (IH (n - 1 - 1 - 1 - 2)%nat (c - 1 - 0 - 0 - 0)%nat); lia|lia|lia|].
      intros calls' res' (tries & -> & Ht & Hres'). exists (res :: tries).
      split_and!; [by rewrite <- app_assoc|by constructor|done].
Qed.

(** The status and the body of an operation on a key. *)
Definition executed (calls0 : Calls) (operation key value : string) (calls : Calls) (r : HttpResponse) : Prop :=
  (calls = calls0 /\ rs_status r = 503 /\
   exists shard, rs_body r = "{" +:+ q "error" +:+ ":" +:+ q "circuit breaker is open" +:+ ","
                             +:+ q "shard" +:+ ":" +:+ to_string shard +:+ "}") \/
  exists tries res, calls = calls0 ++ tried (key_op operation key value) tries res /\
    Forall (fun x => res_status x = 503) tries /\ res_status res ∈ [200; 201; 404; 503] /\
    rs_status r = res_status res /\ rs_body r = operation_body operation key res.

Lemma safe_execute n c calls operation key value :
  W (key_op operation key value) -> fits_int value -> (5 * Z.to_nat (R + 1) + 4 <= n)%nat -> (Z.to_nat (R + 1) <= c)%nat ->
  safe (executed calls operation key value) calls n c (t_execute (S := S) steady operation key value).
Proof.
  intros HW Hv Hn Hc. unfold t_execute.
  eapply (safe_seq _ _ _ (fun calls' i => calls' = calls /\ 0 <= i < Z.of_nat N)).
  { apply (safe_self _ _ _ _ _ 0). intros j ac s Hs. split; [done|].
    pose proof (shard_for_key_range key (g_cluster s.1)) as Hx. unfold shard_count in Hx.
    rewrite (ok_length _ _ _ _ _ Hs) in Hx. by apply Hx. }
  { lia. } { lia. }
  intros ? i [-> Hi].
  eapply safe_seq; [apply (safe_breaker _ _ _ _ 0); [done|apply allow_request_total]|lia|lia|].
  intros ? allowed ->. destruct allowed; cbn [negb].
  - eapply (safe_seq _ _ _ (fun calls' r => calls' = calls /\ r = R));
      [apply (safe_self _ _ _ _ _ 0); intros j ac s Hs; split; [done|apply Hs]|lia|lia|].
    intros ? ? [-> ->]. eapply (safe_seq _ _ _ _ _ _ _ (5 * Z.to_nat (R + 1)) _ (Z.to_nat (R + 1)));
      [apply safe_attempts; [done|done|done|lia..]|lia|lia|].
    intros ? res (tries & -> & Ht & Hres).
    eapply (safe_seq _ _ _ (fun calls' _ => calls' = calls ++ tried (key_op operation key value) tries res) _ _ _ 1 _ 0).
    { destruct (500 <=? res_status res); [apply safe_metric|by apply safe_ret]. }
    { lia. } { lia. }
    intros ? _ ->. apply safe_ret. right. by exists tries, res.
  - eapply safe_seq; [apply (safe_metric _ _ _ _ 0)|lia|lia|]. intros ? _ ->.
    apply safe_ret. left. split_and!; [done|done|]. exists i. unfold field_raw. simpl.
    by rewrite !app_assoc_str.
Qed.

End handle.

Section request.
Context (steady : nat -> Z) {S : Type} `{StoreSpec S} (N : nat) (R : Z).
Context (HR : 0 <= R <= 59) (HN : (1 <= N)%nat) (rq : HttpRequest).
Abbreviation safe := (ThreadsSafe.safe N R (op_of rq)).
Abbreviation request_steps := (5 * Z.to_nat (R + 1) + N + 16)%nat.
Abbreviation request_calls := (Z.to_nat (R + 1)).

(** An operation on a key, counted in the metrics. *)
Lemma safe_operation started f operation key value n c :
  fits_int value -> kv_key rq = Some key -> rq_method rq = operation ->
  operation ∈ methods -> key_op operation key value = key_op operation key (rq_body rq) ->
  (5 * Z.to_nat (R + 1) + 8 <= n)%nat -> (request_calls <= c)%nat ->
  safe (responded (answered_by rq)) [] n c
    (t_metric (S := S) f ;; r ← t_execute steady operation key value; t_finish steady started r).
Proof.
  intros Hv Hk Hm Hin Hop Hn Hc.
  eapply safe_seq; [apply (safe_metric _ _ _ _ 0)|lia|lia|]. intros ? _ ->.
  eapply (safe_seq _ _ _ _ _ _ _ (5 * Z.to_nat (R + 1) + 4) _ request_calls);
    [apply safe_execute; try done; rewrite Hop, <- Hm; unfold op_of; rewrite Hk; by rewrite Hm|lia|lia|].
  intros calls r Hr. apply safe_finish; [|lia].
  destruct Hr as [(-> & -> & shard & ->)|(tries & res & -> & Ht & Hres & -> & ->)].
  - apply (by_open_breaker _ key); [done|by rewrite Hm].
  - rewrite Hop, <- Hm. apply by_operation; try done. by rewrite Hm.
Qed.

(** A response that needs no call. *)
Lemma safe_reply started r n c :
  answered_by rq [] (rs_status r) (rs_body r) -> (3 <= n)%nat ->
  safe (responded (answered_by rq)) [] n c (t_finish (S := S) steady started r).
Proof. intros Hr Hn. by apply safe_finish. Qed.

Lemma safe_handle_kv started key n c :
  kv_key rq = Some key -> (5 * Z.to_nat (R + 1) + 8 <= n)%nat -> (request_calls <= c)%nat ->
  safe (responded (answered_by rq)) [] n c (t_handle_kv (S := S) steady started rq key).
Proof.
  intros Hk Hn Hc. unfold t_handle_kv.
  destruct ((ssize key =? 0) || (512 <? ssize key)) eqn:Hs.
  { apply safe_reply; [|lia]. apply (by_bad_key _ key); [done|]. lia. }
  case_decide as Hg; [apply safe_operation; first [done|unfold methods; set_solver]|].
  case_decide as Hp.
  { destruct (1024 * 1024 <? ssize (rq_body rq)) eqn:Hl.
    - apply safe_reply; [|lia]. apply (by_large_value _ key); [done|done|]. lia.
    - apply safe_operation; first [done|unfold fits_int, int_max; simpl; lia|unfold methods; set_solver]. }
  case_decide as Hd; [apply safe_operation; first [done|unfold methods; set_solver]|].
  apply safe_reply; [|lia]. apply (by_bad_method _ key); [done|]. unfold methods. set_solver.
Qed.

(** ** Administration *)

Lemma safe_admin started text (op : Z -> COp) (yes no : HttpResponse) n c :
  kv_key rq = None -> admin_shard rq = Some text ->
  (forall id, 0 <= id -> admin_op (op id) /\ sized (op id)) ->
  (forall id b, stoull text = Ok id ->
     answered_by rq [(op id, ABool b)] (rs_status (if b then yes else no)) (rs_body (if b then yes else no))) ->
  (4 <= n)%nat -> (1 <= c)%nat ->
  safe (responded (answered_by rq)) [] n c
    (prog_catch (id ← lift_result (stoull text); ok ← ask_bool (op id);
                 if negb ok then t_finish steady started no else t_finish (S := S) steady started yes)
       (fun _ => t_finish steady started (json_response 400 (error_body "invalid shard id")))).
Proof.
  intros Hk Hsh Hop Hans Hn Hc. destruct (stoull text) as [id|e] eqn:E.
  - destruct (Hop id (stou_nonneg _ _ _ E)) as [Ha Hs]. apply safe_catch.
    change (lift_result (Ok id) ≫= ?f) with (f id).
    eapply (safe_seq _ _ _ (fun calls b => calls = [(op id, ABool b)]) _ _ _ 1 _ 1); [|lia|lia|].
    { apply safe_ask_bool; [unfold op_of; by rewrite Hk|done|]. intros ans Hp. destruct (possible_bool N _ ans Hp Ha) as [b ->]. by exists b. }
    intros ? b ->. specialize (Hans id b eq_refl). destruct b; cbn [negb]; (apply safe_finish; [done|lia]).
  - assert (Hbad : safe (responded (answered_by rq)) [] n c
      (t_finish (S := S) steady started (json_response 400 (error_body "invalid shard id")))).
    { apply safe_reply; [|lia]. by apply (by_bad_shard _ text e). }
    by apply stou_throw in E as [-> | ->].
Qed.

Lemma safe_handle_replica started action shard replica n c :
  split_path (rq_path rq) = ["admin"; action; shard; replica] -> rq_method rq = "POST" ->
  action = "fail" \/ action = "recover" -> (4 <= n)%nat -> (1 <= c)%nat ->
  safe (responded (answered_by rq)) [] n c (t_handle_replica (S := S) steady started action shard replica).
Proof.
  intros Hp Hm Ha Hn Hc. unfold t_handle_replica.
  apply (safe_admin started shard
    (fun id => if decide (action = "fail") then CFail id replica else CRecover id replica)); try done.
  - unfold kv_key. by rewrite Hp.
  - unfold admin_shard. rewrite Hp. by rewrite decide_True.
  - intros id Hid. by case_decide.
  - intros id b Hid. pose proof (by_replica rq action shard id replica b Hp Hm Ha Hid) as Hb.
    destruct b; [|exact Hb]. simpl. unfold field_raw, field_str, field_raw. by rewrite !app_assoc_str.
Qed.

Lemma safe_handle_elect started shard n c :
  split_path (rq_path rq) = ["admin"; "elect"; shard] -> rq_method rq = "POST" -> (4 <= n)%nat -> (1 <= c)%nat ->
  safe (responded (answered_by rq)) [] n c (t_handle_elect (S := S) steady started shard).
Proof.
  intros Hp Hm Hn Hc. unfold t_handle_elect. apply (safe_admin started shard CElect); try done.
  - unfold kv_key. by rewrite Hp.
  - unfold admin_shard. rewrite Hp. by rewrite decide_True.
  - intros id b Hid. pose proof (by_elect rq shard id b Hp Hm Hid) as Hb. by destruct b.
Qed.

(** ** The status of the cluster *)

Lemma linked_shard_status k (c : Cluster S) w ac i :
  linked k c ac -> (i < length c)%nat ->
  exists c' w' s, Cluster.on_shard (Z.of_nat i) Shard.status_json (c, w) = ((c', w'), Ok s) /\
    linked k c' ac /\ length c' = length c.
Proof.
  intros [Hl (c2 & Hc & Hr)] Hi. pose proof (Forall2_length _ _ _ Hc) as Hlen.
  assert (Hrun : exists x, Cluster.on_shard (Z.of_nat i) Shard.status_json (c2, w) = ((c2, w), Ok x)).
  { destruct (lookup_lt_is_Some_2 c2 i) as [sh Hsh]; [lia|].
    unfold Cluster.on_shard. simpl. rewrite Nat2Z.id, Hsh, status_run. eexists. by rewrite list_insert_id. }
  destruct Hrun as [x Hrun].
  destruct (cluster_on_shard_sim (Z.of_nat i) Shard.status_json Shard.status_json shard_status_sim (c, w) (c2, w))
    as ([c' w'] & s2 & a & E1 & E2 & [Hc' _]); [by split|].
  rewrite Hrun in E2. injection E2 as <- <-. simpl in *. pose proof (Forall2_length _ _ _ Hc').
  exists c', w', x. split_and!; [done|split; [lia|by exists c2]|lia].
Qed.

Lemma safe_status_json n c calls :
  (N + 1 <= n)%nat -> safe (fun calls' _ => calls' = calls) calls n c (t_status_json (S := S)).
Proof.
  intros Hn. unfold t_status_json.
  eapply (safe_seq _ _ _ (fun calls' x => calls' = calls /\ x = Z.of_nat N) _ _ _ 1 _ 0); [|lia|lia|].
  { apply safe_atomic. intros j ac [g k] Hs. eexists (g, k), _. split; [by destruct g|].
    split; [done|]. split; [done|]. unfold shard_count. by rewrite <- (ok_length _ _ _ _ _ Hs). }
  intros ? x [-> ->]. rewrite Nat2Z.id.
  assert (Hloop : forall l parts, (forall i, i ∈ l -> (i < N)%nat) ->
    safe (fun calls' (_ : list string) => calls' = calls) calls (length l) 0
      (prog_for (Z.of_nat <$> l) parts (fun parts i =>
         part ← atomic (on_cluster (S := S) (Cluster.on_shard i Shard.status_json)); mret (parts ++ [part])))).
  { induction l as [|i l IH]; intros parts Hl; [by apply safe_ret|]. rewrite fmap_cons. cbn [prog_for length].
    eapply (safe_seq _ _ _ (fun calls' _ => calls' = calls) _ _ _ 1 _ 0); [|lia|lia|].
    { eapply (safe_seq _ _ _ (fun calls' _ => calls' = calls) _ _ _ 1 _ 0); [|lia|lia|by intros; apply safe_ret].
      apply safe_atomic. intros j ac [g k] Hs.
      destruct (linked_shard_status j (g_cluster g) (g_world g) ac i (ok_linked _ _ _ _ _ Hs))
        as (c' & w' & s & E & Hk & Hlen); [pose proof (ok_length _ _ _ _ _ Hs) as Hg; simpl in Hg; rewrite Hg; apply Hl; by left|].
      eexists _, s. unfold on_cluster, zoom. cbn [fst snd]. rewrite E. split; [done|]. split; [|done].
      destruct Hs as [F1 F2 F3 F4]. simpl in *. split; simpl; congruence || done. }
    intros ? a ->. eapply safe_mono; [apply IH|lia|lia|done]. intros j Hj. apply Hl. by right. }
  eapply (safe_seq _ _ _ _ _ _ _ _ _ 0); [apply Hloop; intros i Hi%elem_of_seq; lia|rewrite length_seq; lia|lia|].
  intros ? parts ->. by apply safe_ret.
Qed.

Lemma safe_status started n c :
  asks_for_status rq -> (N + 4 <= n)%nat ->
  safe (responded (answered_by rq)) [] n c (t_status (S := S) steady started).
Proof.
  intros Hk Hn. unfold t_status.
  eapply (safe_seq _ _ _ _ _ _ _ (N + 1) _ 0); [by apply safe_status_json|lia|lia|]. intros ? body ->.
  apply safe_reply; [by apply by_status|lia].
Qed.

(** ** A whole request *)

Lemma safe_route started n c :
  (5 * Z.to_nat (R + 1) + N + 8 <= n)%nat -> (request_calls <= c)%nat ->
  safe (responded (answered_by rq)) [] n c (t_route_request (S := S) steady started rq).
Proof.
  intros Hn Hc. unfold t_route_request. cbv zeta.
  assert (H404 : kv_key rq = None -> admin_shard rq = None -> ~ asks_for_status rq ->
    safe (responded (answered_by rq)) [] n c
      (t_finish (S := S) steady started (json_response 404 (error_body "route not found")))).
  { intros. apply safe_reply; [by apply by_no_route|lia]. }
  change (rq_path rq = "/admin/cluster" /\ rq_method rq = "GET") with (asks_for_status rq).
  destruct (split_path (rq_path rq)) as [|p0 [|p1 [|p2 [|p3 [|]]]]] eqn:Hp;
    repeat match goal with |- context [decide ?P] => destruct (decide P) end;
    lazymatch goal with
    | |- safe _ _ _ _ (t_handle_kv _ _ _ _) =>
        apply safe_handle_kv; [unfold kv_key; rewrite Hp; by rewrite decide_True|lia|done]
    | |- safe _ _ _ _ (t_handle_elect _ _ _) =>
        match goal with H : _ /\ _ /\ _ |- _ => destruct H as (-> & -> & ?) end;
        apply safe_handle_elect; [done|done|lia|lia]
    | |- safe _ _ _ _ (t_handle_replica _ _ _ _ _) =>
        match goal with H : _ /\ _ /\ _ |- _ => destruct H as (-> & ? & ?) end;
        apply safe_handle_replica; [done|done|done|lia|lia]
    | |- safe _ _ _ _ (t_status _ _) => apply safe_status; [done|lia]
    | |- safe _ _ _ _ (t_finish _ _ _) =>
        apply H404; [unfold kv_key|unfold admin_shard|done]; rewrite Hp; by rewrite ?decide_False
    end.
Qed.

Lemma safe_render n c calls :
  (12 <= n)%nat ->
  safe (fun calls' body => calls' = calls /\ exists m, body = render_prometheus m) calls n c
    (t_render_prometheus (S := S)).
Proof.
  intros Hn. unfold t_render_prometheus, t_load.
  do 12 (eapply (safe_seq _ _ _ (fun calls' _ => calls' = calls) _ _ _ 1 _ 0);
         [by apply safe_self|lia|lia|intros ? ? ->]).
  apply safe_ret. split; [done|]. by eexists.
Qed.

Lemma safe_handle :
  safe (responded (answered_by rq)) [] request_steps request_calls (t_handle (S := S) steady rq).
Proof.
  unfold t_handle.
  eapply (safe_seq _ _ _ (fun calls' _ => calls' = []) _ _ _ 1 _ 0); [by apply safe_now|lia|lia|].
  intros ? started ->.
  case_decide as Hh; [apply safe_reply; [by apply by_health|lia]|].
  case_decide as Hm.
  { eapply (safe_seq _ _ _ _ _ _ _ 12 _ 0); [by apply safe_render|lia|lia|]. intros ? body [-> [x ->]].
    apply safe_reply; [by apply by_metrics|lia]. }
  assert (Hopen : ~ is_open rq) by (by intros [?|?]).
  eapply (safe_seq _ _ _ (fun calls' _ => calls' = []) _ _ _ 1 _ 0); [by apply safe_self|lia|lia|].
  intros ? authorised ->. destruct authorised; cbn [negb].
  - eapply (safe_seq _ _ _ _ _ _ _ 1 _ 0); [apply safe_rate_limit|lia|lia|]. intros ? allowed ->.
    destruct allowed; cbn [negb]; [apply safe_route; lia|].
    eapply (safe_seq _ _ _ _ _ _ _ 1 _ 0); [apply safe_metric|lia|lia|]. intros ? _ ->.
    apply safe_reply; [by apply by_rate_limit|lia].
  - eapply (safe_seq _ _ _ _ _ _ _ 1 _ 0); [apply safe_metric|lia|lia|]. intros ? _ ->.
    apply safe_reply; [by apply by_unauthorized|lia].
Qed.
End request.
