(* ===== verification/ThreadsPool.v ===== *)
(** * Any number of threads under any schedule *)

From S2P Require Import Prelude CppStd Common Sqlite Store LogFacts SqliteStore SqliteStoreProofs Raft RaftProofs Metrics Shard ShardFacts ShardInv Election Replication ShardOps Restart ShardSystem ShardSpec ShardTheorems ShardProperties Cluster ClusterSpec ClusterProperties Resilience ResilienceProperties Gateway GatewayProperties Threads ThreadsSafe ThreadsHandle.

#[local] Open Scope Z_scope.

(** The steps that are enough for a request, and the calls it makes at most. *)
Definition request_steps (shards : nat) (retries : Z) : nat := (5 * Z.to_nat (retries + 1) + shards + 16)%nat.
Definition request_calls (retries : Z) : nat := Z.to_nat (retries + 1).

(** How often a thread is scheduled. *)
Definition turns (i : nat) (schedule : list nat) : nat := length (filter (eq i) schedule).

Lemma turns_snoc i schedule j :
  turns i (schedule ++ [j]) = (turns i schedule + if decide (i = j) then 1 else 0)%nat.
Proof.
  unfold turns. rewrite filter_app, length_app. f_equal. rewrite filter_cons, filter_nil.
  by case_decide.
Qed.

(** The calls of one thread, and of all threads, in a trace. *)
Definition answer_of (e : nat * (COp * result Answer)) : option Answer :=
  match e.2.2 with Ok a => Some a | Throw _ => None end.

Definition calls_of (i : nat) (trace : list (nat * (COp * result Answer))) : Calls :=
  omap (fun e => if decide (e.1 = i) then (pair e.2.1) <$> answer_of e else None) trace.

Lemma calls_of_snoc i trace j op ans :
  calls_of i (trace ++ [(j, (op, Ok ans))]) =
    calls_of i trace ++ (if decide (j = i) then [(op, ans)] else []).
Proof. unfold calls_of. rewrite omap_app. f_equal. simpl. by case_decide. Qed.

Lemma abs_crun_snoc ac0 ops l ac op ans ac' :
  abs_crun ac0 ops l ac -> abs_cstep ac op ans ac' -> abs_crun ac0 (ops ++ [op]) (l ++ [ans]) ac'.
Proof.
  induction 1 as [|c o a c1 ops l c2 Hs _ IH]; intros Hst; [econstructor; [exact Hst|constructor]|].
  econstructor; [exact Hs|]. by apply IH.
Qed.

Lemma sum_list_decrement (cs : list nat) i c :
  cs !! i = Some (S c) -> (sum_list (<[i := c]> cs) + 1 = sum_list cs)%nat.
Proof.
  revert i. induction cs as [|x cs IH]; intros [|i] Hi; simpl in *; simplify_eq; [lia|].
  rewrite <- (IH i Hi). lia.
Qed.

Section pool.
Context (steady : nat -> Z) {S : Type} `{StoreSpec S} (N : nat) (R : Z).
Context (HR : 0 <= R <= 59) (HN : (1 <= N)%nat) (reqs : list HttpRequest) (ac0 : list AbsShard).

(** After [schedule]: the shared state satisfies the invariant, the calls made so
    far are a run of the abstract cluster, and every thread is safe within what is
    left of its budget. *)
Record pool_inv (schedule : list nat) (p : Pool S) : Prop := {
  pi_state : exists k ac l cs, ok N R k ac (po_state p) /\
    (po_trace p).*2.*2 = Ok <$> l /\ abs_crun ac0 ((po_trace p).*2.*1) l ac /\
    Z.of_nat (k + sum_list cs) <= int64_max /\
    (forall i th, po_threads p !! i = Some th -> exists rq c, reqs !! i = Some rq /\ cs !! i = Some c /\
       safe N R (op_of rq) (responded (answered_by rq)) (calls_of i (po_trace p))
         (request_steps N R - turns i schedule) c th);
  pi_length : length (po_threads p) = length reqs;
  pi_own : Forall (fun e => exists rq, reqs !! e.1 = Some rq /\ op_of rq e.2.1) (po_trace p);
}.

Lemma pool_inv_new k s :
  ok N R k ac0 s -> Z.of_nat k + Z.of_nat (length reqs) * (R + 1) <= int64_max ->
  pool_inv [] (Pool_new steady s reqs).
Proof.
  intros Hs Hb. split; [|by simpl; rewrite length_fmap|constructor].
  exists k, ac0, [], (replicate (length reqs) (request_calls R)). split_and!; simpl; try done.
  - constructor.
  - unfold request_calls. rewrite sum_list_replicate, Nat2Z.inj_add, Nat2Z.inj_mul, Z2Nat.id by lia. lia.
  - intros i th Hi. rewrite list_lookup_fmap in Hi. destruct (reqs !! i) as [rq|] eqn:E; [|done].
    injection Hi as <-. exists rq, (request_calls R). split_and!; [done| |].
    + apply lookup_replicate. split; [done|]. by eapply lookup_lt_Some.
    + unfold turns. rewrite Nat.sub_0_r. by apply safe_handle.
Qed.

Lemma pool_inv_step schedule p i :
  pool_inv schedule p -> pool_inv (schedule ++ [i]) (pool_step i p).
Proof.
  intros [(k & ac & l & cs & Hok & Htr & Hrun & Hb & Hth) Hlen Hown]. unfold pool_step.
  assert (Hturn : forall j, j <> i -> turns j (schedule ++ [i]) = turns j schedule).
  { intros j Hj. rewrite turns_snoc, decide_False by done. lia. }
  assert (Hmine : turns i (schedule ++ [i]) = Datatypes.S (turns i schedule)).
  { rewrite turns_snoc, decide_True by done. lia. }
  destruct (po_threads p !! i) as [th|] eqn:E.
  2: { split; [|done|done]. exists k, ac, l, cs. split_and!; try done. intros j th Hj.
       assert (j <> i) by congruence. rewrite Hturn by done. by apply Hth. }
  pose proof (lookup_lt_Some _ _ _ E) as Hlt.
  destruct (Hth i th E) as (rq & c & Hrq & Hc & Hsafe).
  inversion Hsafe as [calls n c' a HP|calls n c' B m f Hm Hk|calls n c' op f Hw Hs Hk]; subst.
  - split; [|done|done]. exists k, ac, l, cs. split_and!; try done. intros j th Hj.
    destruct (decide (j = i)) as [->|Hne]; [|rewrite Hturn by done; by apply Hth].
    rewrite E in Hj. injection Hj as <-. exists rq, c. split_and!; try done. by constructor.
  - specialize (Hm k ac (po_state p) Hok). specialize (Hk k ac (po_state p) Hok).
    destruct (m (po_state p)) as [s' r]. simpl in *. split; [|simpl; by rewrite length_insert|done].
    exists k, ac, l, cs. split_and!; try done. simpl. intros j th Hj.
    destruct (decide (j = i)) as [->|Hne].
    + rewrite list_lookup_insert_eq in Hj by done. injection Hj as <-. exists rq, c. split_and!; try done.
      rewrite Hmine. eapply safe_mono; [exact Hk|lia|lia|done].
    + rewrite list_lookup_insert_ne in Hj by done. rewrite Hturn by done. by apply Hth.
  - pose proof (sum_list_decrement _ _ _ Hc) as Hsum.
    destruct Hok as [F1 F2 F3 F4].
    destruct (linked_exec k _ (g_world (po_state p).1) ac op F1) as (cl & w & ans & ac' & Ex & Hl & Hcl & Hst);
      [lia|done|].
    unfold on_cluster, zoom. cbn [fst snd]. rewrite Ex. simpl.
    split; [|simpl; by rewrite length_insert|simpl; apply Forall_app; split; [done|repeat constructor; by exists rq]].
    exists (Datatypes.S k), ac', (l ++ [ans]), (<[i := c']> cs). cbn [po_state po_threads po_trace].
    assert (Hpos : possible N op ans).
    { exists ac, ac'. split; [|done]. by rewrite (linked_length _ _ _ F1). }
    split_and!.
    + split; simpl; congruence || done.
    + rewrite !fmap_app, Htr. done.
    + rewrite !fmap_app. by eapply abs_crun_snoc.
    + lia.
    + intros j th Hj. destruct (decide (j = i)) as [->|Hne].
      * rewrite list_lookup_insert_eq in Hj by done. injection Hj as <-. exists rq, c'.
        split_and!; [done|apply list_lookup_insert_eq; by eapply lookup_lt_Some|].
        rewrite calls_of_snoc, decide_True by done. rewrite Hmine.
        eapply safe_mono; [by apply Hk|lia|lia|done].
      * rewrite list_lookup_insert_ne in Hj by done. destruct (Hth j th Hj) as (rqj & cj & ? & ? & ?).
        exists rqj, cj. rewrite list_lookup_insert_ne by done. rewrite Hturn by done.
        rewrite calls_of_snoc, decide_False, app_nil_r by done. done.
Qed.

Lemma pool_inv_run schedule0 schedule p :
  pool_inv schedule0 p -> pool_inv (schedule0 ++ schedule) (run_schedule schedule p).
Proof.
  revert schedule0 p. induction schedule as [|i schedule IH]; intros schedule0 p Hp; simpl.
  - by rewrite app_nil_r.
  - replace (schedule0 ++ i :: schedule) with ((schedule0 ++ [i]) ++ schedule) by (by rewrite <- app_assoc).
    apply IH. by apply pool_inv_step.
Qed.
End pool.

(** ** Traces *)

(** The last call of a thread. *)
Lemma calls_of_last i trace calls op ans :
  calls_of i trace = calls ++ [(op, ans)] ->
  exists before after, trace = before ++ (i, (op, Ok ans)) :: after /\
    Forall (fun e => e.1 = i -> answer_of e = None) after.
Proof.
  induction trace as [|e trace IH] using rev_ind; intros E.
  - by destruct calls.
  - unfold calls_of in E. rewrite omap_app in E. fold (calls_of i trace) in E. cbn [omap list_omap] in E.
    destruct (decide (e.1 = i)) as [Hi|Hi].
    + destruct (answer_of e) as [a|] eqn:Ha; cbn [fmap option_fmap option_map] in E.
      * apply app_inj_tail in E as [_ E]. exists trace, []. split; [|constructor].
        f_equal. f_equal. destruct e as [j [o [b|]]]; unfold answer_of in Ha; simpl in *; by simplify_eq.
      * rewrite app_nil_r in E. destruct (IH E) as (before & after & -> & HF).
        exists before, (after ++ [e]). split; [by rewrite <- app_assoc|]. apply Forall_app. split; [done|].
        by repeat constructor.
    + rewrite app_nil_r in E. destruct (IH E) as (before & after & -> & HF).
      exists before, (after ++ [e]). split; [by rewrite <- app_assoc|]. apply Forall_app. split; [done|].
      by repeat constructor.
Qed.

Lemma calls_of_app i t1 t2 : calls_of i (t1 ++ t2) = calls_of i t1 ++ calls_of i t2.
Proof. apply omap_app. Qed.

Lemma calls_of_none i trace : Forall (fun e => e.1 <> i) trace -> calls_of i trace = [].
Proof.
  induction 1 as [|e trace He _ IH]; [done|]. unfold calls_of in *. cbn [omap list_omap].
  by rewrite decide_False.
Qed.

Section traces.
Context {S : Type} `{Store S}.
Implicit Type p : Pool S.

Lemma pool_step_trace i p :
  exists t, po_trace (pool_step i p) = po_trace p ++ t /\
    Forall (fun e => e.1 = i /\ (forall a, po_threads p !! i <> Some (Done a))) t.
Proof.
  unfold pool_step. destruct (po_threads p !! i) as [[r|B m k|op k]|].
  - exists []. by rewrite app_nil_r.
  - destruct (m (po_state p)). exists []. by rewrite app_nil_r.
  - destruct (on_cluster (cexec op) (po_state p)) as [s a]. eexists. split; [done|]. by repeat constructor.
  - exists []. by rewrite app_nil_r.
Qed.

Lemma pool_step_done i j a p :
  po_threads p !! i = Some (Done a) -> po_threads (pool_step j p) !! i = Some (Done a).
Proof.
  intros Hi. unfold pool_step. destruct (decide (j = i)) as [->|Hne]; [by rewrite Hi|].
  destruct (po_threads p !! j) as [[r|B m k|op k]|]; try done.
  - destruct (m (po_state p)). simpl. by rewrite list_lookup_insert_ne.
  - destruct (on_cluster (cexec op) (po_state p)). simpl. by rewrite list_lookup_insert_ne.
Qed.

(** What a schedule adds to the trace: calls of its threads, none of a thread
    that had finished. *)
Lemma run_schedule_trace schedule p :
  exists t, po_trace (run_schedule schedule p) = po_trace p ++ t /\
    Forall (fun e => e.1 ∈ schedule /\ (forall a, po_threads p !! e.1 <> Some (Done a))) t.
Proof.
  revert p. induction schedule as [|i schedule IH]; intros p; simpl.
  - exists []. by rewrite app_nil_r.
  - destruct (IH (pool_step i p)) as (t & -> & Ht). destruct (pool_step_trace i p) as (t0 & -> & Ht0).
    exists (t0 ++ t). split; [by rewrite app_assoc|]. apply Forall_app. split.
    + eapply Forall_impl; [exact Ht0|]. intros e [-> He]. split; [by left|done].
    + eapply Forall_impl; [exact Ht|]. intros e [Hin He]. split; [by right|].
      intros a Ha. apply (He a). by apply pool_step_done.
Qed.

Lemma run_schedule_app s1 s2 p : run_schedule (s1 ++ s2) p = run_schedule s2 (run_schedule s1 p).
Proof. apply foldl_app. Qed.
End traces.
