(* ===== verification/ThreadsProperties.v ===== *)
(** * The properties of concurrent requests *)

From S2P Require Import Prelude CppStd Common Sqlite Store LogFacts SqliteStore SqliteStoreProofs Raft RaftProofs Metrics Shard ShardFacts ShardInv Election Replication ShardOps Restart ShardSystem ShardSpec ShardTheorems ShardProperties Cluster ClusterSpec ClusterProperties Resilience ResilienceProperties Gateway GatewayProperties Threads ThreadsProofs ThreadsSafe ThreadsHandle ThreadsPool.

#[local] Open Scope Z_scope.

Lemma answered_by_status rq calls status body : answered_by rq calls status body -> status ∈ statuses.
Proof.
  unfold statuses. intros []; try (set_solver); destruct b; set_solver.
Qed.

(** ** From the start of the process *)

Lemma new_cluster_linked {S} `{StoreSpec S} m n (disk : string -> st_file (S := S)) :
  (1 <= m)%nat -> (1 <= n)%nat -> empty_directory disk ->
  exists c w ac0, Cluster_new m n disk world0 = (w, Ok c) /\ abs_cnew n (seq 0 m) ac0 /\
    linked 0 c ac0 /\ length c = m.
Proof.
  intros Hm Hn Hd.
  destruct (chistory_refines m n disk [] Hm Hn Hd) as (s & l & ac0 & ac & c & E & Hnew & Habs & Hc & Hr);
    [done|constructor|].
  inversion Habs; subst. unfold chistory in E. fold world0 in E.
  destruct (Cluster_new m n disk world0) as [w [c1|]]; [|done]. injection E as <-. simpl in Hc.
  assert (Hlen : length c1 = m).
  { by rewrite (Forall2_length _ _ _ Hc), <- (cr_length _ _ _ Hr), <- (Forall2_length _ _ _ Hnew), length_seq. }
  exists c1, w, ac. split_and!; try done. split; [lia|]. by exists c.
Qed.

(** A server with threads for the requests, after a schedule. *)
Definition pool_after {S} `{Store S} (steady : nat -> Z) (c : Cluster S) (w : World) (key : string)
    (rate burst : double) (retries : Z) (reqs : list HttpRequest) (schedule : list nat) : Pool S :=
  run_schedule schedule
    (Pool_new steady (Gateway_new c w key rate burst retries, 0%nat) reqs).

(** The start of the process, and all it leads to. *)
Lemma pool_after_inv {S} `{StoreSpec S} steady m n (disk : string -> st_file (S := S)) retries reqs :
  (1 <= m)%nat -> (1 <= n)%nat -> empty_directory disk -> 0 <= retries <= 59 ->
  Z.of_nat (length reqs) * (retries + 1) <= int64_max ->
  exists c w ac0, Cluster_new m n disk world0 = (w, Ok c) /\ abs_cnew n (seq 0 m) ac0 /\
    forall key rate burst schedule, pool_inv m retries reqs ac0 schedule
      (pool_after steady c w key rate burst retries reqs schedule).
Proof.
  intros Hm Hn Hd Hr Hb. destruct (new_cluster_linked m n disk Hm Hn Hd) as (c & w & ac0 & E & Hnew & Hl & Hlen).
  exists c, w, ac0. split_and!; try done. intros key rate burst schedule.
  apply (pool_inv_run m retries Hm reqs ac0 []). apply (pool_inv_new steady m retries Hr Hm reqs ac0 0).
  - split; simpl; try done. by rewrite length_replicate.
  - lia.
Qed.

Lemma safe_ended {S} `{StoreSpec S} {A} N R W P calls n c (th : prog (Gateway S * nat) A) a :
  safe N R W P calls n c th -> th = Done a -> exists x, a = Ok x /\ P calls x.
Proof. intros [? ? ? x Hx| |]; [|done|done]. intros [= <-]. eauto. Qed.

Lemma safe_zero {S} `{StoreSpec S} {A} N R W P calls c (th : prog (Gateway S * nat) A) :
  safe N R W P calls 0 c th -> exists x, th = Done (Ok x).
Proof. inversion 1; subst; eauto. Qed.

(** A finished thread has a response that its calls explain. *)
Lemma finished_answered {S} `{StoreSpec S} N R reqs ac0 schedule (p : Pool S) i rq a :
  pool_inv N R reqs ac0 schedule p -> reqs !! i = Some rq -> po_threads p !! i = Some (Done a) ->
  exists r, a = Ok r /\ responded (answered_by rq) (calls_of i (po_trace p)) r.
Proof.
  intros [(k & ac & l & cs & _ & _ & _ & _ & Hth) _ _] Hi Ha.
  destruct (Hth i _ Ha) as (rq' & c' & Hi' & _ & Hsafe). simplify_eq.
  exact (safe_ended _ _ _ _ _ _ _ _ _ Hsafe eq_refl).
Qed.


(** Two clients write the same key while a third reads it and a fourth fails a
    replica; the schedule goes round. *)
Definition demo_threads : list HttpRequest :=
  [demo_request "PUT" "/v1/kv/alpha" "1"; demo_request "PUT" "/v1/kv/alpha" "2";
   demo_request "GET" "/v1/kv/alpha" ""; demo_request "POST" "/admin/fail/0/s0-r0" ""].

Definition round_robin : list nat := concat (replicate 40 [2; 0; 3; 1]%nat).


(** C35: every request is answered, whatever the others do.  With at most 59
    retries, a thread that has been given [5 * (retries + 1) + shards + 16] turns has
    finished with a response of one of the statuses 200, 201, 400, 401, 404, 405,
    413, 429 and 503, whatever the other threads did in between and however often
    they were scheduled. *)
Theorem request_threads_finish {S : Type} `{StoreSpec S} (steady : nat -> Z) (m n : nat)
    (disk : string -> st_file (S := S)) (key : string) (rate burst : double) (retries : Z)
    (reqs : list HttpRequest) (schedule : list nat) (i : nat) :
  (1 <= m)%nat -> (1 <= n)%nat -> empty_directory disk -> 0 <= retries <= 59 ->
  Z.of_nat (length reqs) * (retries + 1) <= int64_max ->
  (i < length reqs)%nat -> (request_steps m retries <= turns i schedule)%nat ->
  exists c w r, Cluster_new m n disk world0 = (w, Ok c) /\
    po_threads (pool_after steady c w key rate burst retries reqs schedule) !! i = Some (Done (Ok r)) /\
    rs_status r ∈ statuses.
Proof.
  intros Hm Hn Hd Hr Hb Hi Ht. destruct (pool_after_inv steady m n disk retries reqs Hm Hn Hd Hr Hb)
    as (c & w & ac0 & E & Hnew & Hinv).
  destruct (Hinv key rate burst schedule) as [(k & ac & l & cs & _ & _ & _ & _ & Hth) Hlen _].
  destruct (lookup_lt_is_Some_2 (po_threads (pool_after steady c w key rate burst retries reqs schedule)) i)
    as [th Hlk]; [by rewrite Hlen|].
  destruct (Hth i th Hlk) as (rq & c' & _ & _ & Hsafe).
  replace (request_steps m retries - turns i schedule)%nat with 0%nat in Hsafe by lia.
  destruct (safe_zero _ _ _ _ _ _ _ Hsafe) as [r ->].
  destruct (safe_ended _ _ _ _ _ _ _ _ _ Hsafe eq_refl) as (r' & [= <-] & HP & _).
  exists c, w, r. split_and!; try done.
  by eapply answered_by_status.
Qed.

Lemma request_threads_finish_witness :
  exists c w r, Cluster_new (S := MemDb) 2 3 mem_disk world0 = (w, Ok c) /\
    po_threads (pool_after Z.of_nat c w "dev-secret" (double_of_Z 20) (double_of_Z 40) 2 demo_threads round_robin)
      !! 1%nat = Some (Done (Ok r)) /\ rs_status r ∈ statuses.
Proof.
  apply (request_threads_finish (S := MemDb) Z.of_nat 2 3 mem_disk "dev-secret" (double_of_Z 20)
    (double_of_Z 40) 2 demo_threads round_robin 1); [lia|lia|apply mem_disk_empty|lia|done|simpl; lia|].
  vm_compute. lia.
Defined.

(** ** Reading what was written *)

Lemma put_201_ok c key value res c' :
  abs_cstep c (CPut key value) (AResult res) c' -> res_status res = 201 -> res_ok res = true.
Proof.
  intros Hput Hs. inversion Hput as [i0 sop0 a0 ans0 a1 Ht0 Hi0 Hst0|]; subst ans0.
  injection Ht0 as <- <-. inversion Hst0 as [? ? ? ? Hcmd| | | | | | | |]; subst. by destruct Hcmd.
Qed.


(** The body of a read that succeeded ends with the value. *)
Lemma operation_body_value key res :
  res_ok res = true ->
  exists before, operation_body "GET" key res =
    "{" +:+ before +:+ "," +:+ q "value" +:+ ":" +:+ q (json_escape (res_value res)) +:+ "}".
Proof.
  intros Hok. unfold operation_body. rewrite Hok. rewrite decide_True by done. unfold field_str, field_raw.
  eexists (q "status" +:+ ":" +:+ q (json_escape (res_message res)) +:+ "," +:+ q "key" +:+ ":" +:+ q (json_escape key)
    +:+ "," +:+ q "shard" +:+ ":" +:+ to_string (res_shard res) +:+ "," +:+ q "leader" +:+ ":"
    +:+ q (json_escape (res_leader res))).
  by rewrite !app_assoc_str.
Qed.

(** The event behind the response of an operation on a key. *)
Lemma operation_event i rq key trace status body :
  kv_key rq = Some key -> answered_by rq (calls_of i trace) status body -> status ∈ [200; 201; 404] ->
  exists before after res,
    trace = before ++ (i, (key_op (rq_method rq) key (rq_body rq), Ok (AResult res))) :: after /\
    Forall (fun e => e.1 = i -> answer_of e = None) after /\
    status = res_status res /\ body = operation_body (rq_method rq) key res.
Proof.
  intros Hk Ha Hs. remember (calls_of i trace) as calls eqn:Hc.
  destruct Ha as [Hp|? Hp| | | | | | |key' tries res Hk' _ _ _|body [Hp _]|Hk'| |? ? ? ? ? Hp|? ? ? Hp];
    try (exfalso; clear -Hs; by set_solver); try congruence;
    try (by unfold kv_key in Hk; rewrite Hp in Hk).
  - assert (key' = key) as -> by congruence. symmetry in Hc. unfold tried in Hc. rewrite fmap_app in Hc.
    destruct (calls_of_last _ _ _ _ _ Hc) as (before & after & -> & Hafter).
    by exists before, after, res.
Qed.

(** A run of the abstract cluster that passes a put and then a get. *)
Lemma abs_crun_put_get ac0 ops1 key value ops2 ops3 l ac res res' :
  abs_crun ac0 (ops1 ++ CPut key value :: ops2 ++ CGet key :: ops3) l ac ->
  l !! length ops1 = Some (AResult res) -> res_status res = 201 -> Forall (cleaves key) ops2 ->
  l !! (length ops1 + Datatypes.S (length ops2))%nat = Some (AResult res') -> res_status res' <> 503 ->
  res_status res' = 200 /\ res_ok res' = true /\ res_value res' = value.
Proof.
  intros Hrun Hput H201 Hl Hget H503.
  destruct (abs_crun_app _ _ _ _ _ Hrun) as (l1 & l2 & c1 & -> & _ & Hr & Hlen).
  inversion Hr as [|? ? ans c2 ? l3 ? Hp Hr2]; subst.
  rewrite lookup_app_r, Hlen, Nat.sub_diag in Hput by lia. injection Hput as ->.
  destruct (abs_crun_app _ _ _ _ _ Hr2) as (l4 & l5 & c3 & -> & Hmid & Hr3 & Hlen2).
  inversion Hr3 as [|? ? ans' c4 ? l6 ? Hg Hr4]; subst.
  rewrite lookup_app_r, Hlen in Hget by lia.
  replace (length ops1 + Datatypes.S (length ops2) - length ops1)%nat with (Datatypes.S (length ops2)) in Hget by lia.
  rewrite lookup_cons in Hget. rewrite lookup_app_r, Hlen2, Nat.sub_diag in Hget by lia. injection Hget as ->.
  destruct (abs_put_get _ _ _ _ _ _ _ _ _ _ Hp (put_201_ok _ _ _ _ _ Hp H201) Hmid Hl Hg) as (r & [= <-] & Hres).
  by apply Hres.
Qed.

Lemma trace_answer (trace : list (nat * (COp * result Answer))) l n e :
  trace.*2.*2 = Ok <$> l -> trace !! n = Some e -> exists a, l !! n = Some a /\ e.2.2 = Ok a.
Proof.
  intros Ht He. assert (Hn : trace.*2.*2 !! n = Some e.2.2) by (by rewrite !list_lookup_fmap, He).
  rewrite Ht, list_lookup_fmap in Hn. destruct (l !! n) as [a|]; [|done]. injection Hn as Ha. eauto.
Qed.

(** A request for another key, or one that only reads, leaves the key alone. *)
Lemma op_of_leaves rq key op :
  op_of rq op ->
  (forall k', kv_key rq = Some k' -> c_str k' = c_str key -> rq_method rq = "GET") -> cleaves key op.
Proof.
  unfold op_of. intros Ho Hg. destruct (kv_key rq) as [k'|]; [|by destruct op].
  destruct Ho as [_ ->]. destruct (decide (c_str k' = c_str key)) as [E|E].
  - rewrite (Hg k' eq_refl E). done.
  - unfold key_op. by repeat case_decide.
Qed.

Section read_write.
Context (reqs : list HttpRequest) (trace1 trace2 : list (nat * (COp * result Answer))) (l : list Answer).
Context (ac0 ac : list AbsShard) (Hans : (trace1 ++ trace2).*2.*2 = Ok <$> l).
Context (Hrun : abs_crun ac0 (trace1 ++ trace2).*2.*1 l ac).
Context (Hown : Forall (fun e => exists rq, reqs !! e.1 = Some rq /\ op_of rq e.2.1) (trace1 ++ trace2)).

(** A put that was acknowledged in the first part of a trace and a read that was
    served in the second, no other writer of the key in between. *)
Lemma trace_put_get i j key value res res' before1 after1 before2 after2 :
  trace1 = before1 ++ (i, (CPut key value, Ok (AResult res))) :: after1 ->
  trace2 = before2 ++ (j, (CGet key, Ok (AResult res'))) :: after2 ->
  Forall (fun e => e.1 <> i) (after1 ++ before2) ->
  (forall x rq k', x <> i -> reqs !! x = Some rq -> kv_key rq = Some k' -> c_str k' = c_str key ->
     rq_method rq = "GET") ->
  res_status res = 201 -> res_status res' <> 503 -> res_status res' = 200 /\ res_ok res' = true /\ res_value res' = value.
Proof.
  intros E1 E2 Hne Hothers H201 H503.
  set (ev1 := (i, (CPut key value, Ok (AResult res)))) in *. set (ev2 := (j, (CGet key, Ok (AResult res')))) in *.
  assert (Et : trace1 ++ trace2 = before1 ++ ev1 :: (after1 ++ before2) ++ ev2 :: after2).
  { rewrite E1, E2. cbn [app]. by rewrite <- !app_assoc. }
  rewrite Et in Hans, Hrun, Hown.
  assert (Eo : (before1 ++ ev1 :: (after1 ++ before2) ++ ev2 :: after2).*2.*1 =
    before1.*2.*1 ++ CPut key value :: (after1 ++ before2).*2.*1 ++ CGet key :: after2.*2.*1).
  { by rewrite fmap_app, fmap_app, !fmap_cons, (fmap_app _ (after1 ++ before2)), (fmap_app _ (after1 ++ before2).*2). }
  rewrite Eo in Hrun.
  destruct (trace_answer _ _ (length before1) ev1 Hans) as (a1 & L1 & [= <-]).
  { rewrite lookup_app_r, Nat.sub_diag by lia. done. }
  destruct (trace_answer _ _ (length before1 + Datatypes.S (length (after1 ++ before2)))%nat ev2 Hans) as (a2 & L2 & [= <-]).
  { rewrite lookup_app_r by lia.
    replace (length before1 + Datatypes.S (length (after1 ++ before2)) - length before1)%nat
      with (Datatypes.S (length (after1 ++ before2))) by lia.
    rewrite lookup_cons. rewrite lookup_app_r, Nat.sub_diag by lia. done. }
  eapply (abs_crun_put_get _ _ _ _ _ _ _ _ _ _ Hrun); try done.
  - by rewrite !length_fmap.
  - apply Forall_fmap, Forall_fmap, Forall_forall. intros e He.
    pose proof (proj1 (Forall_forall _ _) Hne e He) as Hei.
    destruct (proj1 (Forall_forall _ _) Hown e) as (rq & Hrq & Hop).
    { apply elem_of_app. right. right. apply elem_of_app. by left. }
    simpl. eapply op_of_leaves; [exact Hop|]. intros k' Hk Hc. exact (Hothers _ _ _ Hei Hrq Hk Hc).
  - by rewrite !length_fmap.
Qed.
End read_write.

(** C36: reads see acknowledged writes.  Some thread's PUT of a key has been
    answered with 201 when another thread starts to handle a GET of the key, and no
    other request writes the key: if the GET is answered from the store, with 200 or
    404 and not with an error, it is answered with 200 and a JSON object whose last
    member is [value], the escaped text of the value that was put, however all
    threads are interleaved and whatever else fails or is elected meanwhile. *)
Theorem reads_see_acknowledged_writes {S : Type} `{StoreSpec S} (steady : nat -> Z) (m n : nat)
    (disk : string -> st_file (S := S)) (api_key : string) (rate burst : double) (retries : Z)
    (reqs : list HttpRequest) (s1 s2 : list nat) (c : Cluster S) (w : World)
    (i j : nat) (rqi rqj : HttpRequest) (key : string) (ri rj : HttpResponse) :
  (1 <= m)%nat -> (1 <= n)%nat -> empty_directory disk -> 0 <= retries <= 59 ->
  Z.of_nat (length reqs) * (retries + 1) <= int64_max ->
  Cluster_new m n disk world0 = (w, Ok c) ->
  reqs !! i = Some rqi -> kv_key rqi = Some key -> rq_method rqi = "PUT" ->
  reqs !! j = Some rqj -> kv_key rqj = Some key -> rq_method rqj = "GET" -> j ∉ s1 ->
  (forall x rq k', x <> i -> reqs !! x = Some rq -> kv_key rq = Some k' -> c_str k' = c_str key ->
     rq_method rq = "GET") ->
  po_threads (pool_after steady c w api_key rate burst retries reqs s1) !! i = Some (Done (Ok ri)) ->
  rs_status ri = 201 ->
  po_threads (pool_after steady c w api_key rate burst retries reqs (s1 ++ s2)) !! j = Some (Done (Ok rj)) ->
  rs_status rj ∈ [200; 404] ->
  rs_status rj = 200 /\
  exists before, rs_body rj =
    "{" +:+ before +:+ "," +:+ q "value" +:+ ":" +:+ q (json_escape (rq_body rqi)) +:+ "}".
Proof.
  intros Hm Hn Hd Hr Hb Hc Hi Hki Hmi Hj Hkj Hmj Hs1 Hothers Hdi Hst Hdj Hsj.
  destruct (pool_after_inv steady m n disk retries reqs Hm Hn Hd Hr Hb) as (c' & w' & ac0 & E & _ & Hinv).
  rewrite Hc in E. simplify_eq.
  destruct (finished_answered _ _ _ _ _ _ _ _ _ (Hinv api_key rate burst s1) Hi Hdi) as (? & [= <-] & HPi & _).
  destruct (finished_answered _ _ _ _ _ _ _ _ _ (Hinv api_key rate burst (s1 ++ s2)) Hj Hdj) as (? & [= <-] & HPj & _).
  destruct (Hinv api_key rate burst (s1 ++ s2)) as [(k & ac & l & cs & _ & Hans & Hrun & _) _ Hown]. clear Hinv.
  unfold pool_after in *. rewrite run_schedule_app in *. set (p0 := Pool_new _ _ _) in *.
  set (p1 := run_schedule s1 p0) in *.
  destruct (run_schedule_trace s2 p1) as (t2 & Et & Ht2). rewrite Et in *.
  destruct (run_schedule_trace s1 p0) as (t1 & Et1 & Ht1). fold p1 in Et1. simpl in Et1.
  destruct (operation_event i rqi key (po_trace p1) _ _ Hki HPi) as (b1 & a1 & res & E1 & Ha1 & Hs & _);
    [rewrite Hst; set_solver|].
  assert (Hj0 : calls_of j (po_trace p1) = []).
  { apply calls_of_none. rewrite Et1. eapply Forall_impl; [exact Ht1|]. intros e [He _] <-. done. }
  rewrite calls_of_app, Hj0 in HPj. cbn [app] in HPj.
  destruct (operation_event j rqj key t2 _ _ Hkj HPj) as (b2 & a2 & res' & E2 & _ & Hs' & Hbody); [set_solver|].
  rewrite Hmi in E1. rewrite Hmj in E2, Hbody. rewrite Hst in Hs. symmetry in Hs.
  assert (Hno : Forall (fun e => e.1 <> i) (a1 ++ b2)).
  { apply Forall_forall. intros e He Hei. apply elem_of_app in He as [He|He].
    - apply (proj1 (Forall_forall _ _) Ha1 e) in Hei; [|done].
      assert (Hin : e ∈ po_trace p1 ++ t2) by (rewrite E1; apply elem_of_app; left; apply elem_of_app; right; by right).
      apply list_elem_of_lookup in Hin as [x Hx].
      destruct (trace_answer _ _ _ _ Hans Hx) as (a & _ & Ha). unfold answer_of in Hei. by rewrite Ha in Hei.
    - destruct (proj1 (Forall_forall _ _) Ht2 e) as [_ Hd2]; [rewrite E2; apply elem_of_app; by left|].
      rewrite Hei in Hd2. by apply (Hd2 (Ok ri)). }
  destruct (trace_put_get reqs (po_trace p1) t2 l ac0 ac Hans Hrun Hown i j key (rq_body rqi) res res' b1 a1 b2 a2
    E1 E2 Hno Hothers Hs) as (H200 & Hok & Hval);
    [rewrite <- Hs'; rewrite !elem_of_cons, elem_of_nil in Hsj; lia|].
  split; [congruence|]. rewrite Hbody, <- Hval. by apply operation_body_value.
Qed.

(** The server of the witnesses, and the response of a finished thread. *)
Definition demo_cluster : Cluster MemDb * World :=
  match Cluster_new (S := MemDb) 2 3 mem_disk world0 with
  | (w, Ok c) => (c, w)
  | (w, Throw _) => ([], w)
  end.

Lemma demo_cluster_new : Cluster_new (S := MemDb) 2 3 mem_disk world0 = (demo_cluster.2, Ok demo_cluster.1).
Proof.
  unfold demo_cluster.
  destruct (new_cluster_linked (S := MemDb) 2 3 mem_disk ltac:(lia) ltac:(lia) mem_disk_empty)
    as (c & w & ac0 & E & _). by rewrite E.
Qed.

Abbreviation demo_pool reqs schedule :=
  (pool_after Z.of_nat demo_cluster.1 demo_cluster.2 "dev-secret" (double_of_Z 20) (double_of_Z 40) 2 reqs schedule).

Definition response_of (p : Pool MemDb) (i : nat) : option HttpResponse :=
  match po_threads p !! i with Some (Done (Ok r)) => Some r | _ => None end.

Lemma response_of_done p i :
  is_Some (response_of p i) ->
  po_threads p !! i = Some (Done (Ok (default (json_response 0 "") (response_of p i)))).
Proof.
  unfold response_of. intros [r E].
  destruct (po_threads p !! i) as [[[x|]|B m k|op k]|]; try done.
Qed.

Definition demo_readers : list HttpRequest :=
  [demo_request "PUT" "/v1/kv/alpha" "1"; demo_request "GET" "/v1/kv/alpha" "";
   demo_request "POST" "/admin/fail/1/s1-r0" ""].
Definition demo_first : list nat := concat (replicate 12 [0; 2]%nat).
Definition demo_second : list nat := replicate 20 1%nat.

Lemma demo_readers_others x rq k' :
  x <> 0%nat -> demo_readers !! x = Some rq -> kv_key rq = Some k' -> c_str k' = c_str "alpha" ->
  rq_method rq = "GET".
Proof.
  intros Hx Hrq Hk _. destruct x as [|[|[|x]]]; [done| | |done]; injection Hrq as <-; [done|].
  by vm_compute in Hk.
Qed.

Lemma reads_see_acknowledged_writes_witness :
  let rj := default (json_response 0 "") (response_of (demo_pool demo_readers (demo_first ++ demo_second)) 1) in
  rs_status rj = 200 /\
  exists before, rs_body rj = "{" +:+ before +:+ "," +:+ q "value" +:+ ":" +:+ q (json_escape "1") +:+ "}".
Proof.
  apply (reads_see_acknowledged_writes (S := MemDb) Z.of_nat 2 3 mem_disk "dev-secret" (double_of_Z 20)
    (double_of_Z 40) 2 demo_readers demo_first demo_second demo_cluster.1 demo_cluster.2 0 1
    (demo_request "PUT" "/v1/kv/alpha" "1") (demo_request "GET" "/v1/kv/alpha" "") "alpha"
    (default (json_response 0 "") (response_of (demo_pool demo_readers demo_first) 0))).
  - lia.
  - lia.
  - apply mem_disk_empty.
  - lia.
  - done.
  - apply demo_cluster_new.
  - done.
  - vm_compute. reflexivity.
  - done.
  - done.
  - vm_compute. reflexivity.
  - done.
  - apply (bool_decide_unpack _). vm_compute. exact I.
  - apply demo_readers_others.
  - apply (response_of_done (demo_pool demo_readers demo_first) 0). vm_compute. by eexists.
  - vm_compute. reflexivity.
  - apply (response_of_done (demo_pool demo_readers (demo_first ++ demo_second)) 1). vm_compute. by eexists.
  - apply (bool_decide_unpack _). vm_compute. exact I.
Defined.
