(* ===== verification/WellTyped.v ===== *)
(** * The types of the shared state

    Which values the members of the shared objects can have, in every state of
    any number of concurrent requests on any store, also one that fails. *)

From S2P Require Import Prelude CppStd Common Sqlite Store Raft Metrics Shard ShardSystem ShardSpec Cluster ClusterSpec Resilience Gateway GatewayProperties Threads ThreadsHandle ThreadsPool ThreadsProperties SqliteStore SqliteStoreProofs ShardTheorems ShardProperties.

#[local] Open Scope Z_scope.

(** ** Methods that keep a property *)

Definition preserves {S A} (I : S -> Prop) (m : M S A) : Prop := forall s, I s -> I (m s).1.

Create HintDb typed.

Section rules.
Context {S : Type} (I : S -> Prop).

Lemma preserves_ret {A} (a : A) : preserves I (mret a).
Proof. by intros s. Qed.
Lemma preserves_throw {A} e : preserves I (throw (A := A) e).
Proof. by intros s. Qed.
Lemma preserves_lift {A} (r : result A) : preserves I (lift r).
Proof. by intros s. Qed.
Lemma preserves_gets {A} (f : S -> A) : preserves I (gets f).
Proof. by intros s. Qed.
Lemma preserves_modify (f : S -> S) : (forall s, I s -> I (f s)) -> preserves I (modify f).
Proof. done. Qed.
Lemma preserves_bind {A B} (m : M S A) (f : A -> M S B) :
  preserves I m -> (forall a, preserves I (f a)) -> preserves I (m ≫= f).
Proof.
  intros Hm Hf s Hs. specialize (Hm s Hs). unfold mbind, M_bind. destruct (m s) as [s' [a|e]]; [|done].
  by apply Hf.
Qed.
Lemma preserves_when c (m : M S unit) : preserves I m -> preserves I (when c m).
Proof. intros Hm. destruct c; [done|apply preserves_ret]. Qed.
Lemma preserves_for_each {A} (l : list A) body :
  (forall x, preserves I (body x)) -> preserves I (for_each l body).
Proof. intros Hb. induction l; simpl; [apply preserves_ret|by apply preserves_bind]. Qed.
Lemma preserves_for_fold {A B} (l : list A) (b : B) body :
  (forall b x, preserves I (body b x)) -> preserves I (for_fold l b body).
Proof.
  intros Hb. revert b. induction l; intros b; simpl; [apply preserves_ret|by apply preserves_bind].
Qed.
Lemma preserves_max_element {A} (less : A -> A -> M S bool) (l : list A) :
  (forall x y, preserves I (less x y)) -> preserves I (max_element less l).
Proof.
  intros Hl. destruct l as [|x l]; simpl; [apply preserves_throw|].
  revert x. induction l as [|y l IH]; intros x; simpl; [apply preserves_ret|].
  apply preserves_bind; [done|]. intros b. apply IH.
Qed.
End rules.

(** [keep] walks a method, case-splitting on its matches; the calls are closed
    from the database [typed]. *)
Ltac keep_step :=
  match goal with
  | |- forall _, _ => intro
  | |- preserves _ (match ?x with _ => _ end) => destruct x
  | |- preserves _ (mret _) => apply preserves_ret
  | |- preserves _ (throw _) => apply preserves_throw
  | |- preserves _ (gets _) => apply preserves_gets
  | |- preserves _ (_ ≫= _) => apply preserves_bind
  | |- preserves _ (when _ _) => apply preserves_when
  | |- preserves _ (for_each _ _) => apply preserves_for_each
  | |- preserves _ (for_fold _ _ _) => apply preserves_for_fold
  | |- preserves _ (max_element _ _) => apply preserves_max_element
  | |- preserves _ _ => solve [eauto 3 with typed nocore]
  end.
Ltac keep := repeat keep_step.

(** ** Metrics *)

(** Every counter is a [std::uint64_t]. *)
Record metrics_typed (m : Metrics) : Prop := {
  ty_requests : in_uint64 (requests m);
  ty_latency : in_uint64 (request_latency_us m);
  ty_auth : in_uint64 (auth_failures m);
  ty_limited : in_uint64 (rate_limited m);
  ty_gets : in_uint64 (gets_ m);
  ty_puts : in_uint64 (puts m);
  ty_deletes : in_uint64 (deletes m);
  ty_retries : in_uint64 (retries m);
  ty_open : in_uint64 (circuit_open m);
  ty_failures : in_uint64 (gateway_failures m);
  ty_elections : in_uint64 (elections m);
  ty_replication : in_uint64 (replication_failures m);
}.

Lemma wrap_typed z : in_uint64 (wrap_u64 z).
Proof. apply Z.mod_pos_bound. done. Qed.

#[export] Hint Resolve wrap_typed : typed.

Lemma zero_typed : metrics_typed zero_metrics.
Proof. by split. Qed.

(** The updates of the counters. *)
Definition counts (f : Metrics -> Metrics) : Prop := forall m, metrics_typed m -> metrics_typed (f m).

Ltac solve_counts := intros ? []; split; simpl; first [done|apply wrap_typed].

Lemma counts_auth : counts inc_auth_failure. Proof. solve_counts. Qed.
Lemma counts_limited : counts inc_rate_limited. Proof. solve_counts. Qed.
Lemma counts_get : counts inc_get. Proof. solve_counts. Qed.
Lemma counts_put : counts inc_put. Proof. solve_counts. Qed.
Lemma counts_delete : counts inc_delete. Proof. solve_counts. Qed.
Lemma counts_retry : counts inc_retry. Proof. solve_counts. Qed.
Lemma counts_open : counts inc_circuit_open. Proof. solve_counts. Qed.
Lemma counts_failure : counts inc_gateway_failure. Proof. solve_counts. Qed.
Lemma counts_election : counts inc_election. Proof. solve_counts. Qed.
Lemma counts_replication : counts inc_replication_failure. Proof. solve_counts. Qed.
Lemma counts_request : counts count_request. Proof. solve_counts. Qed.
Lemma counts_latency n : counts (add_latency n). Proof. solve_counts. Qed.

#[export] Hint Resolve counts_auth counts_limited counts_get counts_put counts_delete counts_retry
  counts_open counts_failure counts_election counts_replication counts_request counts_latency : typed.

(** ** Shards and cluster *)

Section shards.
Context {S : Type} `{Store S}.

Definition shard_typed (s : Shard S * World) : Prop := metrics_typed (w_metrics s.2).
Definition cluster_typed (s : Cluster S * World) : Prop := metrics_typed (w_metrics s.2).

Lemma on_replica_typed {A} i (m : M (Replica S) A) : preserves shard_typed (Shard.on_replica i m).
Proof.
  intros s Hs. unfold Shard.on_replica. destruct (sh_replicas s.1 !! i); [|done]. by destruct (m r).
Qed.
Lemma field_typed {A} i (f : Replica unit -> A) : preserves shard_typed (field (S := S) i f).
Proof. apply on_replica_typed. Qed.
Lemma set_leader_typed x : preserves shard_typed (set_leader_id (S := S) x).
Proof. by intros s Hs. Qed.
Lemma log_typed a b c : preserves shard_typed (Shard.log_event (S := S) a b c).
Proof. by intros s Hs. Qed.
Lemma metric_typed f : counts f -> preserves shard_typed (Shard.metric (S := S) f).
Proof. intros Hf s Hs. by apply Hf. Qed.
#[local] Hint Resolve on_replica_typed field_typed set_leader_typed log_typed metric_typed : typed.

Lemma less_typed a b : preserves shard_typed (less_up_to_date (S := S) a b).
Proof. unfold less_up_to_date. keep. Qed.
Lemma sync_typed a b : preserves shard_typed (sync_follower_locked (S := S) a b).
Proof. unfold sync_follower_locked. keep. Qed.
#[local] Hint Resolve less_typed sync_typed : typed.

Lemma ensure_typed : preserves shard_typed (ensure_leader_locked (S := S)).
Proof. unfold ensure_leader_locked, current_leader_locked, pointers. keep. Qed.
Lemma replicate_to_typed l e pi pt acked i : preserves shard_typed (replicate_to (S := S) l e pi pt acked i).
Proof. unfold replicate_to. keep. Qed.
#[local] Hint Resolve ensure_typed replicate_to_typed : typed.

Lemma replicate_typed c k v : preserves shard_typed (replicate_command_locked (S := S) c k v).
Proof. unfold replicate_command_locked, current_leader_locked, pointers. cbv zeta. keep. Qed.
Lemma get_typed k : preserves shard_typed (Shard.get (S := S) k).
Proof. unfold Shard.get, current_leader_locked. keep. Qed.
Lemma fail_typed id : preserves shard_typed (Shard.fail_replica (S := S) id).
Proof. unfold Shard.fail_replica. keep. Qed.
Lemma recover_typed id : preserves shard_typed (Shard.recover_replica (S := S) id).
Proof. unfold Shard.recover_replica, current_leader_locked. keep. Qed.
Lemma shard_status_typed : preserves shard_typed (Shard.status_json (S := S)).
Proof. unfold Shard.status_json, pointers. keep. Qed.

Lemma on_shard_typed {A} i (m : M (Shard S * World) A) :
  preserves shard_typed m -> preserves cluster_typed (Cluster.on_shard i m).
Proof.
  intros Hm s Hs. unfold Cluster.on_shard. destruct (s.1 !! Z.to_nat i) as [sh|]; [|done].
  specialize (Hm (sh, s.2) Hs). by destruct (m (sh, s.2)) as [[sh' w] a].
Qed.

Lemma cexec_typed op : preserves cluster_typed (cexec (S := S) op).
Proof.
  destruct op; cbn [cexec]; unfold answer; (apply preserves_bind; [|keep]);
    unfold Cluster.put, Cluster.erase, Cluster.get, Cluster.fail_replica, Cluster.recover_replica, elect,
      route, if_shard; (apply preserves_bind; [keep|intros ?]);
    try match goal with |- preserves _ (if ?b then _ else _) => destruct b; [|keep] end; apply on_shard_typed.
  - apply replicate_typed.
  - apply replicate_typed.
  - apply get_typed.
  - apply fail_typed.
  - apply recover_typed.
  - apply ensure_typed.
Qed.
End shards.

(** ** The gateway *)

(** A breaker of the gateway: it opens after three failures for five seconds,
    and is closed only below three. *)
Record breaker_typed (b : CircuitBreaker) : Prop := {
  bt_threshold : failure_threshold b = 3;
  bt_duration : open_duration b = 5000000000;
  bt_failures : in_uint64 (consecutive_failures b);
  bt_closed : state b = Closed -> consecutive_failures b < 3;
}.

Definition bucket_typed (rate burst : double) (b : TokenBucket) : Prop :=
  refill_per_second b = rate /\ capacity b = burst.

Record gateway_typed {S} (g : Gateway S) : Prop := {
  gt_metrics : metrics_typed (w_metrics (g_world g));
  gt_breakers : Forall breaker_typed (g_breakers g);
  gt_buckets : map_Forall (fun _ b => bucket_typed (g_rate_per_second g) (g_burst g) b) (g_buckets g);
  gt_sleeps : Forall in_uint64 (g_sleeps g);
}.

Section gateway.
Context (steady : nat -> Z) {S : Type} `{Store S}.

Definition state_typed (s : Gateway S * nat) : Prop := gateway_typed s.1.
Definition breaker_state_typed (s : CircuitBreaker * nat) : Prop := breaker_typed s.1.

Lemma on_cluster_typed {A} (m : M (Cluster S * World) A) :
  preserves cluster_typed m -> preserves state_typed (on_cluster m).
Proof.
  intros Hm [g n] [H1 H2 H3 H4]. specialize (Hm (g_cluster g, g_world g) H1).
  unfold on_cluster, zoom. cbn [fst snd]. destruct (m (g_cluster g, g_world g)) as [[c w] a]. by split.
Qed.

Lemma now_typed : preserves state_typed (now steady).
Proof. by intros [g n] Hg. Qed.

Lemma self_typed {A} (f : Gateway S -> A) : preserves state_typed (self f).
Proof. by intros [g n] Hg. Qed.

Lemma gateway_metric_typed f : counts f -> preserves state_typed (Gateway.metric f).
Proof. intros Hf [g n] [H1 H2 H3 H4]. split; try done. by apply Hf. Qed.

Lemma on_breaker_typed {A} i (m : M (CircuitBreaker * nat) A) :
  preserves breaker_state_typed m -> preserves state_typed (on_breaker i m).
Proof.
  intros Hm [g n] [H1 H2 H3 H4]. unfold on_breaker. cbn [fst snd].
  destruct (g_breakers g !! Z.to_nat i) as [b|] eqn:E; [|done].
  specialize (Hm (b, n) (Forall_lookup_1 _ _ _ _ H2 E)). destruct (m (b, n)) as [[b' n'] a].
  split; try done. simpl. by apply Forall_insert.
Qed.

Lemma allow_typed : preserves breaker_state_typed (allow_request steady).
Proof.
  intros [b n] Hb. unfold allow_request, self. rewrite bind_gets. cbn [fst].
  destruct (state b) eqn:E; [exact Hb| |exact Hb].
  unfold now, update, mbind, M_bind. cbn [fst snd]. destruct (_ <=? _); [|exact Hb].
  destruct Hb. by split.
Qed.

Lemma success_typed : preserves breaker_state_typed record_success.
Proof. intros [b n] [H1 H2 H3 H4]. by split. Qed.

Lemma failure_typed : preserves breaker_state_typed (record_failure steady).
Proof.
  intros [b n] [H1 H2 H3 H4]. cbn [fst] in *. unfold record_failure, update, self. rewrite bind_modify, bind_gets. cbn [fst snd].
  destruct (_ || _) eqn:E.
  - split; simpl; try done. apply wrap_typed.
  - cbn [failure_threshold with_failures state consecutive_failures] in E. rewrite H1 in E. split; simpl; try done; [apply wrap_typed|]. intros Hc.
    apply orb_false_iff in E as [_ E]. lia.
Qed.

Lemma sleep_typed attempt : preserves state_typed (sleep_before_retry attempt).
Proof.
  intros [g n] [H1 H2 H3 H4]. unfold sleep_before_retry. destruct (attempt <? 64); [|done].
  split; try done. simpl. apply Forall_app. split; [done|]. repeat constructor; apply wrap_typed.
Qed.

Lemma rate_limit_typed client : preserves state_typed (allowed_by_rate_limit steady client).
Proof.
  intros [g n] [H1 H2 H3 H4]. cbn [fst] in *. unfold allowed_by_rate_limit, bucket_for.
  rewrite bind_assoc, bind_self.
  assert (Hgo : forall b k, bucket_typed (g_rate_per_second g) (g_burst g) b ->
    state_typed (consume_from steady client b (g, k)).1).
  { intros b k [Hb1 Hb2]. unfold consume_from, consume, now, update, self, mbind, M_bind, modify, gets. cbn [fst snd].
    destruct (dltb _ _); (split; try done; simpl; apply map_Forall_insert_2; [|done]; by split). }
  destruct (g_buckets g !! client) as [b|] eqn:E.
  - rewrite (bind_ok _ _ (g, n) (g, n) b) by done. apply Hgo. by apply (H3 client).
  - rewrite bind_assoc, (bind_ok _ _ (g, n) (g, Datatypes.S n) (steady n)) by done.
    erewrite bind_ok by reflexivity. by apply Hgo.
Qed.

(** ** Threads *)

(** Every step of the program keeps the types. *)
Inductive typed {A} : prog (Gateway S * nat) A -> Prop :=
  | typed_done r : typed (Done r)
  | typed_local B (m : M (Gateway S * nat) B) k :
      preserves state_typed m -> (forall r, typed (k r)) -> typed (Local m k)
  | typed_call op k : (forall a, typed (k a)) -> typed (Call op k).

Lemma typed_ret {A} (a : A) : typed (mret a).
Proof. constructor. Qed.
Lemma typed_lift {A} (r : result A) : typed (lift_result r).
Proof. constructor. Qed.
Lemma typed_bind {A B} (p : prog (Gateway S * nat) A) (f : A -> prog (Gateway S * nat) B) :
  typed p -> (forall a, typed (f a)) -> typed (p ≫= f).
Proof.
  intros Hp Hf. induction Hp as [[a|e]|X m k Hm _ IH|op k _ IH];
    cbn [mbind prog_bind prog_bind_]; [apply Hf|constructor|by constructor|by constructor].
Qed.
Lemma typed_catch {A} (p : prog (Gateway S * nat) A) h :
  typed p -> (forall e, typed (h e)) -> typed (prog_catch p h).
Proof.
  intros Hp Hh. induction Hp as [[a|[]]|X m k Hm _ IH|op k _ IH]; cbn [prog_catch]; try constructor; try done; apply Hh.
Qed.
Lemma typed_atomic {A} (m : M (Gateway S * nat) A) : preserves state_typed m -> typed (atomic m).
Proof. intros Hm. constructor; [done|]. intros. constructor. Qed.
Lemma typed_ask_result op : typed (ask_result op).
Proof. constructor. intros. constructor. Qed.
Lemma typed_ask_bool op : typed (ask_bool op).
Proof. constructor. intros. constructor. Qed.
Lemma typed_if c p : typed p -> typed (if_true c p).
Proof. intros Hp. destruct c; [done|constructor]. Qed.
Lemma typed_for {A B} (l : list A) (b : B) body :
  (forall b x, typed (body b x)) -> typed (prog_for l b body).
Proof. intros Hb. revert b. induction l; intros b; simpl; [constructor|by apply typed_bind]. Qed.
End gateway.

(** [typed_walk] follows the structure of a thread. *)
Ltac typed_walk :=
  repeat first
    [ progress intros
    | apply typed_bind | apply typed_ret | apply typed_lift | apply typed_catch
    | apply typed_ask_result | apply typed_ask_bool | apply typed_if | apply typed_for
    | solve [eauto 4 with typed nocore]
    | match goal with |- typed (if ?b then _ else _) => destruct b end ].

#[export] Hint Resolve typed_atomic now_typed self_typed gateway_metric_typed on_breaker_typed allow_typed
  success_typed failure_typed sleep_typed rate_limit_typed on_cluster_typed on_shard_typed shard_status_typed
  preserves_gets : typed.

Section threads.
Context (steady : nat -> Z) {S : Type} `{Store S}.

Lemma finish_typed started r : typed (t_finish (S := S) steady started r).
Proof. unfold t_finish, t_now, t_metric. typed_walk. Qed.
#[local] Hint Resolve finish_typed : typed.

Lemma attempts_typed n attempt operation key value i res :
  typed (t_attempts (S := S) steady n attempt operation key value i res).
Proof.
  revert attempt res. induction n as [|n IH]; intros attempt res; cbn [t_attempts]; unfold t_metric; typed_walk.
Qed.
#[local] Hint Resolve attempts_typed : typed.

Lemma execute_typed operation key value : typed (t_execute (S := S) steady operation key value).
Proof. unfold t_execute, t_metric. typed_walk. Qed.
#[local] Hint Resolve execute_typed : typed.

Lemma handle_kv_typed started rq key : typed (t_handle_kv (S := S) steady started rq key).
Proof. unfold t_handle_kv, t_metric. typed_walk. Qed.

Lemma status_typed started : typed (t_status (S := S) steady started).
Proof. unfold t_status, t_status_json. typed_walk. Qed.

Lemma handle_replica_typed started a s r : typed (t_handle_replica (S := S) steady started a s r).
Proof. unfold t_handle_replica. typed_walk. Qed.

Lemma handle_elect_typed started s : typed (t_handle_elect (S := S) steady started s).
Proof. unfold t_handle_elect. typed_walk. Qed.
#[local] Hint Resolve handle_kv_typed status_typed handle_replica_typed handle_elect_typed : typed.

Lemma route_typed started rq : typed (t_route_request (S := S) steady started rq).
Proof.
  unfold t_route_request. cbv zeta.
  destruct (split_path (rq_path rq)) as [|p0 [|p1 [|p2 [|p3 [|]]]]]; repeat case_decide;
    solve [eauto 3 with typed nocore].
Qed.

Lemma render_typed : typed (t_render_prometheus (S := S)).
Proof. unfold t_render_prometheus, t_load. typed_walk. Qed.
#[local] Hint Resolve route_typed render_typed : typed.

Lemma handle_typed rq : typed (t_handle (S := S) steady rq).
Proof. unfold t_handle, t_now, t_metric. typed_walk. Qed.

(** ** Pools *)

Lemma pool_step_typed i (p : Pool S) :
  state_typed (po_state p) -> Forall typed (po_threads p) ->
  state_typed (po_state (pool_step i p)) /\ Forall typed (po_threads (pool_step i p)).
Proof.
  intros Hs Hf. unfold pool_step. destruct (po_threads p !! i) as [th|] eqn:E; [|done].
  destruct (Forall_lookup_1 _ _ _ _ Hf E) as [r|B m k Hm Hk|op k Hk]; [done|..].
  - specialize (Hm _ Hs). destruct (m (po_state p)) as [s r]. split; [done|]. simpl. by apply Forall_insert.
  - pose proof (on_cluster_typed (cexec op) (cexec_typed op) _ Hs) as Hm.
    destruct (on_cluster (cexec op) (po_state p)) as [s r]. split; [done|]. simpl. by apply Forall_insert.
Qed.

Lemma run_schedule_typed schedule (p : Pool S) :
  state_typed (po_state p) -> Forall typed (po_threads p) -> state_typed (po_state (run_schedule schedule p)).
Proof.
  revert p. induction schedule as [|i schedule IH]; intros p Hs Hf; [done|]. simpl.
  destruct (pool_step_typed i p Hs Hf). by apply IH.
Qed.

(** ** The start *)

Definition world_typed (w : World) : Prop := metrics_typed (w_metrics w).

Lemma Shard_new_typed sid n disk : preserves world_typed (Shard_new (S := S) sid n disk).
Proof.
  intros w Hw. unfold Shard_new. destruct (n <? 1)%nat; [done|].
  destruct (build_replicas sid disk (seq 0 n)) as [rs|e]; [|done]. unfold elect_leader.
  pose proof (ensure_typed ({| sh_id := sid; sh_replicas := rs; sh_leader_id := "" |}, w) Hw) as He.
  destruct (ensure_leader_locked _) as [[sh w'] [b|e]]; done.
Qed.

Lemma Cluster_new_typed m n disk : preserves world_typed (Cluster_new (S := S) m n disk).
Proof.
  unfold Cluster_new. destruct (m <? 1)%nat; [keep|]. generalize (seq 0 m) as ids.
  induction ids as [|i ids IH]; cbn [build_shards]; [keep|].
  apply preserves_bind; [apply Shard_new_typed|]. intros sh. by apply preserves_bind; [|keep].
Qed.
End threads.

(** C38: the shared state keeps its types.  On any store, also one whose calls
    fail, and for any number of concurrent requests under any schedule: all
    counters are 64-bit values; every circuit breaker has a threshold of 3, an
    open duration of 5 s and fewer than 3 consecutive failures while it is closed;
    every token bucket has the configured rate and capacity; and every pause fits
    64 bits. *)
Theorem shared_state_is_typed {S : Type} `{Store S} (steady : nat -> Z) (m n : nat)
    (disk : string -> st_file (S := S)) (c : Cluster S) (w : World) (key : string) (rate burst : double)
    (retries : Z) (reqs : list HttpRequest) (schedule : list nat) :
  Cluster_new m n disk world0 = (w, Ok c) ->
  gateway_typed (po_state (pool_after steady c w key rate burst retries reqs schedule)).1.
Proof.
  intros Hc. apply (run_schedule_typed schedule).
  - pose proof (Cluster_new_typed m n disk world0 zero_typed) as Hw. rewrite Hc in Hw.
    split; simpl; [done| |done|constructor]. apply Forall_replicate. by split.
  - simpl. apply Forall_fmap, Forall_forall. intros rq _. apply handle_typed.
Qed.

Lemma shared_state_is_typed_witness :
  gateway_typed (po_state (pool_after Z.of_nat demo_cluster.1 demo_cluster.2 "dev-secret" (double_of_Z 20)
    (double_of_Z 40) 2 demo_threads round_robin)).1.
Proof.
  apply (shared_state_is_typed (S := MemDb) Z.of_nat 2 3 mem_disk demo_cluster.1 demo_cluster.2).
  apply demo_cluster_new.
Defined.
