(* ===== verification/StorageFaults.v ===== *)
(** * Storage that fails

    What the program relies on when calls of SQLite may fail at any time: an
    operation of the store keeps the store usable and returns or throws.  The
    contract [FaultyStore] is weaker than [StoreSpec], and [SqliteStore] fulfils it
    with no assumption on which calls succeed. *)

From S2P Require Import Prelude CppStd Common Sqlite Store SqliteStore SqliteStoreProofs Raft Metrics Shard ShardFacts.

#[local] Open Scope Z_scope.

(** ** Methods that keep a property, return a good value or throw *)

Definition thrown (e : exn) : Prop := match e with UndefinedBehaviour _ => False | _ => True end.

Definition ends {A} (Q : A -> Prop) (r : result A) : Prop :=
  match r with Ok a => Q a | Throw e => thrown e end.

(** Started where [I] holds, [m] ends where [I] holds, with a value that satisfies
    [Q] or an exception; nothing is undefined. *)
Definition guards {S A} (I : S -> Prop) (m : M S A) (Q : A -> Prop) : Prop :=
  forall s, I s -> I (m s).1 /\ ends Q (m s).2.

Definition any {A} (a : A) : Prop := True.

Create HintDb guards discriminated.

Section rules.
Context {S : Type} (I : S -> Prop).

Lemma guards_ret {A} (a : A) (Q : A -> Prop) : Q a -> guards I (mret a) Q.
Proof. by intros HQ s Hs. Qed.
Lemma guards_throw {A} e (Q : A -> Prop) : thrown e -> guards I (throw e) Q.
Proof. by intros He s Hs. Qed.
Lemma guards_lift {A} (r : result A) (Q : A -> Prop) : ends Q r -> guards I (lift r) Q.
Proof. by intros Hr s Hs. Qed.
Lemma guards_gets {A} (f : S -> A) (Q : A -> Prop) : (forall s, I s -> Q (f s)) -> guards I (gets f) Q.
Proof. intros Hf s Hs. split; [done|]. by apply Hf. Qed.
Lemma guards_modify (f : S -> S) : (forall s, I s -> I (f s)) -> guards I (modify f) any.
Proof. intros Hf s Hs. split; [by apply Hf|done]. Qed.
Lemma guards_weaken {A} (m : M S A) (Q Q' : A -> Prop) :
  guards I m Q -> (forall a, Q a -> Q' a) -> guards I m Q'.
Proof.
  intros Hm HQ s Hs. destruct (Hm s Hs) as [H1 H2]. split; [done|].
  destruct (m s).2; [by apply HQ|done].
Qed.
Lemma guards_bind {A B} (m : M S A) (f : A -> M S B) (Q : A -> Prop) (Q' : B -> Prop) :
  guards I m Q -> (forall a, Q a -> guards I (f a) Q') -> guards I (m ≫= f) Q'.
Proof.
  intros Hm Hf s Hs. destruct (Hm s Hs) as [H1 H2]. unfold mbind, M_bind.
  destruct (m s) as [s' [a|e]]; [by apply Hf|done].
Qed.
Lemma guards_when c (m : M S unit) Q : (c = true -> guards I m Q) -> Q tt -> guards I (when c m) Q.
Proof. intros Hm HQ. destruct c; [by apply Hm|by apply guards_ret]. Qed.
Lemma guards_for_each {A} (l : list A) body (P : A -> Prop) :
  Forall P l -> (forall x, P x -> guards I (body x) any) -> guards I (for_each l body) any.
Proof.
  intros Hl Hb. induction Hl as [|x l Hx Hl IH]; simpl; [by apply guards_ret|].
  eapply guards_bind; [by apply Hb|]. by intros _ _.
Qed.
Lemma guards_for_fold {A B} (l : list A) (b : B) body (P : A -> Prop) (Q : B -> Prop) :
  Forall P l -> Q b -> (forall b x, Q b -> P x -> guards I (body b x) Q) -> guards I (for_fold l b body) Q.
Proof.
  intros Hl HQ Hb. revert b HQ. induction Hl as [|x l Hx Hl IH]; intros b HQ; simpl; [by apply guards_ret|].
  eapply guards_bind; [by apply Hb|]. done.
Qed.
Lemma guards_for_range lo hi body :
  (forall i, guards I (body i) any) -> guards I (for_range lo hi body) any.
Proof.
  intros Hb. unfold for_range. generalize (Z.to_nat (hi - lo + 1)) as n. intros n. revert lo.
  induction n as [|n IH]; intros lo; simpl; [by apply guards_ret|].
  eapply guards_bind; [apply Hb|]. intros [] _; [apply IH|by apply guards_ret].
Qed.
(** An element of a range that is not empty. *)
Lemma guards_max_element {A} (less : A -> A -> M S bool) (l : list A) (P : A -> Prop) :
  l <> [] -> Forall P l -> (forall x y, P x -> P y -> guards I (less x y) any) ->
  guards I (max_element less l) P.
Proof.
  intros Hne Hl Hb. destruct l as [|x l]; [done|]. apply Forall_cons in Hl as [Hx Hl]. simpl.
  clear Hne. revert x Hx. induction Hl as [|y l Hy Hl IH]; intros x Hx; simpl; [by apply guards_ret|].
  eapply guards_bind; [by apply Hb|]. intros [] _; by apply IH.
Qed.
(** An exception is caught and handled. *)
Lemma guards_catch {A} (m : M S A) h (Q : A -> Prop) :
  guards I m Q -> (forall e, guards I (h e) Q) -> guards I (catch m h) Q.
Proof.
  intros Hm Hh s Hs. destruct (Hm s Hs) as [H1 H2]. unfold catch.
  destruct (m s) as [s' [a|[w|w|w|w]]]; try done; by apply Hh.
Qed.
End rules.

(** [guarding] walks a method; the calls are closed from the database [guards], and
    what they return is introduced with its property. *)
Ltac guard_step :=
  match goal with
  | |- forall _, _ => intro
  | |- guards _ (match ?x with _ => _ end) _ => destruct x eqn:?
  | |- guards _ (mret _) _ => apply guards_ret; try done
  | |- guards _ (throw _) _ => apply guards_throw; done
  | |- guards _ (modify _) _ => apply guards_modify; done
  | |- guards _ (_ ≫= _) _ =>
      first [ eapply guards_bind; [solve [eauto 4 with guards nocore]|]
            | apply (guards_bind _ _ _ any) ]
  | |- guards _ (when _ _) _ => apply guards_when; [|done]
  | |- guards _ (for_range _ _ _) _ => apply guards_for_range
  | |- guards _ (for_each _ _) _ => eapply guards_for_each; [eassumption|]
  | |- guards _ (for_fold _ _ _) any => eapply guards_for_fold; [eassumption|done|]
  | |- guards _ _ _ => solve [eauto 4 with guards nocore]
  end.
Ltac guarding := repeat guard_step.

(** ** The contract of a store that may fail *)

Definition entry_fits (e : LogEntry) : Prop := fits_int (e_value e).

Class FaultyStore (S : Type) `{Store S} := {
  sound : S -> Prop;
  sound_file : st_file (S := S) -> Prop;
  put_guards k v : fits_int v -> guards sound (st_put k v) any;
  erase_guards k : guards sound (st_erase k) any;
  get_guards k : guards sound (st_get k) any;
  append_log_guards e : entry_fits e -> guards sound (st_append_log e) any;
  truncate_log_from_guards i : guards sound (st_truncate_log_from i) any;
  log_at_guards i : guards sound (st_log_at i) (from_option entry_fits True);
  logs_from_guards i : guards sound (st_logs_from i) (Forall entry_fits);
  last_log_index_guards : guards sound st_last_log_index any;
  last_log_term_guards : guards sound st_last_log_term any;
  set_meta_guards k v : guards sound (st_set_meta k v) any;
  get_meta_guards k : guards sound (st_get_meta k) any;
  clear_all_guards : guards sound st_clear_all any;
  open_guards f : sound_file f -> ends sound (st_open f);
}.

#[export] Hint Resolve put_guards erase_guards get_guards append_log_guards truncate_log_from_guards
  log_at_guards logs_from_guards last_log_index_guards last_log_term_guards set_meta_guards
  get_meta_guards clear_all_guards : guards.

(** ** The SQLite store fulfils it *)

(** Every value in the log fits an [int]. *)
Definition log_fits (t : Tables) : Prop := map_Forall (fun _ r => fits_int (row_value r)) (raft_log t).

Section sqlite.
Context {SQL : Sqlite} {SPEC : SqliteSpec SQL} {MEM : SqliteMemory SQL}.

Definition db_sound (db : sqlite3) : Prop := exists t, db_holds db t /\ log_fits t.

(** A method with an outcome on tables keeps what its effect on the tables keeps. *)
Lemma outcome_guards {A} (m : M sqlite3 A) (p : M Tables A) (Q : A -> Prop) :
  outcome m p -> guards log_fits p Q -> guards db_sound m Q.
Proof.
  intros Ho Hp db (t & Hdb & Ht). destruct (Hp t Ht) as [H1 H2].
  destruct (Ho db t Hdb) as (db' & [(t' & r & -> & E & Hd)|([w ->] & Hd & _)]).
  - rewrite E in H1, H2. split; [by exists t'|done].
  - split; [by exists t|done].
Qed.

Lemma log_fits_append e t :
  entry_fits e -> log_fits t -> log_fits (tbl_append (e_index e) (row_of (clean_entry e)) t).
Proof. intros He Ht. by apply map_Forall_insert_2. Qed.

Lemma log_fits_truncate i t : log_fits t -> log_fits (tbl_truncate i t).
Proof. intros Ht j r [Hr _]%map_lookup_filter_Some. by apply (Ht j). Qed.

Lemma log_rows_fit t : log_fits t -> Forall (fun p => fits_int (row_value p.2)) (log_rows t).
Proof.
  intros Ht. apply Forall_forall. intros [i r] Hin. unfold log_rows in Hin.
  rewrite merge_sort_Permutation in Hin. apply elem_of_map_to_list in Hin. by apply (Ht i).
Qed.

(** Opening a file: an error of SQLite is thrown, and what is opened holds the
    tables of the file. *)
Lemma exec_schemas l db t :
  l ⊆ SQL_schema -> db_state db = (t, None) ->
  exists db' r, for_each l exec db = (db', r) /\ db_state db' = (t, None) /\
    (r = Ok tt /\ db_has db ∪ list_to_set l ⊆ db_has db' \/ exists w, r = Throw (RuntimeError w)).
Proof.
  revert db. induction l as [|sql l IH]; intros db Hl Hs.
  { exists db, (Ok tt). split_and!; [done..|left; set_solver]. }
  assert (Hn : (db_state db).2 = None) by (by rewrite Hs). cbn [for_each].
  destruct (exec_schema db sql ltac:(set_solver) Hn) as (db1 & Hs1 & Hh & Hc). rewrite Hs in Hs1.
  destruct (IH db1 ltac:(set_solver) Hs1) as (db2 & r & E & Hs2 & Hr).
  destruct Hc as [[E1 Hin]|[err E1]].
  - exists db2, r. rewrite (bind_ok _ _ db db1 tt) by (unfold exec; by rewrite E1).
    split_and!; [done..|]. destruct Hr as [[-> Hr]|Hr]; [left|by right]. set_solver.
  - exists db1. eexists. rewrite (bind_throw (exec sql) _ db db1 (RuntimeError (default "sqlite execution failed" err))) by (unfold exec; by rewrite E1).
    split_and!; [done..|]. right. by eexists.
Qed.

Lemma initialize_schemas db : initialize db = for_each SQL_schema exec db.
Proof.
  unfold initialize, SQL_schema. cbn [for_each]. unfold mbind, M_bind.
  repeat case_match; simplify_eq; try done; by repeat match goal with u : unit |- _ => destruct u end.
Qed.

Lemma open_sound f :
  text_ok (file_tables f) -> log_fits (file_tables f) -> ends db_sound (open f).
Proof.
  intros Ht Hl. unfold open. destruct (sqlite3_open_v2 f) as [err|db] eqn:E; [done|].
  apply open_spec in E. rewrite initialize_schemas.
  destruct (exec_schemas SQL_schema db (file_tables f)) as (db' & r & -> & Hs & [[-> Hh]|[w ->]]); [done..| |done].
  exists (file_tables f). split; [split; [|done]|done]. unfold db_ready. etrans; [|exact Hh].
  unfold SQL_schema. set_solver.
Qed.

#[export] Program Instance SqliteFaulty : FaultyStore sqlite3 := {
  sound := db_sound;
  sound_file f := text_ok (file_tables f) /\ log_fits (file_tables f);
}.
Next Obligation.
  intros. eapply outcome_guards; [apply put_outcome|]. simpl. rewrite modify_blob_fits by done.
  by apply guards_modify.
Qed.
Next Obligation. intros. eapply outcome_guards; [apply erase_outcome|]. by apply guards_modify. Qed.
Next Obligation. intros. eapply outcome_guards; [apply get_outcome|]. by apply guards_gets. Qed.
Next Obligation.
  intros e He. eapply outcome_guards; [apply append_log_outcome|]. rewrite append_log_fits by done.
  apply guards_modify. intros t. by apply log_fits_append.
Qed.
Next Obligation.
  intros. eapply outcome_guards; [apply truncate_log_from_outcome|]. apply guards_modify.
  intros t. apply log_fits_truncate.
Qed.
Next Obligation.
  intros i. eapply outcome_guards; [apply log_at_outcome|]. apply guards_gets. intros t Ht.
  unfold tb_log_at. destruct (raft_log t !! i) eqn:E; [|done]. by apply (Ht i).
Qed.
Next Obligation.
  intros i. eapply outcome_guards; [apply logs_from_outcome|]. apply guards_gets. intros t Ht.
  apply Forall_fmap, Forall_forall. intros x [_ Hx]%list_elem_of_filter.
  by apply (proj1 (Forall_forall _ _) (log_rows_fit t Ht)).
Qed.
Next Obligation. eapply outcome_guards; [apply last_log_index_outcome|]. by apply guards_gets. Qed.
Next Obligation. eapply outcome_guards; [apply last_log_term_outcome|]. by apply guards_gets. Qed.
Next Obligation. intros. eapply outcome_guards; [apply set_meta_outcome|]. by apply guards_modify. Qed.
Next Obligation. intros. eapply outcome_guards; [apply get_meta_outcome|]. by apply guards_gets. Qed.
Next Obligation.
  eapply outcome_guards; [apply clear_all_outcome|]. apply guards_modify. intros. apply map_Forall_empty.
Qed.
Next Obligation. intros f [Ht Hl]. by apply open_sound. Qed.
End sqlite.
