(* ===== verification/StorageErrors.v ===== *)
(** * Replicas and shards on a store that fails

    On a store that fulfils [FaultyStore], whatever calls of SQLite fail and in the
    middle of whatever operation: the methods of replicas, shards and cluster end,
    with a result or an exception, no pointer is out of range, and the stores stay
    usable. *)

From S2P Require Import Prelude CppStd Common Sqlite Store Raft Metrics Shard ShardSystem ShardSpec Cluster ClusterSpec StorageFaults.

#[local] Open Scope Z_scope.

Section replicas.
Context {S : Type} `{FaultyStore S}.

Definition replica_sound (r : Replica S) : Prop := sound (r_store r).

Lemma on_store_guards {A} (m : M S A) Q : guards sound m Q -> guards replica_sound (on_store m) Q.
Proof.
  intros Hm r Hr. specialize (Hm (r_store r) Hr). unfold on_store, zoom.
  by destruct (m (r_store r)) as [s a].
Qed.

Lemma volatile_guards : guards replica_sound (volatile (S := S)) any.
Proof. by apply guards_gets. Qed.
Lemma voted_for_guards : guards replica_sound (gets (r_voted_for (S := S))) any.
Proof. by apply guards_gets. Qed.
Lemma stoll_guards v : guards replica_sound (stoll_m (S := S) v) any.
Proof.
  intros r Hr. split; [done|]. simpl. unfold stoll. destruct (strto v) as [[neg z]|]; [|done].
  cbv zeta. by case_match.
Qed.
#[local] Hint Resolve on_store_guards volatile_guards voted_for_guards stoll_guards : guards.

Lemma set_online_guards b : guards replica_sound (set_online (S := S) b) any.
Proof. unfold set_online. guarding. Qed.
Lemma set_role_guards x : guards replica_sound (set_role (S := S) x) any.
Proof. unfold set_role. guarding. Qed.
Lemma r_last_log_index_guards : guards replica_sound (last_log_index (S := S)) any.
Proof. unfold last_log_index. guarding. Qed.
Lemma r_last_log_term_guards : guards replica_sound (last_log_term (S := S)) any.
Proof. unfold last_log_term. guarding. Qed.
Lemma term_at_guards i : guards replica_sound (term_at (S := S) i) any.
Proof. unfold term_at. guarding. Qed.
Lemma persist_state_guards : guards replica_sound (persist_state (S := S)) any.
Proof. unfold persist_state. guarding. Qed.
#[local] Hint Resolve persist_state_guards : guards.

Lemma request_vote_guards t c i l : guards replica_sound (request_vote (S := S) t c i l) any.
Proof. unfold request_vote. cbv zeta. guarding. Qed.

Lemma apply_entry_guards e : entry_fits e -> guards replica_sound (apply_entry (S := S) e) any.
Proof. intros He. unfold apply_entry. guarding. Qed.
#[local] Hint Resolve apply_entry_guards : guards.

Lemma apply_at_guards i : guards replica_sound (apply_at (S := S) i) any.
Proof. unfold apply_at. guarding. Qed.
Lemma apply_present_guards i : guards replica_sound (apply_present (S := S) i) any.
Proof. unfold apply_present. guarding. Qed.
Lemma store_entry_guards e : entry_fits e -> guards replica_sound (store_entry (S := S) e) any.
Proof. intros He. unfold store_entry. guarding. Qed.
#[local] Hint Resolve apply_at_guards apply_present_guards store_entry_guards : guards.

Lemma append_entries_guards t l pi pt es lc :
  Forall entry_fits es -> guards replica_sound (append_entries (S := S) t l pi pt es lc) any.
Proof.
  intros Hes. unfold append_entries. cbv zeta. guarding.
Qed.

Lemma append_local_guards c k v :
  fits_int v -> guards replica_sound (append_local (S := S) c k v) entry_fits.
Proof. intros Hv. unfold append_local. cbv zeta. guarding. Qed.

Lemma commit_to_guards i : guards replica_sound (commit_to (S := S) i) any.
Proof. unfold commit_to. cbv zeta. guarding. Qed.
Lemma discard_guards : guards replica_sound (discard_uncommitted (S := S)) any.
Proof. unfold discard_uncommitted. guarding. Qed.
Lemma r_get_guards k : guards replica_sound (Raft.get (S := S) k) any.
Proof. unfold Raft.get. guarding. Qed.

Lemma export_guards :
  guards replica_sound (export_snapshot (S := S)) (fun sn => Forall entry_fits (snap_log sn)).
Proof. unfold export_snapshot. cbv zeta. guarding. simpl. case_match; [by apply Forall_take|done]. Qed.

Lemma install_guards sn :
  Forall entry_fits (snap_log sn) -> guards replica_sound (install_snapshot (S := S) sn) any.
Proof.
  intros Hsn. unfold install_snapshot. cbv zeta. guarding.
Qed.

Lemma r_status_guards : guards replica_sound (Raft.status_json (S := S)) any.
Proof. unfold Raft.status_json. guarding. Qed.
Lemma load_state_guards : guards replica_sound (load_state (S := S)) any.
Proof. unfold load_state. guarding. Qed.

Lemma RaftReplica_sound id sid file :
  sound_file file -> ends replica_sound (RaftReplica (S := S) id sid file).
Proof.
  intros Hf. apply open_guards in Hf. unfold RaftReplica. destruct (st_open file) as [st|e]; [|done].
  destruct (load_state_guards (fresh_replica id sid st) Hf) as [H1 H2].
  by destruct (load_state _) as [r [[]|e]].
Qed.
End replicas.

#[export] Hint Resolve set_online_guards set_role_guards r_last_log_index_guards r_last_log_term_guards
  term_at_guards request_vote_guards append_entries_guards append_local_guards commit_to_guards
  discard_guards r_get_guards export_guards install_guards r_status_guards volatile_guards : guards.

(** ** Shards *)

(** A status that a shard answers with. *)
Definition shard_status (res : OperationResult) : Prop := res_status res ∈ [200; 201; 404; 503].

Section shards.
Context {S : Type} `{FaultyStore S} (n : nat).

Definition shard_sound (s : Shard S * World) : Prop :=
  length (sh_replicas s.1) = n /\ Forall replica_sound (sh_replicas s.1).

(** A pointer to one of the replicas. *)
Abbreviation valid := (fun i : nat => (i < n)%nat).

Lemma on_replica_guards {A} i (m : M (Replica S) A) Q :
  (i < n)%nat -> guards replica_sound m Q -> guards shard_sound (on_replica i m) Q.
Proof.
  intros Hi Hm [sh w] [Hn Hf]. unfold on_replica. cbn [fst snd] in *.
  destruct (lookup_lt_is_Some_2 (sh_replicas sh) i) as [r Hr]; [lia|]. rewrite Hr.
  destruct (Hm r (Forall_lookup_1 _ _ _ _ Hf Hr)) as [H1 H2]. destruct (m r) as [r' a].
  split; [|done]. split; simpl; [by rewrite length_insert|by apply Forall_insert].
Qed.

Lemma field_guards {A} i (f : Replica unit -> A) :
  (i < n)%nat -> guards shard_sound (field (S := S) i f) any.
Proof. intros Hi. apply on_replica_guards; [done|]. guarding. Qed.

Lemma gets_any {A} (f : Shard S * World -> A) : guards shard_sound (gets f) any.
Proof. by apply guards_gets. Qed.
Lemma set_leader_guards x : guards shard_sound (set_leader_id (S := S) x) any.
Proof. by apply guards_modify. Qed.
Lemma log_guards a b c : guards shard_sound (log_event (S := S) a b c) any.
Proof. by apply guards_modify. Qed.
Lemma s_metric_guards f : guards shard_sound (metric (S := S) f) any.
Proof. by apply guards_modify. Qed.

Lemma list_find_valid (P : Replica S -> Prop) `{forall x, Decision (P x)} (l : list (Replica S)) :
  length l = n -> from_option valid True (fst <$> list_find P l).
Proof.
  intros Hl. destruct (list_find P l) as [[i r]|] eqn:E; [|done]. simpl.
  apply list_find_Some in E as [E _]. rewrite <- Hl. by eapply lookup_lt_Some.
Qed.

Lemma leader_guards : guards shard_sound (current_leader_locked (S := S)) (from_option valid True).
Proof. apply guards_gets. intros s [Hs _]. by apply list_find_valid. Qed.
Lemma find_guards id :
  guards shard_sound (gets (fun s => find_replica (S := S) id s.1)) (from_option valid True).
Proof. apply guards_gets. intros s [Hs _]. by apply list_find_valid. Qed.
Lemma pointers_guards : guards shard_sound (pointers (S := S)) (Forall valid).
Proof.
  apply guards_gets. intros s [Hs _]. apply Forall_forall. intros i Hi%elem_of_seq.
  unfold replica_count in Hi. lia.
Qed.
Lemma online_guards : guards shard_sound (gets (fun s => online_pointers (S := S) s.1)) (Forall valid).
Proof.
  apply guards_gets. intros s [Hs _]. apply Forall_fmap, Forall_forall.
  intros [i r] [_ Hi]%list_elem_of_filter. apply list_elem_of_lookup in Hi as [j Hj].
  rewrite list_lookup_imap in Hj. destruct (sh_replicas s.1 !! j) as [r'|] eqn:E; [|done].
  simplify_eq/=. by eapply lookup_lt_Some.
Qed.
#[local] Hint Resolve on_replica_guards field_guards set_leader_guards log_guards s_metric_guards
  leader_guards find_guards pointers_guards online_guards | 1 : guards.
#[local] Hint Resolve gets_any | 10 : guards.

Lemma less_guards a b :
  (a < n)%nat -> (b < n)%nat -> guards shard_sound (less_up_to_date (S := S) a b) any.
Proof. intros Ha Hb. unfold less_up_to_date. guarding. Qed.
Lemma sync_guards a b :
  (a < n)%nat -> (b < n)%nat -> guards shard_sound (sync_follower_locked (S := S) a b) any.
Proof. intros Ha Hb. unfold sync_follower_locked. guarding. Qed.
#[local] Hint Resolve less_guards sync_guards : guards.

(** The range of the candidates is not empty. *)
Lemma candidate_guards l k :
  (length l <? quorum k)%nat = false -> Forall valid l ->
  guards shard_sound (max_element (less_up_to_date (S := S)) l) valid.
Proof.
  intros Hl Hv. apply guards_max_element; [|done|by intros; apply less_guards].
  intros ->. apply Nat.ltb_ge in Hl. unfold quorum in Hl. simpl in Hl. lia.
Qed.
#[local] Hint Resolve candidate_guards : guards.

Lemma ensure_guards : guards shard_sound (ensure_leader_locked (S := S)) any.
Proof. unfold ensure_leader_locked. guarding. Qed.

Lemma replicate_to_guards l e pi pt acked i :
  (l < n)%nat -> entry_fits e -> Forall valid acked -> (i < n)%nat ->
  guards shard_sound (replicate_to (S := S) l e pi pt acked i) (Forall valid).
Proof.
  intros Hl He Ha Hi. assert (Hes : Forall entry_fits [e]) by (by constructor).
  unfold replicate_to. guarding. apply Forall_app. split; [done|]. by constructor.
Qed.

Lemma replicate_all_guards l e pi pt ptrs :
  (l < n)%nat -> entry_fits e -> Forall valid ptrs ->
  guards shard_sound (for_fold ptrs [] (replicate_to (S := S) l e pi pt)) (Forall valid).
Proof.
  intros Hl He Hp. eapply guards_for_fold; [done|constructor|]. intros. by apply replicate_to_guards.
Qed.
#[local] Hint Resolve ensure_guards replicate_all_guards : guards.

Lemma replicate_guards c k v :
  fits_int v -> guards shard_sound (replicate_command_locked (S := S) c k v) shard_status.
Proof.
  intros Hv. assert (Hnil : Forall entry_fits []) by constructor.
  unfold replicate_command_locked. cbv zeta. guarding; unfold shard_status; simpl; try set_solver.
  case_decide; set_solver.
Qed.

Lemma get_guards_shard k : guards shard_sound (Shard.get (S := S) k) shard_status.
Proof. unfold Shard.get. guarding; unfold shard_status; simpl; set_solver. Qed.
Lemma fail_guards id : guards shard_sound (Shard.fail_replica (S := S) id) any.
Proof. unfold Shard.fail_replica. guarding. Qed.
Lemma recover_guards id : guards shard_sound (Shard.recover_replica (S := S) id) any.
Proof. unfold Shard.recover_replica. guarding. Qed.
Lemma shard_status_guards : guards shard_sound (Shard.status_json (S := S)) any.
Proof. unfold Shard.status_json. guarding. Qed.
End shards.

(** ** The cluster *)

Section cluster.
Context {S : Type} `{FaultyStore S} (m n : nat).

(** [m] shards of [n] replicas, on usable stores. *)
Definition cluster_sound (s : Cluster S * World) : Prop :=
  length s.1 = m /\ Forall (fun sh => shard_sound n (sh, s.2)) s.1.

Lemma on_shard_guards {A} i (f : M (Shard S * World) A) Q :
  (Z.to_nat i < m)%nat -> guards (shard_sound n) f Q -> guards cluster_sound (Cluster.on_shard i f) Q.
Proof.
  intros Hi Hf [c w] [Hm Hc]. unfold Cluster.on_shard. cbn [fst snd] in *.
  destruct (lookup_lt_is_Some_2 c (Z.to_nat i)) as [sh Hsh]; [lia|]. rewrite Hsh.
  destruct (Hf (sh, w) (Forall_lookup_1 _ _ _ _ Hc Hsh)) as [H1 H2]. destruct (f (sh, w)) as [[sh' w'] a].
  split; [|done]. split; simpl; [by rewrite length_insert|by apply Forall_insert].
Qed.

Lemma route_guards {A} key (f : M (Shard S * World) A) Q :
  (1 <= m)%nat -> guards (shard_sound n) f Q -> guards cluster_sound (route key f) Q.
Proof.
  intros Hm Hf. apply (guards_bind _ _ _ (fun i => (Z.to_nat i < m)%nat)).
  - apply guards_gets. intros s [Hs _]. pose proof (shard_for_key_range key s.1) as Hr.
    unfold shard_count in Hr. lia.
  - intros i Hi. by apply on_shard_guards.
Qed.

Lemma if_shard_guards i (f : M (Shard S * World) bool) :
  (1 <= m)%nat -> guards (shard_sound n) f any -> guards cluster_sound (if_shard i f) any.
Proof.
  intros Hm Hf. apply (guards_bind _ _ _ (fun k => k = Z.of_nat m)).
  - apply guards_gets. intros s [Hs _]. unfold shard_count. by rewrite Hs.
  - intros k ->. destruct (i <? Z.of_nat m) eqn:E; [|by apply guards_ret].
    apply on_shard_guards; [lia|done].
Qed.

Lemma cluster_status_guards : guards cluster_sound (Cluster.status_json (S := S)) any.
Proof.
  unfold Cluster.status_json. apply (guards_bind _ _ _ (fun k => k = Z.of_nat m)).
  - apply guards_gets. intros s [Hs _]. unfold shard_count. by rewrite Hs.
  - intros k ->. apply (guards_bind _ _ _ any); [|by intros; apply guards_ret].
    apply (guards_for_fold _ _ _ _ (fun i => (Z.to_nat i < m)%nat)); [|done|].
    + apply Forall_fmap, Forall_forall. intros i Hi%elem_of_seq. simpl. lia.
    + intros parts i _ Hi. eapply guards_bind; [by apply on_shard_guards, shard_status_guards|].
      intros. by apply guards_ret.
Qed.

(** ** Construction *)

Lemma build_replicas_sound sid disk ids :
  (forall f, sound_file (disk f)) ->
  ends (fun rs => length rs = length ids /\ Forall replica_sound rs) (build_replicas (S := S) sid disk ids).
Proof.
  intros Hd. induction ids as [|i ids IH]; [by split|]. cbn [build_replicas].
  pose proof (RaftReplica_sound (S := S) (replica_name sid i) sid _ (Hd (replica_name sid i +:+ ".db"))) as Hr.
  destruct (RaftReplica _ _ _) as [r|e]; [|done].
  destruct (build_replicas sid disk ids) as [rs|e]; [|done]. destruct IH as [Hl Hf].
  split; simpl; [by rewrite Hl|by constructor].
Qed.

Lemma Shard_new_sound sid disk w :
  (forall f, sound_file (disk f)) ->
  ends (fun sh => forall w, shard_sound n (sh, w)) (Shard_new (S := S) sid n disk w).2.
Proof.
  intros Hd. unfold Shard_new. destruct (n <? 1)%nat; [done|].
  pose proof (build_replicas_sound sid disk (seq 0 n) Hd) as Hb.
  destruct (build_replicas _ _ _) as [rs|e]; [|done]. destruct Hb as [Hl Hf]. rewrite length_seq in Hl.
  destruct (ensure_guards n ({| sh_id := sid; sh_replicas := rs; sh_leader_id := "" |}, w)) as [H1 H2]; [by split|].
  unfold elect_leader. destruct (ensure_leader_locked _) as [[sh w'] [b|e]]; [intros w1; exact H1|exact H2].
Qed.

Lemma Cluster_new_sound disk w0 :
  (forall f, sound_file (disk f)) ->
  ends (fun c => forall w, cluster_sound (c, w)) (Cluster_new (S := S) m n disk w0).2.
Proof.
  intros Hd. unfold Cluster_new. destruct (m <? 1)%nat; [done|].
  assert (Hgo : forall ids w, ends (fun c => length c = length ids /\ Forall (fun sh => forall w, shard_sound n (sh, w)) c)
                  (build_shards (S := S) ids n disk w).2).
  { induction ids as [|i ids IH]; intros w; [by split|]. cbn [build_shards].
    pose proof (Shard_new_sound (Z.of_nat i) disk w Hd) as Hs. unfold mbind at 1, M_bind.
    destruct (Shard_new _ n disk w) as [w1 [sh|e]]; [|done]. specialize (IH w1). unfold mbind, M_bind.
    destruct (build_shards ids n disk w1) as [w2 [c|e]]; [|done]. destruct IH as [Hl Hf].
    split; simpl; [by rewrite Hl|by constructor]. }
  specialize (Hgo (seq 0 m) w0). destruct (build_shards _ _ _ _) as [w [c|e]]; [|done]. simpl in *.
  destruct Hgo as [Hl Hf]. rewrite length_seq in Hl. intros w1. split; [done|]. simpl.
  eapply Forall_impl; [exact Hf|]. intros sh Hsh. apply Hsh.
Qed.
End cluster.
