(* ===== verification/StorageContained.v ===== *)
(** * The gateway and the server on a store that fails

    A failure of the store reaches the gateway as an exception, and the server
    answers it; nothing is undefined and no connection is left open. *)

From S2P Require Import Prelude CppStd Common Sqlite Store SqliteStore SqliteStoreProofs Raft Metrics Shard ShardSystem ShardSpec Cluster ClusterSpec Resilience Gateway GatewayProperties HttpServer HttpFacts HttpProofs HttpProperties StorageFaults StorageErrors.

#[local] Open Scope Z_scope.

Section gateway.
Context (steady : nat -> Z) {S : Type} `{FaultyStore S} (m n : nat) (Hm : (1 <= m)%nat).

Record gateway_sound (s : Gateway S * nat) : Prop := {
  gs_cluster : cluster_sound m n (g_cluster s.1, g_world s.1);
  gs_breakers : length (g_breakers s.1) = m;
  gs_retries : 0 <= g_max_retries s.1 <= 64;
}.

Abbreviation valid := (fun i : Z => (Z.to_nat i < m)%nat).

(** A response with one of the nine statuses of the gateway. *)
Definition listed (r : HttpResponse) : Prop := rs_status r ∈ statuses.

Lemma on_cluster_guards {A} (f : M (Cluster S * World) A) Q :
  guards (cluster_sound m n) f Q -> guards gateway_sound (on_cluster f) Q.
Proof.
  intros Hf [g k] [H1 H2 H3]. destruct (Hf _ H1) as [F1 F2]. unfold on_cluster, zoom. cbn [fst snd] in *.
  destruct (f (g_cluster g, g_world g)) as [[c w] a]. by split.
Qed.

Lemma self_any {A} (f : Gateway S -> A) : guards gateway_sound (self f) any.
Proof. by apply guards_gets. Qed.
Lemma shard_guards key : guards gateway_sound (self (fun g => shard_for_key key (g_cluster g))) valid.
Proof.
  apply guards_gets. intros [g k] [[Hc _] _ _]. cbn [fst snd] in *.
  pose proof (shard_for_key_range key (g_cluster g)) as Hr. unfold shard_count in Hr. lia.
Qed.
Lemma retries_guards : guards gateway_sound (self g_max_retries) (fun r => 0 <= r <= 64).
Proof. apply guards_gets. by intros s []. Qed.
Lemma now_guards : guards gateway_sound (now steady) any.
Proof. intros [g k] [H1 H2 H3]. by split. Qed.
Lemma metric_guards f : guards gateway_sound (Gateway.metric f) any.
Proof. intros [g k] [H1 H2 H3]. by split. Qed.

Lemma on_breaker_guards {A} i (f : M (CircuitBreaker * nat) A) :
  (Z.to_nat i < m)%nat -> guards any f any -> guards gateway_sound (on_breaker i f) any.
Proof.
  intros Hi Hf [g k] [H1 H2 H3]. unfold on_breaker. cbn [fst snd] in *.
  destruct (lookup_lt_is_Some_2 (g_breakers g) (Z.to_nat i)) as [b Hb]; [lia|]. rewrite Hb.
  destruct (Hf (b, k) I) as [_ F2]. destruct (f (b, k)) as [[b' k'] a].
  split; [|done]. split; simpl; [done| |done]. by rewrite length_insert.
Qed.

Lemma allow_guards : guards any (allow_request steady) any.
Proof.
  intros [b k] _. split; [done|]. unfold allow_request, now, update, self, mbind, M_bind, gets, modify. simpl.
  destruct (state b); [done|by case_match|done].
Qed.
Lemma success_guards : guards any record_success any.
Proof. done. Qed.
Lemma failure_guards : guards any (record_failure steady) any.
Proof.
  intros [b k] _. split; [done|]. unfold record_failure, now, update, self, mbind, M_bind, gets, modify. simpl.
  by destruct (_ || _).
Qed.

Lemma sleep_guards attempt : attempt < 64 -> guards gateway_sound (sleep_before_retry attempt) any.
Proof.
  intros Ha [g k] [H1 H2 H3]. unfold sleep_before_retry. rewrite (proj2 (Z.ltb_lt _ _)) by done. by split.
Qed.

Lemma rate_limit_guards client : guards gateway_sound (allowed_by_rate_limit steady client) any.
Proof.
  intros [g k] [[H1 H1'] H2 H3]. destruct (rate_limit_run steady client g k) as (g' & k' & b & -> & Hk).
  destruct Hk as (K1 & K2 & K3 & K4). cbn [fst snd] in *. split; [|done].
  split; cbn [fst snd]; [split; cbn [fst snd]; by rewrite K1|by rewrite K2|by rewrite K3].
Qed.

Lemma put_fits body : (1024 * 1024 <? ssize body) = false -> fits_int body.
Proof. intros Hb%Z.ltb_ge. unfold fits_int, int_max. lia. Qed.
Lemma empty_fits : fits_int "".
Proof. done. Qed.

#[local] Hint Resolve on_cluster_guards shard_guards retries_guards now_guards metric_guards on_breaker_guards
  allow_guards success_guards failure_guards rate_limit_guards route_guards replicate_guards get_guards_shard
  if_shard_guards fail_guards recover_guards ensure_guards cluster_status_guards put_fits empty_fits | 1 : guards.
#[local] Hint Resolve self_any | 10 : guards.

Lemma call_guards operation key value :
  fits_int value -> guards gateway_sound (call operation key value) shard_status.
Proof. intros Hv. unfold call, Cluster.get, Cluster.put, Cluster.erase, Shard.put, Shard.erase. guarding. Qed.
#[local] Hint Resolve call_guards : guards.

Lemma attempts_guards k attempt operation key value i res :
  fits_int value -> (Z.to_nat i < m)%nat -> shard_status res \/ (0 < k)%nat ->
  guards gateway_sound (attempts steady k attempt operation key value i res) shard_status.
Proof.
  intros Hv Hi. revert attempt res. induction k as [|k IH]; intros attempt res Hres; cbn [attempts].
  { apply guards_ret. destruct Hres; [done|lia]. }
  eapply guards_bind; [by apply call_guards|]. intros r Hr. destruct (res_status r <? 500); [guarding|].
  guarding; [apply sleep_guards; cbv beta in *; lia|by apply IH; left].
Qed.

Lemma retry_loop_guards retries operation key value i res :
  0 <= retries <= 64 -> fits_int value -> (Z.to_nat i < m)%nat ->
  guards gateway_sound (attempts steady (Z.to_nat (retries + 1)) 0 operation key value i res) shard_status.
Proof. intros. apply attempts_guards; [done..|right; lia]. Qed.
#[local] Hint Resolve retry_loop_guards : guards.

Lemma finish_guards started r :
  listed r -> guards gateway_sound (finish steady started r) listed.
Proof. intros Hr. unfold finish. cbv zeta. guarding. Qed.

Lemma result_listed operation key res :
  shard_status res -> listed (json_response (res_status res) (operation_body operation key res)).
Proof. unfold shard_status, listed, statuses. simpl. set_solver. Qed.

Lemma execute_guards operation key value :
  fits_int value -> guards gateway_sound (execute_with_resilience steady operation key value) listed.
Proof.
  intros Hv. unfold execute_with_resilience. guarding.
  - unfold listed, statuses. simpl. set_solver.
  - by apply result_listed.
Qed.
#[local] Hint Resolve finish_guards execute_guards : guards.

(** A response with a fixed status. *)
Ltac listed := unfold listed, statuses; simpl; set_solver.
Ltac reply := apply finish_guards; listed.

Lemma handle_kv_guards started rq key : guards gateway_sound (handle_kv steady started rq key) listed.
Proof. unfold handle_kv. guarding; reply. Qed.
Lemma stoull_guards s : guards gateway_sound (lift (stoull s)) any.
Proof.
  apply guards_lift. destruct (stoull s) as [z|e] eqn:E; [done|]. by apply stou_throw in E as [-> | ->].
Qed.
#[local] Hint Resolve stoull_guards : guards.

Lemma handle_replica_guards started action shard replica :
  guards gateway_sound (handle_replica steady started action shard replica) listed.
Proof.
  unfold handle_replica, Cluster.fail_replica, Cluster.recover_replica.
  apply guards_catch; [|intros; reply]. guarding; try reply.
Qed.
Lemma handle_elect_guards started shard :
  guards gateway_sound (handle_elect steady started shard) listed.
Proof.
  unfold handle_elect, elect, elect_leader. apply guards_catch; [|intros; reply]. guarding; reply.
Qed.

Lemma status_guards started :
  guards gateway_sound (body ← on_cluster Cluster.status_json;
                        finish steady started (json_response 200 body)) listed.
Proof. guarding; reply. Qed.

Lemma route_request_guards started rq :
  guards gateway_sound (route_request steady started rq) listed.
Proof.
  unfold route_request. cbv zeta.
  destruct (split_path (rq_path rq)) as [|p0 [|p1 [|p2 [|p3 [|]]]]]; repeat case_decide;
    lazymatch goal with
    | |- guards _ (handle_kv _ _ _ _) _ => apply handle_kv_guards
    | |- guards _ (handle_elect _ _ _) _ => apply handle_elect_guards
    | |- guards _ (handle_replica _ _ _ _ _) _ => apply handle_replica_guards
    | |- guards _ (finish _ _ _) _ => reply
    | |- _ => apply status_guards
    end.
Qed.
#[local] Hint Resolve route_request_guards : guards.

Lemma handle_guards rq : guards gateway_sound (handle steady rq) listed.
Proof. unfold handle. guarding; reply. Qed.
End gateway.

(** ** Connections *)

Section connections.
Context (steady : nat -> Z) {S : Type} `{FaultyStore S} (m n : nat) (Hm : (1 <= m)%nat).

Lemma sound_connection g ip s :
  gateway_sound (S := S) m n g ->
  exists s' g', handle_client (handle steady) ip (s, g) = ((s', g'), Ok tt) /\
    gateway_sound m n g' /\ answered (ip, s) s'.
Proof.
  intros Hg. pose proof (fun rq => handle_guards steady m n Hm rq g Hg) as Hh.
  destruct (handle_client_run (handle steady) ip s g) as (s' & g' & r & E & Hr & Ho & rest & sent & Q1 & Q2 & Q3).
  { intros rq w Ew. destruct (Hh rq) as [_ F]. by rewrite Ew in F. }
  exists s', g'. split; [done|].
  assert (Hst : gateway_sound m n g' /\ rs_status (reply_of r) ∈ statuses).
  { inversion Hr as [| | | |rq g1 r1 _ _ Eh]; subst;
      try (split; [done|unfold statuses; simpl; set_solver]).
    destruct (Hh rq) as [F1 F2]. rewrite Eh in F1, F2. split; [done|].
    destruct r as [x|e]; [done|]. unfold statuses. simpl. set_solver. }
  destruct Hst as [H1 H2]. split; [done|]. split; [done|]. by exists (reply_of r), sent, rest.
Qed.

Lemma sound_connections conns g :
  gateway_sound (S := S) m n g ->
  exists socks, serve_connections steady conns g = (socks, Ok tt) /\ Forall2 answered conns socks.
Proof.
  revert g. induction conns as [|[ip s] conns IH]; intros g Hg; cbn [serve_connections]; [by exists []|].
  destruct (sound_connection g ip s Hg) as (s' & g' & -> & Hg' & Ha).
  destruct (IH g' Hg') as (socks & -> & Hs). exists (s' :: socks). split; [done|by constructor].
Qed.
End connections.

(** A directory of files that the store has written: text columns without NUL and
    values whose size is an [int]. *)
Definition written_directory {SQL : Sqlite} {SPEC : SqliteSpec SQL} (disk : string -> sqlite3_file) : Prop :=
  forall f, text_ok (file_tables (disk f)) /\ log_fits (file_tables (disk f)).

(** C39: failures of the storage are contained.  Let SQLite fail to open files, to
    prepare and to step statements and to execute others, in the middle of whatever
    operation, but have the memory to copy parameters and columns ([SqliteMemory]);
    let the data directory hold what earlier runs of the store have written; and
    let there be at most 64 retries.  Then the constructor of the cluster throws an
    exception, which [main] reports, or the server works: whatever the peers of any
    sequence of connections send, no exception escapes the thread of a connection,
    nothing is undefined, and every connection is closed after a response with one
    of the statuses 200, 201, 400, 401, 404, 405, 413, 429 and 503, whole if the
    peer accepted all of it. *)
Theorem storage_failures_are_contained {SQL : Sqlite} {SPEC : SqliteSpec SQL} {MEM : SqliteMemory SQL}
    (steady : nat -> Z) (m n : nat)
    (disk : string -> sqlite3_file) (key : string) (rate burst : double) (retries : Z)
    (conns : list (string * Socket)) :
  (1 <= m)%nat -> written_directory disk -> 0 <= retries <= 64 ->
  match Cluster_new (S := sqlite3) m n disk world0 with
  | (_, Throw e) => thrown e
  | (w, Ok c) =>
      exists socks, serve_connections steady conns (Gateway_new c w key rate burst retries, 0%nat) = (socks, Ok tt) /\
        Forall2 answered conns socks
  end.
Proof.
  intros Hm Hd Hr. pose proof (Cluster_new_sound (S := sqlite3) m n disk world0 Hd) as Hc.
  destruct (Cluster_new _ _ _ _) as [w [c|e]]; [|done]. apply (sound_connections steady m n Hm).
  split; simpl; [apply Hc| |done]. rewrite length_replicate. by destruct (Hc w).
Qed.

(** ** A SQLite that stops working

    The in-memory SQLite with a number of statements it still executes; when none
    is left, everything but [ROLLBACK] fails. *)

Record FlakyDb := { fl_db : MemDb; fl_left : nat }.

Definition flaky_step (db : FlakyDb) (sql : string) (args : list sqlite_value) : FlakyDb * steps :=
  match fl_left db with
  | O => (db, StepError)
  | Datatypes.S k => let '(d, r) := mem_step (fl_db db) sql args in ({| fl_db := d; fl_left := k |}, r)
  end.

Definition flaky_exec (db : FlakyDb) (sql : string) : FlakyDb * option (option string) :=
  match fl_left db with
  | O => if decide (sql = "ROLLBACK;")
         then let '(d, r) := mem_exec (fl_db db) sql in ({| fl_db := d; fl_left := O |}, r)
         else (db, Some (Some "disk I/O error"))
  | Datatypes.S k => let '(d, r) := mem_exec (fl_db db) sql in ({| fl_db := d; fl_left := k |}, r)
  end.

Definition FlakySqlite : Sqlite := {|
  sqlite3 := FlakyDb;
  sqlite3_prepare_v2 _ _ := true;
  sqlite3_bind _ _ := true;
  sqlite3_step := flaky_step;
  sqlite3_column_int64 := sqlite3_column_int64 (Sqlite := MemSqlite);
  sqlite3_column_text := sqlite3_column_text (Sqlite := MemSqlite);
  sqlite3_column_blob := sqlite3_column_blob (Sqlite := MemSqlite);
  sqlite3_column_bytes := sqlite3_column_bytes (Sqlite := MemSqlite);
  sqlite3_exec := flaky_exec;
  sqlite3_errmsg _ := "disk I/O error";
  sqlite3_file := Tables * nat;
  sqlite3_open_v2 f := inr {| fl_db := {| mem_tables := f.1; mem_saved := None; mem_has := ∅ |}; fl_left := f.2 |};
  sqlite3_close db := (from_option id (mem_tables (fl_db db)) (mem_saved (fl_db db)), fl_left db);
|}.

#[program] Definition FlakySpec : SqliteSpec FlakySqlite := {|
  db_state db := db_state (SQL := MemSqlite) (fl_db db);
  db_has db := db_has (SQL := MemSqlite) (fl_db db);
  file_tables f := f.1;
|}.
Next Obligation.
  intros [db k] sql args t t' Hr Hs Hu. simpl in *.
  destruct (@step_update MemSqlite MemSqliteSpec db sql args t t' Hr Hs Hu) as (db' & Hh & Hc).
  destruct k as [|k].
  { exists {| fl_db := db; fl_left := 0 |}. split; [done|]. right. done. }
  exists {| fl_db := db'; fl_left := k |}. split; [done|].
  unfold flaky_step. simpl in *. destruct Hc as [[-> Hst]|[-> Hst]]; [left|right]; done.
Qed.
Next Obligation.
  intros [db k] sql args t rows Hr Hs Hq. simpl in *.
  destruct (@step_select MemSqlite MemSqliteSpec db sql args t rows Hr Hs Hq) as (db' & Hh & Hst & Hc).
  destruct k as [|k].
  { exists {| fl_db := db; fl_left := 0 |}. split; [done|]. split; [done|]. right. by exists 0%nat. }
  exists {| fl_db := db'; fl_left := k |}. split; [done|]. split; [done|].
  unfold flaky_step. simpl in *. destruct Hc as [->|[i ->]]; [by left|right; by exists i].
Qed.
Next Obligation.
  intros [db k] sql st' Hr Ht. simpl in *. unfold flaky_exec, mem_exec. simpl. rewrite Ht. destruct st' as [t s].
  set (db' := {| mem_tables := t; mem_saved := s; mem_has := mem_has db |}).
  destruct k as [|k]; [destruct (decide (sql = "ROLLBACK;")) as [Hsql|Hsql]|].
  - exists {| fl_db := db'; fl_left := 0 |}. split; [done|]. by left.
  - exists {| fl_db := db; fl_left := 0 |}. split; [done|right]. split; [done|]. split; [by eexists|by left].
  - exists {| fl_db := db'; fl_left := k |}. split; [done|]. by left.
Qed.
Next Obligation.
  intros [db k] t Hs. simpl in *.
  destruct (@exec_rollback_idle MemSqlite MemSqliteSpec db t Hs) as (db' & err & E & Hh & Hst).
  unfold flaky_exec. simpl in *. rewrite E. destruct k as [|k]; by eexists _, _.
Qed.
Next Obligation.
  intros [db k] sql Hin Hs. simpl in *.
  destruct k as [|k].
  { exists {| fl_db := db; fl_left := 0 |}. split; [done|]. split; [done|]. right. unfold flaky_exec. simpl. rewrite decide_False; [by eexists|].
    intros ->. by repeat (apply elem_of_cons in Hin as [|Hin]; [done|]); apply elem_of_nil in Hin. }
  destruct (@exec_schema MemSqlite MemSqliteSpec db sql Hin Hs) as (db' & Hst & Hh & Hc).
  exists {| fl_db := db'; fl_left := k |}. split; [done|]. split; [done|]. unfold flaky_exec. simpl in *.
  destruct Hc as [[-> Hi]|[err ->]]; [by left|right; by exists err].
Qed.
Next Obligation. intros row i z Hz. by apply (@column_int64_spec MemSqlite MemSqliteSpec). Qed.
Next Obligation. by intros f db [= <-]. Qed.
Next Obligation. done. Qed.

Lemma FlakyMemory : SqliteMemory FlakySqlite.
Proof. split; [done|apply (memory_text (SQL := MemSqlite))|apply (memory_blob (SQL := MemSqlite))]. Qed.

#[local] Instance FlakyStore : Store FlakyDb := SqliteStore (SQL := FlakySqlite).

(** Databases that are empty and stop working after [k] statements. *)
Definition flaky_disk (k : nat) : string -> st_file (S := FlakyDb) := fun _ => (empty_tables, k).

Definition demo_put_text : string :=
  request_text "PUT" "/v1/kv/a" "HTTP/1.1" [("Content-Length", " 1"); ("Authorization", " Bearer dev-secret")] "1".

Lemma storage_failures_are_contained_witness :
  match Cluster_new (S := FlakyDb) 1 1 (flaky_disk 26) world0 with
  | (_, Throw e) => thrown e
  | (w, Ok c) =>
      exists socks, serve_connections Z.of_nat [("127.0.0.1", demo_socket [demo_put_text])]
          (Gateway_new c w "dev-secret" (double_of_Z 20) (double_of_Z 40) 2, 0%nat) = (socks, Ok tt) /\
        Forall2 answered [("127.0.0.1", demo_socket [demo_put_text])] socks
  end.
Proof.
  apply (@storage_failures_are_contained FlakySqlite FlakySpec FlakyMemory Z.of_nat 1 1 (flaky_disk 26) "dev-secret"
    (double_of_Z 20) (double_of_Z 40) 2 [("127.0.0.1", demo_socket [demo_put_text])]); [lia| |lia].
  intros f. split; [apply text_ok_empty|apply map_Forall_empty].
Defined.

(** What the client sees of such a failure: the first line of the response to a
    PUT, the failures counted by the breakers, and the value that the replicas
    hold for the key. *)
Definition put_on_failing_store (k : nat) : option (string * list Z * list (list (option string))) :=
  match Cluster_new (S := FlakyDb) 1 1 (flaky_disk k) world0 with
  | (_, Throw _) => None
  | (w, Ok c) =>
      match handle_client (handle Z.of_nat) "127.0.0.1" (demo_socket [demo_put_text],
              (Gateway_new c w "dev-secret" (double_of_Z 20) (double_of_Z 40) 2, 0%nat)) with
      | ((s, (g, _)), Ok _) =>
          Some (copy_bytes 24 (so_sent s), consecutive_failures <$> g_breakers g,
                (fun sh => (fun r => kv (mem_tables (fl_db (r_store r))) !! "a") <$> sh_replicas sh) <$> g_cluster g)
      | _ => None
      end
  end.

(** When the database stops working after the value is stored and before the
    indices are, the exception passes the retries and the breaker, which counts
    no failure, and the client is told that its request was bad. *)
Lemma failed_put_is_stored :
  put_on_failing_store 26 = Some ("HTTP/1.1 400 Bad Request", [0], [[Some "1"]]).
Proof. vm_compute. reflexivity. Qed.
